(* ===== verification/_CoqProject ===== *)
-Q . S2P
Prelude.v
GoStd.v
Url.v
Base64.v
Json.v
JsonDecode.v
Values.v
Jwt.v
JsonValue.v
Config.v
Http.v
Auth.v
Handshake.v
DockerClient.v
Wire.v
HttpCodec.v
Backend.v
Bufio.v
LogWrapper.v
PipeStream.v
Logs.v
SocketPump.v
Exec.v
EventRouter.v
SendToRancher.v
EventsProcessor.v
EventSystem.v
Proxy.v
ProxyRelay.v
Haproxy.v
StatsJson.v
StatsData.v
Stats.v
Main.v
Agent.v
System.v
AgentSystem.v
StatsSession.v
Serving.v
Session.v
TestUtils.v
