(* ===== verification/Prelude.v ===== *)
(** * host-api: a verification library of the Rancher host agent

    host-api is the agent on a Rancher host: it connects to a proxy of the
    Rancher server, which sends it the sessions of remote clients (logs,
    statistics, exec, console, docker socket, HTTP of a container), and reports
    the events of the docker daemon to the server.

    ** The program and the files

    [main.go] reads the configuration, starts the processing of docker events,
    asks the server for a connection token, and hands a table of handlers by
    path to the proxy's backend loop.  For every session that loop calls the
    [Handle] of the handler whose key the path falls under, with the session's
    key, the url of the session as initial message, a channel of incoming
    messages and the channel of responses.

    - Prelude: bytes, the outcome of an operation that may panic ([outcome]),
      the executions of a labelled machine ([mstar], [reachable]) with
      rule induction for invariants, lemmas on lists.
    - GoStd, Url, Base64, Bufio: what the sources use of Go's standard library,
      as executable functions: searching, splitting, [strconv], [net/url],
      base64, and [bufio.Scanner], of which [scan_reference] proves that the
      tokens do not depend on the sizes of the reads.
    - Json, JsonDecode: [encoding/json]: the texts with a parser and a printer
      that are each other's inverse, and the decoding of a text into the fields
      of a structure.  HttpCodec, StatsJson, JsonValue use them for the
      messages of the container proxy, docker's samples, and claims.
    - Values: values of type [interface{}] and their type assertions.
    - Config: [config/config.go], [util/util.go].  Http: [app/common].
    - Jwt: the vendored jwt-go, whose [Parse] is an instance of the class [JWT].
    - Auth: [auth/auth.go], [auth/context.go], over any parser with the class
      [JWT], and then with jwt-go's.
    - Handshake: the opening every websocket handler shares, over the class
      [URLParser], whose instance [go_url] in Session is [Url]'s parser.
    - DockerClient: [events/client.go], [events/common.go], and the operations
      of the docker client the handlers call, as a record of functions.
    - Wire: the messages between proxy and handlers, and the contract of a
      handler ([Handler_spec]): what it sends carries its key, and it closes
      its session at most once.
    - Backend: the vendored loop of websocket-proxy/backend between the proxy
      and the handlers, with the capacities of its channels.
    - LogWrapper, Logs: [logs/log_wrapper.go], [logs/logs.go].
    - PipeStream: the machine the logs and the statistics handlers share: a
      producer, an [io.Pipe], a scanner.
    - SocketPump: [dockersocketproxy/proxy.go] and [console/console.go].
    - Exec: [exec/exec.go].
    - EventRouter, SendToRancher, EventsProcessor: [events/event_router.go],
      [events/send_to_rancher_handler.go], [events/entry.go].  EventSystem: the
      router with a call of the handler in each worker, the calls interleaved.
    - Proxy: [proxy/proxy.go], [proxy/io.go], as functions of the whole input;
      ProxyRelay: the same handler as a machine of its goroutines, which
      refines those functions.
    - Haproxy: [pkg/haproxy/haproxy.go].
    - StatsJson, StatsData, Stats: the package [stats]: its JSON, the samples
      and their aggregation, the three handlers.
    - Main: [main.go].  Agent: the start over the configuration, the event
      processor and the docker client that it makes itself.
    - System: the loop of Backend composed with the machines of handlers, which
      are the class [Handlers] with its laws.  AgentSystem: its instance with
      all the handlers of [main.go]'s table, and the sessions end to end.
      StatsSession: the loops of the statistics handlers in it.  Serving: that
      the sessions are served, over a notion of a handler that can take what
      waits for it.
    - Session: a signed url, from the token's signature to the handler it starts.
    - TestUtils: [testutils/utils.go], and that the token it makes is accepted.

    ** How code is modelled

    A function of the source is a function of the same name.  A call that can
    panic returns an [outcome]; an [error] is a value of the type [error] of
    Prelude.  Mutable objects that are shared are modelled as such: the slices of
    LogWrapper live in a heap and have a capacity, the request contexts of Auth
    are one store.  Goroutines are machines: a state record, labels for the
    steps of each goroutine and of the environment, and an executable step
    function; a theorem on a machine holds for every interleaving.  A channel
    read by one goroutine is what has been posted to it; a read of a socket is
    a label that carries the bytes and the error, so every behaviour of the
    network is covered.  Integers are [Z] where Go's operations cannot
    overflow, and wrap where they can (the [uint64] counters of StatsData).

    ** What is proved

    - Whole sessions: [Session.signed_session_starts]: a url with a signed token
      starts the handler of its path with the claims that were signed;
      [System.system_isolates], [System.system_flushes]: with the loop and all
      handlers interleaved, a session gets its own bodies and the proxy its
      messages, all of them; [AgentSystem.socket_session], [exec_session],
      [logs_session], [StatsSession.stats_session]: what the user of a session
      sees, from frame to frame; [Serving.agent_serves]: what the proxy sends
      reaches the sockets and processes, while the handlers can take it;
      [AgentSystem.agent_halts_only]: what can bring the process down.
    - Authentication: [Auth.only_signed_accepted], [Auth.signed_accepted]: the
      tokens that are accepted, down to the signature; [Auth.interceptor_gate],
      [Stats.stats_gates], [Logs.Handle_setup_correct],
      [Exec.exec_setup_correct], [SocketPump.socket_handlers_gated]: which
      requests each handler serves, with which options, and when it panics.
    - Routing: [Backend.backend_routes], [Main.routing_deterministic] (and
      [Backend.backend_drains]): every session gets its own messages, all of
      them and in order, and the handler its path names.
    - Handlers: [Logs.logs_safe], [SocketPump.pump_relays],
      [Exec.exec_relays]: nothing is altered, reordered or duplicated, in any
      interleaving; [Logs.logs_delivered], [Stats.stats_delivered],
      [Exec.exec_output_delivered], [SocketPump.pump_terminates]: runs that
      deliver everything or end; [ProxyRelay.relay_refines_Handle],
      [ProxyRelay.hijack_ends_with_session]: the container proxy's goroutines
      do what the sequential [Proxy.Handle] says, and a hijacked session lasts
      until its channel is closed, and then ends.
    - Codecs: [Logs.customSplit_scan] and [LogWrapper.wrapMessage_correct] (the
      framing of logs), [Proxy.http_forwarded], [Proxy.Copy_correct],
      [Haproxy.Stats_roundtrip], [Exec.convert_exec_claims].
    - Events: [EventSystem.events_reported], [EventSystem.events_settle]: from
      the event docker sent to the report at the server: what holds of every
      state, and what every run comes to when docker sends no more (beside them,
      [EventSystem.events_reach_server]: a run in which nothing is dropped);
      under them [EventRouter.router_safe],
      [SendToRancher.senders_exclude], [SendToRancher.Handle_reports].
    - Statistics: [StatsData.convertDockerStats_correct],
      [StatsData.sample_bounds] (the 64-bit figures), [Stats.stats_panics_only]:
      the nil pointers that make a handler panic.
    - Configuration and start: [Config.Parse_typed] (types, ranges and
      precedence of the flags), [Agent.agent_starts] (which starts connect, over
      every interleaving of [Process] with the router it feeds, and which block
      or panic), [Main.getConnectionToken_correct].
    - Faults, each proved of the model: [Backend.stuck_session_stalls] and,
      beside the properties, [Logs.overlong_piece_stalls],
      [EventRouter.router_spins], [LogWrapper.concurrent_wrap_race],
      [Exec.exec_leak], [Haproxy.Stats_panics],
      [Stats.empty_selection_never_ends], [Auth.rejected_request_leaks] and
      [Proxy.hijack_initial_content].

    ** Bounds and fuel

    - A scanner refuses a token of [MaxScanTokenSize] = 65536 bytes or more; the
      sizes of its reads are arbitrary but never exceed the free space
      ([reads_fit]).  Draining the buffer uses the buffer's length plus one
      as fuel: a split that yields a token consumes a byte.  [sep_reference]
      is fuelled by the length of the stream for the same reason.
    - [Copy] of Proxy is fuelled by [copy_fuel], a bound on the reads the
      remaining messages can give, with a buffer of [copy_buffer] = 32768
      bytes; [Copy_correct] shows that the copy ends within it.
    - [attempts] of Main recurs on the tries left, at most
      [maxWaitOnHostTries] = 20.
    - The parser of Json is fuelled by twice the length of the text and two;
      [parse_fuel] shows that more fuel never changes its answer.
    - [make] panics for a slice beyond the allocation limit, the argument
      [max_alloc] of the class [Alloc].
    - The loops of the statistics handlers run for a number of turns that is
      an argument of the theorems; the machines run for any number of steps.

    ** What is not modelled

    Cryptography and PEM, how [net/http] writes a request and reads an answer,
    [time] as text ([Times]) and [strconv]'s floats ([Floats]), the docker
    client, gopsutil, netlink and the websocket itself are code outside [src] or
    of the standard library's services: they are variables of sections and
    classes, labels of the machines, or arguments, whose laws, where there are
    any, are their documented behaviour, each with a concrete instance in the
    witnesses.  Of the vendored code only what the agent itself runs through is
    modelled: jwt-go, the messages and the loop of websocket-proxy, the locks of
    event-subscriber; the pings of the websocket are left out.  Logging is
    modelled where a function is about it (Http) and dropped elsewhere.

    In System a handler may run ahead of the channel of responses, which only
    delays it: the machines have more behaviours than the program, never fewer.
    A write to a socket is one step with the receive of what is written
    (SocketPump) or with the turn of the copy it belongs to (ProxyRelay), made
    when the peer has taken or refused the bytes: a goroutine held in a write is
    the goroutine before that step.  The deferred [SignalHandlerClosed] of a
    handler that panics is not shown, since the panic ends the process.

    ** What is left to do

    [agent_serves] lets nothing wait for a container proxy before it copies, or
    for a plain request: what it takes then is for [net/http]'s transport to ask.
    The events, the start of the agent and the end of a hijacked session are
    followed over every schedule; the liveness of the other sessions is stated as
    the existence of a run of the agent's own steps, not for every fair
    schedule. *)

From Stdlib Require Import ZArith Lia.
From Stdlib.Strings Require Import Byte.
From stdpp Require Export base tactics option list strings gmap fin_maps.
From stdpp Require Import list_numbers.

Declare Scope hostapi_scope.
Delimit Scope hostapi_scope with hostapi.

(** ** Bytes

    A Go [[]byte] is a list of bytes, a Go [string] a Rocq [string]; both are
    sequences of bytes and the two conversions of Go are these two functions. *)

Abbreviation byte := Byte.byte.
Abbreviation ascii := Ascii.ascii.
Abbreviation bytes := (list Byte.byte).

#[export] Instance byte_eq_decision : EqDecision byte := Byte.byte_eq_dec.

Definition bytes_of (s : string) : bytes := String.list_byte_of_string s.
Definition string_of (b : bytes) : string := String.string_of_list_byte b.

Lemma string_of_bytes_of s : string_of (bytes_of s) = s.
Proof. apply String.string_of_list_byte_of_string. Qed.

Lemma bytes_of_string_of b : bytes_of (string_of b) = b.
Proof. apply String.list_byte_of_string_of_list_byte. Qed.

Lemma bytes_of_inj s t : bytes_of s = bytes_of t → s = t.
Proof. intros H. by rewrite <- (string_of_bytes_of s), H, string_of_bytes_of. Qed.

Lemma string_of_inj a b : string_of a = string_of b → a = b.
Proof. intros H. by rewrite <- (bytes_of_string_of a), H, bytes_of_string_of. Qed.

Lemma bytes_of_cons c s : bytes_of (String c s) = Ascii.byte_of_ascii c :: bytes_of s.
Proof. reflexivity. Qed.

Lemma bytes_of_app s t : bytes_of (s +:+ t) = bytes_of s ++ bytes_of t.
Proof.
  induction s as [|c s IH]; [done|].
  change (String c s +:+ t) with (String c (s +:+ t)).
  by rewrite !bytes_of_cons, IH.
Qed.

Lemma length_bytes_of s : length (bytes_of s) = String.length s.
Proof. induction s as [|c s IH]; [done|]. rewrite bytes_of_cons. simpl. by rewrite IH. Qed.

(** ** Machine integers

    Conversions between Go's 64-bit types keep the low 64 bits. *)

Definition uint64 (z : Z) : Z := z mod 2 ^ 64.
Definition int64 (z : Z) : Z := (z + 2 ^ 63) mod 2 ^ 64 - 2 ^ 63.

Definition is_uint64 (z : Z) : Prop := (0 ≤ z < 2 ^ 64)%Z.
Definition is_int64 (z : Z) : Prop := (- 2 ^ 63 ≤ z < 2 ^ 63)%Z.

Lemma uint64_range z : is_uint64 (uint64 z).
Proof. unfold is_uint64, uint64. apply Z.mod_pos_bound. lia. Qed.

Lemma uint64_id z : is_uint64 z → uint64 z = z.
Proof. apply Z.mod_small. Qed.

Lemma int64_range z : is_int64 (int64 z).
Proof.
  unfold is_int64, int64. pose proof (Z.mod_pos_bound (z + 2 ^ 63) (2 ^ 64)). lia.
Qed.

Lemma int64_id z : is_int64 z → int64 z = z.
Proof. unfold is_int64, int64. intros H. rewrite Z.mod_small; lia. Qed.

Lemma int64_uint64 z : is_int64 z → int64 (uint64 z) = z.
Proof.
  intros H. rewrite <- (int64_id z H) at 2. unfold int64, uint64.
  by rewrite Zplus_mod_idemp_l.
Qed.

Lemma uint64_add_l a b : uint64 (uint64 a + b) = uint64 (a + b).
Proof. apply Zplus_mod_idemp_l. Qed.

Create HintDb hostapi discriminated.
Create Rewrite HintDb hostapi.
#[export] Hint Resolve uint64_range int64_range : hostapi.
#[export] Hint Rewrite bytes_of_string_of string_of_bytes_of bytes_of_app : hostapi.

(** ** Lists *)

Lemma Forall2_impl_in {A B} (P Q : A → B → Prop) l k :
  Forall2 P l k → (∀ x y, x ∈ l → P x y → Q x y) → Forall2 Q l k.
Proof.
  induction 1 as [|x y l k Hxy Hlk IH]; intros H; constructor.
  - apply H; [constructor|done].
  - apply IH. intros x' y' Hin. apply H. by constructor.
Qed.

(** ** Errors

    The values of Go's [error] interface the program makes or inspects.  Errors
    of code outside the repository that the program only passes on or logs
    are [OtherError]. *)

Inductive error :=
| EOF
| ErrClosedPipe
| ErrTooLong
| ErrShortWrite
| ErrSyntax (input : string)
| CorruptInput
| NoSuchContainer (ID : string)
| ApiError (StatusCode : Z) (Body : string)
| OtherError (msg : string).

#[export] Instance error_eq_decision : EqDecision error.
Proof. solve_decision. Defined.

Inductive result (A : Type) : Type :=
| Ok (a : A)
| Err (e : error).
Arguments Ok {A} a.
Arguments Err {A} e.

#[export] Instance result_ret : MRet result := @Ok.
#[export] Instance result_bind : MBind result :=
  λ A B f r, match r with Ok a => f a | Err e => Err e end.
#[export] Instance result_fmap : FMap result :=
  λ A B f r, match r with Ok a => Ok (f a) | Err e => Err e end.

Lemma result_bind_ok {A B} (f : A → result B) r b :
  r ≫= f = Ok b ↔ ∃ a, r = Ok a ∧ f a = Ok b.
Proof. destruct r; naive_solver. Qed.

(** ** Run-time panics

    Go code that indexes, dereferences or asserts a type may panic instead of
    returning; an [outcome] is a value or the panic that ends the goroutine
    (and, as nothing recovers, the process). *)

Inductive panic :=
| NilDereference
| IndexOutOfRange
| TypeAssertion
| NegativeMakeSize
| MakeSizeOutOfRange
| NilMapWrite
| SendOnClosed
| CloseOfClosed.

Inductive outcome (A : Type) : Type :=
| Val (a : A)
| Panics (p : panic).
Arguments Val {A} a.
Arguments Panics {A} p.

#[export] Instance outcome_ret : MRet outcome := @Val.
#[export] Instance outcome_bind : MBind outcome :=
  λ A B f r, match r with Val a => f a | Panics p => Panics p end.
#[export] Instance outcome_fmap : FMap outcome :=
  λ A B f r, match r with Val a => Val (f a) | Panics p => Panics p end.

Lemma outcome_bind_val {A B} (f : A → outcome B) r b :
  r ≫= f = Val b ↔ ∃ a, r = Val a ∧ f a = Val b.
Proof. destruct r; naive_solver. Qed.

Definition is_val {A} (r : outcome A) : Prop := ∃ a, r = Val a.

(** The greatest number of bytes a slice may have: [make] panics for more.  It
    depends on the platform and on the version of the runtime. *)
Class Alloc := max_alloc : Z.

#[export] Instance is_val_decision {A} (r : outcome A) : Decision (is_val r).
Proof. destruct r; [left; eexists; done | right; by intros [??]]. Defined.

(** Indexing of a slice. *)
Definition index {A} (l : list A) (i : nat) : outcome A :=
  match l !! i with Some a => Val a | None => Panics IndexOutOfRange end.

Lemma index_val {A} (l : list A) i a : index l i = Val a ↔ l !! i = Some a.
Proof. unfold index. destruct (l !! i); naive_solver. Qed.

Lemma index_panics {A} (l : list A) i : index l i = Panics IndexOutOfRange ↔ length l ≤ i.
Proof.
  unfold index. rewrite <- lookup_ge_None. destruct (l !! i); naive_solver.
Qed.

(** ** Machines

    A concurrent component is a machine: an executable step function over
    labels, the label naming the goroutine (or the environment action) that
    moves.  A run is a schedule of labels; reachability and invariants are
    those of the step relation the function defines. *)

Class Machine (S L : Type) := mstep : L → S → option S.

Section machine.
Context {S L : Type} `{!Machine S L}.

Inductive mstar : S → list L → S → Prop :=
| mstar_nil s : mstar s [] s
| mstar_cons s l s' ls s'' :
    mstep l s = Some s' → mstar s' ls s'' → mstar s (l :: ls) s''.

Fixpoint mrun (ls : list L) (s : S) : option S :=
  match ls with
  | [] => Some s
  | l :: ls => s' ← mstep l s; mrun ls s'
  end.

Definition reachable (s0 s : S) : Prop := ∃ ls, mstar s0 ls s.

Lemma mrun_mstar ls s s' : mrun ls s = Some s' ↔ mstar s ls s'.
Proof.
  split.
  - revert s. induction ls as [|l ls IH]; intros s H; simplify_option_eq;
      econstructor; eauto.
  - induction 1 as [|s l s1 ls s2 H _ IH]; simpl; [done|]. by rewrite H.
Qed.

Lemma mstar_app s ls s' ls' s'' :
  mstar s ls s' → mstar s' ls' s'' → mstar s (ls ++ ls') s''.
Proof. induction 1; simpl; [done|]. econstructor; eauto. Qed.

Lemma mstar_one l s s' : mstep l s = Some s' → mstar s [l] s'.
Proof. econstructor; [done|constructor]. Qed.

Lemma reachable_refl s : reachable s s.
Proof. exists []. constructor. Qed.

Lemma reachable_trans s s' s'' : reachable s s' → reachable s' s'' → reachable s s''.
Proof. intros [ls H] [ls' H']. exists (ls ++ ls'). by eapply mstar_app. Qed.

Lemma reachable_step s l s' s'' : mstep l s = Some s' → reachable s' s'' → reachable s s''.
Proof. intros H [ls H']. exists (l :: ls). by econstructor. Qed.

(** Invariants, by induction on the run. *)
Lemma mstar_invariant (I : S → Prop) s ls s' :
  (∀ l s s', I s → mstep l s = Some s' → I s') →
  mstar s ls s' → I s → I s'.
Proof. intros Hstep. induction 1; eauto. Qed.

Lemma reachable_invariant (I : S → Prop) s s' :
  (∀ l s s', I s → mstep l s = Some s' → I s') →
  reachable s s' → I s → I s'.
Proof. intros Hstep [ls H]. by apply mstar_invariant with ls. Qed.

(** A state from which the machine can be driven to a goal, by labels of a
    given kind, when some step decreases a measure until the goal holds. *)
Lemma drive (P : L → Prop) (I goal : S → Prop) (m : S → nat) :
  (∀ s, I s → goal s ∨ ∃ l s', P l ∧ mstep l s = Some s' ∧ I s' ∧ m s' < m s) →
  ∀ s, I s → ∃ ls s', Forall P ls ∧ mstar s ls s' ∧ I s' ∧ goal s'.
Proof.
  intros Hprog s. remember (m s) as n eqn:Hn. revert s Hn.
  induction (lt_wf n) as [n _ IH]. intros s -> HI.
  destruct (Hprog s HI) as [Hg|(l & s' & HP & Hstep & HI' & Hlt)].
  - exists [], s. split_and!; [constructor|constructor|done|done].
  - destruct (IH _ Hlt s' eq_refl HI') as (ls & s'' & HPs & Hr & HI'' & Hg).
    exists (l :: ls), s''. split_and!; [by constructor|by econstructor|done|done].
Qed.

(** Every run of steps of a given kind is bounded by a measure they decrease. *)
Lemma mstar_decreases (P : L → Prop) (I : S → Prop) (m : S → nat) s ls s' :
  (∀ l s s', P l → I s → mstep l s = Some s' → I s' ∧ m s' < m s) →
  mstar s ls s' → Forall P ls → I s → I s' ∧ length ls + m s' ≤ m s.
Proof.
  intros Hstep. induction 1 as [s|s l s1 ls s2 Hs _ IH]; intros HP HI; [by split|].
  apply Forall_cons in HP as [Hl HP]. destruct (Hstep l s s1 Hl HI Hs) as [HI1 Hlt].
  destruct (IH HP HI1) as [HI2 Hle]. split; [done|]. simpl. lia.
Qed.
End machine.

#[export] Hint Resolve mstar_nil mstar_one reachable_refl : hostapi.
#[export] Hint Constructors mstar : hostapi.

(** ** Tactics *)

(** Case analysis on every match of a hypothesis [H : t = Some _]. *)
Ltac step_cases H :=
  repeat (case_match; simplify_eq/=; try discriminate H);
  simplify_option_eq.

(** Splits every [match]/[if] of the hypotheses and closes absurd cases. *)
Ltac inv_step :=
  repeat match goal with
  | H : Some _ = Some _ |- _ => injection H as H; subst
  | H : None = Some _ |- _ => discriminate H
  | H : context [match ?x with _ => _ end] |- _ => destruct x eqn:?; simplify_eq/=
  end.
