(* ===== verification/GoStd.v ===== *)
(** * The parts of Go's standard library the agent computes with

    [bytes.Index]; [strings.HasPrefix], [TrimPrefix], [TrimSuffix], [Split],
    [LastIndex], [EqualFold], [TrimSpace]; [strconv.Atoi] and [Itoa];
    [path.Join]; [copy].  Each is an executable function with the lemmas the
    components need.  Nothing here models a line of the repository: these are
    the library functions its code calls. *)

From Stdlib Require Import ZArith Lia.
From Stdlib Require Import DecimalString DecimalZ Decimal DecimalFacts.
From Stdlib Require Import Ascii.
From Stdlib Require DecimalString DecimalZ.
From Stdlib.Strings Require Import Byte.
From S2P Require Import Prelude.

(** ** [bytes.Index] on lists *)

Section find_index.
Context {A : Type} `{!EqDecision A}.
Implicit Types l p sep : list A.

Fixpoint prefixb p l : bool :=
  match p, l with
  | [], _ => true
  | x :: p, y :: l => bool_decide (x = y) && prefixb p l
  | _ :: _, [] => false
  end.

Lemma prefixb_spec p l : prefixb p l = true ↔ p `prefix_of` l.
Proof.
  revert l. induction p as [|x p IH]; intros l; simpl.
  - split; [intros _; apply prefix_nil | done].
  - destruct l as [|y l]; [split; [done|by intros ?%prefix_nil_not]|].
    rewrite andb_true_iff, bool_decide_eq_true, IH. split.
    + intros [-> ?]. by apply prefix_cons.
    + intros H. split; [by eapply prefix_cons_inv_1|by eapply prefix_cons_inv_2].
Qed.

Lemma prefixb_app p r : prefixb p (p ++ r) = true.
Proof. apply prefixb_spec. by exists r. Qed.

(** The position of the first occurrence, as [bytes.Index] returns it
    ([None] for Go's -1). *)
Fixpoint find_index sep l : option nat :=
  if prefixb sep l then Some 0
  else match l with [] => None | _ :: l => S <$> find_index sep l end.

Definition occurs_at sep l (i : nat) : Prop := sep `prefix_of` drop i l.

Lemma find_index_Some sep l i :
  find_index sep l = Some i ↔
  i ≤ length l ∧ occurs_at sep l i ∧ ∀ j, j < i → ¬ occurs_at sep l j.
Proof.
  unfold occurs_at. revert i. induction l as [|x l IH]; intros i; simpl.
  - destruct (prefixb sep []) eqn:Hp.
    + apply prefixb_spec in Hp. split.
      * intros [= <-]. split_and!; [lia|done|lia].
      * intros (?&_&_). f_equal. lia.
    + split; [done|]. intros (_&H&_). rewrite drop_nil in H.
      apply prefixb_spec in H. congruence.
  - destruct (prefixb sep (x :: l)) eqn:Hp.
    + apply prefixb_spec in Hp. split.
      * intros [= <-]. split_and!; [lia|done|lia].
      * intros (_&_&H). destruct i as [|i]; [done|].
        destruct (H 0); [lia|done].
    + assert (¬ sep `prefix_of` x :: l) as Hn
        by (rewrite <- prefixb_spec; congruence).
      destruct i as [|i].
      * split; [destruct (find_index sep l); naive_solver|]. by intros (_&H&_).
      * transitivity (find_index sep l = Some i); [destruct (find_index sep l); naive_solver|].
        rewrite IH. split.
        -- intros (?&?&H). split_and!; [lia|done|]. intros [|j] Hj; [done|]. apply H. lia.
        -- intros (?&?&H). split_and!; [lia|done|]. intros j Hj. apply (H (S j)). lia.
Qed.

Lemma find_index_None sep l :
  find_index sep l = None ↔ ∀ j, ¬ occurs_at sep l j.
Proof.
  unfold occurs_at. induction l as [|x l IH]; simpl.
  - destruct (prefixb sep []) eqn:Hp.
    + apply prefixb_spec in Hp. split; [done|]. intros H. by destruct (H 0).
    + split; [|done]. intros _ j. rewrite drop_nil, <- prefixb_spec. congruence.
  - destruct (prefixb sep (x :: l)) eqn:Hp.
    + apply prefixb_spec in Hp. split; [done|]. intros H. by destruct (H 0).
    + transitivity (find_index sep l = None); [destruct (find_index sep l); naive_solver|].
      rewrite IH. split.
      * intros H [|j]; [simpl; rewrite <- prefixb_spec; congruence|apply H].
      * intros H j. apply (H (S j)).
Qed.

Lemma find_index_length sep l i :
  find_index sep l = Some i → i + length sep ≤ length l.
Proof.
  intros (Hi&H&_)%find_index_Some. apply prefix_length in H.
  rewrite length_drop in H. lia.
Qed.

Lemma occurs_at_app sep l r i :
  i + length sep ≤ length l → occurs_at sep (l ++ r) i ↔ occurs_at sep l i.
Proof.
  unfold occurs_at. intros Hi. rewrite drop_app_le by lia. split.
  - intros H. destruct (prefix_weak_total sep (drop i l) (drop i l ++ r)) as [?|Hp];
      [done|by exists r|done|].
    rewrite (prefix_length_eq _ _ Hp); [done|]. rewrite length_drop. lia.
  - intros H. by apply prefix_app_r.
Qed.
End find_index.

(** ** Framing with a separator

    A frame [m] delimited by [sep] is found again by the first occurrence of
    [sep] when the separator occurs in [m ++ sep] only at its end. *)

Section framing.
Context {A : Type} `{!EqDecision A}.
Implicit Types sep m r : list A.

Definition frame_ok sep m : Prop := find_index sep (m ++ sep) = Some (length m).

#[export] Instance frame_ok_decision sep m : Decision (frame_ok sep m).
Proof. unfold frame_ok. apply _. Defined.

Lemma frame_ok_find sep m r :
  frame_ok sep m → find_index sep (m ++ sep ++ r) = Some (length m).
Proof.
  unfold frame_ok. rewrite !find_index_Some. intros (_&_&Hlt).
  split_and!.
  - rewrite length_app. lia.
  - unfold occurs_at. rewrite drop_app_length. by exists r.
  - intros j Hj. rewrite (assoc_L (++)), occurs_at_app; [auto|]. rewrite length_app. lia.
Qed.

(** What precedes the first separator is such a frame. *)
Lemma find_index_frame sep l i : find_index sep l = Some i → frame_ok sep (take i l).
Proof.
  unfold frame_ok. rewrite !find_index_Some. intros (Hi&[r Hr]&Hlt). rewrite length_take_le by done.
  assert (l = take i l ++ sep ++ r) as Hl by (by rewrite <- Hr, take_drop).
  assert (length (take i l ++ sep) = i + length sep) as Hlen by (by rewrite length_app, length_take_le).
  split_and!; [lia| |].
  - unfold occurs_at. rewrite drop_app_length'; [done|by rewrite length_take_le].
  - intros j Hj Hocc. apply (Hlt j Hj). rewrite Hl, (assoc_L (++)). apply occurs_at_app; [lia|done].
Qed.

(** A separator none of whose proper suffixes is one of its prefixes. *)
Definition border_free sep : Prop :=
  Forall (λ k, ¬ drop k sep `prefix_of` sep) (seq 1 (length sep - 1)).

#[export] Instance border_free_decision sep : Decision (border_free sep).
Proof. unfold border_free. apply _. Defined.

Lemma border_free_spec sep k :
  border_free sep → 0 < k < length sep → ¬ drop k sep `prefix_of` sep.
Proof.
  unfold border_free. rewrite Forall_forall. intros H Hk. apply H.
  apply elem_of_seq. lia.
Qed.

(** For such a separator a frame is recovered exactly when it does not
    contain the separator. *)
Lemma frame_ok_iff sep m :
  border_free sep → 0 < length sep → frame_ok sep m ↔ find_index sep m = None.
Proof.
  intros Hb Hs. unfold frame_ok. rewrite find_index_Some, find_index_None. split.
  - intros (_&_&Hlt) j Hj.
    assert (j + length sep ≤ length m) as Hl.
    { pose proof (prefix_length _ _ Hj) as Hl. rewrite length_drop in Hl. lia. }
    apply (Hlt j); [lia|]. by apply occurs_at_app.
  - intros Hn. split_and!.
    + rewrite length_app. lia.
    + unfold occurs_at. by rewrite drop_app_length.
    + intros j Hj Hocc. destruct (decide (j + length sep ≤ length m)) as [Hl|Hl].
      { apply (Hn j). by apply occurs_at_app in Hocc. }
      unfold occurs_at in Hocc. rewrite drop_app_le in Hocc by lia.
      destruct Hocc as [r Hr].
      assert (length (drop j m) = length m - j) as Hd by apply length_drop.
      apply (border_free_spec sep (length m - j) Hb); [lia|].
      exists r. rewrite <- drop_app_le by lia.
      rewrite <- Hr, <- Hd. symmetry. apply drop_app_length.
Qed.
End framing.

(** ** Strings *)

Lemma app_nil_r_str s : s +:+ "" = s.
Proof. induction s as [|c s IH]; [done|]. simpl. by rewrite <- IH at 2. Qed.

Lemma app_assoc_str s t u : (s +:+ t) +:+ u = s +:+ (t +:+ u).
Proof. apply bytes_of_inj. by rewrite !bytes_of_app, (assoc_L (++)). Qed.

Lemma cons_app_str c s t : String c s +:+ t = String c (s +:+ t).
Proof. reflexivity. Qed.

Lemma length_app_str s t : String.length (s +:+ t) = String.length s + String.length t.
Proof. by rewrite <- !length_bytes_of, bytes_of_app, length_app. Qed.

Lemma app_inj_r_str s s' t : s +:+ t = s' +:+ t → s = s'.
Proof.
  intros H%(f_equal bytes_of). rewrite !bytes_of_app in H.
  by apply app_inv_tail, bytes_of_inj in H.
Qed.

(** [strings.HasPrefix] and [TrimPrefix]. *)
Fixpoint strip_prefix (p s : string) : option string :=
  match p, s with
  | "", _ => Some s
  | String a p, String b s => if Ascii.eqb a b then strip_prefix p s else None
  | String _ _, "" => None
  end.

Definition HasPrefix (s p : string) : bool := bool_decide (is_Some (strip_prefix p s)).
Definition TrimPrefix (s p : string) : string := default s (strip_prefix p s).

Lemma strip_prefix_Some p s t : strip_prefix p s = Some t ↔ s = p +:+ t.
Proof.
  revert s. induction p as [|a p IH]; intros s; simpl.
  - change ("" +:+ t) with t. naive_solver.
  - rewrite cons_app_str. destruct s as [|b s]; [done|].
    destruct (Ascii.eqb_spec a b) as [->|Hn].
    + rewrite IH. naive_solver.
    + naive_solver.
Qed.

Lemma strip_prefix_app p t : strip_prefix p (p +:+ t) = Some t.
Proof. by apply strip_prefix_Some. Qed.

Lemma HasPrefix_spec s p : HasPrefix s p = true ↔ ∃ t, s = p +:+ t.
Proof.
  unfold HasPrefix, is_Some. rewrite bool_decide_eq_true.
  by setoid_rewrite strip_prefix_Some.
Qed.

Lemma TrimPrefix_app p t : TrimPrefix (p +:+ t) p = t.
Proof. unfold TrimPrefix. by rewrite strip_prefix_app. Qed.

Lemma TrimPrefix_no s p : HasPrefix s p = false → TrimPrefix s p = s.
Proof.
  unfold HasPrefix, TrimPrefix. intros H%bool_decide_eq_false.
  by apply eq_None_not_Some in H as ->.
Qed.

(** [strings.HasSuffix] and [TrimSuffix]. *)
Fixpoint strip_suffix (p s : string) : option string :=
  if String.eqb s p then Some ""
  else match s with "" => None | String c s => String c <$> strip_suffix p s end.

Definition TrimSuffix (s p : string) : string := default s (strip_suffix p s).

#[local] Arguments String.eqb : simpl never.

Lemma strip_suffix_Some p s t : strip_suffix p s = Some t ↔ s = t +:+ p.
Proof.
  revert t. induction s as [|c s IH]; intros t; simpl.
  - destruct (String.eqb_spec "" p) as [<-|Hn].
    + rewrite app_nil_r_str. naive_solver.
    + split; [done|]. intros H. destruct t as [|a t]; [by destruct Hn|by rewrite cons_app_str in H].
  - destruct (String.eqb_spec (String c s) p) as [<-|Hn].
    + split; [by intros [= <-]|].
      intros H%(f_equal String.length). destruct t as [|a t]; [done|].
      rewrite length_app_str in H. simpl in H. lia.
    + split.
      * intros (t'&Ht&->)%fmap_Some. apply IH in Ht as ->. by rewrite cons_app_str.
      * destruct t as [|a t]; [intros H; by destruct Hn|]. rewrite cons_app_str. intros [= -> H].
        by rewrite (proj2 (IH t) H).
Qed.

Lemma TrimSuffix_app p t : TrimSuffix (t +:+ p) p = t.
Proof. unfold TrimSuffix. by rewrite (proj2 (strip_suffix_Some p (t +:+ p) t)). Qed.

Lemma TrimSuffix_no s p : (∀ t, s ≠ t +:+ p) → TrimSuffix s p = s.
Proof.
  intros H. unfold TrimSuffix. destruct (strip_suffix p s) as [t|] eqn:E; [|done].
  apply strip_suffix_Some in E. by destruct (H t).
Qed.

(** [strings.Split] at a separator of one byte, and its inverse
    [strings.Join]. *)
Fixpoint Split (c : ascii) (s : string) : list string :=
  match s with
  | "" => [""]
  | String a s =>
      if Ascii.eqb a c then "" :: Split c s
      else match Split c s with
           | [] => [String a ""]
           | w :: ws => String a w :: ws
           end
  end.

Fixpoint Join (c : ascii) (ws : list string) : string :=
  match ws with
  | [] => ""
  | [w] => w
  | w :: ws => w +:+ String c (Join c ws)
  end.

Fixpoint has_char (c : ascii) (s : string) : bool :=
  match s with
  | "" => false
  | String a s => Ascii.eqb a c || has_char c s
  end.

Lemma Split_not_nil c s : Split c s ≠ [].
Proof. induction s as [|a s IH]; simpl; [done|]. repeat case_match; done. Qed.

Lemma Split_no_char c s : has_char c s = false → Split c s = [s].
Proof.
  induction s as [|a s IH]; simpl; [done|].
  destruct (Ascii.eqb a c); simpl; [done|]. by intros ->%IH.
Qed.

Lemma Split_app c w s :
  has_char c w = false → Split c (w +:+ String c s) = w :: Split c s.
Proof.
  induction w as [|a w IH]; intros Hw.
  - change ("" +:+ String c s) with (String c s). simpl. by rewrite Ascii.eqb_refl.
  - rewrite cons_app_str. simpl in *. destruct (Ascii.eqb a c); simpl in *; [done|].
    by rewrite (IH Hw).
Qed.

Lemma Split_Join c ws :
  ws ≠ [] → Forall (λ w, has_char c w = false) ws → Split c (Join c ws) = ws.
Proof.
  intros Hne Hws. induction Hws as [|w ws Hw Hws IH]; [done|].
  destruct ws as [|w' ws]; [by apply Split_no_char|].
  change (Join c (w :: w' :: ws)) with (w +:+ String c (Join c (w' :: ws))).
  by rewrite (Split_app _ _ _ Hw), IH.
Qed.

Lemma Join_Split c s : Join c (Split c s) = s.
Proof.
  induction s as [|a s IH]; [done|]. simpl. pose proof (Split_not_nil c s).
  destruct (Split c s) as [|w ws]; [done|].
  destruct (Ascii.eqb_spec a c) as [->|Hn].
  - change (Join c ("" :: w :: ws)) with (String c (Join c (w :: ws))). by rewrite IH.
  - rewrite <- IH. by destruct ws.
Qed.

Lemma Split_no_sep c s : Forall (λ w, has_char c w = false) (Split c s).
Proof.
  induction s as [|a s IH]; simpl; [by repeat constructor|].
  destruct (Ascii.eqb a c) eqn:E; [by constructor|].
  destruct (Split c s) as [|w ws].
  - constructor; [simpl; by rewrite E|constructor].
  - apply Forall_cons in IH as [Hw Hws]. constructor; [simpl; by rewrite E|done].
Qed.

(** [strings.LastIndex] of a byte, and what precedes it. *)
Fixpoint LastIndex (s : string) (c : ascii) : option nat :=
  match s with
  | "" => None
  | String a s =>
      match LastIndex s c with
      | Some i => Some (S i)
      | None => if Ascii.eqb a c then Some 0 else None
      end
  end.

Lemma LastIndex_None s c : LastIndex s c = None ↔ has_char c s = false.
Proof.
  induction s as [|a s IH]; simpl; [done|].
  destruct (LastIndex s c) eqn:E; destruct (Ascii.eqb a c); simpl; naive_solver.
Qed.

Lemma LastIndex_app s c t :
  has_char c t = false → LastIndex (s +:+ String c t) c = Some (String.length s).
Proof.
  intros Ht. induction s as [|a s IH].
  - change ("" +:+ String c t) with (String c t). simpl.
    by rewrite (proj2 (LastIndex_None t c) Ht), Ascii.eqb_refl.
  - rewrite cons_app_str. simpl. by rewrite IH.
Qed.

(** The prefix of [s] of [n] bytes, [s[:n]]. *)
Fixpoint str_take (n : nat) (s : string) : string :=
  match n, s with
  | S n, String a s => String a (str_take n s)
  | _, _ => ""
  end.

Lemma str_take_app s t : str_take (String.length s) (s +:+ t) = s.
Proof. induction s as [|a s IH]; [by destruct t|]. rewrite cons_app_str. simpl. by rewrite IH. Qed.

(** [strings.EqualFold], for operands one of which is an ASCII word without
    [k] and [s]: on those the Unicode folding of Go relates the ASCII letters
    only, and this function is exact. *)
Definition lower (c : ascii) : ascii :=
  let n := Ascii.nat_of_ascii c in
  if bool_decide (65 ≤ n ∧ n ≤ 90) then Ascii.ascii_of_nat (n + 32) else c.

Fixpoint ToLower (s : string) : string :=
  match s with "" => "" | String c s => String (lower c) (ToLower s) end.

Definition EqualFold (s t : string) : bool := String.eqb (ToLower s) (ToLower t).

Lemma EqualFold_refl s : EqualFold s s = true.
Proof. apply String.eqb_refl. Qed.

(** [strings.TrimSpace]: the UTF-8 encodings of the Unicode white space. *)
Definition spaces : list string :=
  string_of <$>
    ([[x09]; [x0a]; [x0b]; [x0c]; [x0d]; [x20]; [xc2; x85]; [xc2; xa0]; [xe1; x9a; x80];
      [xe2; x80; x80]; [xe2; x80; x81]; [xe2; x80; x82]; [xe2; x80; x83]; [xe2; x80; x84];
      [xe2; x80; x85]; [xe2; x80; x86]; [xe2; x80; x87]; [xe2; x80; x88]; [xe2; x80; x89];
      [xe2; x80; x8a]; [xe2; x80; xa8]; [xe2; x80; xa9]; [xe2; x80; xaf]; [xe2; x81; x9f];
      [xe3; x80; x80]]).

Definition strip_first (strip : string → string → option string) (s : string) : option string :=
  foldr (λ p acc, match strip p s with Some t => Some t | None => acc end) None spaces.

(** Every round removes at least a byte, so the length of the string is
    enough fuel. *)
Fixpoint trim_with (strip : string → string → option string) (fuel : nat) (s : string) : string :=
  match fuel with
  | 0 => s
  | S fuel => match strip_first strip s with Some t => trim_with strip fuel t | None => s end
  end.

Definition TrimSpace (s : string) : string :=
  let s := trim_with strip_prefix (String.length s) s in
  trim_with strip_suffix (String.length s) s.

Example TrimSpace_ex : TrimSpace "  Upgrade	 " = "Upgrade".
Proof. reflexivity. Qed.

(** [strconv.Atoi] (a 64-bit [int]) and [strconv.Itoa]. *)
Definition digit (c : ascii) : option Z :=
  let n := Ascii.nat_of_ascii c in
  if bool_decide (48 ≤ n ∧ n ≤ 57) then Some (Z.of_nat n - 48)%Z else None.

Fixpoint digits (acc : Z) (s : string) : option Z :=
  match s with
  | "" => Some acc
  | String c s => d ← digit c; digits (10 * acc + d) s
  end.

Definition unsigned (s : string) : option Z :=
  match s with "" => None | _ => digits 0 s end.

Definition signed (s : string) : option Z :=
  match s with
  | String "+" t => unsigned t
  | String "-" t => Z.opp <$> unsigned t
  | _ => unsigned s
  end.

Definition Atoi (s : string) : result Z :=
  match signed s with
  | Some z => if bool_decide (- 2 ^ 63 ≤ z < 2 ^ 63)%Z then Ok z else Err (ErrSyntax s)
  | None => Err (ErrSyntax s)
  end.

Definition Itoa (z : Z) : string := DecimalString.NilZero.string_of_int (Z.to_int z).

Example Itoa_ex : Itoa 100 = "100" ∧ Itoa (-7) = "-7" ∧ Itoa 0 = "0".
Proof. repeat split. Qed.
Example Atoi_ex : Atoi "12" = Ok 12%Z ∧ Atoi "-3" = Ok (-3)%Z ∧ Atoi "1x" = Err (ErrSyntax "1x").
Proof. repeat split. Qed.

Lemma Atoi_range s z : Atoi s = Ok z → is_int64 z.
Proof.
  unfold Atoi. destruct (signed s) as [n|]; [|done].
  case_bool_decide; [by intros [= <-]|done].
Qed.

(** ** Lemmas on [Itoa] *)

(** The value of a string of digits. *)
Lemma digits_pos u acc :
  digits (Z.pos acc) (NilEmpty.string_of_uint u) = Some (Z.pos (Pos.of_uint_acc u acc)).
Proof.
  revert acc. induction u as [|u IH|u IH|u IH|u IH|u IH|u IH|u IH|u IH|u IH|u IH]; intros acc; [done|..];
    cbn [Pos.of_uint_acc NilEmpty.string_of_uint digits];
    match goal with |- context [digit ?c] => let d := eval vm_compute in (digit c) in change (digit c) with d end;
    cbn [mbind option_bind]; rewrite <- IH; f_equal; lia.
Qed.

Lemma digits_uint u : digits 0 (NilEmpty.string_of_uint u) = Some (Z.of_N (Pos.of_uint u)).
Proof.
  induction u as [|u IH|u IH|u IH|u IH|u IH|u IH|u IH|u IH|u IH|u IH]; [done|exact IH|..];
    simpl; apply (digits_pos u).
Qed.

Lemma to_int_norm z : Z.to_int z = norm (Z.to_int z).
Proof. rewrite <- (DecimalZ.of_to z) at 1. apply DecimalZ.to_of. Qed.

Definition leading_zero (u : uint) : bool := match u with D0 _ => true | _ => false end.

Lemma nzhead_leading u : leading_zero (nzhead u) = false.
Proof. by induction u. Qed.

(** The decimal digits of a number: zero alone, or no leading zero. *)
Lemma Itoa_cases z :
  (z = 0%Z ∧ Itoa z = "0") ∨
  ∃ u s, leading_zero u = false ∧ u ≠ Nil ∧ s = NilEmpty.string_of_uint u ∧
    (Itoa z = s ∧ z = Z.of_N (Pos.of_uint u) ∨ Itoa z = String "-" s ∧ z = (- Z.of_N (Pos.of_uint u))%Z).
Proof.
  pose proof (to_int_norm z) as Hn. pose proof (DecimalZ.of_to z) as Hz. unfold Itoa.
  destruct (Z.to_int z) as [u|u] eqn:Hu; simpl in Hn, Hz.
  - injection Hn as Hn. unfold unorm in Hn. pose proof (nzhead_leading u) as Hl.
    destruct (nzhead u) eqn:Hnz; subst; try (left; split; done); try discriminate Hl;
      right; eexists _, _; (split; [|split; [|split; [reflexivity|left; split; reflexivity]]]); done.
  - pose proof (nzhead_leading u) as Hl.
    destruct (nzhead u) eqn:Hnz; try discriminate Hn; injection Hn as ->; try discriminate Hl;
      right; eexists _, _; (split; [|split; [|split; [reflexivity|right; split; [reflexivity|by rewrite <- Hz]]]]); done.
Qed.

Lemma signed_uint u : u ≠ Nil → signed (NilEmpty.string_of_uint u) = Some (Z.of_N (Pos.of_uint u)).
Proof.
  intros Hu. rewrite <- digits_uint. destruct u; try done.
Qed.

(** An [int] is read back from its text. *)
Lemma Atoi_Itoa z : is_int64 z → Atoi (Itoa z) = Ok z.
Proof.
  intros Hz. unfold Atoi. assert (signed (Itoa z) = Some z) as ->.
  { destruct (Itoa_cases z) as [[-> ->]|(u&s&_&Hn&->&[[-> ->]|[-> ->]])]; [done|by apply signed_uint|].
    cbn [signed]. unfold unsigned. rewrite digits_uint. destruct u; try done. }
  by rewrite bool_decide_true.
Qed.

#[export] Hint Rewrite Atoi_Itoa using done : hostapi.

(** [path.Clean] and [path.Join]. *)
Fixpoint clean_walk (rooted : bool) (done : list string) (todo : list string) : list string :=
  match todo with
  | [] => rev done
  | w :: todo =>
      if String.eqb w "" || String.eqb w "." then clean_walk rooted done todo
      else if String.eqb w ".." then
        match done with
        | [] => clean_walk rooted (if rooted then [] else [".."]) todo
        | d :: done' =>
            if String.eqb d ".." then clean_walk rooted (".." :: done) todo
            else clean_walk rooted done' todo
        end
      else clean_walk rooted (w :: done) todo
  end.

Definition Clean (p : string) : string :=
  let rooted := HasPrefix p "/" in
  let body := Join "/" (clean_walk rooted [] (Split "/" p)) in
  if rooted then String "/" body else if String.eqb body "" then "." else body.

Definition path_Join (a b : string) : string :=
  if String.eqb a "" then (if String.eqb b "" then "" else Clean b) else Clean (a +:+ String "/" b).

Example path_Join_ex :
  path_Join "/certs/" "ca.pem" = "/certs/ca.pem" ∧ path_Join "a/../b" "key.pem" = "b/key.pem".
Proof. split; vm_compute; reflexivity. Qed.
