(* ===== verification/Url.v ===== *)
(** * [net/url] of Go 1.7

    The handlers parse the url of a session and read its path and the [token]
    parameter of its query; the container proxy reads the host.  [Parse] is
    the library's function with the fields the program reads, [ParseQuery] the
    pairs of a query that decode, and [go_url] makes them the [URLParser] of
    [Handshake]. *)

From Stdlib Require Import Ascii NArith.
From S2P Require Import Prelude GoStd.

(** ** Escaping *)

Inductive encoding :=
| encodePath | encodeHost | encodeZone | encodeUserPassword | encodeQueryComponent | encodeFragment.

#[export] Instance encoding_eq_decision : EqDecision encoding.
Proof. solve_decision. Defined.

Definition char_in (c : ascii) (s : string) : bool := has_char c s.

Definition between (lo c hi : ascii) : bool :=
  (N_of_ascii lo <=? N_of_ascii c)%N && (N_of_ascii c <=? N_of_ascii hi)%N.

Definition alphanum (c : ascii) : bool := between "A" c "Z" || between "a" c "z" || between "0" c "9".

Definition shouldEscape (c : ascii) (mode : encoding) : bool :=
  if alphanum c then false
  else if match mode with encodeHost | encodeZone => char_in c "!$&'()*+,;=:[]<>" || Ascii.eqb c "034" | _ => false end
  then false
  else if char_in c "-_.~" then false
  else if char_in c "$&+,/:;=?@" then
    match mode with
    | encodePath => Ascii.eqb c "?"
    | encodeUserPassword => char_in c "@/?:"
    | encodeQueryComponent => true
    | encodeFragment => false
    | _ => true
    end
  else true.

Definition upper_hex : string := "0123456789ABCDEF".

Definition hex_digit (n : nat) : ascii := default "0"%char (String.get n upper_hex).

Definition unhex (c : ascii) : option nat :=
  let n := nat_of_ascii c in
  if between "0" c "9" then Some (n - 48)
  else if between "a" c "f" then Some (n - 87)
  else if between "A" c "F" then Some (n - 55)
  else None.

Fixpoint escape (s : string) (mode : encoding) : string :=
  match s with
  | "" => ""
  | String c s =>
      if Ascii.eqb c " " && bool_decide (mode = encodeQueryComponent) then String "+" (escape s mode)
      else if shouldEscape c mode then
        let n := nat_of_ascii c in
        String "%" (String (hex_digit (n / 16)) (String (hex_digit (n mod 16)) (escape s mode)))
      else String c (escape s mode)
  end.

Definition EscapeError := OtherError "invalid URL escape".
Definition InvalidHostError := OtherError "invalid character in host name".

(** In a host only bytes outside ASCII, and the percent sign, may be escaped; in
    a zone also what a host cannot hold. *)
Definition escape_allowed (hi lo : nat) (mode : encoding) : bool :=
  let v := 16 * hi + lo in
  let percent := v =? 37 in
  match mode with
  | encodeHost => negb (hi <? 8) || percent
  | encodeZone => percent || (v =? 32) || negb (shouldEscape (ascii_of_nat v) encodeHost)
  | _ => true
  end.

Definition raw_allowed (c : ascii) (mode : encoding) : bool :=
  match mode with
  | encodeHost | encodeZone => negb ((nat_of_ascii c <? 128) && shouldEscape c mode)
  | _ => true
  end.

Fixpoint unescape (s : string) (mode : encoding) : result string :=
  match s with
  | "" => Ok ""
  | String c s =>
      if Ascii.eqb c "%" then
        match s with
        | String h (String l s) =>
            match unhex h, unhex l with
            | Some hi, Some lo =>
                if escape_allowed hi lo mode
                then String (ascii_of_nat (16 * hi + lo)) <$> unescape s mode
                else Err EscapeError
            | _, _ => Err EscapeError
            end
        | _ => Err EscapeError
        end
      else if Ascii.eqb c "+" && bool_decide (mode = encodeQueryComponent)
      then String " " <$> unescape s mode
      else if raw_allowed c mode then String c <$> unescape s mode
      else Err InvalidHostError
  end.

(** [QueryEscape] and [QueryUnescape]. *)
Definition QueryEscape (s : string) : string := escape s encodeQueryComponent.
Definition QueryUnescape (s : string) : result string := unescape s encodeQueryComponent.

(** ** Parsing *)

(** What precedes the first occurrence of a byte, and what follows it. *)
Fixpoint cut_at (c : ascii) (s : string) : option (string * string) :=
  match s with
  | "" => None
  | String a s =>
      if Ascii.eqb a c then Some ("", s)
      else match cut_at c s with Some (k, v) => Some (String a k, v) | None => None end
  end.

(** The same, with an empty second half when the byte does not occur. *)
Definition split (s : string) (c : ascii) : string * string := default (s, "") (cut_at c s).

(** [split] without cutting the byte itself. *)
Definition split_keep (s : string) (c : ascii) : string * string :=
  match cut_at c s with Some (k, v) => (k, String c v) | None => (s, "") end.

Definition MissingScheme := OtherError "missing protocol scheme".

(** The scheme, when the text before a first colon has the form of one. *)
Fixpoint getscheme_from (first : bool) (s : string) : result (option (string * string)) :=
  match s with
  | "" => Ok None
  | String c s =>
      if between "a" c "z" || between "A" c "Z" then
        match getscheme_from false s with
        | Ok (Some (scheme, rest)) => Ok (Some (String c scheme, rest))
        | r => r
        end
      else if between "0" c "9" || char_in c "+-." then
        if first then Ok None
        else match getscheme_from false s with
             | Ok (Some (scheme, rest)) => Ok (Some (String c scheme, rest))
             | r => r
             end
      else if Ascii.eqb c ":" then
        if first then Err MissingScheme else Ok (Some ("", s))
      else Ok None
  end.

Definition getscheme (rawurl : string) : result (string * string) :=
  match getscheme_from true rawurl with
  | Err e => Err e
  | Ok (Some (scheme, rest)) => Ok (ToLower scheme, rest)
  | Ok None => Ok ("", rawurl)
  end.

Fixpoint all_digits (s : string) : bool :=
  match s with "" => true | String c s => between "0" c "9" && all_digits s end.

Definition validOptionalPort (port : string) : bool :=
  match port with
  | "" => true
  | String c s => Ascii.eqb c ":" && all_digits s
  end.

(** What precedes and follows the last occurrence of a byte. *)
Definition cut_last (c : ascii) (s : string) : option (string * string) :=
  match LastIndex s c with
  | Some i => Some (str_take i s, String.substring (S i) (String.length s) s)
  | None => None
  end.

(** The position of the first [%25]. *)
Fixpoint zone_at (s : string) : option (string * string) :=
  match strip_prefix "%25" s with
  | Some _ => Some ("", s)
  | None =>
      match s with
      | "" => None
      | String c s => match zone_at s with Some (a, b) => Some (String c a, b) | None => None end
      end
  end.

Definition parseHost (host : string) : result string :=
  match strip_prefix "[" host with
  | None => unescape host encodeHost
  | Some _ =>
      match cut_last "]" host with
      | None => Err (OtherError "missing ']' in host")
      | Some (inside, colonPort) =>
          if negb (validOptionalPort colonPort) then Err (OtherError "invalid port after host")
          else match zone_at inside with
          | None => unescape host encodeHost
          | Some (address, zone) =>
              host1 ← unescape address encodeHost;
              host2 ← unescape zone encodeZone;
              host3 ← unescape (String "]" colonPort) encodeHost;
              Ok (host1 +:+ host2 +:+ host3)
          end
      end
  end.

(** The host of an authority; the user information only has to decode. *)
Definition parseAuthority (authority : string) : result string :=
  match cut_last "@" authority with
  | None => parseHost authority
  | Some (userinfo, host) =>
      host ← parseHost host;
      let '(username, password) := split userinfo ":" in
      _ ← unescape username encodeUserPassword;
      _ ← unescape password encodeUserPassword;
      Ok host
  end.

(** The fields of [url.URL] the program reads, and the scheme. *)
Record URL := mkURL { Scheme : string; Opaque : string; Host : string; Path : string; RawQuery : string }.

Definition parse (rawurl : string) : result URL :=
  if String.eqb rawurl "*" then Ok (mkURL "" "" "" "*" "")
  else
    '(scheme, rest) ← getscheme rawurl;
    let '(rest, query) := split rest "?" in
    match strip_prefix "/" rest, String.eqb scheme "" with
    | None, false => Ok (mkURL scheme rest "" "" query)
    | _, _ =>
        let with_authority :=
          (negb (String.eqb scheme "") || negb (HasPrefix rest "///")) && HasPrefix rest "//" in
        let '(authority, rest) :=
          if with_authority then split_keep (TrimPrefix rest "//") "/" else ("", rest) in
        host ← (if with_authority then parseAuthority authority else Ok "");
        path ← unescape rest encodePath;
        Ok (mkURL scheme "" host path query)
    end.

Definition Parse (rawurl : string) : result URL :=
  let '(u, frag) := split rawurl "#" in
  url ← parse u;
  _ ← unescape frag encodeFragment;
  Ok url.

(** ** Queries *)

(** The parts of a query, separated by ampersands and semicolons. *)
Fixpoint query_parts (s : string) : list string :=
  match s with
  | "" => [""]
  | String c s =>
      if Ascii.eqb c "&" || Ascii.eqb c ";" then "" :: query_parts s
      else match query_parts s with
           | [] => [String c ""]
           | w :: ws => String c w :: ws
           end
  end.

(** A part that is not empty and decodes gives a pair. *)
Definition query_pair (part : string) : option (string * string) :=
  if String.eqb part "" then None
  else
    let '(key, value) := split part "=" in
    match QueryUnescape key, QueryUnescape value with
    | Ok key, Ok value => Some (key, value)
    | _, _ => None
    end.

(** [URL.Query], as the pairs in order. *)
Definition ParseQuery (query : string) : list (string * string) := omap query_pair (query_parts query).

(** [Values.Get]: the first value of a key. *)
Definition Get (values : list (string * string)) (key : string) : string :=
  match list_find (λ p, p.1 = key) values with Some (_, (_, v)) => v | None => "" end.

(** ** Lemmas on escaping *)

(** The modes of the parts a program escapes itself. *)
Definition component (mode : encoding) : Prop := mode ≠ encodeHost ∧ mode ≠ encodeZone.

(** What [escape] makes of one byte. *)
Definition escape1 (c : ascii) (mode : encoding) : string := escape (String c "") mode.

Lemma escape_cons c s mode : escape (String c s) mode = escape1 c mode +:+ escape s mode.
Proof. unfold escape1. simpl. by destruct (Ascii.eqb c " " && _), (shouldEscape c mode). Qed.

Lemma unescape_escape1 c s mode :
  component mode → unescape (escape1 c mode +:+ s) mode = String c <$> unescape s mode.
Proof.
  intros [H1 H2]. destruct mode; try done;
    destruct c as [[] [] [] [] [] [] [] []]; reflexivity.
Qed.

Lemma unescape_escape_app s t mode :
  component mode → unescape (escape s mode +:+ t) mode = (λ u, s +:+ u) <$> unescape t mode.
Proof.
  intros Hm. induction s as [|c s IH].
  - change (escape "" mode +:+ t) with t. by destruct (unescape t mode).
  - rewrite escape_cons, app_assoc_str, unescape_escape1, IH by done.
    by destruct (unescape t mode).
Qed.

Lemma unescape_escape s mode : component mode → unescape (escape s mode) mode = Ok s.
Proof.
  intros Hm. rewrite <- (app_nil_r_str (escape s mode)), unescape_escape_app by done.
  simpl. by rewrite app_nil_r_str.
Qed.

Lemma has_char_app c s t : has_char c (s +:+ t) = has_char c s || has_char c t.
Proof.
  induction s as [|a s IH]; [done|]. rewrite cons_app_str. simpl. by rewrite IH, orb_assoc.
Qed.

(** A byte a mode escapes does not occur in what it gives. *)
Definition absent (c : ascii) (mode : encoding) : bool :=
  shouldEscape c mode && negb (Ascii.eqb c "%") && negb (Ascii.eqb c "+").

Lemma escape_absent c s mode : absent c mode = true → has_char c (escape s mode) = false.
Proof.
  unfold absent. rewrite !andb_true_iff, !negb_true_iff, !Ascii.eqb_neq. intros [[Hc Hp] Hq].
  assert (∀ n, hex_digit n ≠ c) as Hhex.
  { intros n <-. unfold hex_digit in Hc. do 16 (destruct n as [|n]; [by destruct mode|]). by destruct mode. }
  induction s as [|a s IH]; [done|]. cbn [escape].
  destruct (Ascii.eqb a " " && _); [|destruct (shouldEscape a mode) eqn:Ha]; cbn [has_char].
  - by rewrite (proj2 (Ascii.eqb_neq _ _)) by done.
  - rewrite !(proj2 (Ascii.eqb_neq _ _)) by done. by rewrite IH.
  - by rewrite (proj2 (Ascii.eqb_neq _ _)) by (intros ->; congruence).
Qed.

(** Text of letters, digits and the unreserved marks is not changed. *)
Definition unreserved (c : ascii) : bool := alphanum c || char_in c "-_.~".

Fixpoint all_unreserved (s : string) : bool :=
  match s with "" => true | String c s => unreserved c && all_unreserved s end.

Lemma escape1_unreserved c mode : unreserved c = true → escape1 c mode = String c "".
Proof.
  destruct c as [[] [] [] [] [] [] [] []]; try discriminate; intros _; by destruct mode.
Qed.

Lemma escape_unreserved s mode : all_unreserved s = true → escape s mode = s.
Proof.
  induction s as [|c s IH]; [done|]. intros [Hc Hs]%andb_true_iff.
  by rewrite escape_cons, escape1_unreserved, IH.
Qed.

(** ** Lemmas on parsing *)

Lemma cut_at_app c k v : has_char c k = false → cut_at c (k +:+ String c v) = Some (k, v).
Proof.
  induction k as [|a k IH]; [intros _|intros [Ha Hk]%orb_false_iff].
  - change ("" +:+ String c v) with (String c v). simpl. by rewrite Ascii.eqb_refl.
  - rewrite cons_app_str. simpl. by rewrite Ha, IH.
Qed.

Lemma cut_at_none c s : has_char c s = false → cut_at c s = None.
Proof. induction s as [|a s IH]; [done|]. simpl. intros [-> Hs]%orb_false_iff. by rewrite IH. Qed.

Lemma query_parts_single s :
  has_char "&" s = false → has_char ";" s = false → query_parts s = [s].
Proof.
  induction s as [|c s IH]; [done|]. simpl. intros [-> H1]%orb_false_iff [-> H2]%orb_false_iff.
  simpl. by rewrite IH.
Qed.

(** A query of one parameter. *)
Lemma ParseQuery_single key value :
  key ≠ "" →
  ParseQuery (QueryEscape key +:+ String "=" (QueryEscape value)) = [(key, value)].
Proof.
  intros Hk. assert (component encodeQueryComponent) as Hm by done.
  assert (∀ c s, absent c encodeQueryComponent = true → has_char c (QueryEscape s) = false) as Ha
    by (intros c s Hc; by apply escape_absent).
  unfold ParseQuery. rewrite query_parts_single;
    [|rewrite has_char_app; simpl; by rewrite !Ha..]. simpl.
  unfold query_pair. destruct (String.eqb_spec (QueryEscape key +:+ String "=" (QueryEscape value)) "") as [He|_].
  { apply (f_equal String.length) in He. rewrite length_app_str in He. simpl in He. lia. }
  unfold split. rewrite cut_at_app by by apply Ha. simpl. unfold QueryUnescape, QueryEscape.
  by rewrite !unescape_escape.
Qed.

(** An absolute path, not one that would be read as an authority. *)
Definition rooted (p : string) : Prop := HasPrefix p "/" = true ∧ HasPrefix p "//" = false.

Lemma rooted_cons p : rooted p → ∃ r, p = String "/" r ∧ HasPrefix r "/" = false.
Proof.
  intros [Hp Hn]. destruct p as [|c p]; [done|].
  apply HasPrefix_spec in Hp as [t Ht]. change ("/" +:+ t) with (String "/" t) in Ht.
  injection Ht as -> ->. exists t. split; [done|].
  destruct (HasPrefix t "/") eqn:Ht; [|done]. apply HasPrefix_spec in Ht as [u ->].
  change (HasPrefix (String "/" ("/" +:+ u)) "//" = false) in Hn.
  assert (HasPrefix (String "/" ("/" +:+ u)) "//" = true) as Hy by (apply HasPrefix_spec; by exists u).
  congruence.
Qed.

Lemma escape_path_slash r : escape (String "/" r) encodePath = String "/" (escape r encodePath).
Proof. done. Qed.

(** A path, escaped, with a query: no scheme, no host. *)
Lemma Parse_path_query p q :
  rooted p → has_char "#" q = false →
  Parse (escape p encodePath +:+ String "?" q) = Ok (mkURL "" "" "" p q).
Proof.
  intros Hp Hq. unfold Parse, split.
  assert (has_char "#" (escape p encodePath +:+ String "?" q) = false) as Hfrag
    by (rewrite has_char_app; simpl; by rewrite Hq, escape_absent).
  rewrite cut_at_none by done. simpl.
  destruct (rooted_cons p Hp) as (r&->&Hr). unfold parse. rewrite escape_path_slash.
  rewrite cons_app_str. simpl. unfold getscheme. simpl. unfold split.
  rewrite <- cons_app_str, <- escape_path_slash, cut_at_app by by apply escape_absent. simpl.
  assert (HasPrefix (String "/" (escape r encodePath)) "//" = false) as Hn.
  { destruct r as [|c r]; [done|]. rewrite escape_cons.
    apply not_true_iff_false. intros [t Ht]%HasPrefix_spec.
    change ("//" +:+ t) with (String "/" (String "/" t)) in Ht. injection Ht as Ht.
    exfalso. clear -Hr Ht. destruct (Ascii.eqb_spec c "/") as [->|Hc].
    - assert (HasPrefix (String "/" r) "/" = true) by (apply HasPrefix_spec; by exists r). congruence.
    - unfold escape1 in Ht. simpl in Ht. rewrite andb_false_r in Ht. simpl in Ht.
      destruct (shouldEscape c encodePath); simpl in Ht; by injection Ht. }
  rewrite Hn, andb_false_r. simpl.
  change (String "/" (escape r encodePath)) with (escape (String "/" r) encodePath).
  by rewrite unescape_escape.
Qed.

#[export] Hint Rewrite unescape_escape : hostapi.
