(* ===== verification/Base64.v ===== *)
(** * [encoding/base64.StdEncoding]

    The handlers carry the bytes of a socket as base64 text in the bodies of
    the proxy's messages.  [EncodeToString] and [DecodeString] are the
    functions of Go's library on the standard alphabet with padding:
    the decoder skips line breaks, refuses an incomplete quantum, misplaced
    padding and anything after it, and does not look at the unused low bits of
    the last sextet. *)

From Stdlib Require Import Ascii.
From S2P Require Import Prelude GoStd.

Definition alphabet : string :=
  "ABCDEFGHIJKLMNOPQRSTUVWXYZabcdefghijklmnopqrstuvwxyz0123456789+/".

(** Six bits, the most significant first. *)
Record sextet := Sextet { s5 : bool; s4 : bool; s3 : bool; s2 : bool; s1 : bool; s0 : bool }.

Definition sextet_index (s : sextet) : nat :=
  let d (b : bool) (w : nat) := if b then w else 0 in
  d (s5 s) 32 + d (s4 s) 16 + d (s3 s) 8 + d (s2 s) 4 + d (s1 s) 2 + d (s0 s) 1.

Definition sextet_of_index (n : nat) : sextet :=
  let t i := Nat.testbit n i in Sextet (t 5) (t 4) (t 3) (t 2) (t 1) (t 0).

Definition enc_sextet (s : sextet) : ascii :=
  default "A"%char (String.get (sextet_index s) alphabet).

Fixpoint position (c : ascii) (s : string) : option nat :=
  match s with
  | "" => None
  | String a s => if Ascii.eqb a c then Some 0 else S <$> position c s
  end.

Definition dec_sextet (c : ascii) : option sextet := sextet_of_index <$> position c alphabet.

Lemma dec_enc_sextet s : dec_sextet (enc_sextet s) = Some s.
Proof. by destruct s as [[] [] [] [] [] []]. Qed.

Lemma enc_sextet_not_special s :
  enc_sextet s ≠ "="%char ∧ enc_sextet s ≠ "010"%char ∧ enc_sextet s ≠ "013"%char.
Proof. by destruct s as [[] [] [] [] [] []]. Qed.

(** A byte as its eight bits, the most significant first. *)
Definition byte_bits (b : byte) :=
  let '(b0, (b1, (b2, (b3, (b4, (b5, (b6, b7))))))) := Byte.to_bits b in
  (b7, b6, b5, b4, b3, b2, b1, b0).

Definition bits_byte (b7 b6 b5 b4 b3 b2 b1 b0 : bool) : byte :=
  Byte.of_bits (b0, (b1, (b2, (b3, (b4, (b5, (b6, b7))))))).

Lemma bits_byte_bits b :
  let '(b7, b6, b5, b4, b3, b2, b1, b0) := byte_bits b in
  bits_byte b7 b6 b5 b4 b3 b2 b1 b0 = b.
Proof. by destruct b. Qed.

(** The four sextets of three bytes, and back. *)
Definition quantum (x y z : byte) : sextet * sextet * sextet * sextet :=
  let '(a7, a6, a5, a4, a3, a2, a1, a0) := byte_bits x in
  let '(b7, b6, b5, b4, b3, b2, b1, b0) := byte_bits y in
  let '(c7, c6, c5, c4, c3, c2, c1, c0) := byte_bits z in
  (Sextet a7 a6 a5 a4 a3 a2, Sextet a1 a0 b7 b6 b5 b4,
   Sextet b3 b2 b1 b0 c7 c6, Sextet c5 c4 c3 c2 c1 c0).

Definition join1 (p q : sextet) : byte :=
  bits_byte (s5 p) (s4 p) (s3 p) (s2 p) (s1 p) (s0 p) (s5 q) (s4 q).
Definition join2 (q r : sextet) : byte :=
  bits_byte (s3 q) (s2 q) (s1 q) (s0 q) (s5 r) (s4 r) (s3 r) (s2 r).
Definition join3 (r s : sextet) : byte :=
  bits_byte (s1 r) (s0 r) (s5 s) (s4 s) (s3 s) (s2 s) (s1 s) (s0 s).

Lemma join_quantum x y z p q r s :
  quantum x y z = (p, q, r, s) → join1 p q = x ∧ join2 q r = y ∧ join3 r s = z.
Proof.
  unfold quantum. pose proof (bits_byte_bits x) as Hx.
  pose proof (bits_byte_bits y) as Hy. pose proof (bits_byte_bits z) as Hz.
  destruct (byte_bits x) as [[[[[[[? ?] ?] ?] ?] ?] ?] ?].
  destruct (byte_bits y) as [[[[[[[? ?] ?] ?] ?] ?] ?] ?].
  destruct (byte_bits z) as [[[[[[[? ?] ?] ?] ?] ?] ?] ?].
  intros [= <- <- <- <-]. done.
Qed.

Definition pad : ascii := "="%char.

Fixpoint EncodeToString (b : bytes) : string :=
  match b with
  | [] => ""
  | [x] =>
      let '(p, q, _, _) := quantum x Byte.x00 Byte.x00 in
      String (enc_sextet p) (String (enc_sextet q) (String pad (String pad "")))
  | [x; y] =>
      let '(p, q, r, _) := quantum x y Byte.x00 in
      String (enc_sextet p) (String (enc_sextet q) (String (enc_sextet r) (String pad "")))
  | x :: y :: z :: b =>
      let '(p, q, r, s) := quantum x y z in
      String (enc_sextet p) (String (enc_sextet q) (String (enc_sextet r)
        (String (enc_sextet s) (EncodeToString b))))
  end.

Fixpoint decode_quanta (s : string) : result bytes :=
  match s with
  | "" => Ok []
  | String c0 (String c1 (String c2 (String c3 t))) =>
      match dec_sextet c0, dec_sextet c1 with
      | Some p, Some q =>
          if Ascii.eqb c2 pad then
            if Ascii.eqb c3 pad && String.eqb t "" then Ok [join1 p q] else Err CorruptInput
          else match dec_sextet c2 with
          | Some r =>
              if Ascii.eqb c3 pad then
                if String.eqb t "" then Ok [join1 p q; join2 q r] else Err CorruptInput
              else match dec_sextet c3 with
              | Some s =>
                  match decode_quanta t with
                  | Ok b => Ok (join1 p q :: join2 q r :: join3 r s :: b)
                  | Err e => Err e
                  end
              | None => Err CorruptInput
              end
          | None => Err CorruptInput
          end
      | _, _ => Err CorruptInput
      end
  | _ => Err CorruptInput
  end.

Fixpoint remove_newlines (s : string) : string :=
  match s with
  | "" => ""
  | String c s =>
      if Ascii.eqb c "010" || Ascii.eqb c "013" then remove_newlines s
      else String c (remove_newlines s)
  end.

Definition DecodeString (s : string) : result bytes := decode_quanta (remove_newlines s).

Lemma bytes_ind3 (P : bytes → Prop) :
  P [] → (∀ x, P [x]) → (∀ x y, P [x; y]) → (∀ x y z b, P b → P (x :: y :: z :: b)) →
  ∀ b, P b.
Proof.
  intros H0 H1 H2 H3. fix IH 1. intros [|x [|y [|z b]]]; [done|apply H1|apply H2|apply H3, IH].
Qed.

Lemma remove_newlines_cons s t :
  remove_newlines (String (enc_sextet s) t) = String (enc_sextet s) (remove_newlines t).
Proof.
  destruct (enc_sextet_not_special s) as (_&H1%Ascii.eqb_neq&H2%Ascii.eqb_neq).
  simpl. by rewrite H1, H2.
Qed.

Lemma enc_sextet_not_pad s : Ascii.eqb (enc_sextet s) pad = false.
Proof. apply Ascii.eqb_neq, enc_sextet_not_special. Qed.

Lemma decode_quanta_three p q r s t :
  decode_quanta (String (enc_sextet p) (String (enc_sextet q) (String (enc_sextet r)
    (String (enc_sextet s) t))))
  = (λ b, join1 p q :: join2 q r :: join3 r s :: b) <$> decode_quanta t.
Proof. cbn [decode_quanta]. by rewrite !dec_enc_sextet, !enc_sextet_not_pad. Qed.

Lemma decode_quanta_one p q :
  decode_quanta (String (enc_sextet p) (String (enc_sextet q) (String pad (String pad ""))))
  = Ok [join1 p q].
Proof. cbn [decode_quanta]. by rewrite !dec_enc_sextet. Qed.

Lemma decode_quanta_two p q r :
  decode_quanta (String (enc_sextet p) (String (enc_sextet q) (String (enc_sextet r)
    (String pad ""))))
  = Ok [join1 p q; join2 q r].
Proof. cbn [decode_quanta]. by rewrite !dec_enc_sextet, !enc_sextet_not_pad. Qed.

#[local] Opaque enc_sextet dec_sextet quantum.

(** Decoding recovers what was encoded. *)
Lemma decode_encode b : DecodeString (EncodeToString b) = Ok b.
Proof.
  unfold DecodeString. induction b as [|x|x y|x y z b IH] using bytes_ind3; [done|..].
  - simpl. destruct (quantum x Byte.x00 Byte.x00) as [[[p q] r] s] eqn:E.
    apply join_quantum in E as (Hx&_). rewrite !remove_newlines_cons.
    by rewrite <- Hx, <- (decode_quanta_one p q).
  - simpl. destruct (quantum x y Byte.x00) as [[[p q] r] s] eqn:E.
    apply join_quantum in E as (Hx&Hy&_). rewrite !remove_newlines_cons.
    by rewrite <- Hx, <- Hy, <- (decode_quanta_two p q r).
  - cbn [EncodeToString]. destruct (quantum x y z) as [[[p q] r] s] eqn:E.
    apply join_quantum in E as (Hx&Hy&Hz). rewrite !remove_newlines_cons.
    by rewrite decode_quanta_three, IH, Hx, Hy, Hz.
Qed.

Lemma EncodeToString_inj b c : EncodeToString b = EncodeToString c → b = c.
Proof.
  intros H%(f_equal DecodeString). rewrite !decode_encode in H. by injection H.
Qed.

#[export] Hint Rewrite decode_encode : hostapi.

Example encode_ex : EncodeToString (bytes_of "light wor") = "bGlnaHQgd29y".
Proof. reflexivity. Qed.
Example encode_pad_ex : EncodeToString (bytes_of "ls") = "bHM=".
Proof. reflexivity. Qed.
Example decode_garbage_ex : DecodeString "bHM=x" = Err CorruptInput ∧ DecodeString "bHM" = Err CorruptInput.
Proof. split; reflexivity. Qed.
