(* ===== verification/Json.v ===== *)
(** * [encoding/json] of Go 1.7: texts

    The text of a JSON value and back: [print] is what [Marshal] writes for a
    value of each kind (compact, with the escapes that keep the text safe in
    HTML), [parse] the recursive descent the library's scanner and decoder
    make of a text: white space, literals, numbers, strings with their escapes
    and surrogate pairs, invalid UTF-8 replaced.  A number is kept as its
    literal.

    [parse_print]: a value is read back from its text, when its strings are
    valid UTF-8.  [parse_fuel]: the fuel of the parser is enough on every
    text. *)

From Stdlib Require Import Ascii NArith ZArith DecimalString Decimal.
From S2P Require Import Prelude GoStd.

Inductive json :=
| JNull
| JBool (b : bool)
| JNumber (literal : string)
| JString (s : string)
| JArray (l : list json)
| JObject (l : list (string * json)).

(** Induction with the hypothesis for the elements of arrays and objects. *)
Lemma json_nested_ind (P : json → Prop) :
  P JNull → (∀ b, P (JBool b)) → (∀ n, P (JNumber n)) → (∀ s, P (JString s)) →
  (∀ l, Forall P l → P (JArray l)) → (∀ l, Forall (λ kv, P kv.2) l → P (JObject l)) →
  ∀ j, P j.
Proof.
  intros H0 Hb Hn Hs Ha Ho. fix IH 1. intros [|b|n|s|l|l]; [exact H0|apply Hb|apply Hn|apply Hs|apply Ha|apply Ho].
  - induction l as [|j l IHl]; constructor; [apply IH|exact IHl].
  - induction l as [|[k j] l IHl]; constructor; [apply IH|exact IHl].
Qed.

(** ** Bytes and UTF-8 *)

Definition in_range (lo hi : N) (c : ascii) : bool := (lo <=? N_of_ascii c)%N && (N_of_ascii c <=? hi)%N.

Definition ascii_byte (c : ascii) : bool := (N_of_ascii c <? 128)%N.
Definition control (c : ascii) : bool := (N_of_ascii c <? 32)%N.

Definition cont (c : ascii) : bool := in_range 128 191 c.

(** The sequences [utf8.DecodeRune] accepts, of two, three and four bytes. *)
Definition two (c d : ascii) : bool := in_range 194 223 c && cont d.
Definition three (c d e : ascii) : bool :=
  (in_range 224 224 c && in_range 160 191 d
   || (in_range 225 236 c || in_range 238 239 c) && cont d
   || in_range 237 237 c && in_range 128 159 d) && cont e.
Definition four (c d e f : ascii) : bool :=
  (in_range 240 240 c && in_range 144 191 d
   || in_range 241 243 c && cont d
   || in_range 244 244 c && in_range 128 143 d) && cont e && cont f.

(** Valid UTF-8. *)
Inductive utf8 : string → Prop :=
| utf8_nil : utf8 ""
| utf8_one c s : ascii_byte c = true → utf8 s → utf8 (String c s)
| utf8_two c d s : two c d = true → utf8 s → utf8 (String c (String d s))
| utf8_three c d e s : three c d e = true → utf8 s → utf8 (String c (String d (String e s)))
| utf8_four c d e f s :
    four c d e f = true → utf8 s → utf8 (String c (String d (String e (String f s)))).

Definition chr (n : N) : string := String (ascii_of_N n) "".

(** [utf8.EncodeRune]; surrogates and what is out of range become U+FFFD. *)
Definition replacement : string := chr 239 +:+ chr 191 +:+ chr 189.

Definition encode_rune (r : N) : string :=
  (if r <? 128 then chr r
   else if r <? 2048 then chr (192 + r / 64) +:+ chr (128 + r mod 64)
   else if (55296 <=? r) && (r <=? 57343) then replacement
   else if r <? 65536 then chr (224 + r / 4096) +:+ chr (128 + (r / 64) mod 64) +:+ chr (128 + r mod 64)
   else if r <=? 1114111 then
     chr (240 + r / 262144) +:+ chr (128 + (r / 4096) mod 64) +:+ chr (128 + (r / 64) mod 64) +:+ chr (128 + r mod 64)
   else replacement)%N.

(** ** Strings *)

Definition dquote : ascii := "034"%char.
Definition backslash : ascii := "092"%char.

Definition hex_char (n : N) : ascii := default "0"%char (String.get (N.to_nat n) "0123456789abcdef").

Definition escaped (c : ascii) : string := String backslash (String c "").

(** A byte below 128 in a string. *)
Definition quote_byte (c : ascii) : string :=
  if negb (control c) && negb (Ascii.eqb c backslash || Ascii.eqb c dquote || has_char c "<>&")
  then String c ""
  else if Ascii.eqb c backslash || Ascii.eqb c dquote then escaped c
  else if Ascii.eqb c "010" then escaped "n"
  else if Ascii.eqb c "013" then escaped "r"
  else if Ascii.eqb c "009" then escaped "t"
  else escaped "u" +:+ "00" +:+
       String (hex_char (N_of_ascii c / 16)) (String (hex_char (N_of_ascii c mod 16)) "").

(** A sequence of three bytes: U+2028 and U+2029 are escaped. *)
Definition quote_three (c d e : ascii) : string :=
  if in_range 226 226 c && in_range 128 128 d && in_range 168 169 e
  then escaped "u" +:+ "202" +:+ String (hex_char (N_of_ascii e mod 16)) ""
  else String c (String d (String e "")).

Definition quote_invalid : string := escaped "u" +:+ "fffd".

Fixpoint quote_body (s : string) : string :=
  match s with
  | "" => ""
  | String c t =>
      if ascii_byte c then quote_byte c +:+ quote_body t
      else match t with
      | "" => quote_invalid +:+ quote_body t
      | String d u =>
          if two c d then String c (String d (quote_body u))
          else match u with
          | "" => quote_invalid +:+ quote_body t
          | String e v =>
              if three c d e then quote_three c d e +:+ quote_body v
              else match v with
              | "" => quote_invalid +:+ quote_body t
              | String f w =>
                  if four c d e f then String c (String d (String e (String f (quote_body w))))
                  else quote_invalid +:+ quote_body t
              end
          end
      end
  end.

Definition quote (s : string) : string := String dquote (quote_body s +:+ String dquote "").

Definition hex_value (c : ascii) : option N :=
  let n := N_of_ascii c in
  if in_range 48 57 c then Some (n - 48)%N
  else if in_range 97 102 c then Some (n - 87)%N
  else if in_range 65 70 c then Some (n - 55)%N
  else None.

Definition hex4 (a b c d : ascii) : option N :=
  a ← hex_value a; b ← hex_value b; c ← hex_value c; d ← hex_value d;
  Some (4096 * a + 256 * b + 16 * c + d)%N.

Definition surrogate (r : N) : bool := ((55296 <=? r) && (r <=? 57343))%N.

(** [utf16.DecodeRune]. *)
Definition surrogate_pair (r1 r2 : N) : option N :=
  (if (55296 <=? r1) && (r1 <? 56320) && (56320 <=? r2) && (r2 <? 57344)
   then Some (65536 + (r1 - 55296) * 1024 + (r2 - 56320))
   else None)%N.

(** The byte a backslash and a letter stand for. *)
Definition simple_escape (c : ascii) : option ascii :=
  if Ascii.eqb c dquote || Ascii.eqb c backslash || Ascii.eqb c "/" then Some c
  else if Ascii.eqb c "b" then Some "008"%char
  else if Ascii.eqb c "f" then Some "012"%char
  else if Ascii.eqb c "n" then Some "010"%char
  else if Ascii.eqb c "r" then Some "013"%char
  else if Ascii.eqb c "t" then Some "009"%char
  else None.

Definition push (p : string) (r : option (string * string)) : option (string * string) :=
  match r with Some (s, rest) => Some (p +:+ s, rest) | None => None end.

(** A string after its opening quote, and what follows the closing one. *)
Fixpoint unquote (s : string) : option (string * string) :=
  match s with
  | "" => None
  | String c t =>
      if Ascii.eqb c dquote then Some ("", t)
      else if Ascii.eqb c backslash then
        match t with
        | "" => None
        | String e u =>
            if Ascii.eqb e "u" then
              match u with
              | String a (String b (String c' (String d v))) =>
                  match hex4 a b c' d with
                  | None => None
                  | Some r =>
                      if surrogate r then
                        match v with
                        | String x (String y (String a' (String b' (String c'' (String d' w))))) =>
                            match (if Ascii.eqb x backslash && Ascii.eqb y "u" then hex4 a' b' c'' d' else None)
                                  ≫= surrogate_pair r with
                            | Some rune => push (encode_rune rune) (unquote w)
                            | None => push replacement (unquote v)
                            end
                        | _ => push replacement (unquote v)
                        end
                      else push (encode_rune r) (unquote v)
                  end
              | _ => None
              end
            else match simple_escape e with
                 | Some x => push (String x "") (unquote u)
                 | None => None
                 end
        end
      else if control c then None
      else if ascii_byte c then push (String c "") (unquote t)
      else match t with
      | "" => push replacement (unquote t)
      | String d u =>
          if two c d then push (String c (String d "")) (unquote u)
          else match u with
          | "" => push replacement (unquote t)
          | String e v =>
              if three c d e then push (String c (String d (String e ""))) (unquote v)
              else match v with
              | "" => push replacement (unquote t)
              | String f w =>
                  if four c d e f then push (String c (String d (String e (String f "")))) (unquote w)
                  else push replacement (unquote t)
              end
          end
      end
  end.

(** ** Numbers *)

Definition is_digit (c : ascii) : bool := in_range 48 57 c.

Fixpoint span_digits (s : string) : string * string :=
  match s with
  | "" => ("", "")
  | String c t =>
      if is_digit c then let '(ds, rest) := span_digits t in (String c ds, rest) else ("", s)
  end.

(** One digit or more. *)
Definition digits1 (s : string) : option (string * string) :=
  match span_digits s with ("", _) => None | p => Some p end.

Definition integer_part (s : string) : option (string * string) :=
  match s with
  | String c t => if Ascii.eqb c "0" then Some ("0", t) else digits1 s
  | "" => None
  end.

Definition fraction_part (s : string) : option (string * string) :=
  match s with
  | String c t =>
      if Ascii.eqb c "." then '(ds, rest) ← digits1 t; Some (String "." ds, rest) else Some ("", s)
  | "" => Some ("", "")
  end.

Definition exponent_part (s : string) : option (string * string) :=
  match s with
  | String c t =>
      if Ascii.eqb c "e" || Ascii.eqb c "E" then
        match t with
        | String g u =>
            if Ascii.eqb g "+" || Ascii.eqb g "-"
            then '(ds, rest) ← digits1 u; Some (String c (String g ds), rest)
            else '(ds, rest) ← digits1 t; Some (String c ds, rest)
        | "" => None
        end
      else Some ("", s)
  | "" => Some ("", "")
  end.

Definition minus_part (s : string) : string * string :=
  match s with
  | String c t => if Ascii.eqb c "-" then ("-", t) else ("", s)
  | "" => ("", "")
  end.

Definition number (s : string) : option (string * string) :=
  let '(sign, s) := minus_part s in
  '(i, s) ← integer_part s;
  '(f, s) ← fraction_part s;
  '(e, s) ← exponent_part s;
  Some (sign +:+ i +:+ f +:+ e, s).

(** ** Values *)

Definition space (c : ascii) : bool :=
  Ascii.eqb c " " || Ascii.eqb c "009" || Ascii.eqb c "013" || Ascii.eqb c "010".

Fixpoint skip_ws (s : string) : string :=
  match s with
  | String c t => if space c then skip_ws t else s
  | "" => ""
  end.

(** The rest after a byte that has to come next, white space skipped. *)
Definition expect (c : ascii) (s : string) : option string :=
  match skip_ws s with
  | String d t => if Ascii.eqb d c then Some t else None
  | "" => None
  end.

Fixpoint parse_value (n : nat) (s : string) : option (json * string) :=
  match n with
  | 0 => None
  | S n =>
      match skip_ws s with
      | "" => None
      | String c t =>
          if Ascii.eqb c dquote then '(x, r) ← unquote t; Some (JString x, r)
          else if Ascii.eqb c "[" then
            match expect "]" t with
            | Some r => Some (JArray [], r)
            | None => '(l, r) ← parse_elements n t; Some (JArray l, r)
            end
          else if Ascii.eqb c "{" then
            match expect "}" t with
            | Some r => Some (JObject [], r)
            | None => '(l, r) ← parse_members n t; Some (JObject l, r)
            end
          else match strip_prefix "null" (String c t), strip_prefix "true" (String c t),
                     strip_prefix "false" (String c t) with
          | Some r, _, _ => Some (JNull, r)
          | _, Some r, _ => Some (JBool true, r)
          | _, _, Some r => Some (JBool false, r)
          | _, _, _ => '(l, r) ← number (String c t); Some (JNumber l, r)
          end
      end
  end
with parse_elements (n : nat) (s : string) : option (list json * string) :=
  match n with
  | 0 => None
  | S n =>
      '(v, r) ← parse_value n s;
      match expect "," r, expect "]" r with
      | Some r, _ => '(l, r) ← parse_elements n r; Some (v :: l, r)
      | None, Some r => Some ([v], r)
      | None, None => None
      end
  end
with parse_members (n : nat) (s : string) : option (list (string * json) * string) :=
  match n with
  | 0 => None
  | S n =>
      r ← expect dquote s;
      '(k, r) ← unquote r;
      r ← expect ":" r;
      '(v, r) ← parse_value n r;
      match expect "," r, expect "}" r with
      | Some r, _ => '(l, r) ← parse_members n r; Some ((k, v) :: l, r)
      | None, Some r => Some ([(k, v)], r)
      | None, None => None
      end
  end.

(** Twice the length covers a call for every byte and every level. *)
Definition fuel (s : string) : nat := 2 * String.length s + 2.

Definition SyntaxError := OtherError "invalid JSON".

(** A whole text: one value, with white space around it. *)
Definition parse (s : string) : result json :=
  match parse_value (fuel s) s with
  | Some (j, r) => if String.eqb (skip_ws r) "" then Ok j else Err SyntaxError
  | None => Err SyntaxError
  end.

Fixpoint print (j : json) : string :=
  match j with
  | JNull => "null"
  | JBool b => if b then "true" else "false"
  | JNumber l => l
  | JString s => quote s
  | JArray l => String "[" (Join ","%char (List.map print l) +:+ "]")
  | JObject l => String "{" (Join ","%char (List.map (λ kv, quote kv.1 +:+ String ":" (print kv.2)) l) +:+ "}")
  end.

Definition q : string := String dquote "".

Example parse_ex :
  parse ("{" +:+ q +:+ "a" +:+ q +:+ " : [1, -2.5e3 ,null, true], " +:+ q +:+ q +:+ ":" +:+ q +:+ "\u00e9\n\ud83d\ude00" +:+ q +:+ "}")
  = Ok (JObject [("a", JArray [JNumber "1"; JNumber "-2.5e3"; JNull; JBool true]);
                 ("", JString (chr 195 +:+ chr 169 +:+ chr 10 +:+ chr 240 +:+ chr 159 +:+ chr 152 +:+ chr 128))]).
Proof. vm_compute. reflexivity. Qed.

Example parse_bad_ex :
  parse "[1,]" = Err SyntaxError ∧ parse "01" = Err SyntaxError ∧ parse "" = Err SyntaxError ∧
  parse "1 2" = Err SyntaxError ∧ parse "[1" = Err SyntaxError ∧ parse "1." = Err SyntaxError.
Proof. vm_compute. done. Qed.

(** ** Lemmas on strings *)

Lemma push_push p r q' : push p (push r q') = push (p +:+ r) q'.
Proof. destruct q' as [[s t]|]; [|done]. simpl. by rewrite app_assoc_str. Qed.

Lemma unquote_ascii c t :
  ascii_byte c = true → unquote (quote_byte c +:+ t) = push (String c "") (unquote t).
Proof. destruct c as [[] [] [] [] [] [] [] []]; try discriminate; reflexivity. Qed.

Lemma in_range_eq n c : in_range n n c = true → c = ascii_of_N n.
Proof.
  unfold in_range. rewrite andb_true_iff, !N.leb_le. intros [H1 H2].
  rewrite <- (ascii_N_embedding c). f_equal. lia.
Qed.

(** The first byte of a longer sequence is none of the bytes a string treats
    specially. *)
Lemma lead_plain c lo hi :
  in_range lo hi c = true → (194 <= lo)%N →
  Ascii.eqb c dquote = false ∧ Ascii.eqb c backslash = false ∧ control c = false ∧ ascii_byte c = false.
Proof.
  unfold in_range, control, ascii_byte. rewrite andb_true_iff, !N.leb_le. intros [H1 H2] Hlo.
  split_and!; [apply Ascii.eqb_neq; intros ->; simpl in *; lia..|apply N.ltb_ge; lia|apply N.ltb_ge; lia].
Qed.

Definition plain_lead (c : ascii) : Prop :=
  Ascii.eqb c dquote = false ∧ Ascii.eqb c backslash = false ∧ control c = false ∧ ascii_byte c = false.

Ltac leads := repeat match goal with
  | H : _ || _ = true |- _ => apply orb_true_iff in H as [H|H]
  | H : _ && _ = true |- _ => apply andb_true_iff in H as [H ?]
  end.

Lemma two_lead c d : two c d = true → plain_lead c.
Proof. unfold two. intros H. leads. by eapply lead_plain. Qed.
Lemma three_lead c d e : three c d e = true → plain_lead c.
Proof. unfold three. intros H. leads; by eapply lead_plain. Qed.
Lemma four_lead c d e f : four c d e f = true → plain_lead c.
Proof. unfold four. intros H. leads; by eapply lead_plain. Qed.

(** A sequence has one length only. *)
Lemma not_in_range lo hi lo' hi' c :
  in_range lo hi c = true → (hi < lo' ∨ hi' < lo)%N → in_range lo' hi' c = false.
Proof.
  unfold in_range. rewrite andb_true_iff, !N.leb_le. intros [H1 H2] H.
  apply andb_false_iff. rewrite !N.leb_gt. lia.
Qed.

Lemma three_not_two c d e : three c d e = true → two c d = false.
Proof.
  unfold three, two. intros H. leads; apply andb_false_iff; left; eapply not_in_range; try done; lia.
Qed.
Lemma four_not_two c d e f : four c d e f = true → two c d = false.
Proof.
  unfold four, two. intros H. leads; apply andb_false_iff; left; eapply not_in_range; try done; lia.
Qed.
Lemma four_not_three c d e f : four c d e f = true → three c d e = false.
Proof.
  unfold four, three. intros H.
  assert (∀ lo hi, (hi < 240)%N → in_range lo hi c = false) as Hr.
  { intros lo hi Hlt. leads; eapply not_in_range; try done; lia. }
  by rewrite !Hr.
Qed.

(** A string is read back, and what follows it is left. *)
Lemma unquote_quote_body s rest :
  utf8 s → unquote (quote_body s +:+ String dquote rest) = Some (s, rest).
Proof.
  induction 1 as [|c s Hc _ IH|c d s Hc _ IH|c d e s Hc _ IH|c d e f s Hc _ IH].
  - done.
  - cbn [quote_body]. by rewrite Hc, app_assoc_str, unquote_ascii, IH.
  - destruct (two_lead _ _ Hc) as (H1&H2&H3&H4). cbn [quote_body]. rewrite H4, Hc, !cons_app_str.
    cbn [unquote]. by rewrite H1, H2, H3, H4, Hc, IH.
  - destruct (three_lead _ _ _ Hc) as (H1&H2&H3&H4). cbn [quote_body].
    rewrite H4, (three_not_two _ _ _ Hc), Hc, app_assoc_str. unfold quote_three.
    destruct (in_range 226 226 c && in_range 128 128 d && in_range 168 169 e) eqn:H28.
    + apply andb_true_iff in H28 as [[->%in_range_eq ->%in_range_eq]%andb_true_iff He].
      assert (e = ascii_of_N 168 ∨ e = ascii_of_N 169) as [-> | ->].
      { unfold in_range in He. rewrite andb_true_iff, !N.leb_le in He.
        rewrite <- (ascii_N_embedding e). assert (N_of_ascii e = 168 ∨ N_of_ascii e = 169)%N as [-> | ->] by lia; auto. }
      * transitivity (push (encode_rune 8232) (unquote (quote_body s +:+ String dquote rest))); [reflexivity|].
        by rewrite IH.
      * transitivity (push (encode_rune 8233) (unquote (quote_body s +:+ String dquote rest))); [reflexivity|].
        by rewrite IH.
    + rewrite !cons_app_str. change ("" +:+ ?t) with t. cbn [unquote].
      by rewrite H1, H2, H3, H4, (three_not_two _ _ _ Hc), Hc, IH.
  - destruct (four_lead _ _ _ _ Hc) as (H1&H2&H3&H4). cbn [quote_body].
    rewrite H4, (four_not_two _ _ _ _ Hc), (four_not_three _ _ _ _ Hc), Hc, !cons_app_str. cbn [unquote].
    by rewrite H1, H2, H3, H4, (four_not_two _ _ _ _ Hc), (four_not_three _ _ _ _ Hc), Hc, IH.
Qed.

(** ** Lemmas on numbers *)

(** What may follow a number: nothing that would continue it. *)
Definition stop (rest : string) : Prop :=
  match rest with
  | "" => True
  | String c _ => is_digit c = false ∧ Ascii.eqb c "." = false ∧ Ascii.eqb c "e" = false ∧ Ascii.eqb c "E" = false
  end.

Lemma nil_app_str s : "" +:+ s = s.
Proof. done. Qed.

(** Concatenations to the right, with the known bytes in front. *)
Ltac norm_str := repeat first [rewrite app_assoc_str | rewrite cons_app_str | rewrite nil_app_str].

Lemma span_digits_stop rest : stop rest → span_digits rest = ("", rest).
Proof. destruct rest as [|c rest]; [done|]. intros (Hd&_). simpl. by rewrite Hd. Qed.

Lemma span_digits_app s rest :
  stop rest → span_digits (s +:+ rest) = ((span_digits s).1, (span_digits s).2 +:+ rest).
Proof.
  intros Hr. induction s as [|c s IH]; [by rewrite nil_app_str, span_digits_stop|].
  rewrite cons_app_str. simpl. destruct (is_digit c); [|done].
  rewrite IH. by destruct (span_digits s).
Qed.

Lemma digits1_app s rest ds r :
  stop rest → digits1 s = Some (ds, r) → digits1 (s +:+ rest) = Some (ds, r +:+ rest).
Proof.
  intros Hr. unfold digits1. rewrite span_digits_app by done. destruct (span_digits s) as [[|c d] t]; [done|].
  by intros [= <- <-].
Qed.

Lemma integer_part_app s rest i r :
  stop rest → integer_part s = Some (i, r) → integer_part (s +:+ rest) = Some (i, r +:+ rest).
Proof.
  intros Hr. destruct s as [|c s]; [done|]. rewrite cons_app_str. simpl.
  destruct (Ascii.eqb c "0"); [by intros [= <- <-]|]. rewrite <- cons_app_str. by apply digits1_app.
Qed.

Lemma fraction_part_app s rest f r :
  stop rest → fraction_part s = Some (f, r) → fraction_part (s +:+ rest) = Some (f, r +:+ rest).
Proof.
  intros Hr. destruct s as [|c s].
  - intros [= <- <-]. rewrite !nil_app_str. destruct rest as [|c rest]; [done|]. destruct Hr as (_&Hd&_).
    simpl. by rewrite Hd.
  - rewrite cons_app_str. simpl. destruct (Ascii.eqb c "."); [|by intros [= <- <-]].
    destruct (digits1 s) as [[ds t]|] eqn:Hs; [|done]. intros [= <- <-].
    by rewrite (digits1_app _ _ _ _ Hr Hs).
Qed.

Lemma exponent_part_app s rest e r :
  stop rest → exponent_part s = Some (e, r) → exponent_part (s +:+ rest) = Some (e, r +:+ rest).
Proof.
  intros Hr. destruct s as [|c s].
  - intros [= <- <-]. rewrite !nil_app_str. destruct rest as [|c rest]; [done|]. destruct Hr as (_&_&He&HE).
    simpl. by rewrite He, HE.
  - rewrite cons_app_str. simpl. destruct (Ascii.eqb c "e" || Ascii.eqb c "E"); [|by intros [= <- <-]].
    destruct s as [|g s]; [done|]. rewrite cons_app_str. destruct (Ascii.eqb g "+" || Ascii.eqb g "-").
    + destruct (digits1 s) as [[ds t]|] eqn:Hs; [|done]. intros [= <- <-].
      by rewrite (digits1_app _ _ _ _ Hr Hs).
    + destruct (digits1 (String g s)) as [[ds t]|] eqn:Hs; [|done]. intros [= <- <-].
      by rewrite <- cons_app_str, (digits1_app _ _ _ _ Hr Hs).
Qed.

Lemma number_app s rest l r :
  stop rest → number s = Some (l, r) → number (s +:+ rest) = Some (l, r +:+ rest).
Proof.
  intros Hr. unfold number.
  assert (minus_part s = ("", s) ∧ integer_part s = None ∨
          minus_part (s +:+ rest) = ((minus_part s).1, (minus_part s).2 +:+ rest)) as [[-> ->]|Hm]; [|done|].
  { destruct s as [|c s]; [by left|]. right. rewrite cons_app_str. simpl. by destruct (Ascii.eqb c "-"). }
  rewrite Hm. destruct (minus_part s) as [m s']. simpl.
  destruct (integer_part s') as [[i s1]|] eqn:H1; [|done]. simpl.
  destruct (fraction_part s1) as [[f s2]|] eqn:H2; [|done]. simpl.
  destruct (exponent_part s2) as [[e s3]|] eqn:H3; [|done]. simpl. intros [= <- <-].
  rewrite (integer_part_app _ _ _ _ Hr H1). simpl. rewrite (fraction_part_app _ _ _ _ Hr H2). simpl.
  by rewrite (exponent_part_app _ _ _ _ Hr H3).
Qed.

(** A literal is a number and nothing else; it begins with a minus or a digit. *)
Definition literal (l : string) : Prop := number l = Some (l, "").

Lemma number_head l x : number l = Some x → ∃ c t, l = String c t ∧ (c = "-"%char ∨ is_digit c = true).
Proof.
  destruct l as [|c l]; [done|]. unfold number. simpl. intros H. exists c, l. split; [done|].
  destruct (Ascii.eqb_spec c "-") as [->|_]; [by left|right]. simpl in H.
  destruct (Ascii.eqb_spec c "0") as [->|_]; [done|]. unfold digits1 in H. simpl in H.
  by destruct (is_digit c).
Qed.

(** The conditions a value begins a parse with, for its first byte. *)
Lemma number_head_plain c :
  c = "-"%char ∨ is_digit c = true →
  space c = false ∧ Ascii.eqb c dquote = false ∧ Ascii.eqb c "[" = false ∧ Ascii.eqb c "{" = false ∧
  Ascii.eqb c "]" = false ∧ Ascii.eqb c "}" = false ∧ Ascii.eqb c "n" = false ∧ Ascii.eqb c "t" = false ∧ Ascii.eqb c "f" = false.
Proof.
  intros Hc. destruct c as [[] [] [] [] [] [] [] []]; destruct Hc as [Hc|Hc]; try discriminate; done.
Qed.

(** The text of an integer is a number. *)
Lemma span_digits_uint u : span_digits (NilEmpty.string_of_uint u) = (NilEmpty.string_of_uint u, "").
Proof.
  induction u as [|u IH|u IH|u IH|u IH|u IH|u IH|u IH|u IH|u IH|u IH]; [done|..];
    cbn [NilEmpty.string_of_uint span_digits]; by rewrite IH.
Qed.

Lemma integer_part_uint u :
  leading_zero u = false → u ≠ Nil → integer_part (NilEmpty.string_of_uint u) = Some (NilEmpty.string_of_uint u, "").
Proof.
  intros Hl Hn. destruct u as [|u|u|u|u|u|u|u|u|u|u]; try done;
    unfold integer_part, digits1; cbn [NilEmpty.string_of_uint span_digits]; by rewrite span_digits_uint.
Qed.

Lemma Itoa_literal z : literal (Itoa z).
Proof.
  unfold literal, number. destruct (Itoa_cases z) as [[_ ->]|(u&s&Hl&Hn&->&[[-> _]|[-> _]])]; [done|..].
  - assert (minus_part (NilEmpty.string_of_uint u) = ("", NilEmpty.string_of_uint u)) as -> by by destruct u.
    rewrite integer_part_uint by done. cbn. by rewrite app_nil_r_str.
  - cbn [minus_part Ascii.eqb Bool.eqb]. rewrite integer_part_uint by done. cbn. by rewrite app_nil_r_str.
Qed.

(** ** Reading back what was printed *)

Inductive json_ok : json → Prop :=
| ok_null : json_ok JNull
| ok_bool b : json_ok (JBool b)
| ok_number l : literal l → json_ok (JNumber l)
| ok_string s : utf8 s → json_ok (JString s)
| ok_array l : Forall json_ok l → json_ok (JArray l)
| ok_object l : Forall (λ kv, utf8 kv.1 ∧ json_ok kv.2) l → json_ok (JObject l).

Lemma print_head j :
  json_ok j → ∃ c t, print j = String c t ∧ space c = false ∧ Ascii.eqb c "]" = false.
Proof.
  destruct 1 as [|[]|l Hl| | |]; simpl; try by eexists _, _.
  destruct (number_head _ _ Hl) as (c&t&->&Hc). apply number_head_plain in Hc as (?&?&?&?&?&_).
  by exists c, t.
Qed.

Definition reads (j : json) : Prop :=
  ∀ rest, stop rest → ∃ m, ∀ n, m ≤ n → parse_value n (print j +:+ rest) = Some (j, rest).

Lemma expect_here c rest : space c = false → expect c (String c rest) = Some rest.
Proof. intros Hc. unfold expect. simpl. by rewrite Hc, Ascii.eqb_refl. Qed.

Lemma expect_other c d rest : space d = false → Ascii.eqb d c = false → expect c (String d rest) = None.
Proof. intros Hd Hc. unfold expect. simpl. by rewrite Hd, Hc. Qed.

Lemma parse_elements_print v l rest :
  Forall reads (v :: l) →
  ∃ m, ∀ n, m ≤ n →
    parse_elements n (Join ","%char (List.map print (v :: l)) +:+ String "]" rest) = Some (v :: l, rest).
Proof.
  revert v. induction l as [|w l IH]; intros v [Hv Hl]%Forall_cons.
  - destruct (Hv (String "]" rest)) as [m Hm]; [done|]. exists (S m). intros [|n] Hn; [lia|].
    cbn [List.map Join parse_elements]. rewrite Hm by lia. cbn [mbind option_bind].
    rewrite expect_other by done. by rewrite expect_here.
  - destruct (IH w Hl) as [m2 Hm2].
    destruct (Hv (String "," (Join ","%char (List.map print (w :: l)) +:+ String "]" rest))) as [m1 Hm1]; [done|].
    exists (S (m1 + m2)). intros [|n] Hn; [lia|].
    change (Join ","%char (List.map print (v :: w :: l)))
      with (print v +:+ String "," (Join ","%char (List.map print (w :: l)))).
    rewrite app_assoc_str, cons_app_str. cbn [parse_elements]. rewrite Hm1 by lia. cbn [mbind option_bind].
    rewrite expect_here by done. by rewrite Hm2 by lia.
Qed.

Definition print_member (kv : string * json) : string := quote kv.1 +:+ String ":" (print kv.2).

Lemma parse_members_print kv l rest :
  Forall (λ kv, utf8 kv.1 ∧ reads kv.2) (kv :: l) →
  ∃ m, ∀ n, m ≤ n →
    parse_members n (Join ","%char (List.map print_member (kv :: l)) +:+ String "}" rest) = Some (kv :: l, rest).
Proof.
  revert kv. induction l as [|w l IH]; intros [k v] [[Hk Hv] Hl]%Forall_cons; simpl in Hk, Hv.
  - destruct (Hv (String "}" rest)) as [m Hm]; [done|]. exists (S m). intros [|n] Hn; [lia|].
    cbn [List.map Join]. unfold print_member, quote. simpl fst. simpl snd.
    norm_str. cbn [parse_members]. rewrite expect_here by done. cbn [mbind option_bind].
    rewrite unquote_quote_body by done. cbn [mbind option_bind].
    rewrite expect_here by done. cbn [mbind option_bind].
    rewrite Hm by lia. cbn [mbind option_bind].
    rewrite expect_other by done. by rewrite expect_here.
  - destruct (IH w Hl) as [m2 Hm2].
    destruct (Hv (String "," (Join ","%char (List.map print_member (w :: l)) +:+ String "}" rest))) as [m1 Hm1]; [done|].
    exists (S (m1 + m2)). intros [|n] Hn; [lia|].
    change (Join ","%char (List.map print_member ((k, v) :: w :: l)))
      with (print_member (k, v) +:+ String "," (Join ","%char (List.map print_member (w :: l)))).
    unfold print_member at 1, quote. simpl fst. simpl snd.
    norm_str. cbn [parse_members]. rewrite expect_here by done. cbn [mbind option_bind].
    rewrite unquote_quote_body by done. cbn [mbind option_bind].
    rewrite expect_here by done. cbn [mbind option_bind].
    rewrite Hm1 by lia. cbn [mbind option_bind]. rewrite expect_here by done. by rewrite Hm2 by lia.
Qed.

Lemma skip_ws_head c t : space c = false → skip_ws (String c t) = String c t.
Proof. intros Hc. simpl. by rewrite Hc. Qed.

(** A value that begins with neither a quote nor a bracket nor a letter. *)
Lemma parse_value_number n l rest :
  literal l → stop rest → parse_value (S n) (l +:+ rest) = Some (JNumber l, rest).
Proof.
  intros Hl Hr. destruct (number_head _ _ Hl) as (c&t&->&Hc).
  apply number_head_plain in Hc as (H1&H2&H3&H4&_&_&H5&H6&H7). rewrite cons_app_str. cbn [parse_value].
  rewrite skip_ws_head, H2, H3, H4 by done.
  assert (∀ p, Ascii.eqb c p = false → ∀ s u, strip_prefix (String p s) (String c u) = None) as Hs.
  { intros p Hp s u. simpl. rewrite Ascii.eqb_sym in Hp. by rewrite Hp. }
  rewrite !Hs by done. rewrite <- cons_app_str, (number_app _ _ _ _ Hr Hl). done.
Qed.

Lemma json_reads j : json_ok j → reads j.
Proof.
  induction j as [|b|l|s|l IH|l IH] using json_nested_ind; intros Hj rest Hr; inversion Hj; subst.
  - exists 1. intros [|n] Hn; [lia|]. done.
  - exists 1. intros [|n] Hn; [lia|]. by destruct b.
  - exists 1. intros [|n] Hn; [lia|]. by apply parse_value_number.
  - exists 1. intros [|n] Hn; [lia|]. cbn [print]. unfold quote. norm_str. cbn [parse_value].
    rewrite skip_ws_head by done. cbn [Ascii.eqb]. by rewrite unquote_quote_body.
  - destruct l as [|v l]; [exists 1; intros [|n] Hn; [lia|done]|].
    assert (Forall reads (v :: l)) as Hreads.
    { apply Forall_forall. intros x Hx. rewrite Forall_forall in IH. apply IH; [done|].
      rewrite Forall_forall in H0. by apply H0. }
    destruct (parse_elements_print v l rest Hreads) as [m Hm].
    exists (S m). intros [|n] Hn; [lia|]. cbn [print]. norm_str. cbn [parse_value].
    rewrite skip_ws_head by done. specialize (Hm n ltac:(lia)).
    change ("]" +:+ rest) with (String "]" rest).
    apply Forall_cons in H0 as [Hv _]. destruct (print_head v Hv) as (c&t&Hp&Hc&Hb).
    assert (∃ u, Join ","%char (List.map print (v :: l)) +:+ String "]" rest = String c u) as [u Hu].
    { destruct l as [|w l]; cbn [List.map Join]; rewrite Hp; norm_str; by eexists. }
    rewrite Hu in *. rewrite (expect_other "]" c) by done. by rewrite Hm.
  - destruct l as [|kv l]; [exists 1; intros [|n] Hn; [lia|done]|].
    assert (Forall (λ kv, utf8 kv.1 ∧ reads kv.2) (kv :: l)) as Hreads.
    { apply Forall_forall. intros x Hx. rewrite Forall_forall in IH, H0. destruct (H0 x Hx). split; [done|by apply IH]. }
    destruct (parse_members_print kv l rest Hreads) as [m Hm].
    exists (S m). intros [|n] Hn; [lia|]. cbn [print]. fold print_member. norm_str. cbn [parse_value].
    rewrite skip_ws_head by done. specialize (Hm n ltac:(lia)).
    change (λ kv0 : string * json, quote kv0.1 +:+ String ":" (print kv0.2)) with print_member.
    change ("}" +:+ rest) with (String "}" rest).
    assert (∃ u, Join ","%char (List.map print_member (kv :: l)) +:+ String "}" rest = String dquote u) as [u Hu].
    { destruct l as [|w l]; cbn [List.map Join]; unfold print_member at 1, quote; norm_str; by eexists. }
    rewrite Hu in *. rewrite (expect_other "}" dquote) by done. by rewrite Hm.
Qed.

(** ** The fuel is enough *)

Lemma skip_ws_length s : String.length (skip_ws s) ≤ String.length s.
Proof. induction s as [|c s IH]; [done|]. simpl. destruct (space c); simpl; lia. Qed.

Lemma expect_length c s r : expect c s = Some r → String.length r < String.length s.
Proof.
  unfold expect. intros H. pose proof (skip_ws_length s) as Hl.
  destruct (skip_ws s) as [|d t]; [done|]. destruct (Ascii.eqb d c); [|done]. injection H as <-.
  simpl in Hl. lia.
Qed.

Lemma push_Some p o x r : push p o = Some (x, r) → ∃ y, o = Some (y, r).
Proof. destruct o as [[y t]|]; [|done]. intros [= <- <-]. by exists y. Qed.

Lemma unquote_length_aux n : ∀ s x r,
  String.length s ≤ n → unquote s = Some (x, r) → String.length r < String.length s.
Proof.
  induction n as [|n IH]; intros [|c t] x r Hs H; try done; [simpl in Hs; lia|].
  cbn [unquote] in H. cbn [String.length] in *.
  repeat (case_match; try discriminate H); subst;
    try (apply push_Some in H as [y H]; apply IH in H; cbn [String.length] in *; lia).
  injection H as _ <-. lia.
Qed.

Lemma unquote_length s x r : unquote s = Some (x, r) → String.length r < String.length s.
Proof. by apply (unquote_length_aux (String.length s)). Qed.

Lemma span_digits_length s : String.length (span_digits s).2 ≤ String.length s.
Proof.
  induction s as [|c s IH]; [done|]. simpl. destruct (is_digit c); [|done].
  destruct (span_digits s). simpl in *. lia.
Qed.

Lemma digits1_length s ds r : digits1 s = Some (ds, r) → String.length r < String.length s.
Proof.
  unfold digits1. destruct s as [|c s]; [done|]. pose proof (span_digits_length s) as Hl. simpl.
  destruct (is_digit c); [|done]. destruct (span_digits s) as [d t]. intros [= _ <-]. simpl in *. lia.
Qed.

Lemma number_length s l r : number s = Some (l, r) → String.length r < String.length s.
Proof.
  unfold number. intros H.
  assert (String.length (minus_part s).2 ≤ String.length s) as Hm
    by (destruct s as [|c s]; [done|]; simpl; destruct (Ascii.eqb c "-"); simpl; lia).
  destruct (minus_part s) as [m s0]. simpl in Hm.
  destruct (integer_part s0) as [[i s1]|] eqn:H1; [|done]. cbn [mbind option_bind] in H.
  destruct (fraction_part s1) as [[f s2]|] eqn:H2; [|done]. cbn [mbind option_bind] in H.
  destruct (exponent_part s2) as [[e s3]|] eqn:H3; [|done]. cbn [mbind option_bind] in H.
  injection H as _ <-.
  assert (String.length s1 < String.length s0).
  { destruct s0 as [|c s0]; [done|]. simpl in H1. destruct (Ascii.eqb c "0"); [injection H1 as _ <-; simpl; lia|].
    by apply digits1_length in H1. }
  assert (String.length s2 ≤ String.length s1).
  { destruct s1 as [|c s1]; simpl in H2; [by injection H2 as _ <-|].
    destruct (Ascii.eqb c "."); [|by injection H2 as _ <-].
    destruct (digits1 s1) as [[ds t]|] eqn:Hd; [|done]. injection H2 as _ <-.
    apply digits1_length in Hd. simpl. lia. }
  assert (String.length s3 ≤ String.length s2); [|lia].
  destruct s2 as [|c s2]; simpl in H3; [by injection H3 as _ <-|].
  destruct (Ascii.eqb c "e" || Ascii.eqb c "E"); [|by injection H3 as _ <-].
  destruct s2 as [|g s2]; [done|]. destruct (Ascii.eqb g "+" || Ascii.eqb g "-").
  - destruct (digits1 s2) as [[ds t]|] eqn:Hd; [|done]. injection H3 as _ <-. apply digits1_length in Hd. simpl. lia.
  - destruct (digits1 (String g s2)) as [[ds t]|] eqn:Hd; [|done]. injection H3 as _ <-.
    apply digits1_length in Hd. simpl in *. lia.
Qed.

Lemma strip_prefix_length p s r : p ≠ "" → strip_prefix p s = Some r → String.length r < String.length s.
Proof.
  intros Hp ->%strip_prefix_Some. rewrite length_app_str. destruct p; [done|]. simpl. lia.
Qed.

(** Every parser consumes something. *)
Lemma parse_length n :
  (∀ s j r, parse_value n s = Some (j, r) → String.length r < String.length s) ∧
  (∀ s l r, parse_elements n s = Some (l, r) → String.length r < String.length s) ∧
  (∀ s l r, parse_members n s = Some (l, r) → String.length r < String.length s).
Proof.
  induction n as [|n (IHv&IHe&IHm)]; [done|]. split_and!; intros s j r H.
  - cbn [parse_value] in H. pose proof (skip_ws_length s) as Hl.
    destruct (skip_ws s) as [|c t]; [done|]. simpl in Hl.
    destruct (Ascii.eqb c dquote).
    { destruct (unquote t) as [[x u]|] eqn:Hu; [|done]. injection H as _ <-. apply unquote_length in Hu. lia. }
    destruct (Ascii.eqb c "[").
    { destruct (expect "]" t) as [u|] eqn:Hu; [injection H as _ <-; apply expect_length in Hu; lia|].
      destruct (parse_elements n t) as [[l u]|] eqn:He; [|done]. injection H as _ <-. apply IHe in He. lia. }
    destruct (Ascii.eqb c "{").
    { destruct (expect "}" t) as [u|] eqn:Hu; [injection H as _ <-; apply expect_length in Hu; lia|].
      destruct (parse_members n t) as [[l u]|] eqn:He; [|done]. injection H as _ <-. apply IHm in He. lia. }
    destruct (strip_prefix "null" (String c t)) as [u|] eqn:H1;
      [injection H as _ <-; apply strip_prefix_length in H1; simpl in *; [lia|done]|].
    destruct (strip_prefix "true" (String c t)) as [u|] eqn:H2;
      [injection H as _ <-; apply strip_prefix_length in H2; simpl in *; [lia|done]|].
    destruct (strip_prefix "false" (String c t)) as [u|] eqn:H3;
      [injection H as _ <-; apply strip_prefix_length in H3; simpl in *; [lia|done]|].
    destruct (number (String c t)) as [[l u]|] eqn:H4; [|done]. injection H as _ <-.
    apply number_length in H4. simpl in H4. lia.
  - cbn [parse_elements] in H. destruct (parse_value n s) as [[v u]|] eqn:Hv; [|done]. apply IHv in Hv.
    cbn [mbind option_bind] in H. destruct (expect "," u) as [w|] eqn:Hw.
    + apply expect_length in Hw. destruct (parse_elements n w) as [[l x]|] eqn:He; [|done].
      injection H as _ <-. apply IHe in He. lia.
    + destruct (expect "]" u) as [x|] eqn:Hx; [|done]. injection H as _ <-. apply expect_length in Hx. lia.
  - cbn [parse_members] in H. destruct (expect dquote s) as [s1|] eqn:H1; [|done].
    cbn [mbind option_bind] in H. apply expect_length in H1.
    destruct (unquote s1) as [[k s2]|] eqn:H2; [|done]. apply unquote_length in H2.
    cbn [mbind option_bind] in H. destruct (expect ":" s2) as [s3|] eqn:H3; [|done].
    cbn [mbind option_bind] in H. apply expect_length in H3.
    destruct (parse_value n s3) as [[v u]|] eqn:Hv; [|done]. apply IHv in Hv.
    cbn [mbind option_bind] in H. destruct (expect "," u) as [w|] eqn:Hw.
    + apply expect_length in Hw. destruct (parse_members n w) as [[l x]|] eqn:He; [|done].
      injection H as _ <-. apply IHm in He. lia.
    + destruct (expect "}" u) as [x|] eqn:Hx; [|done]. injection H as _ <-. apply expect_length in Hx. lia.
Qed.

(** More fuel than the length asks for changes nothing. *)
Lemma parse_more n :
  (∀ m s, 2 * String.length s + 1 ≤ n → 2 * String.length s + 1 ≤ m → parse_value n s = parse_value m s) ∧
  (∀ m s, 2 * String.length s + 2 ≤ n → 2 * String.length s + 2 ≤ m → parse_elements n s = parse_elements m s) ∧
  (∀ m s, 2 * String.length s + 2 ≤ n → 2 * String.length s + 2 ≤ m → parse_members n s = parse_members m s).
Proof.
  induction n as [|n (IHv&IHe&IHm)]; [split_and!; intros; lia|].
  split_and!; intros [|m] s Hn Hm; try lia.
  - cbn [parse_value]. pose proof (skip_ws_length s) as Hl. destruct (skip_ws s) as [|c t]; [done|]. simpl in Hl.
    by rewrite (IHe m t), (IHm m t) by lia.
  - cbn [parse_elements]. rewrite (IHv m s) by lia. destruct (parse_value m s) as [[v u]|] eqn:Hv; [|done].
    apply parse_length in Hv. cbn [mbind option_bind]. destruct (expect "," u) as [w|] eqn:Hw; [|done].
    apply expect_length in Hw. by rewrite (IHe m w) by lia.
  - cbn [parse_members]. destruct (expect dquote s) as [s1|] eqn:H1; [|done]. cbn [mbind option_bind].
    apply expect_length in H1. destruct (unquote s1) as [[k s2]|] eqn:H2; [|done]. cbn [mbind option_bind].
    apply unquote_length in H2. destruct (expect ":" s2) as [s3|] eqn:H3; [|done]. cbn [mbind option_bind].
    apply expect_length in H3. rewrite (IHv m s3) by lia. destruct (parse_value m s3) as [[v u]|] eqn:Hv; [|done].
    cbn [mbind option_bind]. apply parse_length in Hv. destruct (expect "," u) as [w|] eqn:Hw; [|done].
    apply expect_length in Hw. by rewrite (IHm m w) by lia.
Qed.

(** No text runs out of fuel: with any larger amount the parse is the same. *)
Lemma parse_fuel n s : fuel s ≤ n → parse_value n s = parse_value (fuel s) s.
Proof. unfold fuel. intros Hn. apply parse_more; lia. Qed.

(** A value is read back from its text. *)
Lemma parse_print j : json_ok j → parse (print j) = Ok j.
Proof.
  intros Hj. destruct (json_reads j Hj "" I) as [m Hm].
  specialize (Hm (m `max` fuel (print j)) ltac:(lia)). rewrite app_nil_r_str in Hm.
  rewrite parse_fuel in Hm by lia. unfold parse. by rewrite Hm.
Qed.

(** ASCII text is valid UTF-8. *)
Fixpoint is_ascii (s : string) : bool :=
  match s with "" => true | String c s => ascii_byte c && is_ascii s end.

Lemma is_ascii_utf8 s : is_ascii s = true → utf8 s.
Proof. induction s as [|c s IH]; [constructor|]. intros [Hc Hs]%andb_true_iff. constructor; auto. Qed.

#[export] Hint Resolve is_ascii_utf8 : hostapi.
#[export] Hint Constructors json_ok utf8 : hostapi.

(** ** Printed on one line *)

(** No control character: neither a line feed nor a carriage return. *)
Fixpoint no_control (s : string) : bool :=
  match s with "" => true | String c s => negb (control c) && no_control s end.

Lemma no_control_app s t : no_control (s +:+ t) = no_control s && no_control t.
Proof. induction s as [|c s IH]; [done|]. rewrite cons_app_str. simpl. by rewrite IH, andb_assoc. Qed.

Lemma in_range_no_control lo hi c : (32 <=? lo)%N = true → in_range lo hi c = true → control c = false.
Proof. unfold in_range, control. rewrite andb_true_iff, !N.leb_le, N.ltb_ge. lia. Qed.

Lemma ascii_byte_high c : ascii_byte c = false → control c = false.
Proof. unfold ascii_byte, control. rewrite !N.ltb_ge. lia. Qed.

Lemma cont_no_control c : cont c = true → control c = false.
Proof. by apply in_range_no_control. Qed.

Lemma three_no_control c d e : three c d e = true → control d = false ∧ control e = false.
Proof.
  unfold three. rewrite andb_true_iff. intros [H He]. split; [|by apply cont_no_control].
  repeat (apply orb_true_iff in H as [H|H]); apply andb_true_iff in H as [_ H];
    (eapply in_range_no_control; [|exact H]); reflexivity.
Qed.

Lemma four_no_control c d e f : four c d e f = true → control d = false ∧ control e = false ∧ control f = false.
Proof.
  unfold four. rewrite !andb_true_iff. intros [[H He] Hf]. split_and!; [|by apply cont_no_control..].
  repeat (apply orb_true_iff in H as [H|H]); apply andb_true_iff in H as [_ H];
    (eapply in_range_no_control; [|exact H]); reflexivity.
Qed.

Lemma quote_byte_no_control c : no_control (quote_byte c) = true.
Proof. by destruct c as [[] [] [] [] [] [] [] []]. Qed.

Lemma quote_three_no_control c d e :
  ascii_byte c = false → three c d e = true → no_control (quote_three c d e) = true.
Proof.
  intros Hc H%three_no_control. unfold quote_three. destruct (_ && _).
  - destruct e as [[] [] [] [] [] [] [] []]; done.
  - simpl. destruct H as [-> ->]. by rewrite (ascii_byte_high c Hc).
Qed.

Lemma quote_body_no_control s : no_control (quote_body s) = true.
Proof.
  induction s as [s IH] using (well_founded_induction (Wf_nat.well_founded_ltof _ String.length)).
  unfold Wf_nat.ltof in IH. destruct s as [|c t]; [done|]. cbn [quote_body].
  destruct (ascii_byte c) eqn:Hc.
  { rewrite no_control_app, quote_byte_no_control, IH by (simpl; lia). done. }
  assert (no_control (quote_invalid +:+ quote_body t) = true) as Hinv
    by (rewrite no_control_app, IH by (simpl; lia); done).
  apply ascii_byte_high in Hc as Hcc.
  destruct t as [|d u]; [done|]. destruct (two c d) eqn:H2.
  { apply andb_true_iff in H2 as [_ Hd%cont_no_control]. cbn [no_control]. rewrite Hcc, Hd, IH by (simpl; lia). done. }
  destruct u as [|e v]; [done|]. destruct (three c d e) eqn:H3.
  { rewrite no_control_app, quote_three_no_control, IH by (done || (simpl; lia)). done. }
  destruct v as [|f w]; [done|]. destruct (four c d e f) eqn:H4; [|done].
  apply four_no_control in H4 as (Hd&He&Hf). cbn [no_control]. rewrite Hcc, Hd, He, Hf, IH by (simpl; lia). done.
Qed.

Lemma quote_no_control s : no_control (quote s) = true.
Proof. unfold quote. cbn [no_control]. by rewrite no_control_app, quote_body_no_control. Qed.

Lemma Join_no_control ws :
  Forall (λ w, no_control w = true) ws → no_control (Join "," ws) = true.
Proof.
  induction 1 as [|w ws Hw Hws IH]; [done|]. destruct ws as [|w' ws]; [exact Hw|].
  change (Join "," (w :: w' :: ws)) with (w +:+ String "," (Join "," (w' :: ws))).
  rewrite no_control_app, Hw. exact IH.
Qed.

(** The literals of a value have no control character. *)
Inductive one_line_json : json → Prop :=
| line_null : one_line_json JNull
| line_bool b : one_line_json (JBool b)
| line_number l : no_control l = true → one_line_json (JNumber l)
| line_string s : one_line_json (JString s)
| line_array l : Forall one_line_json l → one_line_json (JArray l)
| line_object l : Forall (λ kv, one_line_json kv.2) l → one_line_json (JObject l).

Lemma print_no_control j : one_line_json j → no_control (print j) = true.
Proof.
  induction j as [|b|l|s|l IH|l IH] using json_nested_ind; intros H; inversion H as [| |? Hl| |? Hl|? Hl]; subst; cbn [print].
  - done.
  - by destruct b.
  - done.
  - apply quote_no_control.
  - cbn [no_control]. rewrite no_control_app, Join_no_control; [done|].
    apply Forall_fmap. eapply Forall_impl; [exact (proj2 (Forall_and _ _) (conj IH Hl))|]. intros x [Hx Hx']. by apply Hx.
  - cbn [no_control]. rewrite no_control_app, Join_no_control; [done|].
    apply Forall_fmap. eapply Forall_impl; [exact (proj2 (Forall_and _ _) (conj IH Hl))|].
    intros [k x] [Hx Hx']. change (no_control (quote k +:+ String ":" (print x)) = true). rewrite no_control_app, quote_no_control. by apply Hx.
Qed.

Lemma string_of_uint_no_control u : no_control (NilEmpty.string_of_uint u) = true.
Proof. by induction u. Qed.

Lemma Itoa_no_control z : no_control (Itoa z) = true.
Proof.
  destruct (Itoa_cases z) as [[_ ->]|(u&s&Hl&Hn&->&[[-> _]|[-> _]])]; [done|apply string_of_uint_no_control..].
Qed.

#[export] Hint Constructors one_line_json : hostapi.
