(* ===== verification/JsonDecode.v ===== *)
(** * [encoding/json] into variables of the program's types

    What [json.Unmarshal] stores into a struct, a map, a slice, a number or a
    string, as functions of a _place_: the values of the text that are
    decoded into one variable, in the order of the text.  There is one unless a
    key comes twice; then the later object adds to what the earlier one left, and
    null leaves most variables as they are.  A field is found by its name
    without regard to case and an unknown key is skipped.  The error of one
    value is the error of the whole; which one, when there are several, is
    not followed.

    The spare capacity of a slice that shrank and grows again is not modelled,
    nor is a nil slice told from an empty one. *)

From Stdlib Require Import Ascii NArith ZArith.
From stdpp Require Import sorting.
From S2P Require Import Prelude GoStd Json.

Definition UnmarshalTypeError := OtherError "json: cannot unmarshal value".

Definition place : Type := list json.

(** A value decoded over what is there. *)
Definition decoder (A : Type) : Type := json → A → result A.

Definition value_at {A} (dec : decoder A) (zero : A) (js : place) : result A :=
  foldl (λ acc j, a ← acc; dec j a) (Ok zero) js.

(** ** Strings, booleans and numbers *)

Definition decode_string : decoder string := λ j old,
  match j with JString s => Ok s | JNull => Ok old | _ => Err UnmarshalTypeError end.

Definition decode_bool : decoder bool := λ j old,
  match j with JBool b => Ok b | JNull => Ok old | _ => Err UnmarshalTypeError end.

(** [int] and [int64]: the literal has to be an integer in range. *)
Definition decode_int : decoder Z := λ j old,
  match j with
  | JNumber l => match Atoi l with Ok z => Ok z | Err _ => Err UnmarshalTypeError end
  | JNull => Ok old
  | _ => Err UnmarshalTypeError
  end.

(** An unsigned type below [bound]. *)
Definition decode_uint (bound : Z) : decoder Z := λ j old,
  match j with
  | JNumber l =>
      match unsigned l with
      | Some z => if (z <? bound)%Z then Ok z else Err UnmarshalTypeError
      | None => Err UnmarshalTypeError
      end
  | JNull => Ok old
  | _ => Err UnmarshalTypeError
  end.

Definition string_at : place → result string := value_at decode_string "".
Definition bool_at : place → result bool := value_at decode_bool false.
Definition int_at : place → result Z := value_at decode_int 0%Z.
Definition uint64_at : place → result Z := value_at (decode_uint (2 ^ 64)) 0%Z.

(** ** Structs *)

(** A key as the names of fields are compared with: letters in lower case, and
    the Kelvin sign and the long s as the letters they fold to. *)
Fixpoint fold_key (s : string) : string :=
  match s with
  | "" => ""
  | String c t =>
      let other := String (lower c) (fold_key t) in
      if Ascii.eqb c (ascii_of_nat 197) then
        match t with
        | String d u => if Ascii.eqb d (ascii_of_nat 191) then String "s" (fold_key u) else other
        | "" => other
        end
      else if Ascii.eqb c (ascii_of_nat 226) then
        match t with
        | String d (String e u) =>
            if Ascii.eqb d (ascii_of_nat 132) && Ascii.eqb e (ascii_of_nat 170)
            then String "k" (fold_key u) else other
        | _ => other
        end
      else other
  end.

(** The members decoded into a struct. *)
Definition object_at (js : place) : result (list (string * json)) :=
  foldl (λ acc j, l ← acc;
    match j with JObject l' => Ok (l ++ l') | JNull => Ok l | _ => Err UnmarshalTypeError end) (Ok []) js.

(** The place of a field, [name] being its tag. *)
Definition field (name : string) (l : list (string * json)) : place :=
  omap (λ kv, if String.eqb (fold_key kv.1) name then Some kv.2 else None) l.

(** ** Slices and maps *)

(** The places of the elements. *)
Definition elements_at (js : place) : result (list place) :=
  foldl (λ acc j, old ← acc;
    match j with
    | JArray l => Ok (imap (λ i x, default [] (old !! i) ++ [x]) l)
    | JNull => Ok []
    | _ => Err UnmarshalTypeError
    end) (Ok []) js.

Fixpoint all_at {A} (elem : place → result A) (ps : list place) : result (list A) :=
  match ps with
  | [] => Ok []
  | p :: ps => a ← elem p; l ← all_at elem ps; Ok (a :: l)
  end.

Definition slice_at {A} (elem : place → result A) (js : place) : result (list A) :=
  ps ← elements_at js; all_at elem ps.

(** Members become entries of the map there is, or of a new one. *)
Definition decode_entries {A} (elem : place → result A) (l : list (string * json)) (m : gmap string A) :
    result (gmap string A) :=
  foldl (λ acc kv, m ← acc; a ← elem [kv.2]; Ok (<[kv.1 := a]> m)) (Ok m) l.

(** A map, nil or not. *)
Definition decode_map {A} (elem : place → result A) : decoder (option (gmap string A)) := λ j old,
  match j with
  | JNull => Ok None
  | JObject l => Some <$> decode_entries elem l (default ∅ old)
  | _ => Err UnmarshalTypeError
  end.

Definition map_at {A} (elem : place → result A) : place → result (option (gmap string A)) :=
  value_at (decode_map elem) None.

(** ** Encoding a map *)

Definition string_le (a b : string) : Prop := String.leb a b = true.

#[export] Instance string_le_dec : RelDecision string_le.
Proof. intros a b. unfold string_le. apply _. Defined.

Definition key_le {A} (a b : string * A) : Prop := string_le a.1 b.1.

#[export] Instance key_le_dec {A} : RelDecision (@key_le A).
Proof. intros a b. unfold key_le. apply _. Defined.

(** The entries of a map are written in the order of their keys. *)
Definition sort_keys {A} (l : list (string * A)) : list (string * A) := merge_sort key_le l.

Definition json_map {A} (enc : A → json) (m : gmap string A) : json :=
  JObject (sort_keys (prod_map id enc <$> map_to_list m)).

Definition json_int (z : Z) : json := JNumber (Itoa z).

(** ** Lemmas on decoding *)

Lemma value_at_ind {A} (P : A → Prop) dec zero js a :
  P zero → (∀ j a b, P a → dec j a = Ok b → P b) → value_at dec zero js = Ok a → P a.
Proof.
  intros Hz Hd. unfold value_at. revert zero Hz. induction js as [|j js IH]; intros zero Hz; simpl.
  - by intros [= <-].
  - destruct (dec j zero) as [b|e] eqn:E; [apply IH; by eapply Hd|].
    intros H. exfalso. clear - H. by induction js.
Qed.

Lemma int_at_range js z : int_at js = Ok z → is_int64 z.
Proof.
  apply value_at_ind; [by unfold is_int64|]. intros [|?|l|?|?|?] x y Hx; simpl; try done; [by intros [= <-]|].
  destruct (Atoi l) eqn:E; [|done]. intros [= <-]. by eapply Atoi_range.
Qed.

Lemma digits_nonneg s acc z : (0 ≤ acc)%Z → digits acc s = Some z → (0 ≤ z)%Z.
Proof.
  revert acc. induction s as [|c s IH]; intros acc Ha; simpl; [by intros [= <-]|].
  unfold digit. case_bool_decide; [|done]. simpl. apply IH. lia.
Qed.

Lemma uint64_at_range js z : uint64_at js = Ok z → is_uint64 z.
Proof.
  apply value_at_ind; [by unfold is_uint64|]. intros [|?|l|?|?|?] x y Hx; simpl; try done; [by intros [= <-]|].
  destruct (unsigned l) as [n|] eqn:E; [|done]. destruct (Z.ltb_spec n (2 ^ 64)); [|done]. intros [= <-].
  split; [|done]. destruct l; [done|]. by eapply digits_nonneg in E.
Qed.

Lemma all_at_Forall {A} (P : A → Prop) elem ps l :
  (∀ p a, elem p = Ok a → P a) → all_at elem ps = Ok l → Forall P l.
Proof.
  intros He. revert l. induction ps as [|p ps IH]; intros l; simpl; [by intros [= <-]|].
  intros (a&Ha&(l'&Hl&[= <-])%result_bind_ok)%result_bind_ok. constructor; [by eapply He|by apply IH].
Qed.

Lemma slice_at_Forall {A} (P : A → Prop) elem js l :
  (∀ p a, elem p = Ok a → P a) → slice_at elem js = Ok l → Forall P l.
Proof. intros He (ps&_&H)%result_bind_ok. by eapply all_at_Forall. Qed.

Lemma decode_entries_Forall {A} (P : A → Prop) elem l (m m' : gmap string A) :
  (∀ p a, elem p = Ok a → P a) → map_Forall (λ _, P) m →
  decode_entries elem l m = Ok m' → map_Forall (λ _, P) m'.
Proof.
  intros He. unfold decode_entries. revert m. induction l as [|[k j] l IH]; intros m Hm; simpl.
  - by intros [= <-].
  - destruct (elem [j]) as [a|e] eqn:E; simpl.
    + apply IH. apply map_Forall_insert_2; [by eapply He|done].
    + intros H. exfalso. clear - H. by induction l.
Qed.

Lemma map_at_Forall {A} (P : A → Prop) elem js (m : gmap string A) :
  (∀ p a, elem p = Ok a → P a) → map_at elem js = Ok (Some m) → map_Forall (λ _, P) m.
Proof.
  intros He H. revert m H.
  cut (∀ o, map_at elem js = Ok o → ∀ m, o = Some m → map_Forall (λ _, P) m); [intros Hall m H; by apply (Hall _ H)|].
  intros o. apply (value_at_ind (λ o, ∀ m, o = Some m → map_Forall (λ _, P) m)); [done|]. intros j old b Hold Hd m ->. destruct j as [|?|?|?|?|l]; try done. simpl in Hd.
  destruct (decode_entries elem l (default ∅ old)) as [m'|] eqn:E; [|done]. injection Hd as <-.
  eapply decode_entries_Forall; [exact He| |exact E]. destruct old as [m0|]; [by apply Hold|apply map_Forall_empty].
Qed.

Lemma field_app name l k : field name (l ++ k) = field name l ++ field name k.
Proof. apply omap_app. Qed.

Lemma object_at_one l : object_at [JObject l] = Ok l.
Proof. done. Qed.

(** ** Lemmas on a value that was encoded *)

Lemma sort_keys_Permutation {A} (l : list (string * A)) : sort_keys l ≡ₚ l.
Proof. apply merge_sort_Permutation. Qed.

Lemma json_map_ok {A} (enc : A → json) m :
  map_Forall (λ k x, utf8 k ∧ json_ok (enc x)) m → json_ok (json_map enc m).
Proof.
  intros Hm. constructor. rewrite sort_keys_Permutation. apply Forall_fmap, Forall_forall.
  intros [k x] Hk%elem_of_map_to_list. by apply (Hm k x).
Qed.

Lemma json_int_ok z : json_ok (json_int z).
Proof. constructor. apply Itoa_literal. Qed.

Lemma int_at_json z : is_int64 z → int_at [json_int z] = Ok z.
Proof. intros Hz. unfold int_at, value_at, decode_int, json_int. cbn [foldl mbind result_bind]. by rewrite Atoi_Itoa. Qed.

(** Entries in the order they are written rebuild the map. *)
Lemma decode_entries_list {A} (enc : A → json) elem (l : list (string * A)) m0 :
  NoDup l.*1 → Forall (λ kv, elem [enc kv.2] = Ok kv.2) l →
  decode_entries elem (prod_map id enc <$> l) m0 = Ok (list_to_map l ∪ m0).
Proof.
  unfold decode_entries. revert m0. induction l as [|[k x] l IH]; intros m0 Hnd He.
  - cbn. by rewrite (left_id_L ∅ (∪)).
  - apply NoDup_cons in Hnd as [Hk Hnd]. apply Forall_cons in He as [Hx He]. simpl in Hx. simpl. rewrite Hx. simpl.
    rewrite IH by done. f_equal. cbn [list_to_map foldr].
    rewrite <- insert_union_l, insert_union_r; [done|]. by apply not_elem_of_list_to_map_1.
Qed.

Lemma map_at_json {A} (enc : A → json) elem m :
  map_Forall (λ _ x, elem [enc x] = Ok x) m → map_at elem [json_map enc m] = Ok (Some m).
Proof.
  intros He. unfold map_at, value_at, decode_map, json_map. cbn [foldl mbind result_bind default from_option].
  assert (sort_keys (prod_map id enc <$> map_to_list m) ≡ₚ prod_map id enc <$> map_to_list m) as Hp
    by apply sort_keys_Permutation.
  apply Permutation_map_inv in Hp as (l&->&Hl). change (List.map (prod_map id enc) l) with (prod_map id enc <$> l).
  rewrite decode_entries_list.
  - simpl. rewrite (right_id_L ∅ (∪)). do 2 f_equal. rewrite <- (list_to_map_to_list m) at 1.
    symmetry. apply list_to_map_proper; [apply NoDup_fst_map_to_list|done].
  - rewrite <- Hl. apply NoDup_fst_map_to_list.
  - rewrite <- Hl. apply Forall_forall. intros [k x] Hk%elem_of_map_to_list. by apply (He k x).
Qed.

Lemma elements_at_one l : elements_at [JArray l] = Ok ((λ x, [x]) <$> l).
Proof.
  unfold elements_at. simpl. f_equal. apply list_eq. intros i. rewrite list_lookup_imap, list_lookup_fmap.
  by destruct (l !! i).
Qed.

Lemma slice_at_json {A} (enc : A → json) elem l :
  Forall (λ x, elem [enc x] = Ok x) l → slice_at elem [JArray (List.map enc l)] = Ok l.
Proof.
  intros He. unfold slice_at. rewrite elements_at_one. cbn [mbind result_bind].
  induction He as [|x l Hx He IH]; [done|]. cbn [List.map fmap list_fmap all_at]. rewrite Hx. simpl.
  by rewrite IH.
Qed.

(** ** Structs with [omitempty] *)

Definition is_nil {A} (l : list A) : bool := match l with [] => true | _ => false end.

(** A field that is left out when it is empty. *)
Definition omit (empty : bool) (name : string) (j : json) : list (string * json) :=
  if empty then [] else [(name, j)].

Lemma field_here name empty k j :
  String.eqb (fold_key k) name = true → field name (omit empty k j) = if empty then [] else [j].
Proof. intros H. destruct empty; [done|]. unfold field, omit. simpl. by rewrite H. Qed.

Lemma field_other name empty k j :
  String.eqb (fold_key k) name = false → field name (omit empty k j) = [].
Proof. intros H. destruct empty; [done|]. unfold field, omit. simpl. by rewrite H. Qed.

Lemma omit_ok empty name j :
  is_ascii name = true → (empty = false → json_ok j) → Forall (λ kv, utf8 kv.1 ∧ json_ok kv.2) (omit empty name j).
Proof. intros Hn Hj. destruct empty; repeat constructor; auto with hostapi. Qed.

(** The place of every field in a list of fields. *)
Ltac find_fields :=
  rewrite ?field_app;
  repeat match goal with
  | |- context [field ?name (omit ?e ?k ?j)] =>
      first [rewrite (field_other name e k j eq_refl) | rewrite (field_here name e k j eq_refl)]
  end;
  rewrite ?app_nil_l, ?app_nil_r.

Lemma string_at_omit s : string_at (if String.eqb s "" then [] else [JString s]) = Ok s.
Proof. by destruct (String.eqb_spec s "") as [->|]. Qed.

Lemma bool_at_omit b : bool_at (if negb b then [] else [JBool b]) = Ok b.
Proof. by destruct b. Qed.

Lemma int_at_omit z : is_int64 z → int_at (if (z =? 0)%Z then [] else [json_int z]) = Ok z.
Proof. intros Hz. destruct (Z.eqb_spec z 0) as [->|]; [done|by apply int_at_json]. Qed.
