(* ===== verification/Values.v ===== *)
(** * Values of type [interface{}]

    The claims of a token are a [map[string]interface{}] that [encoding/json]
    fills; the handlers inspect them with type assertions.  [value] is a Go
    value with its dynamic type, restricted to the types that occur: what the
    decoder produces, and [int], which the program asks for.  A number of
    a JSON text is stored as a [float64]; it is kept as its literal: the
    agent never computes with it, and the parser of tokens, which compares times,
    converts it by a parameter ([int64_of] of [Jwt]). *)

From S2P Require Import Prelude.

Inductive value :=
| VNil
| VBool (b : bool)
| VFloat64 (literal : string)
| VInt (n : Z)
| VString (s : string)
| VSlice (l : list value)
| VMap (m : gmap string value).

(** What [encoding/json] stores into an [interface{}]: every constructor but
    [VInt], at every depth. *)
Inductive from_json : value → Prop :=
| FJ_nil : from_json VNil
| FJ_bool b : from_json (VBool b)
| FJ_float t : from_json (VFloat64 t)
| FJ_string s : from_json (VString s)
| FJ_slice l : Forall from_json l → from_json (VSlice l)
| FJ_map m : map_Forall (λ _, from_json) m → from_json (VMap m).

(** Checked type assertions [v, ok := x.(T)]. *)
Definition as_bool (v : value) : option bool := match v with VBool b => Some b | _ => None end.
Definition as_int (v : value) : option Z := match v with VInt n => Some n | _ => None end.
Definition as_string (v : value) : option string := match v with VString s => Some s | _ => None end.
Definition as_slice (v : value) : option (list value) := match v with VSlice l => Some l | _ => None end.
Definition as_map (v : value) : option (gmap string value) := match v with VMap m => Some m | _ => None end.

(** An unchecked assertion [x.(T)] panics when the dynamic type differs. *)
Definition assert {A} (o : option A) : outcome A :=
  match o with Some a => Val a | None => Panics TypeAssertion end.

(** Reading a Go map yields the zero value, [nil], for a missing key. *)
Definition get (m : gmap string value) (k : string) : value := default VNil (m !! k).

(** The comparison [x == s] of an [interface{}] with a string. *)
Definition is_string (v : value) (s : string) : bool :=
  match v with VString t => String.eqb t s | _ => false end.

Lemma is_string_spec v s : is_string v s = true ↔ v = VString s.
Proof. destruct v; simpl; rewrite ?String.eqb_eq; naive_solver. Qed.

Lemma assert_val {A} (o : option A) a : assert o = Val a ↔ o = Some a.
Proof. destruct o; naive_solver. Qed.

Lemma from_json_get m k : from_json (VMap m) → from_json (get m k).
Proof.
  intros H. inversion H as [| | | | |m' Hm]; subst. unfold get.
  destruct (m !! k) as [v|] eqn:E; simpl; [by apply (Hm k)|constructor].
Qed.

Lemma from_json_no_int v : from_json v → as_int v = None.
Proof. by destruct 1. Qed.

(** The two assertions with which the handlers reach a claim inside a claim. *)
Lemma nested_claim {A} claims k1 k2 (f : gmap string value → string → outcome A) :
  (∃ m s, get claims k1 = VMap m ∧ get m k2 = VString s ∧
     (m ← assert (as_map (get claims k1)); s ← assert (as_string (get m k2)); f m s) = f m s) ∨
  ((m ← assert (as_map (get claims k1)); s ← assert (as_string (get m k2)); f m s) = Panics TypeAssertion ∧
     ∀ m s, get claims k1 = VMap m → get m k2 ≠ VString s).
Proof.
  destruct (get claims k1) as [| | | | | |m]; try (right; split; [done|congruence]).
  simpl. destruct (get m k2) as [| | | |s| |] eqn:E; try (right; split; [done|congruence]).
  left. by exists m, s.
Qed.

#[export] Hint Constructors from_json : hostapi.
#[export] Hint Resolve from_json_get from_json_no_int : hostapi.
