(* ===== verification/Jwt.v ===== *)
(** * Tokens: the vendored [dgrijalva/jwt-go]

    The parser and the signing methods with which [auth] checks the tokens of
    the proxy.  A token is three base64 segments; [Parse] decodes the first
    two, looks up the method the header names, asks for the key, compares the
    times of the claims with the clock and verifies the signature.

    The class [JWT] is what [auth] relies on; [jwt_go] proves that this parser,
    called with a constant key, has it.

    Outside code: [encoding/json], the hashes, [hmac] and [rsa] of Go's library,
    PEM and X.509, the clock, and the text of an error. *)

From Stdlib Require Import ZArith Ascii.
From S2P Require Import Prelude GoStd Base64 Values.

(** ** Segments: base64url without padding *)

Fixpoint smap (f : ascii → ascii) (s : string) : string :=
  match s with "" => "" | String c s => String (f c) (smap f s) end.

(** [base64.URLEncoding] is the standard encoding with two letters changed; the
    standard ones are not in its alphabet. *)
Definition url_char (c : ascii) : ascii :=
  if Ascii.eqb c "+" then "-" else if Ascii.eqb c "/" then "_" else c.

Definition std_char (c : ascii) : ascii :=
  if Ascii.eqb c "-" then "+" else if Ascii.eqb c "_" then "/"
  else if Ascii.eqb c "+" || Ascii.eqb c "/" then "!" else c.

Definition URL_EncodeToString (b : bytes) : string := smap url_char (EncodeToString b).
Definition URL_DecodeString (s : string) : result bytes := DecodeString (smap std_char s).

(** [strings.TrimRight] for a set of one byte. *)
Fixpoint TrimRight (s : string) (cut : ascii) : string :=
  match s with
  | "" => ""
  | String c s =>
      match TrimRight s cut with
      | "" => if Ascii.eqb c cut then "" else String c ""
      | t => String c t
      end
  end.

Fixpoint Repeat (c : ascii) (n : nat) : string :=
  match n with 0 => "" | S n => String c (Repeat c n) end.

Definition EncodeSegment (seg : bytes) : string := TrimRight (URL_EncodeToString seg) pad.

Definition DecodeSegment (seg : string) : result bytes :=
  let l := String.length seg mod 4 in
  URL_DecodeString (if 0 <? l then seg +:+ Repeat pad (4 - l) else seg).

(** ** Signing methods and tokens *)

Inductive hash := SHA256 | SHA384 | SHA512.

#[export] Instance hash_eq_decision : EqDecision hash.
Proof. solve_decision. Defined.

(** [SigningMethodHMAC] and [SigningMethodRSA]. *)
Inductive method := HS (Hash : hash) | RS (Hash : hash).

Definition Alg (m : method) : string :=
  match m with
  | HS SHA256 => "HS256" | HS SHA384 => "HS384" | HS SHA512 => "HS512"
  | RS SHA256 => "RS256" | RS SHA384 => "RS384" | RS SHA512 => "RS512"
  end.

(** The map the [init] functions fill. *)
Definition signingMethods : list (string * method) :=
  (λ m, (Alg m, m)) <$> [HS SHA256; HS SHA384; HS SHA512; RS SHA256; RS SHA384; RS SHA512].

Definition GetSigningMethod (alg : string) : option method :=
  (λ p, p.2.2) <$> list_find (λ p, p.1 = alg) signingMethods.

Record Token := mkToken {
  Raw : string;
  Method : option method;
  Header : gmap string value;
  Claims : gmap string value;
  Signature : string;
  Valid : bool
}.

(** The key of a verification has a dynamic type: bytes, an RSA key, or
    another type. *)
Inductive key (R : Type) :=
| BytesKey (b : bytes)
| RSAKey (k : R)
| OtherKey.
Arguments BytesKey {R} b.
Arguments RSAKey {R} k.
Arguments OtherKey {R}.

Definition ErrInvalidKey := OtherError "key is invalid or of invalid type".
Definition ErrHashUnavailable := OtherError "the requested hash function is unavailable".
Definition ErrSignatureInvalid := OtherError "signature is invalid".
Definition ErrKeyMustBePEMEncoded :=
  OtherError "Invalid Key: Key must be PEM encoded PKCS1 or PKCS8 private key".
Definition ErrNoTokenInRequest := OtherError "no token present in request".
Definition ErrNotRSAPrivateKey := OtherError "Key is not a valid RSA private key".

(** [ValidationError]: a text and a set of bits. *)
Record ValidationError := mkValidationError { err_text : string; Errors : Z }.

Definition ValidationErrorMalformed : Z := 1.
Definition ValidationErrorUnverifiable : Z := 2.
Definition ValidationErrorSignatureInvalid : Z := 4.
Definition ValidationErrorExpired : Z := 8.
Definition ValidationErrorNotValidYet : Z := 16.

Definition Error (e : ValidationError) : string :=
  if String.eqb (err_text e) "" then "token is invalid" else err_text e.

Definition valid (e : ValidationError) : bool := negb (0 <? Errors e)%Z.

(** As a value of the interface [error]. *)
Definition validation_error (e : ValidationError) : error := OtherError (Error e).

(** What [auth] relies on: parsing with a key gives a token or an error. *)
Class JWT (K : Type) := {
  jwt_Parse : string → option K → option Token * option error;
  (** no error means a token, marked valid *)
  jwt_Parse_valid s k t :
    jwt_Parse s k = (t, None) → ∃ tok, t = Some tok ∧ Valid tok = true;
  (** the empty string has too few segments *)
  jwt_Parse_empty k : (jwt_Parse "" k).2 ≠ None;
  (** the claims are what [encoding/json] decoded *)
  jwt_Parse_claims s k tok e :
    jwt_Parse s k = (Some tok, e) → from_json (VMap (Claims tok))
}.

(** ** Outside code *)

(** The cryptography of Go's library: public keys are [R], private ones [P]. *)
Class Crypto (R P : Type) := {
  Available : hash → bool;
  digest : hash → bytes → bytes;
  hmac : hash → bytes → bytes → bytes;
  VerifyPKCS1v15 : R → hash → bytes → bytes → option error;
  SignPKCS1v15 : P → hash → bytes → result bytes;
  pem_Decode : bytes → option bytes;
  ParsePKIXPublicKey : bytes → result (key R);
  ParseCertificate : bytes → result (key R);  (* its [PublicKey] *)
  ParsePKCS1PrivateKey : bytes → result P;
  ParsePKCS8PrivateKey : bytes → result (key P)
}.

(** [encoding/json] on maps: [Unmarshal] gives what it has stored and an
    error; what it stores are values of JSON.  [Text] is the text of an error. *)
Class Json := {
  Marshal : gmap string value → result bytes;
  Unmarshal : bytes → gmap string value * option error;
  Text : error → string;
  Unmarshal_json b : from_json (VMap (Unmarshal b).1)
}.

(** The clock, in seconds, and the conversion of a [float64] to [int64]. *)
Class Clock := { now : Z; int64_of : string → Z }.

(** ** Verification *)

Section jwt.
Context {R P : Type} {crypto : Crypto R P} {json : Json} {clock : Clock}.
Implicit Types k : option (key R).

Definition ParseRSAPublicKeyFromPEM (keyBytes : bytes) : result R :=
  match pem_Decode keyBytes with
  | None => Err ErrKeyMustBePEMEncoded
  | Some block =>
      let parsedKey :=
        match ParsePKIXPublicKey block with
        | Ok parsedKey => Ok parsedKey
        | Err _ => ParseCertificate block
        end in
      match parsedKey with
      | Err err => Err err
      | Ok (RSAKey pkey) => Ok pkey
      | Ok _ => Err ErrNotRSAPrivateKey
      end
  end.

Definition HMAC_Verify (h : hash) (signingString signature : string) k : option error :=
  match k with
  | Some (BytesKey keyBytes) =>
      match DecodeSegment signature with
      | Err err => Some err
      | Ok sig =>
          if negb (Available h) then Some ErrHashUnavailable
          else if bool_decide (sig = hmac h keyBytes (bytes_of signingString)) then None
          else Some ErrSignatureInvalid
      end
  | _ => Some ErrInvalidKey
  end.

Definition RSA_Verify (h : hash) (signingString signature : string) k : option error :=
  match DecodeSegment signature with
  | Err err => Some err
  | Ok sig =>
      let rsaKey :=
        match k with
        | Some (BytesKey b) => ParseRSAPublicKeyFromPEM b
        | Some (RSAKey r) => Ok r
        | _ => Err ErrInvalidKey
        end in
      match rsaKey with
      | Err err => Some err
      | Ok rsaKey =>
          if negb (Available h) then Some ErrHashUnavailable
          else VerifyPKCS1v15 rsaKey h (digest h (bytes_of signingString)) sig
      end
  end.

Definition Verify (m : method) : string → string → option (key R) → option error :=
  match m with HS h => HMAC_Verify h | RS h => RSA_Verify h end.

(** ** [Parse] *)

Definition expired (claims : gmap string value) : bool :=
  match get claims "exp" with VFloat64 exp => (int64_of exp <? now)%Z | _ => false end.

Definition not_before (claims : gmap string value) : bool :=
  match get claims "nbf" with VFloat64 nbf => (now <? int64_of nbf)%Z | _ => false end.

(** The error the three last checks leave. *)
Definition check_times (claims : gmap string value) : ValidationError :=
  let vErr := mkValidationError "" 0 in
  let vErr := if expired claims
              then mkValidationError "token is expired" (Z.lor (Errors vErr) ValidationErrorExpired)
              else vErr in
  if not_before claims
  then mkValidationError "token is not valid yet" (Z.lor (Errors vErr) ValidationErrorNotValidYet)
  else vErr.

Definition check_signature (vErr : ValidationError) (err : option error) : ValidationError :=
  match err with
  | Some err => mkValidationError (Text err) (Z.lor (Errors vErr) ValidationErrorSignatureInvalid)
  | None => vErr
  end.

Definition set_Header (t : Token) h := mkToken (Raw t) (Method t) h (Claims t) (Signature t) (Valid t).
Definition set_Claims (t : Token) c := mkToken (Raw t) (Method t) (Header t) c (Signature t) (Valid t).
Definition set_Method (t : Token) m := mkToken (Raw t) m (Header t) (Claims t) (Signature t) (Valid t).
Definition set_Valid (t : Token) v := mkToken (Raw t) (Method t) (Header t) (Claims t) (Signature t) v.

Definition malformed (err : error) : option error :=
  Some (validation_error (mkValidationError (Text err) ValidationErrorMalformed)).
Definition unverifiable (text : string) : option error :=
  Some (validation_error (mkValidationError text ValidationErrorUnverifiable)).

Definition Parse (tokenString : string) (keyFunc : option (Token → result (option (key R)))) :
    option Token * option error :=
  match Split "."%char tokenString with
  | [part0; part1; part2] =>
      let token := mkToken tokenString None ∅ ∅ "" false in
      match DecodeSegment part0 with
      | Err err => (Some token, malformed err)
      | Ok headerBytes =>
      let '(header, err) := Unmarshal headerBytes in
      let token := set_Header token header in
      match err with Some err => (Some token, malformed err) | None =>
      match DecodeSegment part1 with
      | Err err => (Some token, malformed err)
      | Ok claimBytes =>
      let '(claims, err) := Unmarshal claimBytes in
      let token := set_Claims token claims in
      match err with Some err => (Some token, malformed err) | None =>
      match as_string (get (Header token) "alg") with
      | None => (Some token, unverifiable "signing method (alg) is unspecified.")
      | Some alg =>
      let token := set_Method token (GetSigningMethod alg) in
      match Method token with
      | None => (Some token, unverifiable "signing method (alg) is unavailable.")
      | Some m =>
      match keyFunc with
      | None => (Some token, unverifiable "no Keyfunc was provided.")
      | Some keyFunc =>
      match keyFunc token with
      | Err err => (Some token, unverifiable (Text err))
      | Ok k =>
          let vErr := check_times (Claims token) in
          let vErr := check_signature vErr (Verify m (Join "."%char [part0; part1]) part2 k) in
          if valid vErr then (Some (set_Valid token true), None)
          else (Some token, Some (validation_error vErr))
      end end end end end end end end
  | _ =>
      (None, Some (validation_error
        (mkValidationError "token contains an invalid number of segments" ValidationErrorMalformed)))
  end.

(** ** Signing *)

Definition SigningString (t : Token) : result string :=
  header ← Marshal (Header t);
  claims ← Marshal (Claims t);
  Ok (Join "."%char [EncodeSegment header; EncodeSegment claims]).

Definition ParseRSAPrivateKeyFromPEM (keyBytes : bytes) : result P :=
  match pem_Decode keyBytes with
  | None => Err ErrKeyMustBePEMEncoded
  | Some block =>
      let parsedKey :=
        match ParsePKCS1PrivateKey block with
        | Ok pkey => Ok (RSAKey pkey)
        | Err _ => ParsePKCS8PrivateKey block
        end in
      match parsedKey with
      | Err err => Err err
      | Ok (RSAKey pkey) => Ok pkey
      | Ok _ => Err ErrNotRSAPrivateKey
      end
  end.

Definition HMAC_Sign (h : hash) (signingString : string) (k : option (key P)) : result string :=
  match k with
  | Some (BytesKey keyBytes) =>
      if negb (Available h) then Err ErrHashUnavailable
      else Ok (EncodeSegment (hmac h keyBytes (bytes_of signingString)))
  | _ => Err ErrInvalidKey
  end.

Definition RSA_Sign (h : hash) (signingString : string) (k : option (key P)) : result string :=
  rsaKey ← match k with
           | Some (BytesKey b) => ParseRSAPrivateKeyFromPEM b
           | Some (RSAKey r) => Ok r
           | _ => Err ErrInvalidKey
           end;
  if negb (Available h) then Err ErrHashUnavailable
  else EncodeSegment <$> SignPKCS1v15 rsaKey h (digest h (bytes_of signingString)).

Definition Sign (m : method) : string → option (key P) → result string :=
  match m with HS h => HMAC_Sign h | RS h => RSA_Sign h end.

Definition New (m : method) : Token :=
  mkToken "" (Some m) (<["typ" := VString "JWT"]> {[ "alg" := VString (Alg m) ]}) ∅ "" false.

(** A token without a method has none to call. *)
Definition SignedString (t : Token) (k : option (key P)) : outcome (result string) :=
  match SigningString t with
  | Err err => Val (Err err)
  | Ok sstr =>
      match Method t with
      | None => Panics NilDereference
      | Some m => Val (sig ← Sign m sstr k; Ok (Join "."%char [sstr; sig]))
      end
  end.

(** [ParseFromRequest], of the values of the [Authorization] header and of the
    [access_token] parameter. *)
Definition is_bearer (ah : string) : bool :=
  (6 <? String.length ah) && String.eqb (ToLower (str_take 6 ah)) "bearer".

Fixpoint str_drop (n : nat) (s : string) : string :=
  match n, s with S n, String _ s => str_drop n s | _, _ => s end.

Definition ParseFromRequest (ah tokStr : string) (keyFunc : option (Token → result (option (key R)))) :
    option Token * option error :=
  if is_bearer ah then Parse (str_drop 7 ah) keyFunc
  else if String.eqb tokStr "" then (None, Some ErrNoTokenInRequest)
  else Parse tokStr keyFunc.

(** ** Lemmas on segments *)

Lemma std_url_enc x : std_char (url_char (enc_sextet x)) = enc_sextet x.
Proof. by destruct x as [[] [] [] [] [] []]. Qed.

(** A letter of a segment is neither padding nor a dot. *)
Lemma url_enc_plain x :
  Ascii.eqb (url_char (enc_sextet x)) pad = false ∧ Ascii.eqb (url_char (enc_sextet x)) "." = false.
Proof. by destruct x as [[] [] [] [] [] []]. Qed.

Lemma TrimRight_other c s cut : Ascii.eqb c cut = false → TrimRight (String c s) cut = String c (TrimRight s cut).
Proof. intros Hc. simpl. destruct (TrimRight s cut); [by rewrite Hc|done]. Qed.

(** The text [DecodeSegment] decodes. *)
Definition padded (seg : string) : string :=
  let l := String.length seg mod 4 in
  if 0 <? l then seg +:+ Repeat pad (4 - l) else seg.

Lemma padded_four a b c d s :
  padded (String a (String b (String c (String d s)))) = String a (String b (String c (String d (padded s)))).
Proof.
  unfold padded. cbn [String.length].
  replace (S (S (S (S (String.length s))))) with (String.length s + 1 * 4) by lia.
  rewrite Nat.Div0.mod_add. by destruct (0 <? _).
Qed.

Lemma padded_two a b : padded (String a (String b "")) = String a (String b (String pad (String pad ""))).
Proof. done. Qed.
Lemma padded_three a b c :
  padded (String a (String b (String c ""))) = String a (String b (String c (String pad ""))).
Proof. done. Qed.

Lemma padded_EncodeSegment seg : smap std_char (padded (EncodeSegment seg)) = EncodeToString seg.
Proof.
  unfold EncodeSegment, URL_EncodeToString.
  induction seg as [|x|x y|x y z seg IH] using bytes_ind3; [done|..]; cbn [EncodeToString];
    destruct (quantum _ _ _) as [[[p q] r] t]; cbn [smap];
    rewrite !(TrimRight_other _ _ _ (proj1 (url_enc_plain _))).
  - change (TrimRight _ pad) with "". rewrite padded_two. cbn [smap]. by rewrite !std_url_enc.
  - change (TrimRight _ pad) with "". rewrite padded_three. cbn [smap]. by rewrite !std_url_enc.
  - rewrite padded_four. cbn [smap]. by rewrite !std_url_enc, IH.
Qed.

Lemma DecodeSegment_EncodeSegment seg : DecodeSegment (EncodeSegment seg) = Ok seg.
Proof.
  unfold DecodeSegment, URL_DecodeString. fold (padded (EncodeSegment seg)).
  by rewrite padded_EncodeSegment, decode_encode.
Qed.

Lemma EncodeSegment_no_dot seg : has_char "." (EncodeSegment seg) = false.
Proof.
  unfold EncodeSegment, URL_EncodeToString.
  induction seg as [|x|x y|x y z seg IH] using bytes_ind3; [done|..]; cbn [EncodeToString];
    destruct (quantum _ _ _) as [[[p q] r] t]; cbn [smap];
    rewrite !(TrimRight_other _ _ _ (proj1 (url_enc_plain _))); cbn [has_char];
    by rewrite !(proj2 (url_enc_plain _)).
Qed.

(** ** Lemmas on methods *)

Lemma GetSigningMethod_Alg m : GetSigningMethod (Alg m) = Some m.
Proof. by destruct m as [[]|[]]. Qed.

Lemma GetSigningMethod_Some alg m : GetSigningMethod alg = Some m ↔ alg = Alg m.
Proof.
  split; [|intros ->; apply GetSigningMethod_Alg].
  unfold GetSigningMethod. intros ([i [a m']]&Hf&Hm)%fmap_Some.
  apply list_find_Some in Hf as (Hi&Ha&_). simpl in *. subst. apply list_elem_of_lookup_2, list_elem_of_fmap in Hi as (m&[= -> ->]&_). done.
Qed.

(** ** Lemmas on [Parse] *)

(** A token that passes: its three parts, the method its header names, the
    clock and the signature. *)
Definition signed_token ts k (m : method) (header claims : gmap string value) : Prop :=
  ∃ part0 part1 part2 hb cb,
    Split "."%char ts = [part0; part1; part2] ∧
    DecodeSegment part0 = Ok hb ∧ Unmarshal hb = (header, None) ∧
    DecodeSegment part1 = Ok cb ∧ Unmarshal cb = (claims, None) ∧
    get header "alg" = VString (Alg m) ∧
    expired claims = false ∧ not_before claims = false ∧
    Verify m (Join "."%char [part0; part1]) part2 k = None.

Lemma valid_checks claims err :
  valid (check_signature (check_times claims) err) = true ↔
  expired claims = false ∧ not_before claims = false ∧ err = None.
Proof.
  unfold check_times. destruct err as [e|], (expired claims), (not_before claims); naive_solver.
Qed.

Lemma as_string_Some v s : as_string v = Some s ↔ v = VString s.
Proof. destruct v; naive_solver. Qed.

Lemma Parse_spec ts k tok :
  Parse ts (Some (λ _, Ok k)) = (Some tok, None) ↔
  ∃ m header claims, signed_token ts k m header claims ∧
    tok = mkToken ts (Some m) header claims "" true.
Proof.
  unfold Parse, signed_token. split.
  - intros H. repeat (case_match; try discriminate H). simplify_eq. simpl in *.
    match goal with H : valid _ = true |- _ => apply valid_checks in H as (?&?&?) end.
    match goal with H : as_string _ = Some _ |- _ => apply as_string_Some in H end.
    match goal with H : GetSigningMethod _ = Some _ |- _ => apply GetSigningMethod_Some in H as -> end.
    rewrite GetSigningMethod_Alg. eexists _, _, _. split; [|done].
    eexists _, _, _, _, _. split_and!; eauto.
  - intros (m&header&claims&(part0&part1&part2&hb&cb&Hs&H0&Hh&H1&Hc&Ha&He&Hn&Hv)&->).
    rewrite Hs, H0, Hh, H1, Hc. simpl. rewrite Ha. simpl. rewrite GetSigningMethod_Alg.
    simpl in Hv. rewrite Hv. by rewrite (proj2 (valid_checks claims None)).
Qed.

Lemma Parse_total ts kf : (Parse ts kf).2 = None → ∃ tok, (Parse ts kf).1 = Some tok ∧ Valid tok = true.
Proof. unfold Parse. intros H. repeat (case_match; simpl in *; try discriminate H). by eexists. Qed.

Lemma Verify_RSA m sstr sg r :
  Verify m sstr sg (Some (RSAKey r)) = None ↔
  ∃ h sig, m = RS h ∧ DecodeSegment sg = Ok sig ∧ Available h = true ∧
    VerifyPKCS1v15 r h (digest h (bytes_of sstr)) sig = None.
Proof.
  destruct m as [h|h]; simpl; [split; [done|by intros (?&?&?&_)]|]. unfold RSA_Verify. split.
  - intros H. destruct (DecodeSegment sg) as [sig|e]; [|done].
    destruct (Available h) eqn:Ha; [|done]. by exists h, sig.
  - intros (h'&sig&[= <-]&->&->&H). done.
Qed.

Lemma Verify_other m sstr sg k :
  (∀ r, k ≠ Some (RSAKey r)) → (∀ b, k ≠ Some (BytesKey b)) → Verify m sstr sg k ≠ None.
Proof.
  intros Hr Hb. destruct k as [[b|r|]|]; [by destruct (Hb b)|by destruct (Hr r)|..];
    destruct m as [h|h]; simpl; unfold RSA_Verify; destruct (DecodeSegment sg); done.
Qed.

Lemma Split_three a b c :
  let seg := EncodeSegment in
  Split "."%char (Join "."%char [Join "."%char [seg a; seg b]; seg c]) = [seg a; seg b; seg c].
Proof.
  intros seg. replace (Join _ _) with (Join "."%char [seg a; seg b; seg c])
    by (cbn [Join]; by rewrite app_assoc_str).
  apply Split_Join; [done|]. repeat constructor; apply EncodeSegment_no_dot.
Qed.

(** A map that [Unmarshal] reads back from its text: one of JSON values whose
    texts the codec does not alter. *)
Definition survives_json (m : gmap string value) : Prop :=
  ∀ b, Marshal m = Ok b → Unmarshal b = (m, None).

(** What signing writes. *)
Lemma SignedString_Ok t (k : option (key P)) ts :
  SignedString t k = Val (Ok ts) → ∃ m hb cb sg,
    Method t = Some m ∧ Marshal (Header t) = Ok hb ∧ Marshal (Claims t) = Ok cb ∧
    Sign m (Join "."%char [EncodeSegment hb; EncodeSegment cb]) k = Ok (EncodeSegment sg) ∧
    ts = Join "."%char [Join "."%char [EncodeSegment hb; EncodeSegment cb]; EncodeSegment sg].
Proof.
  unfold SignedString, SigningString. intros H.
  destruct (Marshal (Header t)) as [hb|]; [|done]. destruct (Marshal (Claims t)) as [cb|]; [|done].
  destruct (Method t) as [m|]; [|done]. cbn [mbind result_bind] in H.
  destruct (Sign m _ k) as [sig|] eqn:Hs; [|done]. cbn [mbind result_bind] in H.
  assert (∃ sg, sig = EncodeSegment sg) as [sg ->].
  { destruct m as [h|h]; simpl in Hs.
    - destruct k as [[b|r|]|]; [|done..]. simpl in Hs. destruct (Available h); [|done]. injection Hs as <-. by eexists.
    - apply result_bind_ok in Hs as (r&_&Hs). destruct (Available h); [|done]. simpl in Hs.
      destruct (SignPKCS1v15 _ _ _) as [b|]; [|done]. injection Hs as <-. by eexists. }
  exists m, hb, cb, sg. split_and!; [done|done|done|done|congruence].
Qed.

(** A token signed with the private half of the key parses, while its times
    allow it. *)
Lemma SignedString_Parse pub priv h t ts :
  (∀ d sig, SignPKCS1v15 priv h d = Ok sig → VerifyPKCS1v15 pub h d sig = None) →
  survives_json (Header t) → survives_json (Claims t) →
  Method t = Some (RS h) → get (Header t) "alg" = VString (Alg (RS h)) →
  expired (Claims t) = false → not_before (Claims t) = false →
  SignedString t (Some (RSAKey priv)) = Val (Ok ts) →
  Parse ts (Some (λ _, Ok (Some (RSAKey pub)))) =
    (Some (mkToken ts (Some (RS h)) (Header t) (Claims t) "" true), None).
Proof.
  intros Hsig Hjh Hjc Hm Ha He Hn (m&hb&cb&sg&Hm'&Hhb&Hcb&Hs&->)%SignedString_Ok.
  rewrite Hm in Hm'. injection Hm' as <-. cbn [Sign] in Hs. unfold RSA_Sign in Hs. cbn [mbind result_bind] in Hs.
  destruct (Available h) eqn:Hav; [|done]. cbn [negb] in Hs.
  destruct (SignPKCS1v15 _ _ _) as [sig|e] eqn:Hsign; [|done].
  assert (EncodeSegment sig = EncodeSegment sg) as Hse by (cbn [fmap result_fmap] in Hs; congruence).
  apply Parse_spec. exists (RS h), (Header t), (Claims t). split; [|done].
  exists (EncodeSegment hb), (EncodeSegment cb), (EncodeSegment sg), hb, cb.
  rewrite !DecodeSegment_EncodeSegment. split_and!; eauto; [apply Split_three|].
  apply Verify_RSA. exists h, sig. rewrite <- Hse, DecodeSegment_EncodeSegment. eauto.
Qed.

(** A request with a bearer token is parsed like the token. *)
Lemma ParseFromRequest_bearer ts tokStr kf : ParseFromRequest ("Bearer " +:+ ts) tokStr kf = Parse ts kf.
Proof. done. Qed.

(** ** The parser has what [auth] relies on *)

Lemma Parse_empty kf : (Parse "" kf).2 ≠ None.
Proof. done. Qed.

Lemma Parse_claims ts kf tok e :
  Parse ts kf = (Some tok, e) → from_json (VMap (Claims tok)).
Proof.
  intros H. assert (from_json (VMap ∅)) as H0 by (constructor; apply map_Forall_empty).
  assert (∀ b m o, Unmarshal b = (m, o) → from_json (VMap m)) as Hu
    by (intros b m o E; pose proof (Unmarshal_json b) as Hj; by rewrite E in Hj).
  unfold Parse in H. repeat (case_match; try discriminate H); simplify_eq; simpl in *; eauto.
Qed.

(** [Parse] with the function that returns the configured key. *)
#[local] Instance jwt_go : JWT (key R).
Proof.
  refine {| jwt_Parse s k := Parse s (Some (λ _, Ok k)) |}.
  - intros s k t H. destruct (Parse_total s (Some (λ _, Ok k))) as (tok&Ht&Hv); [by rewrite H|].
    exists tok. by rewrite H in Ht.
  - intros k. apply Parse_empty.
  - intros s k tok e. by apply Parse_claims.
Defined.
End jwt.

#[export] Hint Rewrite DecodeSegment_EncodeSegment EncodeSegment_no_dot : hostapi.
