(* ===== verification/JsonValue.v ===== *)
(** * [encoding/json] into and from [interface{}]

    The claims of a token are decoded into a [map[string]interface{}] and
    encoded from one.  [Unmarshal] and [Marshal] are those functions over the
    texts of [Json], and [go_json] makes them the codec [Jwt] asks for.

    A [float64] is its literal: the class [Floats] says which literals are out
    of the range of a [float64], and how [strconv] writes one. *)

From Stdlib Require Import Ascii NArith ZArith.
From S2P Require Import Prelude GoStd Json JsonDecode Values Jwt.

Class Floats := {
  out_of_range : string → bool;
  FormatFloat : string → string
}.

(** ** Decoding *)

Section codec.
Context `{!Floats}.

(** The value of an [interface{}]; a number out of range leaves nil.  Of equal
    keys the last one counts. *)
Fixpoint value_of (j : json) : value :=
  match j with
  | JNull => VNil
  | JBool b => VBool b
  | JNumber l => if out_of_range l then VNil else VFloat64 l
  | JString s => VString s
  | JArray l => VSlice (List.map value_of l)
  | JObject l => VMap (list_to_map (reverse (List.map (λ kv, (kv.1, value_of kv.2)) l)))
  end.

(** Some number in it is out of range. *)
Fixpoint overflows (j : json) : bool :=
  match j with
  | JNumber l => out_of_range l
  | JArray l => existsb overflows l
  | JObject l => existsb (λ kv, overflows kv.2) l
  | _ => false
  end.

(** [json.Unmarshal] into a nil map. *)
Definition Unmarshal_map (b : bytes) : gmap string value * option error :=
  match parse (string_of b) with
  | Err e => (∅, Some e)
  | Ok (JObject l) =>
      (list_to_map (reverse (List.map (λ kv, (kv.1, value_of kv.2)) l)),
       if overflows (JObject l) then Some UnmarshalTypeError else None)
  | Ok JNull => (∅, None)
  | Ok _ => (∅, Some UnmarshalTypeError)
  end.

(** ** Encoding *)

Fixpoint json_of (v : value) : json :=
  match v with
  | VNil => JNull
  | VBool b => JBool b
  | VFloat64 l => JNumber (FormatFloat l)
  | VInt n => JNumber (Itoa n)
  | VString s => JString s
  | VSlice l => JArray (List.map json_of l)
  | VMap m => JObject (sort_keys (map_fold (λ k x acc, (k, json_of x) :: acc) [] m))
  end.

(** [json.Marshal] of a map; none of the values the agent holds fails. *)
Definition Marshal_map (m : gmap string value) : result bytes := Ok (bytes_of (print (json_of (VMap m)))).

(** ** Lemmas *)

Fixpoint value_size (v : value) : nat :=
  match v with
  | VSlice l => S (sum_list (List.map value_size l))
  | VMap m => S (map_fold (λ _ x n, value_size x + n) 0 m)
  | _ => 1
  end.

Lemma value_size_slice l v : v ∈ l → value_size v < value_size (VSlice l).
Proof. simpl. induction 1; simpl in *; lia. Qed.

Lemma value_size_map m k v : m !! k = Some v → value_size v < value_size (VMap m).
Proof.
  intros Hk. simpl. rewrite (map_fold_delete_L _ _ k v m); [lia| |done]. intros. lia.
Qed.

(** Induction with the hypothesis for the elements of slices and maps. *)
Lemma value_nested_ind (P : value → Prop) :
  P VNil → (∀ b, P (VBool b)) → (∀ l, P (VFloat64 l)) → (∀ n, P (VInt n)) → (∀ s, P (VString s)) →
  (∀ l, Forall P l → P (VSlice l)) → (∀ m, map_Forall (λ _, P) m → P (VMap m)) →
  ∀ v, P v.
Proof.
  intros H0 Hb Hf Hi Hs Hl Hm v. remember (value_size v) as n eqn:Hn. revert v Hn.
  induction (lt_wf n) as [n _ IH]. intros [|b|l|z|s|l|m] ->; auto.
  - apply Hl, Forall_forall. intros x Hx. eapply IH; [|reflexivity]. by apply value_size_slice.
  - apply Hm. intros k x Hx. eapply IH; [|reflexivity]. by eapply value_size_map.
Qed.

Lemma from_json_list_map (l : list (string * value)) :
  Forall (λ kv, from_json kv.2) l → from_json (VMap (list_to_map l)).
Proof.
  intros Hl. constructor. induction Hl as [|[k v] l Hv Hl IH]; [apply map_Forall_empty|].
  simpl. apply map_Forall_insert_2; [done|exact IH].
Qed.

Lemma value_of_from_json j : from_json (value_of j).
Proof.
  induction j as [|b|l|s|l IH|l IH] using json_nested_ind; simpl; [constructor|constructor| |constructor|constructor|].
  - destruct (out_of_range l); constructor.
  - apply Forall_fmap. exact IH.
  - apply from_json_list_map, Forall_reverse, Forall_fmap. exact IH.
Qed.

Lemma Unmarshal_map_json b : from_json (VMap (Unmarshal_map b).1).
Proof.
  unfold Unmarshal_map. assert (from_json (VMap ∅)) by (constructor; apply map_Forall_empty).
  destruct (parse (string_of b)) as [[]|]; simpl; try done.
  apply from_json_list_map, Forall_reverse, Forall_fmap, Forall_forall. intros kv _. apply value_of_from_json.
Qed.

(** What a text can carry: valid UTF-8, and numbers whose literal is the one
    that is written. *)
Inductive plain_value : value → Prop :=
| plain_nil : plain_value VNil
| plain_bool b : plain_value (VBool b)
| plain_float l : literal l → FormatFloat l = l → out_of_range l = false → plain_value (VFloat64 l)
| plain_string s : utf8 s → plain_value (VString s)
| plain_slice l : Forall plain_value l → plain_value (VSlice l)
| plain_map m : map_Forall (λ k v, utf8 k ∧ plain_value v) m → plain_value (VMap m).

Lemma plain_empty : plain_value (VMap ∅).
Proof. constructor. apply map_Forall_empty. Qed.

Lemma plain_insert k v m :
  is_ascii k = true → plain_value v → plain_value (VMap m) → plain_value (VMap (<[k := v]> m)).
Proof.
  intros Hk Hv Hm. inversion Hm; subst. constructor. apply map_Forall_insert_2; [|done].
  split; [by apply is_ascii_utf8|done].
Qed.

Definition members (m : gmap string value) : list (string * json) :=
  prod_map id json_of <$> map_to_list m.

Lemma members_spec m : map_fold (λ k x acc, (k, json_of x) :: acc) [] m = members m.
Proof.
  rewrite map_fold_foldr. unfold members. induction (map_to_list m) as [|[k v] l IH]; [done|].
  simpl. by rewrite IH.
Qed.

Lemma json_of_ok v : plain_value v → json_ok (json_of v).
Proof.
  induction v as [|b|l|n|s|l IH|m IH] using value_nested_ind; intros Hv; inversion Hv as [| |? Hl Hf Ho|? Hs|? Hl|? Hm]; subst; simpl;
    try constructor; try done.
  - by rewrite Hf.
  - apply Forall_fmap, Forall_forall. intros x Hx. rewrite Forall_forall in IH, Hl. eauto.
  - rewrite members_spec, sort_keys_Permutation. unfold members. apply Forall_fmap, Forall_forall.
    intros [k x] Hx%elem_of_map_to_list. destruct (Hm k x Hx). split; [done|]. by apply (IH k x).
Qed.

(** Entries in any order make the same map. *)
Lemma decode_members m l :
  l ≡ₚ members m → map_Forall (λ _ v, value_of (json_of v) = v) m →
  list_to_map (reverse (List.map (λ kv, (kv.1, value_of kv.2)) l)) = m.
Proof.
  intros Hl Hm. assert (List.map (λ kv, (kv.1, value_of kv.2)) l ≡ₚ map_to_list m) as Hp.
  { transitivity ((λ kv, (kv.1, value_of kv.2)) <$> members m); [by apply fmap_Permutation|].
    unfold members. rewrite <- list_fmap_compose.
    rewrite <- (list_fmap_id (map_to_list m)) at 2. apply reflexive_eq, list_fmap_ext.
    intros i [k v] Hi. apply list_elem_of_lookup_2, elem_of_map_to_list in Hi. simpl. by rewrite (Hm k v Hi). }
  transitivity (list_to_map (M := gmap string value) (map_to_list m)); [|apply list_to_map_to_list].
  assert (reverse (List.map (λ kv, (kv.1, value_of kv.2)) l) ≡ₚ map_to_list m) as Hr by by rewrite reverse_Permutation.
  apply list_to_map_proper; [|done]. rewrite Hr. apply NoDup_fst_map_to_list.
Qed.

Lemma value_of_json_of v : plain_value v → value_of (json_of v) = v.
Proof.
  induction v as [|b|l|n|s|l IH|m IH] using value_nested_ind; intros Hv; inversion Hv as [| |? Hl Hf Ho|? Hs|? Hl|? Hm]; subst; simpl;
    try done.
  - by rewrite Hf, Ho.
  - f_equal. rewrite List.map_map. induction l as [|x l IHl]; [done|].
    apply Forall_cons in Hl as [Hx Hl], IH as [IHx IH]. simpl. rewrite IHx by done. f_equal.
    apply IHl; [done|by constructor|done].
  - f_equal. apply decode_members; [rewrite members_spec; apply sort_keys_Permutation|].
    intros k x Hx. destruct (Hm k x Hx). by apply (IH k x).
Qed.

Lemma overflows_json_of v : plain_value v → overflows (json_of v) = false.
Proof.
  induction v as [|b|l|n|s|l IH|m IH] using value_nested_ind; intros Hv; inversion Hv as [| |? Hl Hf Ho|? Hs|? Hl|? Hm]; subst; simpl;
    try done.
  - by rewrite Hf.
  - apply not_true_iff_false. intros (j&(x&<-&Hx)%in_map_iff&Hj)%existsb_exists.
    apply list_elem_of_In in Hx. rewrite Forall_forall in IH, Hl. rewrite IH in Hj; [done|done|by apply Hl].
  - apply not_true_iff_false. intros (kv&Hkv&Hj)%existsb_exists. apply list_elem_of_In in Hkv.
    rewrite members_spec, sort_keys_Permutation in Hkv. unfold members in Hkv.
    apply list_elem_of_fmap in Hkv as ([k x]&->&Hx%elem_of_map_to_list). simpl in Hj.
    destruct (Hm k x Hx). by rewrite (IH k x Hx) in Hj.
Qed.

(** A map of plain values survives its text. *)
Lemma Unmarshal_Marshal_map m b :
  plain_value (VMap m) → Marshal_map m = Ok b → Unmarshal_map b = (m, None).
Proof.
  intros Hm Hb. assert (b = bytes_of (print (json_of (VMap m)))) as -> by (unfold Marshal_map in Hb; congruence).
  unfold Unmarshal_map. rewrite string_of_bytes_of, parse_print by by apply json_of_ok.
  pose proof (value_of_json_of _ Hm) as Hv. pose proof (overflows_json_of _ Hm) as Ho.
  cbn [json_of] in *. rewrite Ho. cbn [value_of] in Hv. injection Hv as Hv. by rewrite Hv.
Qed.
End codec.

(** The codec of [Jwt]; [text] is the layout of an error. *)
Definition go_json `{!Floats} (text : error → string) : Jwt.Json := {|
  Marshal := Marshal_map;
  Unmarshal := Unmarshal_map;
  Text := text;
  Unmarshal_json := Unmarshal_map_json
|}.

Lemma plain_survives `{!Floats} text m : plain_value (VMap m) → survives_json (json := go_json text) m.
Proof. intros Hm b Hb. by apply Unmarshal_Marshal_map. Qed.
