(* ===== verification/Config.v ===== *)
(** * Configuration: [config/config.go] and [util/util.go]

    [config.Parse] registers the flags with their defaults, lets globalconf
    fill them, reads the public key when one is configured and looks for
    systemd.  A flag registered with [flag.StringVar(&Config.F, ...)] and the
    field [Config.F] are the same variable: the model keeps the flag registry
    and reads the record off it.

    Outside code: [ioutil.ReadFile], [os.Stat], [pem.Decode],
    [x509.ParsePKIXPublicKey], [ini.Load] and [rclient.NewRancherClient] are
    variables of the section. *)

From Stdlib Require Import ZArith Ascii.
From S2P Require Import Prelude GoStd.

(** ** The flag package *)

Inductive flagval :=
| FBool (b : bool)
| FInt (n : Z)
| FString (s : string).

Definition upper (c : ascii) : ascii :=
  let n := nat_of_ascii c in
  if bool_decide (97 ≤ n ∧ n ≤ 122) then ascii_of_nat (n - 32) else c.

(** The environment variable of a flag: dots and dashes become underscores
    and the whole is upper-cased. *)
Fixpoint env_name (s : string) : string :=
  match s with
  | "" => ""
  | String c s =>
      String (if Ascii.eqb c "." || Ascii.eqb c "-" then "_"%char else upper c) (env_name s)
  end.

Definition ParseBool (s : string) : option bool :=
  if bool_decide (s ∈ ["1"; "t"; "T"; "TRUE"; "true"; "True"]) then Some true
  else if bool_decide (s ∈ ["0"; "f"; "F"; "FALSE"; "false"; "False"]) then Some false
  else None.

(** [strconv.ParseInt] with base 0 and 64 bits: the prefix of the text says the
    base, and the error comes with a value. *)
Inductive num_error := SyntaxErr | RangeErr.

#[export] Instance num_error_eq_decision : EqDecision num_error.
Proof. solve_decision. Defined.

Definition digit_value (c : ascii) : option Z :=
  let n := Z.of_nat (nat_of_ascii c) in
  (if (48 <=? n) && (n <=? 57) then Some (n - 48)
   else if (97 <=? n) && (n <=? 122) then Some (n - 87)
   else if (65 <=? n) && (n <=? 90) then Some (n - 55)
   else None)%Z.

(** The loop of [ParseUint]: it stops at the first digit that is none, and at the
    first that leaves the range. *)
Fixpoint uint_digits (base n : Z) (s : string) : Z + num_error :=
  match s with
  | "" => inl n
  | String c s =>
      match digit_value c with
      | Some d =>
          if (d <? base)%Z then
            let n := (n * base + d)%Z in
            if (n <? 2 ^ 64)%Z then uint_digits base n s else inr RangeErr
          else inr SyntaxErr
      | None => inr SyntaxErr
      end
  end.

Definition ParseUint0 (s : string) : Z + num_error :=
  match s with
  | "" => inr SyntaxErr
  | String "0" (String x t) =>
      if Ascii.eqb x "x" || Ascii.eqb x "X" then (if String.eqb t "" then inr SyntaxErr else uint_digits 16 0 t)
      else uint_digits 8 0 (String x t)
  | String "0" "" => inl 0%Z
  | _ => uint_digits 10 0 s
  end.

Definition ParseInt0 (s : string) : Z * option num_error :=
  let '(neg, t) := match s with
                   | String "+" t => (false, t)
                   | String "-" t => (true, t)
                   | _ => (false, s)
                   end in
  let clamp (n : Z) : Z * option num_error :=
    (if neg then (if 2 ^ 63 <? n then (- 2 ^ 63, Some RangeErr) else (- n, None))
     else (if 2 ^ 63 <=? n then (2 ^ 63 - 1, Some RangeErr) else (n, None)))%Z in
  match ParseUint0 t with
  | inl n => clamp n
  | inr RangeErr => clamp (2 ^ 64 - 1)%Z
  | inr SyntaxErr => (0%Z, Some SyntaxErr)
  end.

Example ParseInt0_ex :
  ParseInt0 "-12" = ((-12)%Z, None) ∧ ParseInt0 "0x1F" = (31%Z, None) ∧ ParseInt0 "010" = (8%Z, None) ∧
  ParseInt0 "0" = (0%Z, None) ∧ ParseInt0 "08" = (0%Z, Some SyntaxErr) ∧ ParseInt0 "" = (0%Z, Some SyntaxErr) ∧
  ParseInt0 "99999999999999999999z" = ((2 ^ 63 - 1)%Z, Some RangeErr).
Proof. vm_compute. done. Qed.

(** [Set] of a flag: the value is stored even when there is an error; [true]
    when there was none. *)
Definition set_value (old : flagval) (raw : string) : flagval * bool :=
  match old with
  | FBool _ => match ParseBool raw with Some b => (FBool b, true) | None => (FBool false, false) end
  | FInt _ => let '(n, err) := ParseInt0 raw in (FInt n, bool_decide (err = None))
  | FString _ => (FString raw, true)
  end.

Lemma uint_digits_nonneg base s n m :
  (0 ≤ base)%Z → (0 ≤ n)%Z → uint_digits base n s = inl m → (0 ≤ m)%Z.
Proof.
  intros Hb. revert n. induction s as [|c s IH]; intros n Hn; simpl; [by intros [= <-]|].
  destruct (digit_value c) as [d|] eqn:Ed; [|done]. destruct (d <? base)%Z; [|done].
  destruct (_ <? 2 ^ 64)%Z; [|done]. apply IH. unfold digit_value in Ed.
  assert (0 ≤ d)%Z by (repeat case_match; simplify_eq; lia). nia.
Qed.

Lemma ParseUint0_nonneg s n : ParseUint0 s = inl n → (0 ≤ n)%Z.
Proof.
  unfold ParseUint0. repeat case_match; intros; simplify_eq; try done;
    by (eapply uint_digits_nonneg; [..|eassumption]).
Qed.

Lemma ParseInt0_range s : is_int64 (ParseInt0 s).1.
Proof.
  unfold ParseInt0, is_int64.
  destruct (match s with
            | String "+" t => (false, t) | String "-" t => (true, t) | _ => (false, s) end) as [neg t].
  destruct (ParseUint0 t) as [n|[]] eqn:E.
  - apply ParseUint0_nonneg in E.
    destruct neg; [destruct (Z.ltb_spec (2 ^ 63) n)|destruct (Z.leb_spec (2 ^ 63) n)]; cbn [fst]; lia.
  - cbn [fst]. lia.
  - destruct neg; (split; [by vm_compute|by vm_compute]).
Qed.

Section config.
Context {K Client : Type}.

Record config := Config {
  CAdvisorUrl : string;
  DockerUrl : string;
  Systemd : bool;
  NumStats : Z;
  Auth : bool;
  HaProxyMonitor : bool;
  Key : string;
  HostUuid : string;
  Port : Z;
  Ip : string;
  ParsedPublicKey : option K;
  HostUuidCheck : bool;
  EventsPoolSize : Z;
  CattleUrl : string;
  CattleAccessKey : string;
  CattleSecretKey : string;
  PidFile : string;
  LogFile : string
}.

(** The registrations of [config.Parse], with their defaults. *)
Definition flags : list (string * flagval) := [
  ("haproxy-monitor", FBool false);
  ("port", FInt 8080);
  ("ip", FString "");
  ("cadvisor-url", FString "http://localhost:8081");
  ("docker-host", FString "unix:///var/run/docker.sock");
  ("num-stats", FInt 600);
  ("auth", FBool false);
  ("host-uuid", FString "");
  ("host-uuid-check", FBool true);
  ("public-key", FString "");
  ("events-pool-size", FInt 10);
  ("cattle-url", FString "");
  ("cattle-access-key", FString "");
  ("cattle-secret-key", FString "");
  ("pid-file", FString "");
  ("log", FString "")
].

Definition registry : gmap string flagval := list_to_map flags.

Definition flag_bool (r : gmap string flagval) (n : string) : bool :=
  match r !! n with Some (FBool b) => b | _ => false end.
Definition flag_int (r : gmap string flagval) (n : string) : Z :=
  match r !! n with Some (FInt z) => z | _ => 0%Z end.
Definition flag_string (r : gmap string flagval) (n : string) : string :=
  match r !! n with Some (FString s) => s | _ => "" end.

Definition config_of (r : gmap string flagval) (key : option K) (systemd : bool) : config := {|
  CAdvisorUrl := flag_string r "cadvisor-url";
  DockerUrl := flag_string r "docker-host";
  Systemd := systemd;
  NumStats := flag_int r "num-stats";
  Auth := flag_bool r "auth";
  HaProxyMonitor := flag_bool r "haproxy-monitor";
  Key := flag_string r "public-key";
  HostUuid := flag_string r "host-uuid";
  Port := flag_int r "port";
  Ip := flag_string r "ip";
  ParsedPublicKey := key;
  HostUuidCheck := flag_bool r "host-uuid-check";
  EventsPoolSize := flag_int r "events-pool-size";
  CattleUrl := flag_string r "cattle-url";
  CattleAccessKey := flag_string r "cattle-access-key";
  CattleSecretKey := flag_string r "cattle-secret-key";
  PidFile := flag_string r "pid-file";
  LogFile := flag_string r "log"
|}.

(** [flag.Parse]: the flags of this program that the command line sets.  A value
    that does not parse ends the process. *)
Definition cmdline_ok (cmdline : gmap string string) : Prop :=
  map_Forall (λ name raw, ∀ old, registry !! name = Some old → (set_value old raw).2 = true) cmdline.

#[export] Instance cmdline_ok_decision cmdline : Decision (cmdline_ok cmdline).
Proof.
  refine (map_Forall_dec (λ name raw, ∀ old, registry !! name = Some old → (set_value old raw).2 = true) cmdline).
  intros name raw. destruct (registry !! name) as [old|]; [|by left].
  destruct ((set_value old raw).2) eqn:E; [left|right]; [by intros o [= <-]|].
  intros H. specialize (H old eq_refl). congruence.
Defined.

(** globalconf's [ParseAll]: the command line, then for each flag not set
    there its environment variable if not empty, else its entry of the
    configuration file; the error of a [Set] is dropped. *)
Definition flag_source (cmdline : gmap string string) (env : string → string)
    (file : gmap string string) (name : string) : option string :=
  match cmdline !! name with
  | Some raw => Some raw
  | None =>
      let v := env (env_name ("HOST_API_" +:+ name)) in
      if String.eqb v "" then file !! name else Some v
  end.

Definition ParseAll (cmdline : gmap string string) (env : string → string)
    (file : gmap string string) : gmap string flagval :=
  map_imap (λ name old,
    Some (from_option (λ raw, (set_value old raw).1) old (flag_source cmdline env file name))) registry.

(** ** [ParsedPublicKey] *)

Context (ReadFile : string → result bytes).
Context (pem_Decode : bytes → option bytes).
Context (ParsePKIXPublicKey : bytes → result K).

(** Reads the key file; a file without a PEM block makes [block.Bytes] a
    dereference of nil. *)
Definition parsed_public_key (file : string) : outcome (result K) :=
  match ReadFile file with
  | Err e => Val (Err e)
  | Ok keyBytes =>
      match pem_Decode keyBytes with
      | None => Panics NilDereference
      | Some block => Val (ParsePKIXPublicKey block)
      end
  end.

(** ** [Parse] *)

Context (Stat : string → result bool). (** [IsDir] of the file, when it exists *)
Context (ini_Load : string → result (gmap string string)).

(** The exit of [flag.Parse] is not a return of [Parse]. *)
Definition FlagExit : error := OtherError "exit status 2".

Definition Parse (cmdline : gmap string string) (env : string → string) :
    outcome (result config) :=
  let filename := env "HOST_API_CONFIG_FILE" in
  match (if String.eqb filename "" then Ok ∅ else ini_Load filename) with
  | Err e => Val (Err e)
  | Ok file =>
      if negb (bool_decide (cmdline_ok cmdline)) then Val (Err FlagExit) else
      let r := ParseAll cmdline env file in
      let systemd := match Stat "/run/systemd/system" with Ok true => true | _ => false end in
      let keyfile := flag_string r "public-key" in
      if String.eqb keyfile "" then Val (Ok (config_of r None systemd))
      else match parsed_public_key keyfile with
      | Panics p => Panics p
      | Val (Err e) => Val (Err e)
      | Val (Ok k) => Val (Ok (config_of r (Some k) systemd))
      end
  end.

(** ** [util.GetRancherClient] *)

Context (NewRancherClient : string → string → string → result Client).

Definition GetRancherClient (c : config) : result (option Client) :=
  if String.eqb (CattleUrl c) "" || String.eqb (CattleAccessKey c) ""
     || String.eqb (CattleSecretKey c) ""
  then Ok None
  else Some <$> NewRancherClient (CattleUrl c) (CattleAccessKey c) (CattleSecretKey c).

(** ** Lemmas *)

Lemma lookup_ParseAll cmdline env file name :
  ParseAll cmdline env file !! name =
    (λ old, from_option (λ raw, (set_value old raw).1) old (flag_source cmdline env file name))
      <$> registry !! name.
Proof. unfold ParseAll. rewrite map_lookup_imap. by destruct (registry !! name). Qed.

Lemma flag_string_ParseAll cmdline env file name d :
  registry !! name = Some (FString d) →
  flag_string (ParseAll cmdline env file) name =
    default d (flag_source cmdline env file name).
Proof.
  intros H. unfold flag_string. rewrite lookup_ParseAll, H. simpl.
  by destruct (flag_source _ _ _ _).
Qed.

Lemma GetRancherClient_none c :
  GetRancherClient c = Ok None ↔
  CattleUrl c = "" ∨ CattleAccessKey c = "" ∨ CattleSecretKey c = "".
Proof.
  unfold GetRancherClient.
  destruct (String.eqb_spec (CattleUrl c) ""), (String.eqb_spec (CattleAccessKey c) ""),
    (String.eqb_spec (CattleSecretKey c) ""); simpl; try tauto.
  destruct (NewRancherClient _ _ _); simpl; naive_solver.
Qed.

(** ** Types of the flags *)

Definition same_type (old new : flagval) : Prop :=
  match old, new with
  | FBool _, FBool _ | FString _, FString _ => True
  | FInt _, FInt n => is_int64 n
  | _, _ => False
  end.

#[export] Instance same_type_decision old new : Decision (same_type old new).
Proof. destruct old, new; unfold same_type, is_int64; apply _. Defined.

Lemma set_value_type old raw : same_type old (set_value old raw).1.
Proof.
  destruct old; simpl; [by destruct (ParseBool raw)| |done].
  pose proof (ParseInt0_range raw). by destruct (ParseInt0 raw).
Qed.

Lemma registry_typed : map_Forall (λ _ old, same_type old old) registry.
Proof. apply (bool_decide_unpack _). vm_compute. exact I. Qed.

Lemma ParseAll_typed cmdline env file name old :
  registry !! name = Some old → ∃ v, ParseAll cmdline env file !! name = Some v ∧ same_type old v.
Proof.
  intros H. rewrite lookup_ParseAll, H. simpl. eexists. split; [done|].
  destruct (flag_source cmdline env file name) as [raw|]; simpl; [apply set_value_type|].
  by eapply registry_typed.
Qed.

Lemma flag_int_range cmdline env file name : is_int64 (flag_int (ParseAll cmdline env file) name).
Proof.
  unfold flag_int. destruct (registry !! name) as [old|] eqn:E.
  - destruct (ParseAll_typed cmdline env file name old E) as (v&->&Ht). by destruct old, v.
  - by rewrite lookup_ParseAll, E.
Qed.

(** ** Properties *)

(** C28: the configuration is well typed whatever the command line, the
    environment and the file hold: every flag keeps the type it was registered
    with and its numbers fit their 64 bits, the public key is parsed exactly
    when one is named, and each flag takes the first of its three sources.  A
    value of the command line parses, or the process ends; one of the
    environment or of the file that does not parse is not refused: it turns a
    boolean flag off. *)
Theorem Parse_typed cmdline env c :
  Parse cmdline env = Val (Ok c) →
  ∃ file, (let r := ParseAll cmdline env file in
    c = config_of r (ParsedPublicKey c) (Systemd c) ∧
    (∀ name old, registry !! name = Some old → ∃ v, r !! name = Some v ∧ same_type old v ∧
       v = from_option (λ raw, (set_value old raw).1) old (flag_source cmdline env file name)) ∧
    (∀ name raw old, cmdline !! name = Some raw → registry !! name = Some old →
       ∃ v, set_value old raw = (v, true) ∧ r !! name = Some v) ∧
    (∀ name raw d, flag_source cmdline env file name = Some raw → registry !! name = Some (FBool d) →
       ParseBool raw = None → flag_bool r name = false)) ∧
  Forall is_int64 [Port c; NumStats c; EventsPoolSize c] ∧
  (ParsedPublicKey c = None ↔ Key c = "").
Proof.
  intros H. unfold Parse in H.
  destruct (if String.eqb (env "HOST_API_CONFIG_FILE") "" then Ok ∅ else _) as [file|]; [|done].
  destruct (bool_decide_reflect (cmdline_ok cmdline)) as [Hcmd|]; [simpl in H|done].
  exists file. cbv zeta. remember (ParseAll cmdline env file) as r eqn:Er.
  assert (∃ k sys, c = config_of r k sys ∧ (k = None ↔ flag_string r "public-key" = "")) as (k&sys&->&Hk).
  { destruct (String.eqb_spec (flag_string r "public-key") "") as [Hkey|Hkey].
    - assert (c = config_of r None (match Stat "/run/systemd/system" with Ok true => true | _ => false end)) as ->
        by congruence.
      eexists None, _. split; [reflexivity|]. split; [intros _; exact Hkey|reflexivity].
    - destruct (parsed_public_key _) as [[k|]|]; [|done..].
      assert (c = config_of r (Some k) (match Stat "/run/systemd/system" with Ok true => true | _ => false end)) as ->
        by congruence.
      eexists (Some k), _. split; [reflexivity|]. split; [discriminate|intros E; by destruct Hkey]. }
  split; [split_and!|split; [|done]].
  - done.
  - intros name old Hn. destruct (ParseAll_typed cmdline env file name old Hn) as (v&Hv&Ht).
    exists v. split_and!; [by rewrite Er|done|]. rewrite lookup_ParseAll, Hn in Hv. by injection Hv as <-.
  - intros name raw old Hraw Hn. pose proof (Hcmd _ _ Hraw _ Hn) as Hok.
    exists (set_value old raw).1. split; [destruct (set_value old raw); simpl in *; by subst|].
    rewrite Er, lookup_ParseAll, Hn. simpl. unfold flag_source. by rewrite Hraw.
  - intros name raw d Hs Hn Hp. unfold flag_bool. rewrite Er, lookup_ParseAll, Hn. simpl. rewrite Hs. simpl. by rewrite Hp.
  - repeat (apply Forall_cons_2; [rewrite Er; apply flag_int_range|]). apply Forall_nil_2.
Qed.
End config.
Arguments config : clear implicits.

(** ** Witnesses *)

(** A port in hexadecimal and a misspelt switch in the environment. *)
Definition demo_environ (name : string) : string :=
  if String.eqb name "HOST_API_PORT" then "0x1F90"
  else if String.eqb name "HOST_API_HOST_UUID_CHECK" then "ture" else "".

Definition demo_parse : outcome (result (config unit)) :=
  Parse (λ _, Err EOF) (λ _, None) (λ _, Err EOF) (λ _, Err EOF) (λ _, Err EOF) {[ "events-pool-size" := "20" ]} demo_environ.

Definition demo_parsed : config unit :=
  match demo_parse with Val (Ok c) => c | _ => config_of registry None false end.

Lemma Parse_typed_witness :
  demo_parse = Val (Ok demo_parsed) ∧ Port demo_parsed = 8080%Z ∧ EventsPoolSize demo_parsed = 20%Z ∧
  HostUuidCheck demo_parsed = false ∧ Forall is_int64 [Port demo_parsed; NumStats demo_parsed; EventsPoolSize demo_parsed].
Proof.
  assert (demo_parse = Val (Ok demo_parsed)) as H by (vm_compute; reflexivity).
  split; [exact H|]. split; [vm_compute; reflexivity|]. split; [vm_compute; reflexivity|].
  split; [vm_compute; reflexivity|].
  destruct (Parse_typed (λ _, Err EOF) (λ _, None) (λ _, Err EOF) (λ _, Err EOF) (λ _, Err EOF)
    {[ "events-pool-size" := "20" ]} demo_environ demo_parsed H) as (file&_&Hr&_). exact Hr.
Defined.
