(* ===== verification/Http.v ===== *)
(** * [app/common] and [app/common/connect]

    The HTTP side helpers: error logging, the access log, the error-returning
    handler adapter and the connection that is either a response writer or an
    upgraded websocket.

    Outside code: the layout of [%s] on an error, [strconv.FormatFloat] on the
    seconds of a duration, the websocket upgrade, and what writing to a socket
    returns. *)

From Stdlib Require Import ZArith Ascii.
From S2P Require Import Prelude GoStd.

(** ** Requests and responses *)

Record Request := mkRequest {
  ReqId : nat;                        (* the pointer that identifies the request *)
  Method : string;
  RemoteAddr : string;
  RequestURI : string;
  Proto : string;
  ReqHost : string;
  Header : gmap string (list string);
  QueryToken : string                 (* URL.Query().Get("token") *)
}.

(** A response writer: the first status written wins, a body implies 200. *)
Record Response := mkResponse { Status : option Z; RespBody : string }.

Definition empty_response : Response := mkResponse None "".

Definition WriteHeader (code : Z) (w : Response) : Response :=
  mkResponse (Some (default code (Status w))) (RespBody w).

Definition WriteString (s : string) (w : Response) : Response :=
  mkResponse (Some (default 200%Z (Status w))) (RespBody w +:+ s).

(** [http.Error]. *)
Definition http_Error (w : Response) (msg : string) (code : Z) : Response :=
  WriteString (msg +:+ String "010" "") (WriteHeader code w).

(** ** [CheckError] *)

Inductive severity := Info | Warning | Error | Fatal.

#[export] Instance severity_eq_decision : EqDecision severity.
Proof. solve_decision. Defined.

(** The lines of glog that were emitted, and whether the process exits. *)
Record Checked := mkChecked { glog : list severity; stack_printed : bool; exits : bool }.

Definition CheckError (err : option error) (level : Z) : Checked :=
  match err with
  | None => mkChecked [] false false
  | Some _ =>
      let line :=
        (if level =? 0 then [Info]
         else if level =? 1 then [Warning]
         else if level =? 2 then [Error]
         else if level =? 3 then [Fatal]
         else [])%Z in
      mkChecked line true (bool_decide (line = [Fatal]))
  end.

Section http.
Context (error_string : error → string) (format_seconds : Z → string).

(** ** [LogAccess] *)

Record accessLog := mkAccessLog {
  ip : string; method : string; uri : string; protocol : string; host : string;
  elapsedTime : Z
}.

Definition client_ip (addr : string) : string :=
  match LastIndex addr ":" with Some colon => str_take colon addr | None => addr end.

Definition access_record (req : Request) (duration : Z) : accessLog := {|
  ip := client_ip (RemoteAddr req);
  method := Method req;
  uri := RequestURI req;
  protocol := Proto req;
  host := ReqHost req;
  elapsedTime := duration
|}.

Definition writeAccessLog (r : accessLog) : string :=
  ip r +:+ " " +:+ protocol r +:+ " " +:+ method r +:+ ": " +:+ uri r +:+ ", host: " +:+ host r
  +:+ " (load time: " +:+ format_seconds (elapsedTime r) +:+ " seconds)".

Definition LogAccess (req : Request) (duration : Z) : string :=
  writeAccessLog (access_record req duration).

(** ** [ErrorHandler.ServeHTTP] *)

Definition ErrorHandler_ServeHTTP (fn : Request → Response → Response * option error)
    (req : Request) (rw : Response) : Response * Checked :=
  let '(rw, err) := fn req rw in
  match err with
  | Some e => (http_Error rw ("ERROR: " +:+ error_string e) 500, CheckError err 2)
  | None => (rw, mkChecked [] false false)
  end.

(** ** [connect.connection]

    A connection writes to its websocket when it has one, and to the
    response writer otherwise; [Sink] says what the socket under each
    answered and whether the writer can flush. *)

Record Sink := mkSink {
  rw_Write : bytes → nat * option error;
  rw_is_Flusher : bool;
  WriteMessage : bytes → option error
}.

Record connection := mkConnection { webConn : bool; conn_rw : bool }.

(** The bytes count and error returned, and whether the writer was flushed. *)
Definition connection_Write (k : Sink) (conn : connection) (data : bytes) :
    nat * option error * bool :=
  if negb (webConn conn) then
    let '(count, err) := rw_Write k data in
    match err with
    | Some e => (count, Some e, false)
    | None => (length data, None, rw_is_Flusher k)
    end
  else
    match WriteMessage k data with
    | Some e => (0, Some e, false)
    | None => (length data, None, false)
    end.

Definition IsContinuous (conn : connection) : bool := webConn conn.

Definition is_upgrade (i : string) : bool := EqualFold (TrimSpace i) "upgrade".

(** The two nested loops over the [Connection] headers return at the first
    element that asks for an upgrade. *)
Definition GetConnection (Upgrade : Request → option error) (req : Request) :
    result connection :=
  let elements := default [] (Header req !! "Connection") ≫= Split "," in
  if existsb is_upgrade elements then
    match Upgrade req with
    | Some e => Err e
    | None => Ok (mkConnection true false)
    end
  else Ok (mkConnection false true).

(** ** Lemmas *)

Lemma client_ip_port a p : has_char ":" p = false → client_ip (a +:+ String ":" p) = a.
Proof. intros H. unfold client_ip. by rewrite (LastIndex_app _ _ _ H), str_take_app. Qed.

Lemma client_ip_no_port a : has_char ":" a = false → client_ip a = a.
Proof. intros H%LastIndex_None. unfold client_ip. by rewrite H. Qed.

Lemma CheckError_exits err level : exits (CheckError err level) = true ↔ err ≠ None ∧ level = 3%Z.
Proof.
  destruct err as [e|]; simpl; [|naive_solver].
  destruct (Z.eqb_spec level 0), (Z.eqb_spec level 1), (Z.eqb_spec level 2),
    (Z.eqb_spec level 3); subst; simpl; naive_solver.
Qed.

(** Exactly one of the two targets is set. *)
Lemma GetConnection_spec Upgrade req conn :
  GetConnection Upgrade req = Ok conn → conn_rw conn = negb (webConn conn).
Proof. unfold GetConnection. intros H. by repeat case_match; simplify_eq. Qed.
End http.

(** A request is upgraded to a websocket exactly when some element of one of
    its [Connection] headers, split at commas, is "upgrade" up to case and
    surrounding space; otherwise the plain response writer is used and
    [Upgrade] is never consulted. *)
Theorem GetConnection_upgrade Upgrade req :
  Upgrade req = None →
  (∃ conn, GetConnection Upgrade req = Ok conn ∧
     (IsContinuous conn = true ↔
      ∃ v i, v ∈ default [] (Header req !! "Connection") ∧ i ∈ Split "," v ∧
             ToLower (TrimSpace i) = "upgrade")).
Proof.
  intros Hu. unfold GetConnection. rewrite Hu.
  destruct (existsb _ _) eqn:E; (eexists; split; [done|]); simpl.
  - apply existsb_exists in E as (i&Hi%list_elem_of_In&Hup).
    apply list_elem_of_bind in Hi as (v&Hi&Hv). apply String.eqb_eq in Hup. naive_solver.
  - split; [done|]. intros (v&i&Hv&Hi&Hup). rewrite <- E. apply existsb_exists.
    exists i. split.
    + apply list_elem_of_In, list_elem_of_bind. eauto.
    + by apply String.eqb_eq.
Qed.

Definition upgrade_request : Request :=
  mkRequest 0 "GET" "10.0.0.1:5" "/" "HTTP/1.1" "h"
    {[ "Connection" := ["keep-alive, Upgrade"] ]} "".

Lemma GetConnection_upgrade_witness :
  ∃ conn, GetConnection (λ _, None) upgrade_request = Ok conn ∧
     (IsContinuous conn = true ↔
      ∃ v i, v ∈ default [] (Header upgrade_request !! "Connection") ∧ i ∈ Split "," v ∧
             ToLower (TrimSpace i) = "upgrade").
Proof. apply (GetConnection_upgrade (λ _, None) upgrade_request). reflexivity. Defined.
