(* ===== verification/Auth.v ===== *)
(** * Authentication: [auth/auth.go] and [auth/context.go]

    Token checking for the websocket handlers ([GetAndCheckToken]) and for
    plain HTTP requests ([Auth], [AuthHttpInterceptor]), over the
    request-context store of gorilla/context in which [Auth] leaves the
    token.

    Over any parser of tokens with the facts of the class [JWT]; the last
    properties are about the parser of jwt-go. *)

From Stdlib Require Import ZArith Ascii.
From S2P Require Import Prelude GoStd Values Jwt Config Http.

(** ** The request-context store *)

(** A stored value is an interface holding a [*jwt.Token], itself possibly
    nil: the outer option is the presence of the key. *)
Abbreviation store := (gmap nat (gmap nat (option Token))).

Definition TokenKey : nat := 0.

Definition context_Set (r key : nat) (v : option Token) (s : store) : store :=
  <[r := <[key := v]> (default ∅ (s !! r))]> s.

Definition context_Get (r key : nat) (s : store) : option (option Token) :=
  m ← s !! r; m !! key.

Definition context_Clear (r : nat) (s : store) : store := delete r s.

Definition SetToken (r : nat) (v : option Token) (s : store) : store := context_Set r TokenKey v s.

Definition GetToken (r : nat) (s : store) : option Token :=
  match context_Get r TokenKey s with Some rv => rv | None => None end.

Section auth.
Context {K : Type} `{!JWT K}.

(** The two tests that follow a parse without error. *)
Definition host_mismatch (c : config K) (t : Token) : bool :=
  HostUuidCheck c && negb (is_string (get (Claims t) "hostUuid") (HostUuid c)).

(** [GetAndCheckToken]. *)
Definition GetAndCheckToken (c : config K) (tokenString : string) :
    outcome (option Token * bool) :=
  let '(token, err) := jwt_Parse tokenString (ParsedPublicKey c) in
  match err with
  | Some _ => Val (token, false)
  | None =>
      match token with
      | None => Panics NilDereference
      | Some t =>
          if negb (Valid t) then Val (token, false)
          else if host_mismatch c t then Val (token, false)
          else Val (token, true)
      end
  end.

(** [Auth]: with authentication switched off every request passes; otherwise
    the parsed token is stored for the request whatever the parse says. *)
Definition Auth (c : config K) (req : Request) (s : store) : outcome (bool * store) :=
  if negb (Config.Auth c) then Val (true, s)
  else
    let tokenString := QueryToken req in
    if String.eqb tokenString "" then Val (false, s)
    else
      let '(token, err) := jwt_Parse tokenString (ParsedPublicKey c) in
      let s := SetToken (ReqId req) token s in
      match err with
      | Some _ => Val (false, s)
      | None =>
          match token with
          | None => Panics NilDereference
          | Some t =>
              if negb (Valid t) then Val (false, s)
              else if host_mismatch c t then Val (false, s)
              else Val (true, s)
          end
      end.

(** ** [AuthHttpInterceptor] *)

Record World := mkWorld { ctx : store; response : Response; access_log : list string }.

Context (format_seconds : Z → string).

(** [router] is the wrapped handler; [elapsed] the time it took. *)
Definition AuthHttpInterceptor (c : config K) (router : Request → World → World)
    (elapsed : Z) (req : Request) (w : World) : outcome World :=
  match Auth c req (ctx w) with
  | Panics p => Panics p
  | Val (false, s) =>
      Val (mkWorld s (http_Error (response w) "Failed authentication" 401) (access_log w))
  | Val (true, s) =>
      let w := router req (mkWorld s (response w) (access_log w)) in
      let log := if String.eqb (Method req) "GET"
                 then access_log w ++ [LogAccess format_seconds req elapsed]
                 else access_log w in
      Val (mkWorld (context_Clear (ReqId req) (ctx w)) (response w) log)
  end.

(** ** Lemmas *)

(** The token is accepted: parsed, valid and issued for this host. *)
Definition accepted (c : config K) (tokenString : string) (t : Token) : Prop :=
  jwt_Parse tokenString (ParsedPublicKey c) = (Some t, None) ∧
  (HostUuidCheck c = true → get (Claims t) "hostUuid" = VString (HostUuid c)).

Lemma host_mismatch_false c t :
  host_mismatch c t = false ↔
  (HostUuidCheck c = true → get (Claims t) "hostUuid" = VString (HostUuid c)).
Proof.
  unfold host_mismatch. rewrite andb_false_iff, negb_false_iff, is_string_spec.
  destruct (HostUuidCheck c); naive_solver.
Qed.

Lemma GetAndCheckToken_cases c ts :
  (∃ t, accepted c ts t ∧ GetAndCheckToken c ts = Val (Some t, true)) ∨
  ((∀ t, ¬ accepted c ts t) ∧ ∃ t, GetAndCheckToken c ts = Val (t, false)).
Proof.
  unfold GetAndCheckToken, accepted.
  destruct (jwt_Parse ts (ParsedPublicKey c)) as [token [e|]] eqn:E; [naive_solver|].
  destruct (jwt_Parse_valid _ _ _ E) as (t&->&Hv). rewrite Hv. simpl.
  destruct (host_mismatch c t) eqn:Hm.
  - right. split; [|eauto]. intros t' [[= <-] Hh]. apply host_mismatch_false in Hh. congruence.
  - left. exists t. split; [|done]. split; [done|]. by apply host_mismatch_false.
Qed.

Lemma GetAndCheckToken_accepted c ts t :
  GetAndCheckToken c ts = Val (Some t, true) ↔ accepted c ts t.
Proof.
  destruct (GetAndCheckToken_cases c ts) as [(t'&Ht&E)|(Hn&t'&E)]; rewrite E.
  - split; [by intros [= <-]|]. destruct Ht as [Hp _]. intros [Hp' _]. congruence.
  - split; [done|]. intros H. by destruct (Hn t).
Qed.

Lemma Auth_cases c req s :
  Config.Auth c = true →
  (∃ t, accepted c (QueryToken req) t ∧
     Auth c req s = Val (true, SetToken (ReqId req) (Some t) s)) ∨
  ((∀ t, ¬ accepted c (QueryToken req) t) ∧ ∃ s', Auth c req s = Val (false, s')).
Proof.
  intros Ha. unfold Auth, accepted. rewrite Ha. simpl.
  destruct (String.eqb_spec (QueryToken req) "") as [Hq|Hq].
  { right. split; [|eauto]. intros t [Hp _]. rewrite Hq in Hp.
    destruct (jwt_Parse_empty (ParsedPublicKey c)). by rewrite Hp. }
  destruct (jwt_Parse _ _) as [token [e|]] eqn:E; [naive_solver|].
  destruct (jwt_Parse_valid _ _ _ E) as (t&->&Hv). rewrite Hv. simpl.
  destruct (host_mismatch c t) eqn:Hm.
  - right. split; [|eauto]. intros t' [[= <-] Hh]. apply host_mismatch_false in Hh. congruence.
  - left. exists t. split; [|done]. split; [done|]. by apply host_mismatch_false.
Qed.
End auth.

Lemma GetToken_SetToken r v s : GetToken r (SetToken r v s) = v.
Proof.
  unfold GetToken, SetToken, context_Get, context_Set. by simplify_map_eq.
Qed.

Lemma GetToken_SetToken_ne r r' v s : r ≠ r' → GetToken r' (SetToken r v s) = GetToken r' s.
Proof.
  intros Hn. unfold GetToken, SetToken, context_Get, context_Set. by simplify_map_eq.
Qed.

#[export] Hint Rewrite GetToken_SetToken : hostapi.

(** ** Properties *)

Section properties.
Context {K : Type} `{!JWT K}.
Implicit Types c : config K.

(** [GetAndCheckToken] never panics, and answers true exactly for the
    tokens that parse without error and, when the host check is on, carry
    this host's uuid as a string claim; the token it then returns is the
    parsed one. *)
Theorem GetAndCheckToken_correct c ts :
  is_val (GetAndCheckToken c ts) ∧
  ∀ t, GetAndCheckToken c ts = Val (Some t, true) ↔ accepted c ts t.
Proof.
  split; [|apply GetAndCheckToken_accepted].
  destruct (GetAndCheckToken_cases c ts) as [(t&_&->)|(_&t&->)]; by eexists.
Qed.

(** With authentication on, the HTTP gate and the websocket gate take
    the same decision on the same token. *)
Theorem Auth_agrees_GetAndCheckToken c req s :
  Config.Auth c = true →
  ∃ ok t s', Auth c req s = Val (ok, s') ∧
             GetAndCheckToken c (QueryToken req) = Val (t, ok).
Proof.
  intros Ha.
  destruct (Auth_cases c req s Ha) as [(t&Ht&E)|(Hn&s'&E)], (GetAndCheckToken_cases c (QueryToken req))
    as [(t'&Ht'&E')|(Hn'&t'&E')]; naive_solver.
Qed.

(** C16: with authentication on ([Config.Auth]) the interceptor calls the
    wrapped handler only for an accepted token, on the world in which the token
    is stored for the request, and then forgets the request's context; a
    rejected request gets a 401, leaves no access-log line and never reaches the
    handler.  With authentication off, as it is by default, it lets every
    request through, whatever its token, and stores none. *)
Theorem interceptor_gate fs c router elapsed req w :
  (Config.Auth c = true →
   ((∃ t w', accepted c (QueryToken req) t ∧
       w' = router req (mkWorld (SetToken (ReqId req) (Some t) (ctx w)) (response w) (access_log w)) ∧
       ∃ log, AuthHttpInterceptor fs c router elapsed req w
              = Val (mkWorld (context_Clear (ReqId req) (ctx w')) (response w') log) ∧
              (Method req = "GET" → log = access_log w' ++ [LogAccess fs req elapsed]) ∧
              (Method req ≠ "GET" → log = access_log w')) ∨
    ((∀ t, ¬ accepted c (QueryToken req) t) ∧
       ∃ s', AuthHttpInterceptor fs c router elapsed req w
             = Val (mkWorld s' (http_Error (response w) "Failed authentication" 401) (access_log w))))) ∧
  (Config.Auth c = false →
   ∃ w' log, w' = router req w ∧
     AuthHttpInterceptor fs c router elapsed req w
       = Val (mkWorld (context_Clear (ReqId req) (ctx w')) (response w') log) ∧
     (Method req = "GET" → log = access_log w' ++ [LogAccess fs req elapsed]) ∧
     (Method req ≠ "GET" → log = access_log w')).
Proof.
  unfold AuthHttpInterceptor. split; intros Ha.
  - destruct (Auth_cases c req (ctx w) Ha) as [(t&Ht&->)|(Hn&s'&->)].
    + left. exists t. eexists. split; [done|]. split; [done|]. eexists. split; [done|].
      destruct (String.eqb_spec (Method req) "GET"); naive_solver.
    + right. split; [done|]. by exists s'.
  - unfold Auth. rewrite Ha. simpl. eexists _, _. split; [done|]. split; [by destruct w|].
    destruct (String.eqb_spec (Method req) "GET"); naive_solver.
Qed.

(** A rejected request with a non-empty token stays in the context
    store: [Auth] stored its token and only the successful path clears it. *)
Theorem rejected_request_leaks fs c router elapsed req w :
  Config.Auth c = true → QueryToken req ≠ "" → (∀ t, ¬ accepted c (QueryToken req) t) →
  ∃ w', AuthHttpInterceptor fs c router elapsed req w = Val w' ∧
        is_Some (context_Get (ReqId req) TokenKey (ctx w')).
Proof.
  intros Ha Hq Hn. unfold AuthHttpInterceptor.
  destruct (Auth_cases c req (ctx w) Ha) as [(t&Ht&_)|(_&s'&E)]; [by destruct (Hn t)|].
  rewrite E. eexists. split; [done|]. simpl. unfold Auth in E. rewrite Ha in E. simpl in E.
  destruct (String.eqb_spec (QueryToken req) ""); [done|].
  destruct (jwt_Parse (QueryToken req) (ParsedPublicKey c)) as [token err].
  assert (s' = SetToken (ReqId req) token (ctx w)) as ->
    by (repeat case_match; simplify_eq; done).
  unfold context_Get, SetToken, context_Set. simplify_map_eq. by eexists.
Qed.
End properties.

(** ** With the parser of jwt-go *)

Section jwt_go.
Context {R P : Type} {crypto : Crypto R P} {json : Json} {clock : Clock}.
#[local] Existing Instance jwt_go.
Implicit Types c : config (key R).

(** C3: with the parser of jwt-go a token is accepted only when an RSA key is
    configured and that key verifies the token's signature over its first two
    segments: neither a token that names another method (HMAC keyed with the
    public key, or none) nor one with other claims than the signed ones, nor
    any token when no key or a key of another type is configured.  The claims
    are those of the second segment and in time by the clock. *)
Theorem only_signed_accepted c ts t :
  (∀ b, ParsedPublicKey c ≠ Some (BytesKey b)) →
  GetAndCheckToken c ts = Val (Some t, true) →
  ∃ pub h part0 part1 part2 cb sig,
    ParsedPublicKey c = Some (RSAKey pub) ∧
    Split "."%char ts = [part0; part1; part2] ∧
    DecodeSegment part2 = Ok sig ∧
    VerifyPKCS1v15 pub h (digest h (bytes_of (Join "."%char [part0; part1]))) sig = None ∧
    DecodeSegment part1 = Ok cb ∧ Unmarshal cb = (Claims t, None) ∧
    expired (Claims t) = false ∧ not_before (Claims t) = false ∧
    (HostUuidCheck c = true → get (Claims t) "hostUuid" = VString (HostUuid c)).
Proof.
  intros Hb Ht. apply GetAndCheckToken_accepted in Ht as [Hp Hh]. apply Parse_spec in Hp as
    (m&header&claims&(part0&part1&part2&hb&cb&Hs&_&_&H1&Hc&_&He&Hn&Hv)&->).
  destruct (ParsedPublicKey c) as [[b|pub|]|] eqn:Hk; [by destruct (Hb b)| |exfalso..];
    [|by eapply Verify_other in Hv..].
  apply Verify_RSA in Hv as (h&sig&->&Hsig&_&Hv).
  by exists pub, h, part0, part1, part2, cb, sig.
Qed.

(** C20: a token that is signed with the private half of the configured RSA key,
    carries this host's uuid and is in time is accepted, with the claims that
    were signed. *)
Theorem signed_accepted c pub priv h claims ts :
  ParsedPublicKey c = Some (RSAKey pub) →
  (∀ d sig, SignPKCS1v15 priv h d = Ok sig → VerifyPKCS1v15 pub h d sig = None) →
  survives_json (Jwt.Header (New (RS h))) → survives_json claims →
  get claims "hostUuid" = VString (HostUuid c) →
  expired claims = false → not_before claims = false →
  SignedString (set_Claims (New (RS h)) claims) (Some (RSAKey priv)) = Val (Ok ts) →
  GetAndCheckToken c ts =
    Val (Some (mkToken ts (Some (RS h)) (Jwt.Header (New (RS h))) claims "" true), true).
Proof.
  intros Hk Hsig Hjh Hjc Hh He Hn Hs. apply GetAndCheckToken_accepted. split; [|done].
  simpl. rewrite Hk. apply (SignedString_Parse pub priv h (set_Claims (New (RS h)) claims)); done.
Qed.
End jwt_go.

(** A JWT library that accepts one token, issued for host "1". *)
Definition demo_token : Token := mkToken "" None ∅ {[ "hostUuid" := VString "1" ]} "" true.

#[local] Obligation Tactic := idtac.

#[local] Program Instance demo_jwt : JWT unit := {
  jwt_Parse s _ := if String.eqb s "good" then (Some demo_token, None)
                   else (None, Some (OtherError "token contains an invalid number of segments"))
}.
Next Obligation. intros s k t. simpl. destruct (String.eqb s "good"); [|done]. intros [= <-]. by exists demo_token. Qed.
Next Obligation. done. Qed.
Next Obligation.
  intros s k tok e. simpl. destruct (String.eqb s "good"); [|done]. intros [= <- _]. constructor.
  apply map_Forall_singleton. constructor.
Qed.

Definition demo_config (host : string) : config unit :=
  config_of (<["auth" := FBool true]> (<["host-uuid" := FString host]> registry)) None false.

Definition demo_request (token : string) : Request :=
  mkRequest 7 "GET" "10.0.0.1:5" "/" "HTTP/1.1" "h" ∅ token.

Lemma GetAndCheckToken_correct_witness :
  (GetAndCheckToken (demo_config "1") "good" = Val (Some demo_token, true) ↔
     accepted (demo_config "1") "good" demo_token) ∧
  GetAndCheckToken (demo_config "1") "good" = Val (Some demo_token, true) ∧
  GetAndCheckToken (demo_config "2") "good" = Val (Some demo_token, false).
Proof.
  split; [apply (GetAndCheckToken_correct (demo_config "1") "good")|split; vm_compute; reflexivity].
Defined.

Lemma Auth_agrees_witness :
  ∃ ok t s', Auth (demo_config "1") (demo_request "good") ∅ = Val (ok, s') ∧
             GetAndCheckToken (demo_config "1") "good" = Val (t, ok).
Proof. apply (Auth_agrees_GetAndCheckToken (demo_config "1") (demo_request "good") ∅). reflexivity. Defined.

(** The registry's own values: authentication is off. *)
Definition demo_open_config : config unit := config_of registry None false.

Lemma interceptor_gate_witness :
  (∃ w, AuthHttpInterceptor (λ _, "0") (demo_config "1") (λ _ w, w) 0 (demo_request "bad")
     (mkWorld ∅ empty_response []) = Val w ∧ Status (response w) = Some 401%Z) ∧
  ((∃ t w', accepted (demo_config "1") "bad" t ∧
      w' = mkWorld (SetToken 7 (Some t) ∅) empty_response [] ∧
      ∃ log, AuthHttpInterceptor (λ _, "0") (demo_config "1") (λ _ w, w) 0 (demo_request "bad")
               (mkWorld ∅ empty_response [])
             = Val (mkWorld (context_Clear 7 (ctx w')) (response w') log) ∧
             ("GET" = "GET" → log = access_log w' ++ [LogAccess (λ _, "0") (demo_request "bad") 0]) ∧
             ("GET" ≠ "GET" → log = access_log w')) ∨
   ((∀ t, ¬ accepted (demo_config "1") "bad" t) ∧
      ∃ s', AuthHttpInterceptor (λ _, "0") (demo_config "1") (λ _ w, w) 0 (demo_request "bad")
              (mkWorld ∅ empty_response [])
            = Val (mkWorld s' (http_Error empty_response "Failed authentication" 401) []))) ∧
  ∃ w' log, w' = mkWorld ∅ empty_response [] ∧
    AuthHttpInterceptor (λ _, "0") demo_open_config (λ _ w, w) 0 (demo_request "bad") (mkWorld ∅ empty_response [])
      = Val (mkWorld (context_Clear 7 (ctx w')) (response w') log) ∧
    ("GET" = "GET" → log = access_log w' ++ [LogAccess (λ _, "0") (demo_request "bad") 0]) ∧
    ("GET" ≠ "GET" → log = access_log w').
Proof.
  split; [eexists; split; vm_compute; reflexivity|]. split.
  - apply (proj1 (interceptor_gate (λ _, "0") (demo_config "1") (λ _ w, w) 0 (demo_request "bad")
      (mkWorld ∅ empty_response []))). reflexivity.
  - apply (proj2 (interceptor_gate (λ _, "0") demo_open_config (λ _ w, w) 0 (demo_request "bad")
      (mkWorld ∅ empty_response []))). reflexivity.
Defined.

Lemma rejected_request_leaks_witness :
  ∃ w', AuthHttpInterceptor (λ _, "0") (demo_config "1") (λ _ w, w) 0 (demo_request "bad")
          (mkWorld ∅ empty_response []) = Val w' ∧
        is_Some (context_Get 7 TokenKey (ctx w')).
Proof.
  apply (rejected_request_leaks (λ _, "0") (demo_config "1") (λ _ w, w) 0 (demo_request "bad")
    (mkWorld ∅ empty_response [])); [reflexivity|discriminate|].
  intros t [H _]. discriminate H.
Defined.

(** A toy scheme: a signature is the digest behind a mark, there is one key of
    each kind, and the codec knows one header and one map of claims. *)
Section toy.
#[local] Existing Instance jwt_go.

Definition toy_claims : gmap string value := {[ "hostUuid" := VString "1"; "exp" := VFloat64 "200" ]}.

#[local] Instance toy_crypto : Crypto unit unit := {
  Available _ := true;
  digest _ b := b;
  hmac _ k b := k ++ b;
  VerifyPKCS1v15 _ _ d sig :=
    if bool_decide (sig = Byte.x01 :: d) then None else Some (OtherError "crypto/rsa: verification error");
  SignPKCS1v15 _ _ d := Ok (Byte.x01 :: d);
  pem_Decode _ := None;
  ParsePKIXPublicKey _ := Ok OtherKey;
  ParseCertificate _ := Ok OtherKey;
  ParsePKCS1PrivateKey _ := Ok tt;
  ParsePKCS8PrivateKey _ := Ok OtherKey
}.

Definition toy_Unmarshal (b : bytes) : gmap string value * option error :=
  if bool_decide (b = bytes_of "header") then (Jwt.Header (New (RS SHA256)), None)
  else if bool_decide (b = bytes_of "claims") then (toy_claims, None)
  else (∅, Some (OtherError "unexpected end of JSON input")).

Lemma toy_Unmarshal_json b : from_json (VMap (toy_Unmarshal b).1).
Proof.
  unfold toy_Unmarshal, toy_claims. repeat case_bool_decide; simpl;
    repeat first [apply map_Forall_empty | apply map_Forall_insert_2 | constructor].
Qed.

#[local] Instance toy_json : Json := {
  Marshal m := if bool_decide (is_Some (m !! "alg")) then Ok (bytes_of "header") else Ok (bytes_of "claims");
  Unmarshal := toy_Unmarshal;
  Text _ := "error";
  Unmarshal_json := toy_Unmarshal_json
}.

#[local] Instance toy_clock : Clock := { now := 100; int64_of _ := 200%Z }.

Definition toy_config : config (key unit) :=
  config_of (<["auth" := FBool true]> (<["host-uuid" := FString "1"]> registry)) (Some (RSAKey tt)) false.

Definition toy_signed : outcome (result string) :=
  SignedString (set_Claims (New (RS SHA256)) toy_claims) (Some (RSAKey tt)).

Definition toy_token : string := "aGVhZGVy.Y2xhaW1z.AWFHVmhaR1Z5LlkyeGhhVzF6".

Lemma signed_accepted_witness :
  toy_signed = Val (Ok toy_token) ∧
  GetAndCheckToken toy_config toy_token =
    Val (Some (mkToken toy_token (Some (RS SHA256)) (Jwt.Header (New (RS SHA256))) toy_claims "" true), true).
Proof.
  split; [vm_compute; reflexivity|].
  apply (signed_accepted toy_config tt tt SHA256 toy_claims toy_token);
    [reflexivity| |by intros b [= <-]|by intros b [= <-]|reflexivity|reflexivity|reflexivity|vm_compute; reflexivity].
  intros d sig [= <-]. cbn. by rewrite bool_decide_true.
Defined.

Lemma only_signed_accepted_witness :
  ∃ pub h part0 part1 part2 cb sig,
    ParsedPublicKey toy_config = Some (RSAKey pub) ∧
    Split "."%char toy_token = [part0; part1; part2] ∧
    DecodeSegment part2 = Ok sig ∧
    VerifyPKCS1v15 pub h (digest h (bytes_of (Join "."%char [part0; part1]))) sig = None ∧
    DecodeSegment part1 = Ok cb ∧ Unmarshal cb = (toy_claims, None) ∧
    expired toy_claims = false ∧ not_before toy_claims = false ∧
    (HostUuidCheck toy_config = true → get toy_claims "hostUuid" = VString (HostUuid toy_config)).
Proof.
  apply (only_signed_accepted toy_config toy_token
    (mkToken toy_token (Some (RS SHA256)) (Jwt.Header (New (RS SHA256))) toy_claims "" true));
    [discriminate|vm_compute; reflexivity].
Defined.
End toy.
