(* ===== verification/Handshake.v ===== *)
(** * The handshake of a websocket handler

    Every handler starts the same way: it parses the initial message as a
    url, takes the [token] parameter of its query and, all but the
    statistics handlers, asks [GetAndCheckToken].  [request_token] is that
    opening; its lemmas are what the handlers' theorems use.

    [url.Parse] and [URL.Query] are the class [URLParser]: what a handler reads
    of a url is its path and its token parameter.  [Session.go_url] is the
    instance with the parser of [Url]. *)

From Stdlib Require Import Ascii.
From S2P Require Import Prelude GoStd Values Jwt Config Auth.

Record url := mkURL { Path : string; QueryToken : string }.

Class URLParser := url_Parse : string → result url.

(** What a handler did before it returned, when it returns early. *)
Inductive early := BadURL | BadToken | NoClient | NoContainer | NoExec | NoConn | NoStats.

Section handshake.
Context {K : Type} `{!JWT K} `{!URLParser}.
Implicit Types c : config K.

(** The opening of the logs, exec, console and docker-socket handlers: the
    handler goes on with a token, or returns. *)
Definition request_token c (initialMessage : string) : outcome (early + Token) :=
  match url_Parse initialMessage with
  | Err _ => Val (inl BadURL)
  | Ok requestUrl =>
      match GetAndCheckToken c (QueryToken requestUrl) with
      | Panics p => Panics p
      | Val (Some t, true) => Val (inr t)
      | Val (None, true) => Panics NilDereference
      | Val (_, false) => Val (inl BadToken)
      end
  end.

(** The message authorises the token. *)
Definition authorised c (initialMessage : string) (t : Token) : Prop :=
  ∃ u, url_Parse initialMessage = Ok u ∧ accepted c (QueryToken u) t.

Lemma request_token_cases c m :
  (∃ t, authorised c m t ∧ request_token c m = Val (inr t)) ∨
  ((∀ t, ¬ authorised c m t) ∧ ∃ e, request_token c m = Val (inl e)).
Proof.
  unfold request_token, authorised. destruct (url_Parse m) as [u|e]; [|naive_solver].
  destruct (GetAndCheckToken_cases c (QueryToken u)) as [(t&Ht&->)|(Hn&[t|]&->)]; naive_solver.
Qed.

Lemma request_token_authorised c m t : request_token c m = Val (inr t) ↔ authorised c m t.
Proof.
  destruct (request_token_cases c m) as [(t'&Ht&E)|(Hn&e&E)]; rewrite E.
  - split; [by intros [= <-]|]. intros (u&Hu&Hp&_). destruct Ht as (u'&Hu'&Hp'&_). congruence.
  - split; [done|]. intros Ha. by destruct (Hn t).
Qed.

Lemma authorised_claims c m t k : authorised c m t → from_json (get (Claims t) k).
Proof. intros (u&_&Hp&_). apply from_json_get. by eapply jwt_Parse_claims. Qed.
End handshake.

(** ** Concrete instances

    A parser that knows a table of tokens, and one of urls of the form
    [path?token]: with them the handlers' theorems are run on inputs. *)

Definition table_Parse (tokens : string → option Token) (s : string) : option Token * option error :=
  match tokens s with
  | Some t => (Some t, None)
  | None => (None, Some (OtherError "token contains an invalid number of segments"))
  end.

#[local] Obligation Tactic := idtac.

Program Definition table_jwt (tokens : string → option Token)
    (Hvalid : ∀ s t, tokens s = Some t → Valid t = true ∧ from_json (VMap (Claims t)))
    (Hempty : tokens "" = None) : JWT unit :=
  {| jwt_Parse s _ := table_Parse tokens s |}.
Next Obligation.
  intros tokens Hvalid Hempty s k t. simpl. unfold table_Parse.
  destruct (tokens s) as [t'|] eqn:E; [|done]. intros [= <-]. exists t'. naive_solver.
Defined.
Next Obligation. intros tokens Hvalid Hempty k. simpl. unfold table_Parse. by rewrite Hempty. Defined.
Next Obligation.
  intros tokens Hvalid Hempty s k tok e. simpl. unfold table_Parse.
  destruct (tokens s) as [t'|] eqn:E; [|done]. intros [= -> _]. by eapply Hvalid.
Defined.

Definition demo_url : URLParser := λ m,
  match Split "?"%char m with
  | [p; t] => Ok (mkURL p t)
  | _ => Err (OtherError "no token")
  end.

Definition valid_token (claims : gmap string value) : Token := mkToken "" None ∅ claims "" true.

(** One token for each handler, one without claims of its own. *)
Definition host_claim : gmap string value := {[ "hostUuid" := VString "1" ]}.

Definition demo_tokens (s : string) : option Token :=
  if String.eqb s "logs" then
    Some (valid_token (<["logs" := VMap {[ "Container" := VString "c1"; "Lines" := VFloat64 "20" ]}]> host_claim))
  else if String.eqb s "console" then
    Some (valid_token (<["console" := VMap {[ "container" := VString "vm1" ]}]> host_claim))
  else if String.eqb s "exec" then
    Some (valid_token (<["exec" := VMap {[ "Container" := VString "c1"; "Tty" := VBool true;
                                       "Cmd" := VSlice [VString "sh"; VFloat64 "1"; VString "-i"] ]}]> host_claim))
  else if String.eqb s "plain" then Some (valid_token host_claim)
  else None.

Lemma demo_tokens_valid s t : demo_tokens s = Some t → Valid t = true ∧ from_json (VMap (Claims t)).
Proof.
  unfold demo_tokens, host_claim. intros H.
  repeat (destruct (String.eqb _ _); [injection H as <-; split; [done|]|]); try done;
    repeat first [apply map_Forall_empty | apply map_Forall_insert_2 | constructor].
Qed.

Definition handshake_jwt : JWT unit := table_jwt demo_tokens demo_tokens_valid eq_refl.
