(* ===== verification/DockerClient.v ===== *)
(** * The docker client: [events/client.go] and [events/common.go]

    How the program builds its client from the environment, and the
    operations of the client (go-dockerclient, outside code) the handlers
    call, as a record of functions: what the daemon answers to each. *)

From Stdlib Require Import ZArith.
From S2P Require Import Prelude GoStd.

(** ** The environment *)

Abbreviation environment := (gmap string string).

(** [os.Getenv]. *)
Definition Getenv (env : environment) (key : string) : string := default "" (env !! key).

Definition getenv (env : environment) (key defaultVal : string) : string :=
  let val := Getenv env key in
  if String.eqb val "" then defaultVal else val.

Definition defaultUnixSocket : string := "unix:///var/run/docker.sock".
Definition defaultApiVersion : string := "1.18".

(** The two constructors of the client library, with their arguments. *)
Inductive client_config :=
| NewVersionedClient (endpoint apiVersion : string)
| NewVersionedTLSClient (endpoint cert key ca apiVersion : string).

#[export] Instance client_config_eq_decision : EqDecision client_config.
Proof. solve_decision. Defined.

Definition NewDockerClient (env : environment) : client_config :=
  let apiVersion := getenv env "DOCKER_API_VERSION" defaultApiVersion in
  let endpoint := defaultUnixSocket in
  if String.eqb (Getenv env "CATTLE_DOCKER_USE_BOOT2DOCKER") "true" then
    let endpoint := Getenv env "DOCKER_HOST" in
    let certPath := Getenv env "DOCKER_CERT_PATH" in
    let tlsVerify := negb (String.eqb (Getenv env "DOCKER_TLS_VERIFY") "") in
    if tlsVerify && negb (String.eqb certPath "") then
      let cert := path_Join certPath "cert.pem" in
      let key := path_Join certPath "key.pem" in
      let ca := path_Join certPath "ca.pem" in
      NewVersionedTLSClient endpoint cert key ca apiVersion
    else NewVersionedClient endpoint apiVersion
  else NewVersionedClient endpoint apiVersion.

(** ** Operations *)

(** The fields of an inspected container the program reads; [Config] is a
    pointer. *)
Record Container := mkContainer { ID : string; ConfigTty : option bool }.

Record CreateExecOptions := mkCreateExecOptions {
  AttachStdin : bool;
  AttachStdout : bool;
  AttachStderr : bool;
  Tty : bool;
  ExecContainer : string;
  Cmd : list string
}.

Record docker_client := mkDockerClient {
  InspectContainer : string → result Container;
  CreateExec : CreateExecOptions → result string
}.

(** ** Lemmas *)

Lemma getenv_nonempty env key d : d ≠ "" → getenv env key d ≠ "".
Proof. unfold getenv. destruct (String.eqb_spec (Getenv env key) ""); congruence. Qed.

Definition endpoint_of (c : client_config) : string :=
  match c with NewVersionedClient e _ | NewVersionedTLSClient e _ _ _ _ => e end.

Definition version_of (c : client_config) : string :=
  match c with NewVersionedClient _ v | NewVersionedTLSClient _ _ _ _ v => v end.

(** ** Properties *)

(** The client talks to the local socket unless boot2docker is asked for;
    it uses certificates, the three files of the directory given, exactly
    when boot2docker is asked for with verification and a directory; the version
    is the default only when the environment gives none. *)
Theorem NewDockerClient_correct env :
  let boot := Getenv env "CATTLE_DOCKER_USE_BOOT2DOCKER" in
  let certs := Getenv env "DOCKER_CERT_PATH" in
  let tls := boot = "true" ∧ Getenv env "DOCKER_TLS_VERIFY" ≠ "" ∧ certs ≠ "" in
  endpoint_of (NewDockerClient env) =
    (if String.eqb boot "true" then Getenv env "DOCKER_HOST" else "unix:///var/run/docker.sock") ∧
  (tls → NewDockerClient env =
     NewVersionedTLSClient (Getenv env "DOCKER_HOST") (path_Join certs "cert.pem")
       (path_Join certs "key.pem") (path_Join certs "ca.pem") (version_of (NewDockerClient env))) ∧
  (¬ tls → NewDockerClient env =
     NewVersionedClient (endpoint_of (NewDockerClient env)) (version_of (NewDockerClient env))) ∧
  version_of (NewDockerClient env) =
    (if String.eqb (Getenv env "DOCKER_API_VERSION") "" then "1.18" else Getenv env "DOCKER_API_VERSION").
Proof.
  intros boot certs tls. unfold NewDockerClient. fold boot certs.
  destruct (String.eqb_spec boot "true") as [Hb|Hb]; simpl;
    [destruct (String.eqb_spec (Getenv env "DOCKER_TLS_VERIFY") "") as [Hv|Hv];
     destruct (String.eqb_spec certs "") as [Hc|Hc]|];
    simpl; (split_and!; [done|intros (?&?&?); congruence || done|intros Hn|done]);
    first [done | by destruct Hn].
Qed.
