(* ===== verification/Wire.v ===== *)
(** * The protocol with the websocket proxy

    What the handlers exchange with the proxy: the messages of
    websocket-proxy/common with their text form, the routing of a path to
    a handler and the closing signal of websocket-proxy/backend, which the
    repository vendors.  [Handler_spec] is the contract of a handler: what
    it sends carries its key, and it signals its end at most once. *)

From Stdlib Require Import ZArith.
From Stdlib.Strings Require Byte.
From S2P Require Import Prelude GoStd.

(** ** Messages *)

Inductive MessageType := Connect | Body | Close | OtherType (s : string).

#[export] Instance MessageType_eq_decision : EqDecision MessageType.
Proof. solve_decision. Defined.

Definition type_text (t : MessageType) : string :=
  match t with Connect => "0" | Body => "1" | Close => "2" | OtherType s => s end.

Definition type_of_text (s : string) : MessageType :=
  if String.eqb s "0" then Connect
  else if String.eqb s "1" then Body
  else if String.eqb s "2" then Close
  else OtherType s.

Record Message := mkMessage { Key : string; Type_ : MessageType; MBody : string }.

#[export] Instance Message_eq_decision : EqDecision Message.
Proof. solve_decision. Defined.

Record HTTPMessage := mkHTTPMessage {
  Hijack : bool;
  HHost : string;
  HMethod : string;
  URL : string;
  Headers : option (gmap string (list string));   (* a map, possibly nil *)
  Code : Z;
  HBody : bytes;
  HEOF : bool
}.

(** The zero value [common.HTTPMessage{}]. *)
Definition zero_message : HTTPMessage := mkHTTPMessage false "" "" "" None 0 [] false.

Definition body_message (key : string) (b : string) : Message := mkMessage key Body b.

(** [backend.SignalHandlerClosed]: the message every handler defers. *)
Definition SignalHandlerClosed (key : string) : Message := mkMessage key Close "".

(** ** Text form *)

Definition MessageSeparator : string := "||".

Definition FormatMessage (m : Message) : string :=
  Key m +:+ MessageSeparator +:+ type_text (Type_ m) +:+ MessageSeparator +:+ MBody m.

(** What precedes and follows the first separator. *)
Definition cut (s : string) : option (string * string) :=
  let b := bytes_of s in
  match find_index (bytes_of MessageSeparator) b with
  | Some i => Some (string_of (take i b), string_of (drop (i + 2) b))
  | None => None
  end.

(** [strings.SplitN(raw, "||", 3)], of which the three parts are indexed. *)
Definition ParseMessage (raw : string) : outcome Message :=
  match cut raw with
  | None => Panics IndexOutOfRange
  | Some (key, rest) =>
      match cut rest with
      | None => Panics IndexOutOfRange
      | Some (ty, body) => Val (mkMessage key (type_of_text ty) body)
      end
  end.

Lemma cut_frame k r :
  frame_ok (bytes_of MessageSeparator) (bytes_of k) → cut (k +:+ MessageSeparator +:+ r) = Some (k, r).
Proof.
  intros H. unfold cut. rewrite !bytes_of_app, (frame_ok_find _ _ _ H).
  rewrite take_app_length, string_of_bytes_of.
  rewrite drop_app. replace (length (bytes_of k) + 2 - length (bytes_of k)) with 2 by lia.
  rewrite drop_ge by lia.
  change ([] ++ drop 2 (bytes_of MessageSeparator ++ bytes_of r)) with (bytes_of r).
  by rewrite string_of_bytes_of.
Qed.

Lemma type_of_type_text t :
  (∀ s, t = OtherType s → s ≠ "0" ∧ s ≠ "1" ∧ s ≠ "2") → type_of_text (type_text t) = t.
Proof.
  destruct t as [| | |s]; try done. intros H. destruct (H s) as (?&?&?); [done|].
  unfold type_of_text, type_text. by rewrite !(proj2 (String.eqb_neq _ _)).
Qed.

(** A key that the text form keeps. *)
Definition key_ok (key : string) : Prop := frame_ok (bytes_of MessageSeparator) (bytes_of key).

Lemma cut_key_ok s k r : cut s = Some (k, r) → key_ok k.
Proof.
  unfold cut. destruct (find_index _ _) as [i|] eqn:E; [|done]. intros [= <- _].
  unfold key_ok. rewrite bytes_of_string_of. by apply find_index_frame.
Qed.

Lemma ParseMessage_key_ok raw m : ParseMessage raw = Val m → key_ok (Key m).
Proof.
  unfold ParseMessage. destruct (cut raw) as [[k r]|] eqn:E; [|done]. destruct (cut r) as [[ty body]|]; [|done].
  intros [= <-]. by eapply cut_key_ok.
Qed.

(** A message that its text keeps: those the agent sends are bodies and closes. *)
Definition wire_ok (m : Message) : Prop := key_ok (Key m) ∧ (Type_ m = Body ∨ Type_ m = Close).

Lemma wire_ok_parse m : wire_ok m → ParseMessage (FormatMessage m) = Val m.
Proof.
  intros [Hk Ht]. unfold ParseMessage, FormatMessage. rewrite (cut_frame _ _ Hk).
  assert (frame_ok (bytes_of MessageSeparator) (bytes_of (type_text (Type_ m)))) as Hty
    by (destruct Ht as [-> | ->]; vm_compute; reflexivity).
  rewrite (cut_frame _ _ Hty), type_of_type_text by (by destruct Ht as [-> | ->]). by destruct m.
Qed.

(** ** Routing *)

Definition getHandler {H} (path : string) (handlers : list (string * H)) : option H :=
  match list_to_map (M := gmap string H) handlers !! path with
  | Some h => Some h
  | None =>
      let path := TrimSuffix path "/" in
      snd <$> (list_find (λ kh, HasPrefix path (TrimSuffix kh.1 "/") = true) handlers ≫= λ p, Some p.2)
  end.

(** ** The contract of a handler *)

Definition is_close (m : Message) : bool := bool_decide (Type_ m = Close).

Class Handler_spec (S L : Type) `{!Machine S L}
    (init : S) (key : string) (responses : S → list Message) := {
  handler_keyed s : reachable init s → Forall (λ m, Key m = key) (responses s);
  handler_closes_once s :
    reachable init s → length (filter is_close (responses s)) ≤ 1
}.
#[export] Hint Mode Handler_spec - - - ! - - : typeclass_instances.

(** An interleaving of the streams of several handlers on the shared
    response channel. *)
Inductive interleave : list (list Message) → list Message → Prop :=
| interleave_nil ls : Forall (λ l, l = []) ls → interleave ls []
| interleave_cons ls1 m l ls2 out :
    interleave (ls1 ++ l :: ls2) out →
    interleave (ls1 ++ (m :: l) :: ls2) (m :: out).

Definition for_key (key : string) (l : list Message) : list Message :=
  filter (λ m, Key m = key) l.

Lemma for_key_all key l : Forall (λ m, Key m = key) l → for_key key l = l.
Proof.
  induction 1 as [|m l Hm Hl IH]; [done|]. unfold for_key in *. by rewrite filter_cons_True, IH.
Qed.

Lemma for_key_none key l : Forall (λ m, Key m ≠ key) l → for_key key l = [].
Proof.
  induction 1 as [|m l Hm Hl IH]; [done|]. unfold for_key in *. by rewrite filter_cons_False, IH.
Qed.

(** The backend reads one interleaving of what its handlers send; selecting a
    key gives back that handler's own stream. *)
Lemma interleave_for_key ls out :
  interleave ls out →
  ∀ keys, NoDup keys → Forall2 (λ k l, Forall (λ m, Key m = k) l) keys ls →
  Forall2 (λ k l, for_key k out = l) keys ls.
Proof.
  induction 1 as [ls Hnil|ls1 m l ls2 out Hint IH]; intros keys Hnd Hk.
  - clear Hnd. induction Hk as [|k l ks ls Hl Hk IH]; [constructor|].
    apply Forall_cons in Hnil as [-> Hnil]. constructor; [done|auto].
  - apply Forall2_app_inv_r in Hk as (ks1&ks'&Hk1&Hk2&->).
    inversion Hk2 as [|k l' ks2 ls' Hkl Hk2']; subst.
    apply Forall_cons in Hkl as [Hm Hl].
    assert (Forall2 (λ k l, Forall (λ m, Key m = k) l) (ks1 ++ k :: ks2) (ls1 ++ l :: ls2)) as Hk
      by (apply Forall2_app; [done|by constructor]).
    specialize (IH _ Hnd Hk).
    apply Forall2_app_inv_r in IH as (ks1'&ks2'&IH1&IH2&Heq).
    assert (length ks1' = length ks1) as Hlen
      by (apply Forall2_length in IH1, Hk1; congruence).
    apply app_inj_1 in Heq as [<- <-]; [|done].
    apply Forall2_cons in IH2 as [IHk IH2'].
    apply NoDup_app in Hnd as (_&Hdisj&Hnd). apply NoDup_cons in Hnd as [Hk3 _].
    assert (∀ k', k' ≠ Key m → for_key k' (m :: out) = for_key k' out) as Hskip.
    { intros k' Hne. unfold for_key. rewrite filter_cons_False; [done|congruence]. }
    apply Forall2_app.
    + eapply Forall2_impl_in; [exact IH1|]. intros k' l' Hin <-. apply Hskip.
      intros ->. apply (Hdisj _ Hin). rewrite Hm. apply list_elem_of_here.
    + constructor.
      * unfold for_key in *. by rewrite filter_cons_True, IHk by done.
      * eapply Forall2_impl_in; [exact IH2'|]. intros k' l' Hin <-. apply Hskip.
        rewrite Hm. by intros ->.
Qed.

(** ** Properties *)

(** Parsing the text of a message gives the message back when neither
    its key nor its type runs into the separator; the body is arbitrary, it may
    contain the separator. *)
Theorem ParseMessage_FormatMessage m :
  frame_ok (bytes_of MessageSeparator) (bytes_of (Key m)) →
  frame_ok (bytes_of MessageSeparator) (bytes_of (type_text (Type_ m))) →
  (∀ s, Type_ m = OtherType s → s ≠ "0" ∧ s ≠ "1" ∧ s ≠ "2") →
  ParseMessage (FormatMessage m) = Val m.
Proof.
  intros Hk Ht Ho. unfold ParseMessage, FormatMessage.
  rewrite (cut_frame _ _ Hk), (cut_frame _ _ Ht), (type_of_type_text _ Ho). by destruct m.
Qed.

Lemma ParseMessage_FormatMessage_witness :
  ParseMessage (FormatMessage (mkMessage "k1" Body "a||b")) = Val (mkMessage "k1" Body "a||b").
Proof.
  apply ParseMessage_FormatMessage;
    [vm_compute; reflexivity|vm_compute; reflexivity|discriminate].
Defined.
