(* ===== verification/HttpCodec.v ===== *)
(** * The JSON of [common.HTTPMessage]

    [Marshal] and [Unmarshal] of [encoding/json] on the struct in which the
    container proxy carries requests and responses: the tags name its fields and
    leave out the empty ones, a []byte is base64 text, the keys of a map are
    written in order. *)

From Stdlib Require Import Ascii NArith ZArith.
From S2P Require Import Prelude GoStd Base64 Json JsonDecode Wire.

(** ** Encoding *)

Definition json_strings (vs : list string) : json := JArray (List.map JString vs).

(** The fields in the order of the struct. *)
Definition message_fields (m : HTTPMessage) : list (string * json) :=
  omit (negb (Hijack m)) "hijack" (JBool (Hijack m)) ++
  omit (String.eqb (HHost m) "") "host" (JString (HHost m)) ++
  omit (String.eqb (HMethod m) "") "method" (JString (HMethod m)) ++
  omit (String.eqb (URL m) "") "url" (JString (URL m)) ++
  omit (bool_decide (default ∅ (Headers m) = ∅)) "headers" (json_map json_strings (default ∅ (Headers m))) ++
  omit (Code m =? 0)%Z "code" (json_int (Code m)) ++
  omit (is_nil (HBody m)) "body" (JString (EncodeToString (HBody m))) ++
  omit (negb (HEOF m)) "eof" (JBool (HEOF m)).

Definition Marshal (m : HTTPMessage) : string := print (JObject (message_fields m)).

(** ** Decoding *)

Definition decode_byte : decoder byte := λ j old,
  z ← decode_uint 256 j (Z.of_N (Byte.to_N old));
  Ok (default Byte.x00 (Byte.of_N (Z.to_N z))).

(** A []byte written as an array: each element over the one there was. *)
Fixpoint decode_byte_array (l : list json) (old : bytes) : result bytes :=
  match l with
  | [] => Ok []
  | j :: l => b ← decode_byte j (hd Byte.x00 old); bs ← decode_byte_array l (tl old); Ok (b :: bs)
  end.

Definition decode_bytes : decoder bytes := λ j old,
  match j with
  | JString s => DecodeString s
  | JNull => Ok []
  | JArray l => decode_byte_array l old
  | _ => Err UnmarshalTypeError
  end.

Definition bytes_at : place → result bytes := value_at decode_bytes [].

Definition strings_at : place → result (list string) := slice_at string_at.

Definition message_at (js : place) : result HTTPMessage :=
  l ← object_at js;
  hijack ← bool_at (field "hijack" l);
  host ← string_at (field "host" l);
  method ← string_at (field "method" l);
  url ← string_at (field "url" l);
  headers ← map_at strings_at (field "headers" l);
  code ← int_at (field "code" l);
  body ← bytes_at (field "body" l);
  eof ← bool_at (field "eof" l);
  Ok (mkHTTPMessage hijack host method url headers code body eof).

Definition Unmarshal (s : string) : result HTTPMessage :=
  j ← parse s; message_at [j].

Example Marshal_ex :
  Marshal (mkHTTPMessage false "" "" "" (Some (<["B" := ["x<y"]]> {[ "A" := ["1"; "2"] ]})) 200 (bytes_of "hi") true) =
  "{" +:+ q +:+ "headers" +:+ q +:+ ":{" +:+ q +:+ "A" +:+ q +:+ ":[" +:+ q +:+ "1" +:+ q +:+ "," +:+ q +:+ "2" +:+ q
    +:+ "]," +:+ q +:+ "B" +:+ q +:+ ":[" +:+ q +:+ "x\u003cy" +:+ q +:+ "]}," +:+ q +:+ "code" +:+ q +:+ ":200,"
    +:+ q +:+ "body" +:+ q +:+ ":" +:+ q +:+ "aGk=" +:+ q +:+ "," +:+ q +:+ "eof" +:+ q +:+ ":true}".
Proof. vm_compute. reflexivity. Qed.

Example Unmarshal_ex :
  Unmarshal ("{" +:+ q +:+ "EOF" +:+ q +:+ ":true," +:+ q +:+ "x" +:+ q +:+ ":[1]," +:+ q +:+ "body" +:+ q +:+ ":[104,105]}")
  = Ok (mkHTTPMessage false "" "" "" None 0 (bytes_of "hi") true) ∧
  Unmarshal ("{" +:+ q +:+ "host" +:+ q +:+ ":" +:+ q +:+ "a" +:+ q +:+ "," +:+ q +:+ "HOST" +:+ q +:+ ":null," +:+
    q +:+ "body" +:+ q +:+ ":[1,2]," +:+ q +:+ "body" +:+ q +:+ ":[null]}")
  = Ok (mkHTTPMessage false "a" "" "" None 0 [Byte.x01] false) ∧
  Unmarshal "" = Err SyntaxError ∧ Unmarshal "null" = Ok zero_message ∧
  Unmarshal ("{" +:+ q +:+ "code" +:+ q +:+ ":1.5}") = Err UnmarshalTypeError.
Proof. vm_compute. done. Qed.

(** ** The round trip *)

(** What the text carries unchanged: strings of valid UTF-8, a 64-bit code,
    headers that are nil or not empty. *)
Record plain_message (m : HTTPMessage) : Prop := {
  plain_strings : utf8 (HHost m) ∧ utf8 (HMethod m) ∧ utf8 (URL m);
  plain_headers : ∀ h, Headers m = Some h → h ≠ ∅ ∧
    map_Forall (λ k vs, utf8 k ∧ Forall utf8 vs) h;
  plain_code : is_int64 (Code m)
}.

Lemma enc_sextet_ascii x : ascii_byte (enc_sextet x) = true.
Proof. by destruct x as [[] [] [] [] [] []]. Qed.

Lemma EncodeToString_utf8 b : utf8 (EncodeToString b).
Proof.
  apply is_ascii_utf8. induction b as [|x|x y|x y z b IH] using bytes_ind3; [done|..]; cbn [EncodeToString];
    destruct (quantum _ _ _) as [[[p r] s] t]; cbn [is_ascii]; rewrite !enc_sextet_ascii; done.
Qed.

Lemma json_strings_ok vs : Forall utf8 vs → json_ok (json_strings vs).
Proof. intros Hvs. constructor. apply Forall_fmap. eapply Forall_impl; [done|]. intros s Hs. by constructor. Qed.

Lemma message_fields_ok m : plain_message m → json_ok (JObject (message_fields m)).
Proof.
  intros [(H1&H2&H3) Hh Hc]. constructor. unfold message_fields.
  repeat apply Forall_app_2; apply omit_ok; try done; intros He; try (by constructor).
  - apply json_map_ok. destruct (Headers m) as [h|]; [|apply map_Forall_empty].
    destruct (Hh h eq_refl) as [_ Hf]. intros k vs Hk. destruct (Hf k vs Hk). split; [done|by apply json_strings_ok].
  - apply json_int_ok.
  - constructor. apply EncodeToString_utf8.
Qed.

Lemma strings_at_json vs : strings_at [json_strings vs] = Ok vs.
Proof. apply slice_at_json. by apply Forall_true. Qed.

(** A message comes back from its text. *)
Lemma Unmarshal_Marshal m : plain_message m → Unmarshal (Marshal m) = Ok m.
Proof.
  intros Hm. unfold Unmarshal, Marshal. rewrite parse_print by by apply message_fields_ok.
  destruct Hm as [_ Hh Hc]. cbn [mbind result_bind]. unfold message_at. rewrite object_at_one. cbn [mbind result_bind].
  unfold message_fields. find_fields.
  rewrite !bool_at_omit, !string_at_omit, int_at_omit by done. cbn [mbind result_bind].
  assert (map_at strings_at (if bool_decide (default ∅ (Headers m) = ∅) then []
      else [json_map json_strings (default ∅ (Headers m))]) = Ok (Headers m)) as ->.
  { destruct (Headers m) as [h|]; [|done]. destruct (Hh h eq_refl) as [Hne _].
    rewrite bool_decide_eq_false_2 by done. apply map_at_json. intros k vs _. apply strings_at_json. }
  assert (bytes_at (if is_nil (HBody m) then [] else [JString (EncodeToString (HBody m))]) = Ok (HBody m)) as ->.
  { destruct (HBody m) as [|x b]; [done|]. unfold bytes_at, value_at, decode_bytes, is_nil. cbn [foldl mbind result_bind].
    by rewrite decode_encode. }
  by destruct m.
Qed.
