(* ===== verification/Backend.v ===== *)
(** * The loop between proxy and handlers: the vendored websocket-proxy/backend

    [connectToProxyWS]: one goroutine reads the messages of the websocket and
    routes them to the handlers by key, another writes what the handlers send.
    Every session has a channel of ten bodies, all share a response channel of
    ten messages; a send to a full channel blocks its sender, so a session whose
    handler does not receive stops the reader.

    [sessions_of] says, of the messages received, which sessions there are and
    what each must get; [backend_routes] that the machine gives exactly that. *)

From S2P Require Import Prelude GoStd Jwt Handshake Wire.

Section backend.
Context {H : Type} `{!URLParser} (handlers : list (string * H)).

(** ** State *)

(** A handler that was started, with its channel: what is buffered in it,
    whether it is closed, and what the handler has received so far. *)
Record session := mkSession {
  skey : string;
  shandler : H;
  initial : string;
  buffer : list string;
  closed : bool;
  taken : list string
}.

(** Where the reading goroutine is: waiting for a message, in a send to the
    channel of a session or to the response channel, or returned. *)
Inductive reader :=
| Reading
| Delivering (i : nat) (body : string)
| Answering (m : Message)
| Stopped.

(** [history] and [accepted] record the messages received from the proxy and
    those the response channel took. *)
Record backend := mkBackend {
  responders : gmap string nat;
  sessions : list session;
  pc : reader;
  responses : list Message;
  written : list string;
  history : list Message;
  accepted : list Message;
  crash : option panic
}.

Definition channel_size : nat := 10.

Definition start : backend := mkBackend ∅ [] Reading [] [] [] [] None.

Definition responses_closed (s : backend) : bool :=
  match pc s with Stopped => true | _ => false end.

Definition set_pc (p : reader) (s : backend) : backend :=
  mkBackend (responders s) (sessions s) p (responses s) (written s) (history s) (accepted s) (crash s).
Definition set_crash (p : panic) (s : backend) : backend :=
  mkBackend (responders s) (sessions s) (pc s) (responses s) (written s) (history s) (accepted s) (Some p).
Definition set_sessions (f : list session → list session) (s : backend) : backend :=
  mkBackend (responders s) (f (sessions s)) (pc s) (responses s) (written s) (history s) (accepted s) (crash s).
Definition set_responders (r : gmap string nat) (s : backend) : backend :=
  mkBackend r (sessions s) (pc s) (responses s) (written s) (history s) (accepted s) (crash s).
Definition received (m : Message) (s : backend) : backend :=
  mkBackend (responders s) (sessions s) (pc s) (responses s) (written s) (history s ++ [m]) (accepted s) (crash s).

(** The three operations on a session's channel. *)
Definition push (body : string) (x : session) : session :=
  mkSession (skey x) (shandler x) (initial x) (buffer x ++ [body]) (closed x) (taken x).
Definition pull (x : session) : session :=
  mkSession (skey x) (shandler x) (initial x) (tail (buffer x)) (closed x) (taken x ++ take 1 (buffer x)).
Definition shut (x : session) : session :=
  mkSession (skey x) (shandler x) (initial x) (buffer x) true (taken x).

(** ** The reading goroutine *)

Definition closeHandler (msgKey : string) (s : backend) : backend :=
  match responders s !! msgKey with
  | None => s
  | Some i =>
      if from_option closed false (sessions s !! i) then set_crash CloseOfClosed s
      else set_responders (delete msgKey (responders s)) (set_sessions (alter shut i) s)
  end.

(** The handler a message starts, when it is a connect to a path some handler
    serves. *)
Definition started (m : Message) : option H :=
  match Type_ m, url_Parse (MBody m) with
  | Connect, Ok requestURL => getHandler (Path requestURL) handlers
  | _, _ => None
  end.

Definition route (m : Message) (s : backend) : backend :=
  match Type_ m with
  | Connect =>
      match url_Parse (MBody m) with
      | Err _ => s
      | Ok requestURL =>
          match getHandler (Path requestURL) handlers with
          | Some handler =>
              set_responders (<[Key m := length (sessions s)]> (responders s))
                (set_sessions (λ l, l ++ [mkSession (Key m) handler (MBody m) [] false []]) s)
          | None => set_pc (Answering (SignalHandlerClosed (Key m))) s
          end
      end
  | Body =>
      match responders s !! Key m with
      | Some i => set_pc (Delivering i (MBody m)) s
      | None => set_pc (Answering (SignalHandlerClosed (Key m))) s
      end
  | Close => closeHandler (Key m) s
  | OtherType _ => set_pc (Answering (SignalHandlerClosed (Key m))) (closeHandler (Key m) s)
  end.

(** A read of the websocket: its error closes the response channel and ends the
    loop. *)
Definition receive (msg : option string) (s : backend) : backend :=
  match msg with
  | None => set_pc Stopped s
  | Some raw =>
      match ParseMessage raw with
      | Panics p => set_crash p s
      | Val m => route m (received m s)
      end
  end.

(** ** The machine *)

(** A message enters the response channel, which has room for ten; a send to
    the closed channel panics. *)
Definition respond (m : Message) (s : backend) : option backend :=
  if responses_closed s then Some (set_crash SendOnClosed s)
  else if length (responses s) <? channel_size then
    Some (mkBackend (responders s) (sessions s) (pc s) (responses s ++ [m]) (written s)
            (history s) (accepted s ++ [m]) (crash s))
  else None.

(** Steps of the reading goroutine, of the handlers' goroutines and of the
    writing one. *)
Inductive action :=
| Receive (msg : option string)
| Deliver
| Answer
| Take (i : nat)
| Send (i : nat) (m : Message)
| Write.

Definition bstep (a : action) (s : backend) : option backend :=
  match crash s, a with
  | Some _, _ => None
  | None, Receive msg => match pc s with Reading => Some (receive msg s) | _ => None end
  | None, Deliver =>
      match pc s with
      | Delivering i body =>
          x ← sessions s !! i;
          if closed x then Some (set_crash SendOnClosed s)
          else if length (buffer x) <? channel_size
          then Some (set_pc Reading (set_sessions (alter (push body) i) s))
          else None
      | _ => None
      end
  | None, Answer =>
      match pc s with Answering m => respond m (set_pc Reading s) | _ => None end
  | None, Take i =>
      x ← sessions s !! i;
      match buffer x with [] => None | _ => Some (set_sessions (alter pull i) s) end
  | None, Send i m =>
      _ ← sessions s !! i; respond m s
  | None, Write =>
      match responses s with
      | [] => None
      | m :: ms =>
          Some (mkBackend (responders s) (sessions s) (pc s) ms (written s ++ [FormatMessage m])
                  (history s) (accepted s) (crash s))
      end
  end.

#[export] Instance backend_machine : Machine backend action := bstep.

(** ** What the sessions must get *)

Inductive status := Open | Replaced | Closed.

#[export] Instance status_eq_decision : EqDecision status.
Proof. solve_decision. Defined.

(** The bodies of a session with a key, of the messages that follow its start:
    those with its key, until a message closes it or another session takes the
    key over. *)
Fixpoint inputs (k : string) (later : list Message) : list string * status :=
  match later with
  | [] => ([], Open)
  | m :: later =>
      if bool_decide (Key m = k) then
        match Type_ m with
        | Body => let '(bodies, st) := inputs k later in (MBody m :: bodies, st)
        | Connect => match started m with Some _ => ([], Replaced) | None => inputs k later end
        | _ => ([], Closed)
        end
      else inputs k later
  end.

Record expected := mkExpected {
  ekey : string;
  ehandler : H;
  einitial : string;
  einputs : list string;
  estatus : status
}.

Fixpoint sessions_of (ms : list Message) : list expected :=
  match ms with
  | [] => []
  | m :: later =>
      match started m with
      | Some h =>
          let '(bodies, st) := inputs (Key m) later in
          mkExpected (Key m) h (MBody m) bodies st :: sessions_of later
      | None => sessions_of later
      end
  end.

(** ** Lemmas on what the sessions must get *)

(** One more message. *)
Definition extend (m : Message) (e : expected) : expected :=
  if bool_decide (ekey e = Key m ∧ estatus e = Open) then
    match Type_ m with
    | Body => mkExpected (ekey e) (ehandler e) (einitial e) (einputs e ++ [MBody m]) Open
    | Connect =>
        match started m with
        | Some _ => mkExpected (ekey e) (ehandler e) (einitial e) (einputs e) Replaced
        | None => e
        end
    | _ => mkExpected (ekey e) (ehandler e) (einitial e) (einputs e) Closed
    end
  else e.

Lemma started_connect m h : started m = Some h → Type_ m = Connect.
Proof. unfold started. by destruct (Type_ m). Qed.

Lemma inputs_snoc m h k i later :
  let e := mkExpected k h i (inputs k later).1 (inputs k later).2 in
  inputs k (later ++ [m]) = (einputs (extend m e), estatus (extend m e)).
Proof.
  unfold extend. simpl. induction later as [|m' later IH]; simpl.
  - destruct (decide (Key m = k)) as [Hk|Hk].
    + rewrite (bool_decide_true (Key m = k)) by done.
      rewrite (bool_decide_true (k = Key m ∧ Open = Open)) by done.
      destruct (Type_ m) eqn:Ht; simpl; try done. by destruct (started m).
    + rewrite (bool_decide_false (Key m = k)) by done.
      rewrite (bool_decide_false (k = Key m ∧ Open = Open)) by naive_solver. done.
  - destruct (bool_decide (Key m' = k)); [|exact IH].
    destruct (Type_ m'); try by rewrite bool_decide_false by naive_solver.
    + destruct (started m'); [|exact IH]. by rewrite bool_decide_false by naive_solver.
    + rewrite IH. destruct (inputs k later) as [bodies st]. simpl.
      by destruct (bool_decide _), (Type_ m), (started m).
Qed.

Lemma sessions_of_snoc ms m :
  sessions_of (ms ++ [m]) =
    (extend m <$> sessions_of ms) ++
    match started m with Some h => [mkExpected (Key m) h (MBody m) [] Open] | None => [] end.
Proof.
  induction ms as [|m' ms IH]; simpl; [by destruct (started m)|].
  destruct (started m') as [h|]; [|done].
  rewrite (inputs_snoc m h (Key m') (MBody m') ms), IH.
  destruct (inputs (Key m') ms) as [bodies st]. simpl. f_equal.
  unfold extend. simpl. by destruct (bool_decide _), (Type_ m), (started m).
Qed.

Lemma extend_fields m e :
  ekey (extend m e) = ekey e ∧ ehandler (extend m e) = ehandler e ∧ einitial (extend m e) = einitial e.
Proof. unfold extend. repeat case_match; done. Qed.

Lemma extend_other m e : ekey e ≠ Key m ∨ estatus e ≠ Open → extend m e = e.
Proof. intros Hn. unfold extend. rewrite bool_decide_false; [done|]. naive_solver. Qed.

(** ** The invariant *)

(** The body that is on its way into a session's channel. *)
Definition pending (p : reader) (i : nat) : list string :=
  match p with Delivering j body => if decide (i = j) then [body] else [] | _ => [] end.

Definition matches (p : reader) (i : nat) (x : session) (e : expected) : Prop :=
  skey x = ekey e ∧ shandler x = ehandler e ∧ initial x = einitial e ∧
  taken x ++ buffer x ++ pending p i = einputs e ∧
  closed x = bool_decide (estatus e = Closed).

Record inv (s : backend) : Prop := {
  inv_length : length (sessions s) = length (sessions_of (history s));
  inv_session i x e :
    sessions s !! i = Some x → sessions_of (history s) !! i = Some e → matches (pc s) i x e;
  inv_responders k i :
    responders s !! k = Some i ↔
    ∃ e, sessions_of (history s) !! i = Some e ∧ ekey e = k ∧ estatus e = Open;
  inv_delivering i body :
    pc s = Delivering i body → ∃ e, sessions_of (history s) !! i = Some e ∧ estatus e = Open;
  inv_written : FormatMessage <$> accepted s = written s ++ (FormatMessage <$> responses s);
  inv_crash p : crash s = Some p → p = IndexOutOfRange ∨ (p = SendOnClosed ∧ pc s = Stopped)
}.

Lemma inv_start : inv start.
Proof.
  split; simpl; try done. intros k i. rewrite lookup_empty. naive_solver.
Qed.

(** A step that receives nothing keeps every session's stream. *)
Definition same_stream (s s' : backend) : Prop :=
  ∀ i x', sessions s' !! i = Some x' → ∃ x, sessions s !! i = Some x ∧
    skey x' = skey x ∧ shandler x' = shandler x ∧ initial x' = initial x ∧ closed x' = closed x ∧
    taken x' ++ buffer x' ++ pending (pc s') i = taken x ++ buffer x ++ pending (pc s) i.

Lemma inv_quiet s s' :
  inv s → responders s' = responders s → history s' = history s →
  length (sessions s') = length (sessions s) → same_stream s s' →
  (∀ i body, pc s' = Delivering i body → pc s = Delivering i body) →
  FormatMessage <$> accepted s' = written s' ++ (FormatMessage <$> responses s') →
  (∀ p, crash s' = Some p → p = IndexOutOfRange ∨ (p = SendOnClosed ∧ pc s' = Stopped)) →
  inv s'.
Proof.
  intros [Hl Hs Hr Hd Hw Hc] Hr' Hh Hl' Hst Hp Hw' Hc'. split; rewrite ?Hh, ?Hr'; try done; [congruence|..|eauto].
  intros i x' e Hx' He. destruct (Hst i x' Hx') as (x&Hx&?&?&?&?&?).
  destruct (Hs i x e Hx He) as (?&?&?&?&?). unfold matches. split_and!; congruence.
Qed.

Lemma same_stream_refl s s' : sessions s' = sessions s → pending (pc s') = pending (pc s) → same_stream s s'.
Proof. intros Hs Hp i x Hx. exists x. rewrite <- Hs. split_and!; try done. by rewrite Hp. Qed.

Lemma same_stream_alter f i s p :
  (∀ x, sessions s !! i = Some x →
     skey (f x) = skey x ∧ shandler (f x) = shandler x ∧ initial (f x) = initial x ∧ closed (f x) = closed x ∧
     taken (f x) ++ buffer (f x) ++ pending p i = taken x ++ buffer x ++ pending (pc s) i) →
  (∀ j, j ≠ i → pending p j = pending (pc s) j) →
  same_stream s (set_pc p (set_sessions (alter f i) s)).
Proof.
  intros Hf Hp j x' Hx'. simpl in *. destruct (decide (j = i)) as [->|Hj].
  - rewrite list_lookup_alter_eq in Hx'. apply fmap_Some in Hx' as (x&Hx&->). exists x. eauto.
  - rewrite list_lookup_alter_ne in Hx' by done. exists x'. split_and!; try done. by rewrite Hp.
Qed.

Lemma respond_cases m s s' :
  respond m s = Some s' →
  (pc s = Stopped ∧ s' = set_crash SendOnClosed s) ∨
  (pc s ≠ Stopped ∧ length (responses s) < channel_size ∧
   s' = mkBackend (responders s) (sessions s) (pc s) (responses s ++ [m]) (written s)
            (history s) (accepted s ++ [m]) (crash s)).
Proof.
  unfold respond, responses_closed. destruct (pc s); [..|intros [= <-]; by left];
    (destruct (Nat.ltb_spec (length (responses s)) channel_size); [|done]); intros [= <-]; by right.
Qed.

Lemma inv_respond m s s' : inv s → crash s = None → respond m s = Some s' → inv s'.
Proof.
  intros Hi Hc [(Hp&->)|(Hp&Hl&->)]%respond_cases; (apply (inv_quiet s); [done..| | | |]);
    simpl; try (by apply same_stream_refl); try done.
  - apply Hi.
  - intros p [= <-]. by right.
  - rewrite !fmap_app, (inv_written s Hi). by rewrite app_assoc.
  - intros p Hcp. congruence.
Qed.

(** ** Receiving a message *)

Lemma extend_elsewhere s m j e :
  inv s → sessions_of (history s) !! j = Some e → responders s !! Key m ≠ Some j → extend m e = e.
Proof.
  intros Hi He Hn. apply extend_other. destruct (decide (ekey e = Key m)); [|by left].
  right. intros Ho. apply Hn, (inv_responders s Hi). eauto.
Qed.

Lemma extend_open m e :
  ekey e = Key m → estatus e = Open →
  extend m e =
    match Type_ m with
    | Body => mkExpected (ekey e) (ehandler e) (einitial e) (einputs e ++ [MBody m]) Open
    | Connect =>
        match started m with
        | Some _ => mkExpected (ekey e) (ehandler e) (einitial e) (einputs e) Replaced
        | None => e
        end
    | _ => mkExpected (ekey e) (ehandler e) (einitial e) (einputs e) Closed
    end.
Proof. intros Hk Ho. unfold extend. by rewrite bool_decide_true. Qed.

(** The state after a message that starts no session, when what the sessions
    must get and the responders change together. *)
Lemma inv_routed s s' m :
  inv s → crash s' = None → history s' = history s ++ [m] → started m = None →
  accepted s' = accepted s → written s' = written s → responses s' = responses s →
  length (sessions s') = length (sessions s) →
  (∀ i x' e, sessions s' !! i = Some x' → sessions_of (history s) !! i = Some e →
     matches (pc s') i x' (extend m e)) →
  (∀ k i, responders s' !! k = Some i ↔
     ∃ e, sessions_of (history s) !! i = Some e ∧ ekey e = k ∧ estatus (extend m e) = Open) →
  (∀ i body, pc s' = Delivering i body →
     ∃ e, sessions_of (history s) !! i = Some e ∧ estatus (extend m e) = Open) →
  inv s'.
Proof.
  intros Hi Hc Hh Hst Ha Hw Hr Hl Hs Hrs Hd.
  assert (sessions_of (history s') = extend m <$> sessions_of (history s)) as HE
    by (rewrite Hh, sessions_of_snoc, Hst; apply app_nil_r).
  split; rewrite ?HE, ?Ha, ?Hw, ?Hr.
  - rewrite length_fmap, Hl. apply Hi.
  - intros i x' e' Hx'. rewrite list_lookup_fmap. intros (e&He&->)%fmap_Some. eauto.
  - intros k i. rewrite Hrs, list_lookup_fmap. setoid_rewrite fmap_Some.
    pose proof (λ e, proj1 (extend_fields m e)). split.
    + intros (e&He&Hk&Ho). exists (extend m e). split_and!; [eauto|congruence|done].
    + intros (?&(e&He&->)&Hk&Ho). exists e. split_and!; [done|congruence|done].
  - intros i body Hp. destruct (Hd i body Hp) as (e&He&Ho). exists (extend m e).
    by rewrite list_lookup_fmap, He.
  - apply Hi.
  - congruence.
Qed.

Lemma inv_ignored s p m :
  inv s → crash s = None → pc s = Reading → started m = None →
  (∀ e, e ∈ sessions_of (history s) → extend m e = e) → (∀ i body, p ≠ Delivering i body) →
  inv (set_pc p (received m s)).
Proof.
  intros Hi Hc Hp Hst He Hn.
  assert (∀ i, pending p i = []) as Hp0 by (destruct p; try done; by destruct (Hn i body)).
  apply (inv_routed s _ m); try done; simpl.
  - intros i x e Hx Hei. rewrite He by by eapply list_elem_of_lookup_2.
    pose proof (inv_session s Hi i x e Hx Hei) as Hm. unfold matches in *.
    rewrite Hp0. by rewrite Hp in Hm.
  - intros k i. rewrite (inv_responders s Hi). split; intros (e&Hei&Hk&Ho); exists e;
      (rewrite He in * by by eapply list_elem_of_lookup_2); done.
  - intros i body Hpi. by destruct (Hn i body).
Qed.

Lemma started_not_connect m : Type_ m ≠ Connect → started m = None.
Proof. unfold started. by destruct (Type_ m). Qed.

Lemma inv_close s m :
  inv s → crash s = None → pc s = Reading → Type_ m ≠ Connect → Type_ m ≠ Body →
  ∀ p, (∀ i body, p ≠ Delivering i body) →
  crash (closeHandler (Key m) (received m s)) = None ∧ inv (set_pc p (closeHandler (Key m) (received m s))).
Proof.
  intros Hi Hc Hp H1 H2 p Hn. pose proof (started_not_connect m H1) as Hst.
  unfold closeHandler. simpl. destruct (responders s !! Key m) as [i|] eqn:Hr.
  - apply (inv_responders s Hi) in Hr as Hr'. destruct Hr' as (e&He&Hk&Ho).
    destruct (sessions s !! i) as [x|] eqn:Hx; [|apply lookup_ge_None in Hx; rewrite (inv_length s Hi) in Hx;
      apply lookup_lt_Some in He; lia].
    pose proof (inv_session s Hi i x e Hx He) as (?&?&?&Hin&Hcl). simpl. rewrite Hcl, Ho. simpl. split; [done|].
    assert (extend m e = mkExpected (ekey e) (ehandler e) (einitial e) (einputs e) Closed) as Hext
      by (rewrite extend_open by done; by destruct (Type_ m)).
    assert (∀ j, pending p j = []) as Hp0 by (destruct p; try done; by destruct (Hn i0 body)).
    apply (inv_routed s _ m); try done; simpl.
    + by rewrite length_alter.
    + intros j x' e' Hx' He'. destruct (decide (j = i)) as [->|Hj].
      * rewrite list_lookup_alter_eq, Hx in Hx'. injection Hx' as <-.
        assert (e' = e) as -> by congruence. rewrite Hext. unfold matches. simpl. rewrite Hp0.
        split_and!; try done. rewrite Hp in Hin. done.
      * rewrite list_lookup_alter_ne in Hx' by done.
        rewrite (extend_elsewhere s m j e' Hi He') by congruence.
        pose proof (inv_session s Hi j x' e' Hx' He') as Hm. unfold matches in *. rewrite Hp0. by rewrite Hp in Hm.
    + intros k j. rewrite lookup_delete_Some, (inv_responders s Hi). split.
      * intros (Hne&e'&He'&Hk'&Ho'). exists e'. split_and!; try done.
        rewrite extend_other; [done|]. left. congruence.
      * intros (e'&He'&Hk'&Ho'). destruct (decide (j = i)) as [->|Hj].
        { assert (e' = e) as -> by congruence. by rewrite Hext in Ho'. }
        rewrite (extend_elsewhere s m j e' Hi He') in Ho' by congruence. split; [|eauto].
        intros <-. apply Hj. assert (responders s !! Key m = Some j) as Hrj by (apply (inv_responders s Hi); exists e'; split_and!; congruence).
        congruence.
    + intros j body Hpj. by destruct (Hn j body).
  - split; [done|]. apply inv_ignored; try done.
    intros e (j&He)%list_elem_of_lookup. eapply extend_elsewhere; [done|done|congruence].
Qed.

Lemma inv_body s m i :
  inv s → crash s = None → pc s = Reading → Type_ m = Body → responders s !! Key m = Some i →
  inv (set_pc (Delivering i (MBody m)) (received m s)).
Proof.
  intros Hi Hc Hp Ht Hr. assert (started m = None) as Hst by (apply started_not_connect; congruence).
  apply (inv_responders s Hi) in Hr as Hr'. destruct Hr' as (e&He&Hk&Ho).
  assert (extend m e = mkExpected (ekey e) (ehandler e) (einitial e) (einputs e ++ [MBody m]) Open) as Hext
    by (rewrite extend_open by done; by rewrite Ht).
  assert (∀ j e', sessions_of (history s) !! j = Some e' → estatus (extend m e') = Open ↔ estatus e' = Open) as Hst'.
  { intros j e' He'. destruct (decide (j = i)) as [->|Hj].
    - assert (e' = e) as -> by congruence. by rewrite Hext.
    - by rewrite (extend_elsewhere s m j e' Hi He') by congruence. }
  apply (inv_routed s _ m); try done; simpl.
  - intros j x e' Hx He'. pose proof (inv_session s Hi j x e' Hx He') as Hm.
    unfold matches in *. rewrite Hp in Hm. simpl in *. rewrite app_nil_r in Hm.
    destruct Hm as (?&?&?&Hin&Hcl). destruct (decide (j = i)) as [->|Hj].
    + assert (e' = e) as -> by congruence. rewrite Hext. simpl.
      split_and!; try done; [by rewrite app_assoc, Hin|by rewrite Hcl, Ho].
    + rewrite (extend_elsewhere s m j e' Hi He') by congruence. by rewrite app_nil_r.
  - intros k j. rewrite (inv_responders s Hi). split; intros (e'&He'&Hk'&Ho'); exists e';
      (split_and!; [done|done|by apply (Hst' j)]).
  - intros j body [= <- <-]. exists e. split; [done|]. by rewrite Hext.
Qed.

Lemma inv_started s m h :
  inv s → crash s = None → pc s = Reading → started m = Some h →
  inv (set_responders (<[Key m := length (sessions s)]> (responders s))
        (set_sessions (λ l, l ++ [mkSession (Key m) h (MBody m) [] false []]) (received m s))).
Proof.
  intros Hi Hc Hp Hst. pose proof (started_connect m h Hst) as Ht.
  pose proof (inv_length s Hi) as Hl.
  assert (∀ e, extend m e = e ∨ ekey e = Key m ∧ estatus e = Open ∧
    extend m e = mkExpected (ekey e) (ehandler e) (einitial e) (einputs e) Replaced) as Hext.
  { intros e. destruct (decide (ekey e = Key m)), (decide (estatus e = Open)); [right|left; apply extend_other; tauto..].
    rewrite extend_open by done. by rewrite Ht, Hst. }
  split; simpl; rewrite ?sessions_of_snoc, ?Hst.
  - rewrite !length_app, length_fmap. simpl. lia.
  - intros i x e' Hx He'. rewrite Hp. apply lookup_app_Some in Hx as [Hx|[Hge Hx]].
    + apply lookup_lt_Some in Hx as Hlt. rewrite lookup_app_l, list_lookup_fmap in He' by (rewrite length_fmap; lia).
      apply fmap_Some in He' as (e&He&->). pose proof (inv_session s Hi i x e Hx He) as Hm. rewrite Hp in Hm.
      destruct (Hext e) as [->|(_&Ho&->)]; [done|]. unfold matches in *. simpl in *. by rewrite Ho in Hm.
    + rewrite lookup_app_r, length_fmap, <- Hl in He' by (rewrite length_fmap; lia).
      destruct (i - length (sessions s)) as [|n]; [|done]. by injection Hx as <-; injection He' as <-.
  - intros k i. rewrite lookup_insert_Some, (inv_responders s Hi). split.
    + intros [[-> <-]|[Hne (e&He&Hk&Ho)]].
      * eexists. rewrite lookup_app_r by (rewrite length_fmap; lia).
        by rewrite length_fmap, Hl, Nat.sub_diag.
      * exists e. rewrite lookup_app_l by (rewrite length_fmap; by eapply lookup_lt_Some).
        rewrite list_lookup_fmap, He. simpl. by rewrite extend_other by (left; congruence).
    + intros (e'&He'&Hk&Ho). apply lookup_app_Some in He' as [He'|[Hge He']].
      * rewrite list_lookup_fmap in He'. apply fmap_Some in He' as (e&He&->).
        destruct (Hext e) as [Hx|(_&_&Hx)]; rewrite Hx in *; [|done].
        destruct (decide (Key m = k)) as [Hkk|Hne]; [|right; by eauto].
        exfalso. rewrite extend_open in Hx by congruence. rewrite Ht, Hst in Hx.
        rewrite <- Hx in Ho. done.
      * rewrite length_fmap, <- Hl in *. destruct (i - length (sessions s)) as [|n] eqn:Hi'; [|done].
        injection He' as <-. simpl in *. left. split; [done|lia].
  - congruence.
  - apply Hi.
  - congruence.
Qed.

Lemma set_pc_same p s : pc s = p → set_pc p s = s.
Proof. intros <-. by destruct s. Qed.

Lemma closeHandler_pc k s : pc (closeHandler k s) = pc s.
Proof. unfold closeHandler. by destruct (_ !! _); [destruct (from_option _ _ _)|]. Qed.

Lemma inv_route s m :
  inv s → crash s = None → pc s = Reading → inv (route m (received m s)) ∧ crash (route m (received m s)) = None.
Proof.
  intros Hi Hc Hp.
  assert (∀ p, started m = None → Type_ m = Connect ∨ (Type_ m = Body ∧ responders s !! Key m = None) →
    (∀ i body, p ≠ Delivering i body) → inv (set_pc p (received m s))) as Hig.
  { intros p Hst Hr Hn. apply inv_ignored; try done. intros e (j&He)%list_elem_of_lookup.
    destruct Hr as [Hcn|[_ Hr]]; [|eapply extend_elsewhere; [done|done|congruence]].
    unfold extend. rewrite Hcn, Hst. by destruct (bool_decide _). }
  assert (set_pc Reading (received m s) = received m s) as Hre by by apply set_pc_same.
  unfold route. destruct (Type_ m) eqn:Ht.
  - destruct (url_Parse (MBody m)) as [u|e] eqn:Hu.
    + destruct (getHandler (Path u) handlers) as [h|] eqn:Hg.
      * split; [|done]. apply (inv_started s m h Hi Hc Hp). unfold started. by rewrite Ht, Hu.
      * split; [|done]. apply Hig; [|by left|done]. unfold started. by rewrite Ht, Hu.
    + split; [|done]. rewrite <- Hre. apply Hig; [|by left|done]. unfold started. by rewrite Ht, Hu.
  - simpl. destruct (responders s !! Key m) as [i|] eqn:Hr; (split; [|done]).
    + by apply inv_body.
    + apply Hig; [|by right|done]. apply started_not_connect. congruence.
  - destruct (inv_close s m Hi Hc Hp ltac:(congruence) ltac:(congruence) Reading) as [Hn Hi']; [done|].
    split; [|done]. rewrite set_pc_same in Hi'; [done|]. by rewrite closeHandler_pc.
  - destruct (inv_close s m Hi Hc Hp ltac:(congruence) ltac:(congruence)
      (Answering (SignalHandlerClosed (Key m)))) as [Hn Hi']; done.
Qed.

(** ** The invariant holds throughout *)

Lemma inv_step a s s' : inv s → mstep a s = Some s' → inv s'.
Proof.
  intros Hi Hs. unfold mstep, backend_machine, bstep in Hs.
  destruct (crash s) as [|] eqn:Hc; [done|]. destruct a as [msg| | |i|i m|].
  - destruct (pc s) eqn:Hp; try done. injection Hs as <-. destruct msg as [raw|]; simpl.
    + destruct (ParseMessage raw) as [m|p] eqn:Hm; [by apply inv_route|].
      apply (inv_quiet s); try done; [by apply same_stream_refl|by apply Hi|].
      intros q [= <-]. left. unfold ParseMessage in Hm. repeat case_match; congruence.
    + apply (inv_quiet s); try done; simpl; [|by apply Hi|by rewrite Hc].
      intros i x Hx. exists x. by rewrite Hp.
  - destruct (pc s) as [|i body| |] eqn:Hp; try done.
    destruct (sessions s !! i) as [x|] eqn:Hx; [|done]. simpl in Hs.
    destruct (inv_delivering s Hi i body Hp) as (e&He&Ho).
    destruct (inv_session s Hi i x e Hx He) as (_&_&_&_&Hcl). rewrite Hcl, Ho in Hs. simpl in Hs.
    destruct (length (buffer x) <? channel_size); [|done]. injection Hs as <-.
    apply (inv_quiet s); try done; simpl; [by rewrite length_alter| |by apply Hi|by rewrite Hc].
    apply same_stream_alter; rewrite Hp; simpl.
    + intros y Hy. rewrite decide_True by done. by rewrite app_nil_r.
    + intros j Hj. by rewrite decide_False.
  - destruct (pc s) as [| |m|] eqn:Hp; try done.
    apply (inv_respond m (set_pc Reading s)); try done.
    apply (inv_quiet s); try done; simpl; [|by apply Hi|by rewrite Hc].
    intros i x Hx. exists x. by rewrite Hp.
  - destruct (sessions s !! i) as [x|] eqn:Hx; [|done]. simpl in Hs.
    destruct (buffer x) as [|b bs] eqn:Hb; [done|]. injection Hs as <-.
    rewrite <- (set_pc_same (pc s) (set_sessions _ s)) by done.
    apply (inv_quiet s); try done; simpl; [by rewrite length_alter| |by apply Hi|by rewrite Hc].
    apply same_stream_alter; [|done]. intros y Hy. assert (y = x) as -> by congruence. simpl.
    rewrite Hb. split_and!; try done. simpl. by rewrite <- app_assoc.
  - destruct (sessions s !! i); [|done]. by apply (inv_respond m s).
  - destruct (responses s) as [|m ms] eqn:Hr; [done|]. injection Hs as <-.
    apply (inv_quiet s); try done; simpl; [by apply same_stream_refl|].
    rewrite (inv_written s Hi), Hr. simpl. by rewrite <- app_assoc.
Qed.

Lemma reachable_inv s : reachable start s → inv s.
Proof. intros Hr. apply (reachable_invariant inv start); [|done|apply inv_start]. intros l t t'. apply inv_step. Qed.

(** ** Driving the machine to rest *)

Lemma sum_alter {A} (f : A → nat) (g : A → A) l i x :
  l !! i = Some x → sum_list_with f (alter g i l) + f x = sum_list_with f l + f (g x).
Proof.
  revert i. induction l as [|y l IH]; intros [|i] Hx; simplify_eq/=; [lia|].
  specialize (IH i Hx). unfold alter in *. lia.
Qed.

Definition reader_weight (p : reader) : nat :=
  match p with Delivering _ _ | Answering _ => 2 | _ => 0 end.

Definition weight (s : backend) : nat :=
  sum_list_with (λ x, length (buffer x)) (sessions s) + length (responses s) + reader_weight (pc s).

(** The steps that move what is already there: none receives from the proxy,
    and no handler sends. *)
Definition moves (a : action) : Prop :=
  match a with Deliver | Answer | Take _ | Write => True | _ => False end.

Definition at_rest (s : backend) : Prop :=
  (pc s = Reading ∨ pc s = Stopped) ∧ Forall (λ x, buffer x = []) (sessions s) ∧ responses s = [].

Lemma rest_or_move s :
  inv s → crash s = None →
  at_rest s ∨ ∃ a s', moves a ∧ mstep a s = Some s' ∧ weight s' < weight s ∧
    history s' = history s ∧ crash s' = None ∧ (pc s' = Reading ∨ pc s' = pc s).
Proof.
  intros Hi Hc. unfold mstep, backend_machine, weight, at_rest.
  destruct (responses s) as [|m ms] eqn:Hr.
  2:{ right. exists Write. eassert (bstep Write s = Some _) as Hs by (unfold bstep; rewrite Hc, Hr; reflexivity).
      eexists. split; [done|]. split; [exact Hs|]. simpl. split_and!; try done; [lia|by right]. }
  destruct (decide (Forall (λ x, buffer x = []) (sessions s))) as [Hb|Hb].
  2:{ right. apply not_Forall_Exists in Hb; [|intros; apply _].
      apply Exists_exists in Hb as (x&(i&Hx)%list_elem_of_lookup&Hne).
      destruct (buffer x) as [|b bs] eqn:Hbx; [done|]. exists (Take i).
      eassert (bstep (Take i) s = Some _) as Hs by (unfold bstep; rewrite Hc, Hx; simpl; rewrite Hbx; reflexivity).
      pose proof (sum_alter (λ x, length (buffer x)) pull _ _ _ Hx) as Hsum.
      simpl in Hsum. rewrite Hbx in Hsum. simpl in Hsum.
      eexists. split; [done|]. split; [exact Hs|]. simpl. rewrite Hr.
      split_and!; try done; [simpl; lia|by right]. }
  destruct (pc s) as [|i body|m|] eqn:Hp; [left; tauto|right|right|left; tauto].
  - exists Deliver. destruct (inv_delivering s Hi i body Hp) as (e&He&Ho).
    destruct (lookup_lt_is_Some_2 (sessions s) i) as [x Hx];
      [rewrite (inv_length s Hi); by eapply lookup_lt_Some|].
    destruct (inv_session s Hi i x e Hx He) as (_&_&_&_&Hcl). rewrite Ho in Hcl.
    assert (buffer x = []) as Hbx by (by rewrite Forall_lookup in Hb; eapply Hb).
    eassert (bstep Deliver s = Some _) as Hs
      by (unfold bstep; rewrite Hc, Hp, Hx; simpl; rewrite Hcl, Hbx; reflexivity).
    pose proof (sum_alter (λ x, length (buffer x)) (push body) _ _ _ Hx) as Hsum.
    simpl in Hsum. rewrite Hbx in Hsum. simpl in Hsum.
    eexists. split; [done|]. split; [exact Hs|]. simpl. rewrite Hr. simpl.
    split_and!; try done; [lia|by left].
  - exists Answer. eassert (bstep Answer s = Some _) as Hs
      by (unfold bstep; rewrite Hc, Hp; unfold respond, responses_closed; simpl; rewrite Hr; reflexivity).
    eexists. split; [done|]. split; [exact Hs|]. simpl. split_and!; try done; [lia|by left].
Qed.

(** ** Properties *)

(** C5: the sessions are those the received messages ask for, each with its key,
    handler and url.  A handler has received, in order, a prefix of the bodies
    that came with its key between its connect and the message that closed the
    session or replaced it - all of them once none is left in the channel -
    and its channel is closed exactly when a message closed the session.  What
    is written to the proxy are the messages of the response channel, in
    order.  The loop itself panics on nothing but a frame without separators;
    a handler panics when it sends after the loop has returned. *)
Theorem backend_routes s :
  reachable start s →
  length (sessions s) = length (sessions_of (history s)) ∧
  (∀ i x e, sessions s !! i = Some x → sessions_of (history s) !! i = Some e →
     skey x = ekey e ∧ shandler x = ehandler e ∧ initial x = einitial e ∧
     taken x `prefix_of` einputs e ∧
     (buffer x = [] → (∀ body, pc s ≠ Delivering i body) → taken x = einputs e) ∧
     (closed x = true ↔ estatus e = Closed)) ∧
  written s `prefix_of` (FormatMessage <$> accepted s) ∧
  (∀ p, crash s = Some p → p = IndexOutOfRange ∨ (p = SendOnClosed ∧ pc s = Stopped)).
Proof.
  intros Hi%reachable_inv. split_and!; [apply Hi| |rewrite (inv_written s Hi); by eexists|apply Hi].
  intros i x e Hx He. destruct (inv_session s Hi i x e Hx He) as (?&?&?&Hin&Hcl).
  split_and!; try done; [rewrite <- Hin; by eexists| |by rewrite Hcl, bool_decide_eq_true].
  intros Hb Hp. rewrite <- Hin, Hb. destruct (pc s) as [|j body| |]; simpl; rewrite ?app_nil_r; try done.
  rewrite decide_False; [by rewrite app_nil_r|]. intros <-. by destruct (Hp body).
Qed.

(** While the handlers receive and the writer writes, nothing stays behind:
    from every state the goroutines can go on, without a message from the
    proxy, until every handler has received all its bodies, everything sent
    is written, and the loop is ready to receive unless it has returned. *)
Theorem backend_drains s :
  reachable start s → crash s = None →
  ∃ ls s', Forall moves ls ∧ mstar s ls s' ∧ history s' = history s ∧
    (pc s' = Reading ∨ pc s' = Stopped ∧ pc s = Stopped) ∧
    (∀ i x e, sessions s' !! i = Some x → sessions_of (history s) !! i = Some e → taken x = einputs e) ∧
    written s' = FormatMessage <$> accepted s'.
Proof.
  intros Hr Hc. pose proof (reachable_inv s Hr) as Hi.
  destruct (drive moves (λ t, inv t ∧ crash t = None ∧ history t = history s ∧ (pc t = Stopped → pc s = Stopped))
    at_rest weight) with (s := s) as (ls&s'&Hls&Hrun&(Hi'&_&Hh&Hst)&Hp&Hb&Hrs).
  - intros t (Hit&Hct&Hht&Hst). destruct (rest_or_move t Hit Hct) as [|(a&t'&Ha&Hs&Hw&Hh&Hc'&Hp')]; [by left|].
    right. exists a, t'. split_and!; try done; [by eapply inv_step|congruence|].
    intros Ht. apply Hst. destruct Hp'; congruence.
  - done.
  - exists ls, s'. split_and!; try done; [destruct Hp; naive_solver| |].
    + intros i x e Hx He. rewrite <- Hh in He.
      destruct (inv_session s' Hi' i x e Hx He) as (_&_&_&Hin&_). rewrite Forall_lookup in Hb.
      rewrite <- Hin, (Hb i x Hx). destruct Hp as [-> | ->]; by rewrite !app_nil_r.
    + by rewrite (inv_written s' Hi'), Hrs, app_nil_r.
Qed.

(** C40: a session whose handler does not receive stops every other one: when
    its channel is full and the loop holds one more body for it, then, whatever
    the other handlers do, no message of the proxy is received any more until
    that handler receives. *)
Theorem stuck_session_stalls s ls s' i body x :
  pc s = Delivering i body → sessions s !! i = Some x → channel_size ≤ length (buffer x) →
  mstar s ls s' → Take i ∉ ls →
  (∀ msg, Receive msg ∉ ls) ∧ history s' = history s ∧ pc s' = Delivering i body.
Proof.
  intros Hp Hx Hfull Hrun. revert x Hp Hx Hfull. induction Hrun as [s|s a s1 ls s2 Hs Hrun IH]; intros x Hp Hx Hfull Hn.
  { split_and!; try done. intros msg Hin. by apply not_elem_of_nil in Hin. }
  apply not_elem_of_cons in Hn as [Hn1 Hn2].
  assert (pc s1 = Delivering i body ∧ history s1 = history s ∧ sessions s1 !! i = Some x ∧ ∀ msg, a ≠ Receive msg)
    as (Hp1&Hh1&Hx1&Ha).
  { unfold mstep, backend_machine, bstep in Hs. destruct (crash s); [done|].
    destruct a as [msg| | |j|j m|]; rewrite ?Hp in Hs; try done.
    - rewrite Hx in Hs. simpl in Hs. destruct (closed x); [by injection Hs as <-|].
      by rewrite (proj2 (Nat.ltb_ge _ _) Hfull) in Hs.
    - destruct (sessions s !! j) as [y|]; [|done]. simpl in Hs. destruct (buffer y); [done|].
      injection Hs as <-. simpl. rewrite list_lookup_alter_ne by congruence. done.
    - destruct (sessions s !! j) as [y|]; [|done]. simpl in Hs.
      apply respond_cases in Hs as [[_ ->]|(_&_&->)]; done.
    - destruct (responses s); [done|]. by injection Hs as <-. }
  destruct (IH x Hp1 Hx1 Hfull Hn2) as (Hr&Hh&Hp').
  split_and!; [|congruence|done]. intros msg [Heq|Hin]%elem_of_cons; [by destruct (Ha msg)|by destruct (Hr msg)].
Qed.
End backend.

(** ** Concrete runs *)

Section demo.
#[local] Existing Instance demo_url.

Definition demo_handlers : list (string * nat) := [("/v1/logs/", 1); ("/v1/exec/", 2)].

#[local] Instance demo_machine : Machine backend action := backend_machine demo_handlers.

(** Two sessions and an unknown key, interleaved; the first session ends. *)
Definition demo_run : list action := [
  Receive (Some "a||0||/v1/exec/x?t"); Receive (Some "a||1||one"); Deliver;
  Receive (Some "b||0||/v1/logs/?t"); Take 0; Receive (Some "b||1||two||2"); Deliver;
  Send 1 (mkMessage "b" Body "log"); Receive (Some "z||1||lost"); Answer;
  Receive (Some "a||1||three"); Deliver; Receive (Some "a||2||"); Receive (Some "a||0||/nothing?t"); Write].

Definition demo_state : backend (H := nat) := default start (mrun demo_run start).

Lemma demo_reachable : reachable start demo_state.
Proof. exists demo_run. apply mrun_mstar. vm_compute. reflexivity. Qed.

Example demo_sessions :
  (λ x, (skey x, shandler x, taken x, buffer x, closed x)) <$> sessions demo_state =
    [("a", 2, ["one"], ["three"], true); ("b", 1, [], ["two||2"], false)] ∧
  (λ e, (einputs e, estatus e)) <$> sessions_of demo_handlers (history demo_state) =
    [(["one"; "three"], Closed); (["two||2"], Open)] ∧
  written demo_state = ["b||1||log"] ∧
  pc demo_state = Answering (SignalHandlerClosed "a").
Proof. vm_compute. done. Qed.

Lemma backend_routes_witness :
  length (sessions demo_state) = length (sessions_of demo_handlers (history demo_state)).
Proof. apply (backend_routes demo_handlers demo_state demo_reachable). Defined.

Lemma backend_drains_witness :
  ∃ ls s', Forall moves ls ∧ mstar demo_state ls s' ∧ history s' = history demo_state ∧
    (pc s' = Reading ∨ pc s' = Stopped ∧ pc demo_state = Stopped) ∧
    (∀ i x e, sessions s' !! i = Some x →
       sessions_of demo_handlers (history demo_state) !! i = Some e → taken x = einputs e) ∧
    written s' = FormatMessage <$> accepted s'.
Proof. apply (backend_drains demo_handlers demo_state demo_reachable). vm_compute. reflexivity. Defined.

(** An exec session that reads nothing, and one more body than its channel
    holds; the message for the logs session is never received. *)
Definition stuck_run : list action :=
  [Receive (Some "b||0||/v1/logs/?t"); Receive (Some "a||0||/v1/exec/x?t")] ++
  mjoin (replicate 10 [Receive (Some "a||1||input"); Deliver]) ++ [Receive (Some "a||1||input")].

Definition stuck_state : backend (H := nat) := default start (mrun stuck_run start).

Lemma stuck_session_stalls_witness :
  reachable start stuck_state ∧
  ∃ s', mstar stuck_state [Send 0 (mkMessage "b" Body "log"); Write] s' ∧
    history s' = history stuck_state ∧ pc s' = Delivering 1 "input".
Proof.
  split; [exists stuck_run; apply mrun_mstar; vm_compute; reflexivity|].
  eexists. split; [apply mrun_mstar; vm_compute; reflexivity|].
  eapply (stuck_session_stalls demo_handlers stuck_state [Send 0 (mkMessage "b" Body "log"); Write] _ 1 "input");
    [vm_compute; reflexivity|vm_compute; reflexivity|vm_compute; lia|
     apply mrun_mstar; vm_compute; reflexivity|].
  intros Hin. repeat (apply elem_of_cons in Hin as [Hin|Hin]; [discriminate Hin|]). by apply not_elem_of_nil in Hin.
Defined.
End demo.
