(* ===== verification/Bufio.v ===== *)
(** * [bufio.Scanner]

    The handlers turn a byte stream into messages with a scanner: custom frames
    for logs, lines for statistics and for haproxy's socket.  [scan] follows
    the library's loop: it calls the split function while that yields tokens,
    refuses to go on when the buffer holds [MaxScanTokenSize] bytes without a
    token, and otherwise reads.  [chunks] are the results of successive reads,
    the end of the list the end of file; a read never returns more than the free
    space of the buffer ([reads_fit]).

    [sep_reference] is the specification: cut the whole stream at the
    separator, within the size limit.  [scan_reference] proves that the
    scanner computes it whatever the sizes of the reads. *)

From Stdlib Require Import ZArith.
From S2P Require Import Prelude GoStd.

Definition SplitFunc : Type := bytes → bool → nat * option bytes * option error.

Definition MaxScanTokenSize : nat := N.to_nat 65536.

Lemma MaxScanTokenSize_value : MaxScanTokenSize = N.to_nat 65536.
Proof. done. Qed.

Lemma MaxScanTokenSize_pos : 0 < MaxScanTokenSize.
Proof. rewrite MaxScanTokenSize_value. lia. Qed.

(** The limit is a large unary number: nothing should compute it. *)
#[global] Opaque MaxScanTokenSize.

Section scanner.
Context (max : nat) (split : SplitFunc).

(** Tokens found in the buffer, what remains, and the error that stops. *)
Fixpoint drain (fuel : nat) (b : bytes) (atEOF : bool) : list bytes * bytes * option error :=
  match fuel with
  | 0 => ([], b, None)
  | S fuel =>
      if negb atEOF && bool_decide (b = []) then ([], b, None)
      else
        let '(advance, token, err) := split b atEOF in
        match err with
        | Some e => ([], b, Some e)
        | None =>
            match token with
            | None => ([], drop advance b, None)
            | Some t =>
                let '(ts, rest, err) := drain fuel (drop advance b) atEOF in
                (t :: ts, rest, err)
            end
        end
  end.

(** A split function of this program consumes at least a byte with every
    token, so the length of the buffer, and one more call, is enough fuel. *)
Definition drain_all (b : bytes) (atEOF : bool) : list bytes * bytes * option error :=
  drain (S (length b)) b atEOF.

(** The calls of [Scan] from a buffer without a token. *)
Fixpoint scan (b : bytes) (chunks : list bytes) : list bytes * option error :=
  if max <=? length b then ([], Some ErrTooLong)
  else
    match chunks with
    | [] => let '(ts, _, err) := drain_all b true in (ts, err)
    | c :: chunks =>
        let '(ts, rest, err) := drain_all (b ++ c) false in
        match err with
        | Some e => (ts, Some e)
        | None => let '(ts', err) := scan rest chunks in (ts ++ ts', err)
        end
    end.

Fixpoint reads_fit (b : bytes) (chunks : list bytes) : bool :=
  match chunks with
  | [] => true
  | c :: chunks =>
      (length (b ++ c) <=? max) && reads_fit (drain_all (b ++ c) false).1.2 chunks
  end.
End scanner.

Lemma drain_all_ext (f g : SplitFunc) :
  (∀ data atEOF, f data atEOF = g data atEOF) →
  ∀ b atEOF, drain_all f b atEOF = drain_all g b atEOF.
Proof.
  intros H b atEOF. unfold drain_all. generalize (S (length b)). intros n. revert b.
  induction n as [|n IH]; intros b; simpl; [done|]. rewrite H.
  destruct (negb atEOF && _); [done|]. destruct (g b atEOF) as [[a [t|]] [e|]]; try done.
  by rewrite IH.
Qed.

Lemma scan_ext max (f g : SplitFunc) :
  (∀ data atEOF, f data atEOF = g data atEOF) →
  ∀ b chunks, scan max f b chunks = scan max g b chunks.
Proof.
  intros H b chunks. revert b. induction chunks as [|c chunks IH]; intros b; simpl;
    rewrite (drain_all_ext _ _ H); [done|].
  destruct (max <=? length b); [done|].
  destruct (drain_all g (b ++ c) false) as [[ts rest] [e|]]; [done|]. by rewrite IH.
Qed.

Lemma reads_fit_ext max (f g : SplitFunc) :
  (∀ data atEOF, f data atEOF = g data atEOF) →
  ∀ b chunks, reads_fit max f b chunks = reads_fit max g b chunks.
Proof.
  intros H b chunks. revert b. induction chunks as [|c chunks IH]; intros b; simpl; [done|].
  by rewrite (drain_all_ext _ _ H), IH.
Qed.

(** ** Splitting at a separator *)

Section separator.
Context (sep : bytes) (post : bytes → bytes).

Definition sep_split : SplitFunc := λ data atEOF,
  if atEOF && bool_decide (data = []) then (0, None, None)
  else match find_index sep data with
  | Some i => (i + length sep, Some (post (take i data)), None)
  | None => if atEOF then (length data, Some (post data), None) else (0, None, None)
  end.

(** The specification of a scan of the whole stream. *)
Fixpoint sep_reference (max fuel : nat) (data : bytes) : list bytes * option error :=
  match fuel with
  | 0 => ([], None)
  | S fuel =>
      match find_index sep (take max data) with
      | Some i =>
          let '(ts, err) := sep_reference max fuel (drop (i + length sep) data) in
          (post (take i data) :: ts, err)
      | None =>
          if max <=? length data then ([], Some ErrTooLong)
          else if bool_decide (data = []) then ([], None)
          else ([post data], None)
      end
  end.

Definition sep_scan_spec (max : nat) (data : bytes) : list bytes * option error :=
  sep_reference max (S (length data)) data.

Context (Hsep : 0 < length sep).

Lemma find_index_app b r i : find_index sep b = Some i → find_index sep (b ++ r) = Some i.
Proof.
  intros H. pose proof (find_index_length _ _ _ H) as Hl.
  apply find_index_Some in H as (Hi&Ho&Hn). apply find_index_Some. split_and!.
  - rewrite length_app. lia.
  - by apply occurs_at_app.
  - intros j Hj Hoc. apply (Hn j Hj). eapply occurs_at_app; [|exact Hoc]. lia.
Qed.

Lemma sep_not_empty : find_index sep [] = None.
Proof.
  simpl. destruct (prefixb sep []) eqn:E; [|done].
  apply prefixb_spec, prefix_length in E. simpl in E. lia.
Qed.

Lemma sep_reference_fuel max n m data :
  length data < n → length data < m → sep_reference max n data = sep_reference max m data.
Proof.
  revert m data. induction n as [|n IH]; intros m data Hn Hm; [lia|].
  destruct m as [|m]; [lia|]. simpl.
  destruct (find_index sep (take max data)) as [i|] eqn:E; [|done].
  apply find_index_length in E. rewrite length_take in E.
  rewrite (IH m); [done|rewrite length_drop; lia..].
Qed.

Lemma sep_spec_some max data i :
  find_index sep (take max data) = Some i →
  sep_scan_spec max data =
    let '(ts, err) := sep_scan_spec max (drop (i + length sep) data) in
    (post (take i data) :: ts, err).
Proof.
  intros H. unfold sep_scan_spec. cbn [sep_reference]. rewrite H.
  pose proof (find_index_length _ _ _ H) as Hl. rewrite length_take in Hl.
  rewrite (sep_reference_fuel max (length data) (S (length (drop (i + length sep) data))));
    [done|rewrite length_drop; lia..].
Qed.

(** Draining a buffer takes off the tokens the specification starts with. *)
Lemma drain_spec max fuel b r :
  length b < fuel → length b ≤ max →
  ∃ ts b', drain sep_split fuel b false = (ts, b', None) ∧
    find_index sep b' = None ∧ length b' ≤ length b ∧
    sep_scan_spec max (b ++ r) =
      let '(ts', err) := sep_scan_spec max (b' ++ r) in (ts ++ ts', err).
Proof.
  revert b. induction fuel as [|fuel IH]; intros b Hf Hm; [lia|]. simpl.
  destruct (bool_decide_reflect (b = [])) as [->|Hb].
  { exists [], []. split_and!; [done|apply sep_not_empty|done|].
    simpl. by destruct (sep_scan_spec max r). }
  unfold sep_split. simpl.
  destruct (find_index sep b) as [i|] eqn:E.
  - pose proof (find_index_length _ _ _ E) as Hl.
    destruct (IH (drop (i + length sep) b)) as (ts&b'&Hd&Hn&Hlen&Hspec);
      [rewrite length_drop; lia..|].
    fold sep_split. rewrite Hd. exists (post (take i b) :: ts), b'.
    rewrite length_drop in Hlen. split_and!; [done|done|lia|].
    rewrite (sep_spec_some max (b ++ r) i).
    + rewrite drop_app_le, take_app_le by lia. rewrite Hspec.
      by destruct (sep_scan_spec max (b' ++ r)).
    + rewrite take_app_ge by lia. by apply find_index_app.
  - exists [], b. split_and!; [done|done|lia|]. by destruct (sep_scan_spec max (b ++ r)).
Qed.

Lemma drain_none b :
  find_index sep b = None → drain_all sep_split b false = ([], b, None).
Proof.
  intros Hn. unfold drain_all. cbn [drain]. case_bool_decide as Hb; [by subst|].
  unfold sep_split. simpl. by rewrite Hn, drop_0.
Qed.

(** At the end of the stream the remaining bytes are the last token. *)
Lemma drain_eof max b :
  find_index sep b = None → length b < max →
  (drain_all sep_split b true).1.1 = (sep_scan_spec max b).1 ∧
  (drain_all sep_split b true).2 = None ∧ (sep_scan_spec max b).2 = None.
Proof.
  intros Hn Hl. unfold drain_all, sep_scan_spec. cbn [sep_reference].
  rewrite take_ge by lia. rewrite Hn. rewrite (proj2 (Nat.leb_gt _ _)) by lia.
  cbn [drain]. unfold sep_split at 1 3. simpl.
  case_bool_decide as Hb; [done|]. rewrite Hn.
  destruct (length b) as [|n] eqn:Hlen; [by destruct b|].
  assert (drop (S n) b = []) as -> by (rewrite <- Hlen; apply drop_all).
  cbn [drain]. done.
Qed.

(** The scanner computes the specification, for any sizes of the reads. *)
Lemma scan_reference max b chunks :
  find_index sep b = None → length b ≤ max → reads_fit max sep_split b chunks = true →
  scan max sep_split b chunks = sep_scan_spec max (b ++ concat chunks).
Proof.
  revert b. induction chunks as [|c chunks IH]; intros b Hn Hm Hfit; simpl.
  - rewrite app_nil_r. destruct (Nat.leb_spec max (length b)) as [Hle|Hlt].
    + unfold sep_scan_spec. cbn [sep_reference]. rewrite take_ge, Hn by lia.
      by rewrite (proj2 (Nat.leb_le _ _)) by lia.
    + destruct (drain_eof max b Hn Hlt) as (H1&H2&H3).
      destruct (drain_all sep_split b true) as [[ts rest] err], (sep_scan_spec max b) as [ts' err'].
      simpl in *. by subst.
  - destruct (Nat.leb_spec max (length b)) as [Hle|Hlt].
    + assert (take max (b ++ c ++ concat chunks) = b) as Ht.
      { rewrite take_app_le, take_ge by lia. done. }
      unfold sep_scan_spec. cbn [sep_reference]. rewrite Ht, Hn.
      rewrite (proj2 (Nat.leb_le _ _)); [done|]. rewrite length_app. lia.
    + simpl in Hfit. apply andb_true_iff in Hfit as [Hc%Nat.leb_le Hfit].
      destruct (drain_spec max (S (length (b ++ c))) (b ++ c) (concat chunks))
        as (ts&b'&Hd&Hn'&Hlen&Hspec); [lia|lia|].
      unfold drain_all in *. rewrite Hd in *. simpl in Hfit.
      rewrite (assoc_L (++)), Hspec, (IH b'); [done|done|lia|done].
Qed.

(** A stream that starts with well-formed frames that fit is cut into those
    frames first. *)
Lemma sep_spec_frames max ms d :
  Forall (λ m, frame_ok sep m ∧ length m + length sep ≤ max) ms →
  sep_scan_spec max (concat ((λ m, m ++ sep) <$> ms) ++ d) =
    let '(ts, err) := sep_scan_spec max d in ((post <$> ms) ++ ts, err).
Proof.
  induction 1 as [|m ms [Hf Hl] Hms IH]; [simpl; by destruct (sep_scan_spec max d)|].
  rewrite !fmap_cons, concat_cons, <- !(assoc_L (++)).
  set (r := concat ((λ m, m ++ sep) <$> ms) ++ d) in *.
  rewrite (sep_spec_some max _ (length m)).
  - assert (drop (length m + length sep) (m ++ sep ++ r) = r) as ->
      by (rewrite (assoc_L (++)), <- length_app; apply drop_app_length).
    rewrite take_app_length, IH. by destruct (sep_scan_spec max d).
  - rewrite (take_app_ge m), (take_app_ge sep) by lia. by apply frame_ok_find.
Qed.

Lemma sep_spec_end max d :
  find_index sep (take max d) = None → 0 < max →
  sep_scan_spec max d =
    if max <=? length d then ([], Some ErrTooLong)
    else if bool_decide (d = []) then ([], None) else ([post d], None).
Proof. intros Hn _. unfold sep_scan_spec. cbn [sep_reference]. by rewrite Hn. Qed.

Lemma sep_spec_empty max : 0 < max → sep_scan_spec max [] = ([], None).
Proof.
  intros Hm. rewrite sep_spec_end; [|rewrite take_nil; apply sep_not_empty|done].
  rewrite (proj2 (Nat.leb_gt _ _)) by (simpl; lia). done.
Qed.

(** One token and its separator. *)
Lemma sep_spec_one max b :
  border_free sep → find_index sep b = None → 0 < max →
  sep_scan_spec max (b ++ sep) =
    if length b + length sep <=? max then ([post b], None) else ([], Some ErrTooLong).
Proof.
  intros Hb Hn Hm.
  assert (frame_ok sep b) as Hf by by apply frame_ok_iff.
  destruct (Nat.leb_spec (length b + length sep) max) as [Hle|Hgt].
  - rewrite (sep_spec_some max _ (length b)).
    + rewrite take_app_length, <- length_app, drop_all, sep_spec_empty by done. done.
    + by rewrite take_ge by (rewrite length_app; lia).
  - rewrite sep_spec_end; [| |done].
    + rewrite (proj2 (Nat.leb_le _ _)) by (rewrite length_app; lia). done.
    + destruct (find_index sep (take max (b ++ sep))) as [i|] eqn:E; [|done].
      pose proof (find_index_length _ _ _ E) as Hl. rewrite length_take in Hl.
      apply (find_index_app _ (drop max (b ++ sep))) in E. rewrite take_drop in E.
      unfold frame_ok in Hf. rewrite Hf in E. injection E as <-. lia.
Qed.
End separator.

(** ** Lines: [bufio.ScanLines] *)

Definition newline : bytes := [Byte.x0a].

(** Drops a trailing carriage return. *)
Definition dropCR (data : bytes) : bytes :=
  match rev data with Byte.x0d :: r => rev r | _ => data end.

Definition ScanLines : SplitFunc := sep_split newline dropCR.

Definition scan_lines (chunks : list bytes) : list bytes * option error :=
  scan MaxScanTokenSize ScanLines [] chunks.

Lemma dropCR_id data : last data ≠ Some Byte.x0d → dropCR data = data.
Proof.
  unfold dropCR. destruct (rev data) as [|x r] eqn:E; [done|].
  assert (data = rev r ++ [x]) as -> by (rewrite <- (rev_involutive data), E; done).
  rewrite last_snoc. intros H. destruct x; congruence || done.
Qed.

Lemma no_newline l : Byte.x0a ∉ l → find_index newline l = None.
Proof.
  intros H. apply find_index_None. intros j [r Hr]. apply H.
  rewrite <- (take_drop j l), Hr. set_solver.
Qed.

Lemma frame_ok_newline l : Byte.x0a ∉ l → frame_ok newline l.
Proof. intros H. apply frame_ok_iff; [constructor|simpl; lia|by apply no_newline]. Qed.
