(* ===== verification/LogWrapper.v ===== *)
(** * [logs/log_wrapper.go]

    The writers that frame a piece of log output: a three-byte prefix that
    names the stream, the message, and the separator [[RANLOGS]].  The prefix
    is a package-level slice and [append] may write into its backing array, so
    the model has arrays, slices and their capacities; [append] is the
    library's: in place while the capacity allows, into a new array
    otherwise. *)

From Stdlib Require Import ZArith.
From S2P Require Import Prelude GoStd.

(** ** Slices *)

Record slice := mkSlice { array : nat; len : nat; cap : nat }.

(** The backing arrays; an array is as long as the capacity of its slices. *)
Abbreviation heap := (gmap nat bytes).

Definition contents (h : heap) (s : slice) : bytes := take (len s) (default [] (h !! array s)).

(** A slice is valid when its array is there and as long as its capacity. *)
Definition valid (h : heap) (s : slice) : Prop :=
  len s ≤ cap s ∧ ∃ a, h !! array s = Some a ∧ length a = cap s.

(** [spare] is what the run-time rounds a new capacity up by. *)
Definition append (spare : nat → nat) (h : heap) (s : slice) (data : bytes) : heap * slice :=
  let n := len s + length data in
  if n <=? cap s then
    let a := default [] (h !! array s) in
    (<[array s := take (len s) a ++ data ++ drop n a]> h, mkSlice (array s) n (cap s))
  else
    let id := fresh (dom h) in
    let a := contents h s ++ data ++ replicate (spare n) Byte.x00 in
    (<[id := a]> h, mkSlice id n (n + spare n)).

(** ** The package variables *)

Definition messageSeparator : bytes := bytes_of "[RANLOGS]".
Definition messageSeparatorLength : nat := length messageSeparator.
Definition messageOffset : nat := 3 + messageSeparatorLength.

Definition stdoutPrefix : bytes := bytes_of "01 ".
Definition stderrPrefix : bytes := bytes_of "02 ".
Definition bothPrefix : bytes := bytes_of "00 ".

(** The three writers differ in the prefix they pass to [wrapMessage]. *)
Inductive stream := stdoutWriter | stderrorWriter | stdbothWriter.

#[export] Instance stream_eq_decision : EqDecision stream.
Proof. solve_decision. Defined.

Definition prefix_bytes (w : stream) : bytes :=
  match w with
  | stdoutWriter => stdoutPrefix
  | stderrorWriter => stderrPrefix
  | stdbothWriter => bothPrefix
  end.

Section wrap.
Context (spare : nat → nat).

(** The two appends of [wrapMessage], one at a time: another goroutine may
    run between them. *)
Definition wrap_message (h : heap) (prefix : slice) (message : bytes) : heap * slice :=
  append spare h prefix message.

Definition wrap_separator (h : heap) (msg : slice) : heap * slice :=
  append spare h msg messageSeparator.

(** [wrapMessage]: what is handed to the writer, and the result computed from
    what the writer answered. *)
Definition wrapMessage (Write : bytes → Z * option error) (h : heap) (prefix : slice)
    (message : bytes) : heap * bytes * (Z * option error) :=
  let '(h, msg) := wrap_message h prefix message in
  let '(h, msg) := wrap_separator h msg in
  let '(n, err) := Write (contents h msg) in
  (h, contents h msg, (n - Z.of_nat messageOffset, err))%Z.

(** The [Write] methods of the three writers. *)
Definition stream_Write (Write : bytes → Z * option error) (prefixes : stream → slice)
    (h : heap) (w : stream) (message : bytes) : heap * bytes * (Z * option error) :=
  wrapMessage Write h (prefixes w) message.

(** ** Lemmas *)

Lemma length_contents h s : valid h s → length (contents h s) = len s.
Proof.
  intros (Hl&a&Ha&Hla). unfold contents. rewrite Ha. simpl. rewrite length_take. lia.
Qed.

Lemma append_spec h s data h' s' :
  valid h s → append spare h s data = (h', s') →
  valid h' s' ∧ contents h' s' = contents h s ++ data ∧
  (∀ t, valid h t → array t ≠ array s ∨ len t ≤ len s →
        valid h' t ∧ contents h' t = contents h t) ∧
  (array s' ≠ array s → ∀ t, valid h t → array t ≠ array s').
Proof.
  intros Hv Happ. pose proof (length_contents h s Hv) as Hlc.
  destruct Hv as (Hl&a&Ha&Hla). unfold append in Happ. rewrite Ha in Happ. simpl in Happ.
  destruct (Nat.leb_spec (len s + length data) (cap s)) as [Hc|Hc]; injection Happ as <- <-.
  - split_and!.
    + split; [done|]. eexists. split; [apply lookup_insert_eq|].
      rewrite !length_app, length_take, length_drop. simpl. lia.
    + unfold contents. simpl. rewrite lookup_insert_eq, Ha. simpl.
      rewrite (assoc_L (++)), take_app_le, take_ge; [done|..];
        rewrite length_app, length_take; lia.
    + intros t (Htl&b&Hb&Hlb) Hor. unfold valid, contents.
      destruct (decide (array t = array s)) as [E|E].
      * rewrite E in *. assert (b = a) as -> by congruence. destruct Hor as [?|Hle]; [done|].
        rewrite lookup_insert_eq, Ha. simpl. split.
        -- split; [done|]. eexists. split; [done|].
           rewrite !length_app, length_take, length_drop. lia.
        -- rewrite take_app_le by (rewrite length_take; lia).
           rewrite take_take. f_equal. lia.
      * rewrite lookup_insert_ne by done. eauto.
    + done.
  - set (id := fresh (dom h)).
    assert (h !! id = None) as Hid by (apply not_elem_of_dom, is_fresh).
    split_and!.
    + split; [simpl; lia|]. eexists. split; [apply lookup_insert_eq|].
      rewrite !length_app, length_replicate. simpl. lia.
    + unfold contents at 1. simpl. rewrite lookup_insert_eq. simpl.
      rewrite (assoc_L (++)), take_app_le, take_ge; [done|..];
        rewrite length_app; lia.
    + intros t (Htl&b&Hb&Hlb) _. unfold valid, contents.
      assert (id ≠ array t) by congruence. rewrite lookup_insert_ne by done. eauto.
    + intros _ t (Htl&b&Hb&Hlb). simpl. congruence.
Qed.
End wrap.

Lemma append_fresh spare h s data h' s' :
  valid h s → cap s < len s + length data → append spare h s data = (h', s') →
  array s' ≠ array s.
Proof.
  intros (Hl&a&Ha&Hla) Hc Happ. unfold append in Happ.
  rewrite (proj2 (Nat.leb_gt _ _) Hc) in Happ. injection Happ as <- <-. simpl.
  intros E. apply (is_fresh (dom h)). rewrite E. apply elem_of_dom. by rewrite Ha.
Qed.

Lemma messageSeparator_border_free : border_free messageSeparator.
Proof. by apply (bool_decide_unpack _); vm_compute. Qed.

(** ** Concurrent writers

    Goroutines that share one prefix slice, each between the start, the two
    appends and the write of its [wrapMessage]. *)

Inductive goroutine :=
| GStart (message : bytes)
| GAppended (message : bytes) (msg : slice)
| GWritten (message out : bytes).

Record writers := mkWriters { mem : heap; threads : list goroutine }.

Section concurrent.
Context (spare : nat → nat) (prefix : slice).

#[export] Instance writers_machine : Machine writers nat := λ i st,
  g ← threads st !! i;
  match g with
  | GStart m =>
      let '(h, s) := wrap_message spare (mem st) prefix m in
      Some (mkWriters h (<[i := GAppended m s]> (threads st)))
  | GAppended m s =>
      let '(h, s) := wrap_separator spare (mem st) s in
      Some (mkWriters h (<[i := GWritten m (contents h s)]> (threads st)))
  | GWritten _ _ => None
  end.

(** What holds while no message fits the spare capacity of the prefix. *)
Record separated (pre : bytes) (st : writers) : Prop := {
  sep_prefix : valid (mem st) prefix ∧ contents (mem st) prefix = pre;
  sep_start i m : threads st !! i = Some (GStart m) → cap prefix < len prefix + length m;
  sep_appended i m s : threads st !! i = Some (GAppended m s) →
    valid (mem st) s ∧ array s ≠ array prefix ∧ contents (mem st) s = pre ++ m;
  sep_distinct i j m s m' s' : i ≠ j → threads st !! i = Some (GAppended m s) →
    threads st !! j = Some (GAppended m' s') → array s ≠ array s';
  sep_written i m out : threads st !! i = Some (GWritten m out) →
    out = pre ++ m ++ messageSeparator
}.

Lemma separated_start pre st i m h s :
  separated pre st → threads st !! i = Some (GStart m) →
  wrap_message spare (mem st) prefix m = (h, s) →
  separated pre (mkWriters h (<[i := GAppended m s]> (threads st))).
Proof.
  intros [[Hvp Hcp] Hst Hap Hdi Hwr] Hi Happ.
  pose proof (append_fresh _ _ _ _ _ _ Hvp (Hst _ _ Hi) Happ) as Hne.
  destruct (append_spec _ _ _ _ _ _ Hvp Happ) as (Hvs&Hcs&Hother&Hfresh).
  specialize (Hfresh Hne).
  split; simpl.
  - destruct (Hother prefix Hvp) as [? ->]; [right; lia|done].
  - intros j m' [[<- ?]|[Hn Hj]]%list_lookup_insert_Some; [naive_solver|eauto].
  - intros j m' s' [[<- [[= -> ->] _]]|[Hn Hj]]%list_lookup_insert_Some.
    + split_and!; [done|done|]. by rewrite Hcs, Hcp.
    + destruct (Hap _ _ _ Hj) as (Hv&Ha&Hc).
      destruct (Hother s' Hv) as [? ->]; [by left|done].
  - intros j k m1 s1 m2 s2 Hjk Hj Hk.
    apply list_lookup_insert_Some in Hj as [[<- [[= -> ->] _]]|[Hn Hj]];
      apply list_lookup_insert_Some in Hk as [[<- [[= -> ->] _]]|[Hn' Hk]].
    + done.
    + intros E. destruct (Hap _ _ _ Hk) as (Hv&_). by apply (Hfresh _ Hv).
    + destruct (Hap _ _ _ Hj) as (Hv&_). by apply Hfresh.
    + eauto.
  - intros j m' out [[<- ?]|[Hn Hj]]%list_lookup_insert_Some; [naive_solver|eauto].
Qed.

Lemma separated_finish pre st i m s h s' :
  separated pre st → threads st !! i = Some (GAppended m s) →
  wrap_separator spare (mem st) s = (h, s') →
  separated pre (mkWriters h (<[i := GWritten m (contents h s')]> (threads st))).
Proof.
  intros [[Hvp Hcp] Hst Hap Hdi Hwr] Hi Happ.
  destruct (Hap _ _ _ Hi) as (Hvs&Has&Hcs).
  destruct (append_spec _ _ _ _ _ _ Hvs Happ) as (Hvs'&Hcs'&Hother&_).
  split; simpl.
  - destruct (Hother prefix Hvp) as [? ->]; [by left|done].
  - intros j m' [[<- ?]|[Hn Hj]]%list_lookup_insert_Some; [naive_solver|eauto].
  - intros j m' t [[<- ?]|[Hn Hj]]%list_lookup_insert_Some; [naive_solver|].
    destruct (Hap _ _ _ Hj) as (Hv&Ha&Hc).
    destruct (Hother t Hv) as [? ->]; [left; eauto|done].
  - intros j k m1 s1 m2 s2 Hjk Hj Hk.
    apply list_lookup_insert_Some in Hj as [[<- ?]|[Hn Hj]]; [naive_solver|].
    apply list_lookup_insert_Some in Hk as [[<- ?]|[Hn' Hk]]; [naive_solver|eauto].
  - intros j m' out [[<- [[= <- <-] _]]|[Hn Hj]]%list_lookup_insert_Some; [|eauto].
    by rewrite Hcs', Hcs, <- (assoc_L (++)).
Qed.

Lemma separated_step pre l st st' :
  separated pre st → mstep l st = Some st' → separated pre st'.
Proof.
  intros HI Hs. unfold mstep, writers_machine in Hs.
  destruct (threads st !! l) as [[m|m s|m out]|] eqn:E; simpl in Hs; try done.
  - destruct (wrap_message _ _ _ _) as [h s] eqn:Ea. injection Hs as <-.
    by eapply separated_start.
  - destruct (wrap_separator _ _ _) as [h s'] eqn:Ea. injection Hs as <-.
    by eapply separated_finish.
Qed.
End concurrent.

(** ** Properties *)

(** C29: [wrapMessage] hands the writer exactly prefix, message and
    separator, leaves the shared prefix as it was (so every later call finds
    it intact) and, when the writer takes everything, reports the length of the
    message; this for any spare capacity of the prefix. *)
Theorem wrapMessage_correct spare Write h prefix message h' out n err :
  valid h prefix → len prefix = 3 →
  wrapMessage spare Write h prefix message = (h', out, (n, err)) →
  out = contents h prefix ++ message ++ messageSeparator ∧
  valid h' prefix ∧ contents h' prefix = contents h prefix ∧
  (Write out = (Z.of_nat (length out), None) → n = Z.of_nat (length message) ∧ err = None).
Proof.
  intros Hv Hl Hw. unfold wrapMessage in Hw. pose proof (length_contents h prefix Hv) as Hlc.
  destruct (wrap_message spare h prefix message) as [h1 s1] eqn:E1.
  destruct (wrap_separator spare h1 s1) as [h2 s2] eqn:E2.
  destruct (append_spec _ _ _ _ _ _ Hv E1) as (Hv1&Hc1&Ho1&Hf1).
  destruct (append_spec _ _ _ _ _ _ Hv1 E2) as (Hv2&Hc2&Ho2&_).
  destruct (Ho1 prefix Hv) as [Hvp Hcp]; [by right|].
  destruct (Ho2 prefix Hvp) as [Hvp2 Hcp2].
  { right. rewrite <- (length_contents _ _ Hv1), Hc1, length_app. lia. }
  rewrite Hc2, Hc1, <- (assoc_L (++)) in Hw.
  destruct (Write _) as [k e] eqn:Ew. injection Hw as <- <- <- <-.
  split_and!; [done|done|by rewrite Hcp2|].
  rewrite Ew. intros [= -> ->]. split; [|done]. rewrite !length_app, Hlc, Hl.
  unfold messageOffset, messageSeparatorLength. lia.
Qed.

(** The memory after initialisation: the prefix "01 " in an array of the
    capacity the run-time rounds three bytes up to. *)
Definition prefix_slice (capacity : nat) : slice := mkSlice 0 3 capacity.
Definition initial_heap (capacity : nat) : heap :=
  {[ 0 := stdoutPrefix ++ replicate (capacity - 3) Byte.x00 ]}.

Lemma initial_valid capacity :
  3 ≤ capacity → valid (initial_heap capacity) (prefix_slice capacity) ∧
                 contents (initial_heap capacity) (prefix_slice capacity) = stdoutPrefix.
Proof.
  intros H. unfold valid, contents, initial_heap, prefix_slice. simpl.
  rewrite lookup_singleton_eq. split; [|by simpl].
  split; [done|]. eexists. split; [done|]. simpl. rewrite length_replicate. lia.
Qed.

Lemma wrapMessage_correct_witness :
  wrapMessage id (λ b, (Z.of_nat (length b), None)) (initial_heap 8) (prefix_slice 8) (bytes_of "hi")
  = (<[1 := bytes_of "01 hi[RANLOGS]" ++ replicate 14 Byte.x00]>
       {[ 0 := bytes_of "01 hi" ++ replicate 3 Byte.x00 ]},
     bytes_of "01 hi[RANLOGS]", (2%Z, None)) ∧
  bytes_of "01 hi[RANLOGS]" = contents (initial_heap 8) (prefix_slice 8) ++ bytes_of "hi" ++ messageSeparator.
Proof.
  split; [vm_compute; reflexivity|].
  refine (proj1 (wrapMessage_correct id (λ b, (Z.of_nat (length b), None)) (initial_heap 8)
    (prefix_slice 8) (bytes_of "hi") _ (bytes_of "01 hi[RANLOGS]") 2 None _ _ _));
    [apply initial_valid; lia|reflexivity|vm_compute; reflexivity].
Defined.

(** Writers that share the prefix do not disturb each other, whatever
    the interleaving of their appends, as long as no message fits the spare
    capacity of the prefix: each writes its own frame. *)
Theorem concurrent_wrap_safe spare prefix h pre messages st :
  valid h prefix → contents h prefix = pre →
  Forall (λ m, cap prefix < len prefix + length m) messages →
  reachable (Machine0 := writers_machine spare prefix) (mkWriters h (GStart <$> messages)) st →
  ∀ i m out, threads st !! i = Some (GWritten m out) → out = pre ++ m ++ messageSeparator.
Proof.
  intros Hv Hc Hm Hr. eapply sep_written.
  eapply (reachable_invariant (separated prefix pre)); [apply separated_step|exact Hr|].
  split; simpl.
  - done.
  - intros i m Hi. apply list_lookup_fmap_Some in Hi as (m'&[= ->]&Hi).
    by eapply Forall_lookup in Hm.
  - intros i m s Hi. apply list_lookup_fmap_Some in Hi. naive_solver.
  - intros i j m s m' s' _ Hi. apply list_lookup_fmap_Some in Hi. naive_solver.
  - intros i m out Hi. apply list_lookup_fmap_Some in Hi. naive_solver.
Qed.

Definition demo_writers : writers :=
  mkWriters (initial_heap 8) (GStart <$> [bytes_of "hello there"; bytes_of "general"]).

(** The state after the first thread's appends, the second's first in between. *)
Definition demo_written : writers :=
  default demo_writers (mrun (Machine0 := writers_machine id (prefix_slice 8)) [0; 1; 0] demo_writers).

Lemma concurrent_wrap_safe_witness :
  bytes_of "01 hello there[RANLOGS]" = stdoutPrefix ++ bytes_of "hello there" ++ messageSeparator.
Proof.
  apply (concurrent_wrap_safe id (prefix_slice 8) (initial_heap 8) stdoutPrefix
    [bytes_of "hello there"; bytes_of "general"] demo_written) with (i := 0).
  - apply initial_valid. lia.
  - apply initial_valid. lia.
  - repeat constructor; simpl; lia.
  - exists [0; 1; 0]. apply mrun_mstar. vm_compute. reflexivity.
  - vm_compute. reflexivity.
Defined.

Lemma append_in_place spare h s data :
  len s + length data ≤ cap s →
  append spare h s data =
    (<[array s := take (len s) (default [] (h !! array s)) ++ data
                  ++ drop (len s + length data) (default [] (h !! array s))]> h,
     mkSlice (array s) (len s + length data) (cap s)).
Proof. intros H. unfold append. by rewrite (proj2 (Nat.leb_le _ _) H). Qed.

(** Two messages of the same length that fit the spare capacity of the
    shared prefix race: there is an interleaving in which the first goroutine
    writes the message of the second.  Go 1.7 gives the three-byte prefixes
    capacity 8, so this concerns pieces of at most five bytes. *)
Theorem concurrent_wrap_race spare prefix h m1 m2 :
  valid h prefix → length m1 = length m2 → len prefix + length m1 ≤ cap prefix →
  ∃ st, reachable (Machine0 := writers_machine spare prefix)
          (mkWriters h [GStart m1; GStart m2]) st ∧
        threads st !! 0 = Some (GWritten m1 (contents h prefix ++ m2 ++ messageSeparator)).
Proof.
  intros Hv Hl Hc.
  destruct (append spare h prefix m1) as [h1 s1] eqn:E1.
  destruct (append_spec _ _ _ _ _ _ Hv E1) as (Hv1&Hc1&Ho1&_).
  destruct (Ho1 prefix Hv) as [Hvp Hcp]; [by right|].
  destruct (append spare h1 prefix m2) as [h2 s2] eqn:E2.
  destruct (append_spec _ _ _ _ _ _ Hvp E2) as (Hv2&Hc2&_&_).
  assert (s1 = s2) as <-.
  { rewrite append_in_place in E1, E2 by lia. injection E1 as _ <-. injection E2 as _ <-.
    by rewrite Hl. }
  destruct (append spare h2 s1 messageSeparator) as [h3 s3] eqn:E3.
  destruct (append_spec _ _ _ _ _ _ Hv2 E3) as (_&Hc3&_&_).
  exists (mkWriters h3 [GWritten m1 (contents h3 s3); GAppended m2 s1]). split.
  - exists [0; 1; 0]. apply mrun_mstar. simpl. unfold mstep, writers_machine; simpl.
    unfold wrap_message, wrap_separator. rewrite E1; simpl. rewrite E2; simpl. by rewrite E3.
  - simpl. by rewrite Hc3, Hc2, Hcp, <- (assoc_L (++)).
Qed.

Lemma concurrent_wrap_race_witness :
  ∃ st, reachable (Machine0 := writers_machine id (prefix_slice 8))
          (mkWriters (initial_heap 8) [GStart (bytes_of "aaaa"); GStart (bytes_of "bbbb")]) st ∧
        threads st !! 0 = Some (GWritten (bytes_of "aaaa")
          (contents (initial_heap 8) (prefix_slice 8) ++ bytes_of "bbbb" ++ messageSeparator)).
Proof.
  apply (concurrent_wrap_race id (prefix_slice 8) (initial_heap 8) (bytes_of "aaaa") (bytes_of "bbbb"));
    [apply initial_valid; lia|reflexivity|simpl; lia].
Defined.
