(* ===== verification/PipeStream.v ===== *)
(** * A producer, an [io.Pipe] and a scanner

    The logs handler and the three statistics handlers have the same shape: the
    handler's own goroutine writes to an [io.Pipe]; one goroutine waits for the
    incoming channel to close and then closes the write end; one goroutine scans
    the read end and sends every token as the body of a message.  This file is
    that machine, for any split function that cuts at a separator; [Logs] and
    [Stats] instantiate it.

    A pipe is synchronous: a [Write] returns when its bytes are consumed, or
    with [ErrClosedPipe] when the write end is closed meanwhile.  The response
    channel only delays its senders; it is the list of what was sent.

    [written] and [consumed] record the history of the pipe: the bytes of
    the writes that were started, and those the scanner has read. *)

From Stdlib Require Import ZArith.
From S2P Require Import Prelude GoStd Wire Bufio.

Record pipe_state := mkPipe {
  pending : option bytes;        (* the rest of the write in progress *)
  wclosed : bool;                (* the write end was closed *)
  incoming_closed : bool;        (* the backend closed the incoming channel *)
  producer_done : bool;          (* the handler's goroutine has returned *)
  buf : bytes;                   (* the scanner's buffer *)
  queue : list bytes;            (* tokens scanned and not yet sent *)
  live : bool;                   (* the scan has not ended *)
  scan_err : option error;       (* scanner.Err() *)
  responses : list Message;
  written : bytes;
  consumed : bytes
}.

Definition pipe_init : pipe_state :=
  mkPipe None false false false [] [] true None [] [] [].

Inductive pipe_label :=
| PWrite (data : bytes)   (* the producer calls Write *)
| PReturn                 (* the producer returns by itself *)
| PAbort                  (* its Write fails because the write end was closed *)
| SRead (n : nat)         (* the scanner reads at most n bytes *)
| SEOF                    (* the scanner reads the end of file *)
| SSend                   (* the scanner goroutine sends a token *)
| EnvClose                (* the backend closes the incoming channel *)
| CloserClose.            (* the closing goroutine closes the write end *)

#[local] Arguments Nat.min : simpl never.

Section pipe.
Context (max : nat) (split : SplitFunc) (key : string).

(** The producer's return runs its deferred [SignalHandlerClosed]. *)
Definition producer_return (st : pipe_state) : pipe_state :=
  mkPipe None (wclosed st) (incoming_closed st) true (buf st) (queue st) (live st) (scan_err st)
    (responses st ++ [SignalHandlerClosed key]) (written st) (consumed st).

Definition scanner_stop (err : option error) (q : list bytes) (st : pipe_state) : pipe_state :=
  mkPipe (pending st) (wclosed st) (incoming_closed st) (producer_done st) [] q false err
    (responses st) (written st) (consumed st).

(** A read of [c] leaves [rest] of the write in progress; the write returns when
    nothing is left of it. *)
Definition scanner_read (c rest : bytes) (st : pipe_state) : pipe_state :=
  let '(ts, b, _) := drain_all split (buf st ++ c) false in
  mkPipe (if bool_decide (rest = []) then None else Some rest)
    (wclosed st) (incoming_closed st) (producer_done st) b ts (live st) (scan_err st)
    (responses st) (written st) (consumed st ++ c).

#[export] Instance pipe_machine : Machine pipe_state pipe_label := λ l st,
  match l with
  | PWrite data =>
      if producer_done st then None
      else match pending st with
      | Some _ => None
      | None =>
          if wclosed st then Some (producer_return st)
          else Some (mkPipe (Some data) false (incoming_closed st) false (buf st) (queue st)
                 (live st) (scan_err st) (responses st) (written st ++ data) (consumed st))
      end
  | PReturn =>
      if producer_done st then None
      else match pending st with
      | Some _ => None
      | None => Some (producer_return st)
      end
  | PAbort =>
      match pending st with
      | Some _ => if wclosed st then Some (producer_return st) else None
      | None => None
      end
  | SRead n =>
      match live st, queue st, pending st with
      | true, [], Some d =>
          if max <=? length (buf st) then Some (scanner_stop (Some ErrTooLong) [] st)
          else let k := Nat.min (S n) (max - length (buf st)) in
               Some (scanner_read (take k d) (drop k d) st)
      | _, _, _ => None
      end
  | SEOF =>
      match live st, queue st, pending st with
      | true, [], None =>
          if wclosed st then
            if max <=? length (buf st) then Some (scanner_stop (Some ErrTooLong) [] st)
            else let '(ts, _, err) := drain_all split (buf st) true in
                 Some (scanner_stop err ts st)
          else None
      | _, _, _ => None
      end
  | SSend =>
      match queue st with
      | [] => None
      | t :: ts =>
          Some (mkPipe (pending st) (wclosed st) (incoming_closed st) (producer_done st) (buf st) ts
                  (live st) (scan_err st)
                  (responses st ++ [body_message key (string_of t)]) (written st) (consumed st))
      end
  | EnvClose =>
      Some (mkPipe (pending st) (wclosed st) true (producer_done st) (buf st) (queue st) (live st)
              (scan_err st) (responses st) (written st) (consumed st))
  | CloserClose =>
      if incoming_closed st && negb (wclosed st) then
        Some (mkPipe (pending st) true true (producer_done st) (buf st) (queue st) (live st)
                (scan_err st) (responses st) (written st) (consumed st))
      else None
  end.

(** The tokens that were sent as message bodies, in order. *)
Definition sent (st : pipe_state) : list bytes :=
  (λ m, bytes_of (MBody m)) <$> filter (λ m, Type_ m = Body) (responses st).

(** The split function is the one of a separator. *)
Context (sep : bytes) (post : bytes → bytes).

Let spec := sep_scan_spec sep post max.

(** The scanner has computed a prefix of the specification of its input. *)
Definition scanned (st : pipe_state) : Prop :=
  if live st then
    length (buf st) ≤ max ∧ find_index sep (buf st) = None ∧
    ∀ r, spec (consumed st ++ r) =
      let '(ts, err) := spec (buf st ++ r) in ((sent st ++ queue st) ++ ts, err)
  else
    (scan_err st = Some ErrTooLong ∧
       ∀ r, spec (consumed st ++ r) = (sent st ++ queue st, Some ErrTooLong)) ∨
    (scan_err st = None ∧ wclosed st = true ∧ pending st = None ∧
       spec (consumed st) = (sent st ++ queue st, None)).

Record pipe_inv (st : pipe_state) : Prop := {
  inv_keyed : Forall (λ m, Key m = key) (responses st);
  inv_close : length (filter is_close (responses st)) = if producer_done st then 1 else 0;
  inv_pending : producer_done st = true → pending st = None;
  inv_scanned : scanned st;
  inv_history : ∃ lost, written st = consumed st ++ default [] (pending st) ++ lost ∧
                        (lost ≠ [] → wclosed st = true ∧ producer_done st = true)
}.

Context (Hsplit : ∀ data atEOF, split data atEOF = sep_split sep post data atEOF).
Context (Hsep : 0 < length sep) (Hmax : 0 < max).

Lemma sent_snoc_body rs t st :
  responses st = rs ++ [body_message key (string_of t)] →
  sent st = ((λ m, bytes_of (MBody m)) <$> filter (λ m, Type_ m = Body) rs) ++ [t].
Proof.
  intros H. unfold sent. rewrite H, filter_app, fmap_app. simpl.
  by rewrite bytes_of_string_of.
Qed.

Lemma sent_snoc_close rs st :
  responses st = rs ++ [SignalHandlerClosed key] →
  sent st = (λ m, bytes_of (MBody m)) <$> filter (λ m, Type_ m = Body) rs.
Proof. intros H. unfold sent. rewrite H, filter_app, fmap_app. simpl. by rewrite app_nil_r. Qed.

Lemma pipe_inv_init : pipe_inv pipe_init.
Proof.
  split; simpl; try done.
  - split_and!; [simpl; lia|by apply sep_not_empty|]. intros r. simpl. unfold spec, sent. simpl.
    by destruct (sep_scan_spec sep post max r).
  - by exists [].
Qed.

Lemma pipe_inv_return st :
  pipe_inv st → producer_done st = false → (pending st ≠ None → wclosed st = true) →
  pipe_inv (producer_return st).
Proof.
  intros [Hk Hc Hp Hs (lost&Hw&Hl)] Hd Hpc. split; simpl.
  - apply Forall_app. split; [done|]. by repeat constructor.
  - rewrite filter_app, length_app, Hc, Hd. done.
  - done.
  - unfold scanned in *. simpl. rewrite (sent_snoc_close (responses st)) by done.
    fold (sent st). destruct (live st); [done|]. naive_solver.
  - exists (default [] (pending st) ++ lost). split; [done|]. intros Hne. split; [|done].
    destruct (pending st) as [d|] eqn:E; [by apply Hpc|]. by apply Hl.
Qed.

Lemma pipe_inv_send st t ts :
  pipe_inv st → queue st = t :: ts →
  pipe_inv (mkPipe (pending st) (wclosed st) (incoming_closed st) (producer_done st) (buf st) ts
    (live st) (scan_err st) (responses st ++ [body_message key (string_of t)])
    (written st) (consumed st)).
Proof.
  intros [Hk Hc Hp Hs Hh] Hq. split; simpl; try done.
  - apply Forall_app. split; [done|]. by repeat constructor.
  - rewrite filter_app, length_app, Hc. simpl. lia.
  - unfold scanned in *. simpl. rewrite (sent_snoc_body (responses st) t) by done.
    fold (sent st). rewrite Hq in Hs. by rewrite <- !(assoc_L (++) (sent st) [t] ts).
Qed.

Lemma pipe_inv_read st c rest :
  pipe_inv st → live st = true → queue st = [] → pending st = Some (c ++ rest) →
  length (buf st ++ c) ≤ max →
  pipe_inv (scanner_read c rest st).
Proof.
  intros [Hk Hc Hp Hs (lost&Hw&Hl)] Hlive Hq Hpend Hfit.
  unfold scanned in Hs. rewrite Hlive in Hs. destruct Hs as (Hlb&Hn&Hspec).
  unfold scanner_read.
  destruct (drain_all split (buf st ++ c) false) as [[ts b] err] eqn:Ed.
  assert (∀ r, find_index sep b = None ∧ length b ≤ length (buf st ++ c) ∧
    spec ((buf st ++ c) ++ r) = let '(ts', err) := spec (b ++ r) in (ts ++ ts', err)) as Hdrain.
  { intros r. destruct (drain_spec sep post Hsep max (S (length (buf st ++ c))) (buf st ++ c) r)
      as (ts'&b'&Hd&Hb); [lia|done|].
    rewrite (drain_all_ext _ _ Hsplit) in Ed. unfold drain_all in Ed. rewrite Hd in Ed. injection Ed as <- <- <-. done. }
  assert (pending st = None → producer_done st = true) by congruence.
  assert (producer_done st = false) as Hdone
    by (destruct (producer_done st); [rewrite Hp in Hpend by done; done|done]).
  split; simpl; try done.
  - congruence.
  - unfold scanned. simpl. rewrite Hlive. destruct (Hdrain []) as (?&?&_).
    split_and!; [lia|done|]. intros r. rewrite <- (assoc_L (++)), Hspec, (assoc_L (++)).
    destruct (Hdrain r) as (_&_&->). rewrite Hq, app_nil_r.
    unfold sent; simpl. destruct (spec (b ++ r)). by rewrite (assoc_L (++)).
  - exists lost. rewrite Hw, Hpend. simpl. split.
    + rewrite <- !(assoc_L (++)). case_bool_decide as Hr; [by subst|done].
    + intros Hne. destruct (Hl Hne). congruence.
Qed.

Lemma pipe_inv_stop_long st :
  pipe_inv st → live st = true → queue st = [] → max ≤ length (buf st) →
  pipe_inv (scanner_stop (Some ErrTooLong) [] st).
Proof.
  intros [Hk Hc Hp Hs Hh] Hlive Hq Hge. split; simpl; try done.
  unfold scanned in *. rewrite Hlive in Hs. destruct Hs as (Hlb&Hn&Hspec). simpl.
  left. split; [done|]. intros r. rewrite Hspec, Hq. unfold spec.
  rewrite sep_spec_end; [|rewrite take_app_le, take_ge by lia; done|done].
  rewrite (proj2 (Nat.leb_le _ _)) by (rewrite length_app; lia). by rewrite app_nil_r.
Qed.

Lemma pipe_inv_stop_eof st ts b err :
  pipe_inv st → live st = true → queue st = [] → length (buf st) < max →
  pending st = None → wclosed st = true → drain_all split (buf st) true = (ts, b, err) →
  pipe_inv (scanner_stop err ts st).
Proof.
  intros [Hk Hc Hp Hs Hh] Hlive Hq Hlt Hpend Hwc Hd. split; simpl; try done.
  unfold scanned in *. rewrite Hlive in Hs. destruct Hs as (Hlb&Hn&Hspec). simpl.
  destruct (drain_eof sep post Hsep max (buf st) Hn Hlt) as (H1&H2&H3).
  rewrite (drain_all_ext _ _ Hsplit) in Hd. rewrite Hd in H1, H2. simpl in H1, H2. subst err.
  right. split_and!; [done|done|done|].
  specialize (Hspec []). rewrite !app_nil_r in Hspec. rewrite Hspec, Hq.
  unfold spec. destruct (sep_scan_spec sep post max (buf st)) as [ts' err'].
  simpl in *. subst. by rewrite app_nil_r.
Qed.

Lemma pipe_inv_step l st st' : pipe_inv st → mstep l st = Some st' → pipe_inv st'.
Proof.
  intros HI Hs. destruct l as [data| | |n| | | |]; unfold mstep in Hs; simpl in Hs.
  - destruct (producer_done st) eqn:Hd; [done|]. destruct (pending st) eqn:Hp; [done|].
    destruct (wclosed st) eqn:Hw; injection Hs as <-.
    { apply pipe_inv_return; [done|done|]. by rewrite Hp. }
    destruct HI as [Hk Hc Hpd Hsc (lost&Hwr&Hl)]. split; simpl; rewrite ?Hd in *; try done.
    + unfold scanned in *. simpl. destruct (live st); [done|].
      destruct Hsc as [?|(?&?&_)]; [by left|congruence].
    + exists []. split; [|done]. rewrite Hwr, Hp. simpl.
      destruct lost; [by rewrite !app_nil_r|]. by destruct Hl.
  - destruct (producer_done st) eqn:Hd; [done|]. destruct (pending st) eqn:Hp; [done|].
    injection Hs as <-. apply pipe_inv_return; [done|done|]. by rewrite Hp.
  - destruct (pending st) eqn:Hp; [|done]. destruct (wclosed st) eqn:Hw; [|done].
    injection Hs as <-. apply pipe_inv_return; [done| |done].
    destruct (producer_done st) eqn:Hd; [|done]. by rewrite (inv_pending _ HI Hd) in Hp.
  - destruct (live st) eqn:Hl, (queue st) eqn:Hq, (pending st) as [d|] eqn:Hp; try done.
    destruct (Nat.leb_spec max (length (buf st))); injection Hs as <-.
    + by apply pipe_inv_stop_long.
    + set (k := Nat.min (S n) (max - length (buf st))).
      apply pipe_inv_read; [done|done|done|by rewrite take_drop|].
      rewrite length_app, length_take. unfold k. lia.
  - destruct (live st) eqn:Hl, (queue st) eqn:Hq, (pending st) as [d|] eqn:Hp; try done.
    destruct (wclosed st) eqn:Hw; [|done].
    destruct (Nat.leb_spec max (length (buf st))); [injection Hs as <-; by apply pipe_inv_stop_long|].
    destruct (drain_all split (buf st) true) as [[ts b] err] eqn:Hd. injection Hs as <-.
    by eapply pipe_inv_stop_eof.
  - destruct (queue st) eqn:Hq; [done|]. injection Hs as <-. by apply pipe_inv_send.
  - injection Hs as <-. by destruct HI.
  - destruct (incoming_closed st && negb (wclosed st)) eqn:Hc; [|done]. injection Hs as <-.
    apply andb_true_iff in Hc as [_ Hw%negb_true_iff].
    destruct HI as [Hk Hcl Hpd Hsc (lost&Hwr&Hl)]. split; simpl; try done.
    + unfold scanned in *. simpl. destruct (live st); [done|].
      destruct Hsc as [?|(?&?&_)]; [by left|congruence].
    + exists lost. naive_solver.
Qed.

Lemma pipe_reachable_inv st : reachable pipe_init st → pipe_inv st.
Proof. intros H. eapply reachable_invariant; [apply pipe_inv_step|exact H|apply pipe_inv_init]. Qed.

(** The machine meets the contract of a handler. *)
#[export] Instance pipe_handler_spec : Handler_spec pipe_state pipe_label pipe_init key responses.
Proof.
  split.
  - intros st H. apply inv_keyed, (pipe_reachable_inv _ H).
  - intros st H. rewrite (inv_close _ (pipe_reachable_inv _ H)). destruct (producer_done st); lia.
Qed.

(** ** What the client receives *)

(** Until the write end is closed, the bodies sent are a prefix of the tokens
    of the bytes written. *)
Lemma pipe_sent_prefix st :
  reachable pipe_init st → wclosed st = false → sent st `prefix_of` (spec (written st)).1.
Proof.
  intros Hr Hwc. destruct (pipe_reachable_inv _ Hr) as [_ _ _ Hsc (lost&Hw&Hl)].
  assert (lost = []) as -> by (destruct lost; [done|by destruct Hl; congruence]).
  rewrite app_nil_r in Hw. rewrite Hw. unfold scanned in Hsc.
  destruct (live st).
  - destruct Hsc as (_&_&Hspec). rewrite Hspec.
    destruct (spec _) as [ts err]. simpl. rewrite <- (assoc_L (++)). by eexists.
  - destruct Hsc as [(_&Hspec)|(_&?&_)]; [|congruence]. rewrite Hspec. simpl. by eexists.
Qed.

(** Closing the write end can only cut the stream: the bodies are still a
    prefix of the tokens of the bytes consumed, themselves a prefix of the
    bytes written. *)
Lemma pipe_sent_consumed st :
  reachable pipe_init st →
  sent st `prefix_of` (spec (consumed st)).1 ∧ consumed st `prefix_of` written st.
Proof.
  intros Hr. destruct (pipe_reachable_inv _ Hr) as [_ _ _ Hsc (lost&Hw&_)].
  split; [|rewrite Hw; by eexists]. unfold scanned in Hsc. destruct (live st).
  - destruct Hsc as (_&_&Hspec). specialize (Hspec []). rewrite !app_nil_r in Hspec.
    rewrite Hspec. destruct (spec (buf st)) as [ts err]. simpl. rewrite <- (assoc_L (++)). by eexists.
  - destruct Hsc as [(_&Hspec)|(_&_&_&Hspec)].
    + specialize (Hspec []). rewrite app_nil_r in Hspec. rewrite Hspec. simpl. by eexists.
    + rewrite Hspec. simpl. by eexists.
Qed.

(** ** Delivery *)

Definition scanner_label (l : pipe_label) : bool :=
  match l with SRead _ | SSend => true | _ => false end.

(** Reached by the scanner goroutine alone. *)
Definition scanner_reach (st st' : pipe_state) : Prop :=
  ∃ ls, Forall (λ l, scanner_label l = true) ls ∧ mstar st ls st'.

Lemma scanner_reach_trans st1 st2 st3 :
  scanner_reach st1 st2 → scanner_reach st2 st3 → scanner_reach st1 st3.
Proof.
  intros (l1&H1&R1) (l2&H2&R2). exists (l1 ++ l2). split; [by apply Forall_app|].
  by eapply mstar_app.
Qed.

Lemma scanner_reach_one l st st' :
  scanner_label l = true → mstep l st = Some st' → scanner_reach st st'.
Proof. intros Hl Hs. exists [l]. split; [by constructor|]. by apply mstar_one. Qed.

Lemma scanner_reach_reachable st st' : scanner_reach st st' → reachable st st'.
Proof. intros (ls&_&H). by exists ls. Qed.

(** The queue can be sent out. *)
Lemma flush_queue st :
  ∃ st', scanner_reach st st' ∧ queue st' = [] ∧ pending st' = pending st ∧
    wclosed st' = wclosed st ∧ live st' = live st ∧ written st' = written st.
Proof.
  destruct st as [p w i d b q l e rs wr c]. simpl. revert rs.
  induction q as [|t q IH]; intros rs.
  - eexists. split; [exists []; split; [constructor|constructor]|done].
  - destruct (IH (rs ++ [body_message key (string_of t)])) as (st'&Hr&H).
    exists st'. split; [|done]. eapply scanner_reach_trans; [|exact Hr].
    by apply (scanner_reach_one SSend).
Qed.

(** A stream of frames that fit never fills the buffer. *)
Lemma room_to_read st ms :
  pipe_inv st → wclosed st = false → written st = concat ((λ m, m ++ sep) <$> ms) →
  Forall (λ m, frame_ok sep m ∧ length m + length sep ≤ max) ms →
  live st = true ∧ length (buf st) < max.
Proof.
  intros [_ _ _ Hsc (lost&Hw&Hl)] Hwc Hms Hok.
  assert (lost = []) as -> by (destruct lost; [done|by destruct Hl; congruence]).
  rewrite app_nil_r in Hw.
  assert (spec (written st) = (post <$> ms, None)) as Hspec.
  { rewrite Hms. unfold spec. rewrite <- (app_nil_r (concat _)), sep_spec_frames by done.
    rewrite sep_spec_end; [|rewrite take_nil; by apply sep_not_empty|done].
    rewrite (proj2 (Nat.leb_gt _ _)) by (simpl; lia). simpl. by rewrite app_nil_r. }
  rewrite Hw in Hspec. unfold scanned in Hsc. destruct (live st).
  - split; [done|]. destruct Hsc as (Hlb&Hn&Hsp). rewrite Hsp in Hspec.
    destruct (decide (length (buf st) < max)) as [|Hge]; [done|exfalso].
    unfold spec in Hspec. rewrite sep_spec_end in Hspec;
      [|rewrite take_app_le, take_ge by lia; done|done].
    rewrite (proj2 (Nat.leb_le _ _)) in Hspec by (rewrite length_app; lia). done.
  - destruct Hsc as [(_&Hsp)|(_&?&_)]; [|congruence]. by rewrite Hsp in Hspec.
Qed.

Lemma drain_pipe n st ms :
  length (default [] (pending st)) ≤ n →
  pipe_inv st → wclosed st = false → written st = concat ((λ m, m ++ sep) <$> ms) →
  Forall (λ m, frame_ok sep m ∧ length m + length sep ≤ max) ms →
  ∃ st', scanner_reach st st' ∧ pipe_inv st' ∧ queue st' = [] ∧ pending st' = None ∧
    wclosed st' = false ∧ written st' = written st.
Proof.
  revert st. induction n as [n IH] using lt_wf_ind. intros st Hn HI Hwc Hms Hok.
  destruct (flush_queue st) as (st1&Hr1&Hq1&Hp1&Hw1&Hl1&Hwr1).
  assert (pipe_inv st1) as HI1.
  { destruct Hr1 as (ls&_&Hr1). eapply mstar_invariant; [apply pipe_inv_step|done|done]. }
  rewrite <- Hwr1 in Hms. rewrite <- Hw1 in Hwc.
  destruct (pending st1) as [d|] eqn:Hp.
  2:{ exists st1. naive_solver. }
  destruct (room_to_read st1 ms) as [Hlive Hroom]; [done..|].
  set (k := Nat.min (S (length d)) (max - length (buf st1))).
  assert (mstep (SRead (length d)) st1 = Some (scanner_read (take k d) (drop k d) st1)) as Hs.
  { unfold mstep. simpl. rewrite Hlive, Hq1, Hp. by rewrite (proj2 (Nat.leb_gt _ _)). }
  set (st2 := scanner_read (take k d) (drop k d) st1) in *.
  pose proof (pipe_inv_step _ _ _ HI1 Hs) as HI2.
  assert (pending st2 = (if bool_decide (drop k d = []) then None else Some (drop k d)) ∧
          wclosed st2 = wclosed st1 ∧ written st2 = written st1 ∧ length (queue st2) ≤ length (queue st2))
    as (Hp2&Hw2&Hwr2&_).
  { unfold st2, scanner_read. destruct (drain_all _ _ _) as [[ts b] err]. done. }
  destruct (decide (drop k d = [])) as [Hdk|Hdk].
  - (* the write is over: what is left is to send the tokens *)
    destruct (flush_queue st2) as (st3&Hr3&Hq3&Hp3&Hw3&Hl3&Hwr3).
    exists st3. split_and!.
    + eapply scanner_reach_trans; [exact Hr1|]. eapply scanner_reach_trans; [|exact Hr3].
      exact (scanner_reach_one (SRead (length d)) _ _ eq_refl Hs).
    + destruct Hr3 as (ls&_&Hr3). eapply mstar_invariant; [apply pipe_inv_step|done|done].
    + done.
    + rewrite Hp3, Hp2. by rewrite bool_decide_eq_true_2.
    + congruence.
    + congruence.
  - rewrite bool_decide_eq_false_2 in Hp2 by done.
    destruct (IH (length (drop k d))) with (st := st2) as (st3&Hr3&HI3&Hq3&Hp3&Hw3&Hwr3).
    + rewrite length_drop. rewrite <- Hp1 in Hn. simpl in Hn.
      assert (0 < k) by (unfold k; lia). destruct d; [by rewrite drop_nil in Hdk|].
      simpl in *. lia.
    + by rewrite Hp2.
    + done.
    + congruence.
    + congruence.
    + done.
    + exists st3. split_and!; [|done..|congruence].
      eapply scanner_reach_trans; [exact Hr1|]. eapply scanner_reach_trans; [|exact Hr3].
      exact (scanner_reach_one (SRead (length d)) _ _ eq_refl Hs).
Qed.

(** Everything written is delivered by the scanner goroutine alone, one body
    per frame and in order. *)
Lemma pipe_delivers st ms :
  border_free sep → length sep ≤ max →
  reachable pipe_init st → wclosed st = false →
  written st = concat ((λ m, m ++ sep) <$> ms) →
  Forall (λ m, frame_ok sep m ∧ length m + length sep ≤ max) ms →
  ∃ st', scanner_reach st st' ∧ pending st' = None ∧ sent st' = post <$> ms.
Proof.
  intros Hb Hsm Hr Hwc Hms Hok.
  destruct (drain_pipe (length (default [] (pending st))) st ms)
    as (st'&Hr'&HI&Hq&Hp&Hwc'&Hwr); [done|by apply pipe_reachable_inv|done..|].
  exists st'. split_and!; [done|done|]. rewrite <- Hwr in Hms.
  destruct (room_to_read st' ms) as [Hlive Hroom]; [done..|].
  destruct HI as [_ _ _ Hsc (lost&Hw&Hl)].
  assert (lost = []) as -> by (destruct lost; [done|by destruct Hl; congruence]).
  rewrite Hp in Hw. simpl in Hw. rewrite app_nil_r in Hw.
  unfold scanned in Hsc. rewrite Hlive in Hsc. destruct Hsc as (_&Hn&Hsp).
  specialize (Hsp sep). rewrite Hq, app_nil_r, <- Hw, Hms in Hsp.
  unfold spec in Hsp. rewrite sep_spec_frames, sep_spec_one in Hsp by done.
  rewrite <- (app_nil_l sep) in Hsp. rewrite sep_spec_one in Hsp by (done || by apply sep_not_empty).
  rewrite (proj2 (Nat.leb_le _ _)) in Hsp by (simpl; lia).
  destruct (_ <=? max); [|done].
  injection Hsp as Hsp. by apply app_inj_2 in Hsp as [<- _].
Qed.

(** ** An over-long frame *)

(** Once the scan has ended with an error the write in progress never
    returns: only closing the write end frees the producer. *)
Lemma stopped_scan_stalls st ls st' d :
  mstar st ls st' → Forall (λ l, l ≠ CloserClose) ls →
  live st = false → wclosed st = false → pending st = Some d →
  live st' = false ∧ wclosed st' = false ∧ pending st' = Some d ∧
  producer_done st' = producer_done st.
Proof.
  induction 1 as [|st l st1 ls st2 Hs _ IH]; intros Hls Hl Hw Hp; [done|].
  apply Forall_cons in Hls as [Hlab Hls].
  assert (live st1 = false ∧ wclosed st1 = false ∧ pending st1 = Some d ∧
          producer_done st1 = producer_done st) as (?&?&?&<-).
  { destruct l as [data| | |n| | | |]; unfold mstep in Hs; simpl in Hs;
      rewrite ?Hl, ?Hw, ?Hp in Hs; try done.
    - by destruct (producer_done st).
    - by destruct (producer_done st).
    - destruct (queue st); [done|]. by injection Hs as <-.
    - by injection Hs as <-. }
  by apply IH.
Qed.
(** A write with no separator in its first [max] bytes and more to come gets
    there. *)
Lemma overlong_stops m :
  find_index sep (take max m) = None → max < length m →
  ∃ st, reachable pipe_init st ∧ live st = false ∧ scan_err st = Some ErrTooLong ∧
    wclosed st = false ∧ pending st = Some (drop max m) ∧ producer_done st = false ∧
    responses st = [].
Proof.
  intros Hn Hl.
  exists (mkPipe (Some (drop max m)) false false false [] [] false (Some ErrTooLong) []
    m (take max m)).
  split_and!; try done. exists [PWrite m; SRead max; SRead 0]. apply mrun_mstar. simpl.
  unfold mstep; simpl. rewrite (proj2 (Nat.leb_gt _ _)) by (simpl; lia).
  rewrite Nat.sub_0_r, Nat.min_r by lia. unfold scanner_read. simpl.
  rewrite (drain_all_ext _ _ Hsplit), drain_none by done. simpl.
  rewrite bool_decide_eq_false_2
    by (intros E; apply (f_equal length) in E; rewrite length_drop in E; simpl in E; lia).
  rewrite (proj2 (Nat.leb_le _ _)) by (rewrite length_take; lia). reflexivity.
Qed.
End pipe.
