(* ===== verification/Logs.v ===== *)
(** * [logs/logs.go]

    The logs handler.  [Handle_setup] is everything up to the start of its
    goroutines; [customSplit] the split function of its scanner; the goroutines
    are the machine of [PipeStream] with that split function, the writers of
    [LogWrapper] producing what goes into the pipe. *)

From Stdlib Require Import ZArith.
From S2P Require Import Prelude GoStd Values Jwt Config Auth Handshake DockerClient.
From S2P Require Import Wire Bufio LogWrapper PipeStream.

(** ** Options of the stream *)

Record LogsOptions := mkLogsOptions {
  Container_ : string;
  Follow : bool;
  Stdout : bool;
  Stderr : bool;
  Timestamps : bool;
  Tail : string;
  OutputStream : stream;
  ErrorStream : option stream;
  RawTerminal : bool
}.

(** What the claims ask for: the container, whether to follow, the tail. *)
Definition logs_claims (t : Token) : outcome (string * bool * string) :=
  logs ← assert (as_map (get (Claims t) "logs"));
  container ← assert (as_string (get logs "Container"));
  let follow := default true (as_bool (get logs "Follow")) in
  let tail := match as_int (get logs "Lines") with Some n => Itoa n | None => "100" end in
  Val (container, follow, tail).

Definition logs_options (container : string) (follow : bool) (tail : string) (tty : bool) : LogsOptions :=
  if tty then mkLogsOptions container follow true true true tail stdbothWriter None true
  else mkLogsOptions container follow true true true tail stdoutWriter (Some stderrorWriter) false.

Section setup.
Context {K : Type} `{!JWT K} `{!URLParser} (client : result docker_client).
Implicit Types c : config K.

(** [Handle] up to the two [go] statements: the options of the stream, or the
    early return. *)
Definition Handle_setup c (initialMessage : string) : outcome (early + LogsOptions) :=
  r ← request_token c initialMessage;
  match r with
  | inl e => Val (inl e)
  | inr token =>
      opts ← logs_claims token;
      let '(container, follow, tail) := opts in
      match client with
      | Err _ => Val (inl NoClient)
      | Ok client =>
          match InspectContainer client container with
          | Err _ => Val (inl NoContainer)
          | Ok containerRef =>
              match ConfigTty containerRef with
              | None => Panics NilDereference
              | Some tty => Val (inr (logs_options container follow tail tty))
              end
          end
      end
  end.
End setup.

(** ** The split function *)

Definition customSplit (data : bytes) (atEOF : bool) : nat * option bytes * option error :=
  if atEOF && (length data =? 0) then (0, None, None)
  else
    match find_index messageSeparator data with
    | Some i => (i + messageSeparatorLength, Some (take i data), None)
    | None =>
        if atEOF then (length data, Some data, None) else (0, None, None)
    end.

Lemma customSplit_sep data atEOF :
  customSplit data atEOF = sep_split messageSeparator id data atEOF.
Proof.
  unfold customSplit, sep_split. destruct data as [|x data]; [by destruct atEOF|].
  rewrite bool_decide_eq_false_2 by done. done.
Qed.

Lemma messageSeparator_length : 0 < length messageSeparator.
Proof. simpl. lia. Qed.

(** ** The stream *)

(** The client library writes pieces of the two streams; in raw mode
    everything is on the first. *)
Inductive source := FromStdout | FromStderr.

Definition stream_of (o : LogsOptions) (s : source) : stream :=
  match s with
  | FromStdout => OutputStream o
  | FromStderr => default (OutputStream o) (ErrorStream o)
  end.

(** An accepted [Write] of a pipe takes everything. *)
Definition pipe_Write (b : bytes) : Z * option error := (Z.of_nat (length b), None).

(** The writes that reach the pipe when the pieces are written one after the
    other, over the memory the prefixes live in. *)
Fixpoint write_pieces (spare : nat → nat) (prefixes : stream → slice) (o : LogsOptions)
    (h : heap) (pieces : list (source * bytes)) : list bytes :=
  match pieces with
  | [] => []
  | (s, m) :: pieces =>
      let '(h, out, _) := stream_Write spare pipe_Write prefixes h (stream_of o s) m in
      out :: write_pieces spare prefixes o h pieces
  end.

(** The memory in which each prefix has its bytes. *)
Definition prefixes_ok (prefixes : stream → slice) (h : heap) : Prop :=
  (∀ w, valid h (prefixes w) ∧ contents h (prefixes w) = prefix_bytes w) ∧
  (∀ w w', w ≠ w' → array (prefixes w) ≠ array (prefixes w')).

(** What the client is to receive for a piece. *)
Definition body_of (o : LogsOptions) (p : source * bytes) : bytes :=
  prefix_bytes (stream_of o p.1) ++ p.2.

Lemma stream_Write_frame spare prefixes h w m :
  prefixes_ok prefixes h →
  ∃ h', stream_Write spare pipe_Write prefixes h w m =
    (h', (prefix_bytes w ++ m) ++ messageSeparator,
     (Z.of_nat (length ((prefix_bytes w ++ m) ++ messageSeparator)) - Z.of_nat messageOffset, None)%Z) ∧
    prefixes_ok prefixes h'.
Proof.
  intros [Hp Hd]. unfold stream_Write, wrapMessage.
  destruct (wrap_message spare h (prefixes w) m) as [h1 s1] eqn:E1.
  destruct (wrap_separator spare h1 s1) as [h2 s2] eqn:E2.
  destruct (Hp w) as [Hv Hc].
  destruct (append_spec _ _ _ _ _ _ Hv E1) as (Hv1&Hc1&Ho1&Hf1).
  destruct (append_spec _ _ _ _ _ _ Hv1 E2) as (Hv2&Hc2&Ho2&_).
  rewrite Hc2, Hc1, Hc. eexists. split; [done|]. split; [|done].
  intros w'. destruct (Hp w') as [Hv' Hc'].
  assert (array (prefixes w') ≠ array (prefixes w) ∨ len (prefixes w') ≤ len (prefixes w)) as Hor
    by (destruct (decide (w' = w)) as [->|]; [by right|left; by apply Hd]).
  destruct (Ho1 _ Hv' Hor) as [Hv1' Hc1'].
  destruct (Ho2 _ Hv1') as [Hv2' Hc2']; [|split; [done|congruence]].
  destruct (decide (array (prefixes w') = array s1)) as [E|]; [|by left].
  right. destruct (decide (array s1 = array (prefixes w))) as [E'|Hne].
  - assert (w' = w) as -> by (destruct (decide (w' = w)); [done|by destruct (Hd w' w); congruence]).
    rewrite <- (length_contents _ _ Hv1), Hc1, length_app, (length_contents _ _ Hv). lia.
  - destruct (Hf1 Hne _ Hv'). done.
Qed.

Lemma write_pieces_frames spare prefixes o h pieces :
  prefixes_ok prefixes h →
  write_pieces spare prefixes o h pieces = (λ m, m ++ messageSeparator) <$> (body_of o <$> pieces).
Proof.
  revert h. induction pieces as [|[s m] pieces IH]; intros h Hp; [done|].
  rewrite !fmap_cons. cbn [write_pieces].
  destruct (stream_Write_frame spare prefixes h (stream_of o s) m Hp) as (h'&->&Hp').
  by rewrite (IH _ Hp').
Qed.

(** The messages of a session. *)
#[export] Instance logs_machine (key : string) : Machine pipe_state pipe_label :=
  pipe_machine MaxScanTokenSize customSplit key.

(** A body that the scanner can cut out of the stream. *)
Definition fits (b : bytes) : Prop :=
  find_index messageSeparator b = None ∧ length b + messageSeparatorLength ≤ MaxScanTokenSize.

Lemma fits_frame b :
  fits b → frame_ok messageSeparator b ∧ length b + length messageSeparator ≤ MaxScanTokenSize.
Proof.
  intros [Hn Hl]. split; [|done].
  apply frame_ok_iff; [apply messageSeparator_border_free|apply messageSeparator_length|done].
Qed.

(** The claims either name a container or the assertions panic. *)
Lemma logs_claims_cases t :
  from_json (get (Claims t) "logs") →
  (∃ logs id, get (Claims t) "logs" = VMap logs ∧ get logs "Container" = VString id ∧
     logs_claims t = Val (id, default true (as_bool (get logs "Follow")), "100")) ∨
  (logs_claims t = Panics TypeAssertion ∧
     ∀ logs id, get (Claims t) "logs" = VMap logs → get logs "Container" ≠ VString id).
Proof.
  intros Hj. unfold logs_claims.
  destruct (nested_claim (Claims t) "logs" "Container" (λ logs container,
    Val (container, default true (as_bool (get logs "Follow")),
         match as_int (get logs "Lines") with Some n => Itoa n | None => "100" end)))
    as [(logs&id&Hl&Hi&->)|[-> Hno]]; [left|by right].
  exists logs, id. split_and!; [done|done|]. rewrite Hl in Hj.
  by rewrite (from_json_no_int _ (from_json_get _ "Lines" Hj)).
Qed.

(** ** Properties *)

(** C23: whatever the sizes of the reads, the scanner of the logs handler cuts
    the stream at the separators exactly as the specification does: frames
    longer than the limit end the scan with an error, the bytes after the last
    separator are a last frame. *)
Theorem customSplit_scan chunks :
  reads_fit MaxScanTokenSize customSplit [] chunks = true →
  scan MaxScanTokenSize customSplit [] chunks
  = sep_scan_spec messageSeparator id MaxScanTokenSize (concat chunks).
Proof.
  intros Hf. rewrite (scan_ext _ _ _ customSplit_sep).
  rewrite (reads_fit_ext _ _ _ customSplit_sep) in Hf.
  apply (scan_reference messageSeparator id messageSeparator_length MaxScanTokenSize [] chunks);
    [by apply sep_not_empty, messageSeparator_length|simpl; lia|done].
Qed.

(** C7: once the writes of some pieces of log output were made on an open
    pipe, the scanner goroutine alone brings the session to a state where every
    piece has been sent, one body each, in order, prefixed with its stream; this
    when no piece contains the separator and each fits the scanner's buffer. *)
Theorem logs_delivered spare prefixes o h key pieces st :
  prefixes_ok prefixes h →
  Forall (λ p, fits (body_of o p)) pieces →
  reachable (Machine0 := logs_machine key) pipe_init st →
  wclosed st = false →
  written st = concat (write_pieces spare prefixes o h pieces) →
  ∃ st', scanner_reach MaxScanTokenSize customSplit key st st' ∧ pending st' = None ∧
         sent st' = body_of o <$> pieces.
Proof.
  intros Hp Hf Hr Hw Hwr. rewrite (write_pieces_frames _ _ _ _ _ Hp) in Hwr.
  destruct (pipe_delivers MaxScanTokenSize customSplit key messageSeparator id customSplit_sep
    messageSeparator_length MaxScanTokenSize_pos st (body_of o <$> pieces)
    messageSeparator_border_free) as (st'&?&?&Hs).
  - rewrite MaxScanTokenSize_value. simpl. lia.
  - exact Hr.
  - done.
  - done.
  - apply Forall_fmap. eapply Forall_impl; [exact Hf|]. intros p Hp'. by apply fits_frame.
  - exists st'. split_and!; [done|done|]. by rewrite Hs, list_fmap_id.
Qed.

(** At any time the bodies sent are a prefix, in order, of the frames of
    what the scanner read, itself a prefix of what was written; every
    message carries the session's key and at most one closes the session. *)
Theorem logs_safe key st :
  reachable (Machine0 := logs_machine key) pipe_init st →
  sent st `prefix_of` (sep_scan_spec messageSeparator id MaxScanTokenSize (consumed st)).1 ∧
  consumed st `prefix_of` written st ∧
  Forall (λ m, Key m = key) (responses st) ∧
  length (filter is_close (responses st)) ≤ 1.
Proof.
  intros Hr.
  pose proof (pipe_handler_spec MaxScanTokenSize customSplit key messageSeparator id customSplit_sep
    messageSeparator_length MaxScanTokenSize_pos) as [Hk Hc].
  destruct (pipe_sent_consumed MaxScanTokenSize customSplit key messageSeparator id customSplit_sep
    messageSeparator_length MaxScanTokenSize_pos st Hr).
  split_and!; [done|done|by apply Hk|by apply Hc].
Qed.

(** A piece of output longer than the scanner's limit ends the session
    without an end: the scan stops with an error that is only logged, nobody
    reads the pipe any more, and the handler stays in its write, having sent
    nothing, until the client goes away. *)
Theorem overlong_piece_stalls key w m :
  find_index messageSeparator (take MaxScanTokenSize (prefix_bytes w ++ m ++ messageSeparator)) = None →
  MaxScanTokenSize < length (prefix_bytes w ++ m ++ messageSeparator) →
  ∃ st, reachable (Machine0 := logs_machine key) pipe_init st ∧
    scan_err st = Some ErrTooLong ∧ responses st = [] ∧
    ∀ ls st', mstar (Machine0 := logs_machine key) st ls st' → CloserClose ∉ ls →
      producer_done st' = false ∧ pending st' = pending st ∧ pending st ≠ None.
Proof.
  intros Hn Hl.
  destruct (overlong_stops MaxScanTokenSize customSplit key messageSeparator id customSplit_sep
    messageSeparator_length MaxScanTokenSize_pos _ Hn Hl) as (st&Hr&Hlive&He&Hw&Hp&Hd&Hs).
  exists st. split_and!; [done|done|done|]. intros ls st' Hrun Hls.
  assert (Forall (λ l, l ≠ CloserClose) ls) as Hls' by (apply Forall_forall; intros l Hin ->; done).
  destruct (stopped_scan_stalls _ _ _ _ _ _ _ Hrun Hls' Hlive Hw Hp) as (_&_&Hp'&Hd').
  rewrite Hp, Hp', Hd'. split_and!; [done|done|discriminate].
Qed.


(** ** Witnesses *)

Lemma customSplit_scan_witness :
  scan MaxScanTokenSize customSplit [] [bytes_of "01 a[RAN"; bytes_of "LOGS]02 b"]
  = sep_scan_spec messageSeparator id MaxScanTokenSize (bytes_of "01 a[RANLOGS]02 b").
Proof. apply (customSplit_scan [bytes_of "01 a[RAN"; bytes_of "LOGS]02 b"]). vm_compute. reflexivity. Defined.

Definition demo_options : LogsOptions := logs_options "c1" true "100" false.

Definition demo_prefixes (w : stream) : slice :=
  match w with stdoutWriter => mkSlice 0 3 8 | stderrorWriter => mkSlice 1 3 8 | stdbothWriter => mkSlice 2 3 8 end.

Definition demo_heap : heap :=
  {[ 0 := stdoutPrefix ++ replicate 5 Byte.x00; 1 := stderrPrefix ++ replicate 5 Byte.x00;
     2 := bothPrefix ++ replicate 5 Byte.x00 ]}.

Lemma demo_prefixes_ok : prefixes_ok demo_prefixes demo_heap.
Proof.
  split; [|by intros [| |] [| |]].
  intros [| |]; (split; [split; [simpl; lia|eexists; split; reflexivity]|vm_compute; reflexivity]).
Qed.

Definition demo_pieces : list (source * bytes) :=
  [(FromStdout, bytes_of "hello"); (FromStderr, bytes_of "oops")].

(** Both pieces were written; the scanner has read only part of the first. *)
Definition demo_session : pipe_state :=
  mkPipe (Some (bytes_of "02 oops[RANLOGS]")) false false false [] [bytes_of "01 hello"] true None []
    (bytes_of "01 hello[RANLOGS]02 oops[RANLOGS]") (bytes_of "01 hello[RANLOGS]").

Lemma fits_small b : find_index messageSeparator b = None → length b < 100 → fits b.
Proof. intros Hn Hl. split; [done|]. rewrite MaxScanTokenSize_value. change messageSeparatorLength with 9. lia. Qed.

Lemma demo_session_reachable : reachable (Machine0 := logs_machine "k") pipe_init demo_session.
Proof.
  exists [PWrite (bytes_of "01 hello[RANLOGS]"); SRead 4095; PWrite (bytes_of "02 oops[RANLOGS]")].
  apply mrun_mstar. vm_compute. reflexivity.
Qed.

Lemma logs_delivered_witness :
  ∃ st', scanner_reach MaxScanTokenSize customSplit "k" demo_session st' ∧ pending st' = None ∧
         sent st' = [bytes_of "01 hello"; bytes_of "02 oops"].
Proof.
  apply (logs_delivered id demo_prefixes demo_options demo_heap "k" demo_pieces demo_session).
  - apply demo_prefixes_ok.
  - repeat constructor; (apply fits_small; [vm_compute; reflexivity|simpl; lia]).
  - apply demo_session_reachable.
  - reflexivity.
  - vm_compute. reflexivity.
Defined.

Lemma logs_safe_witness :
  sent demo_session `prefix_of`
    (sep_scan_spec messageSeparator id MaxScanTokenSize (consumed demo_session)).1 ∧
  consumed demo_session `prefix_of` written demo_session ∧
  Forall (λ m, Key m = "k") (responses demo_session) ∧
  length (filter is_close (responses demo_session)) ≤ 1.
Proof. apply (logs_safe "k" demo_session). apply demo_session_reachable. Defined.

(** Bytes without an opening bracket hold no separator. *)
Lemma no_bracket b : Byte.x5b ∉ b → find_index messageSeparator b = None.
Proof.
  intros H. apply find_index_None. intros j [r Hr]. apply H.
  rewrite <- (take_drop j b), Hr. change messageSeparator with (Byte.x5b :: bytes_of "RANLOGS]").
  set_solver.
Qed.

Definition long_piece : bytes := replicate (N.to_nat 65536) Byte.x61.

Lemma overlong_piece_stalls_witness :
  ∃ st, reachable (Machine0 := logs_machine "k") pipe_init st ∧
    scan_err st = Some ErrTooLong ∧ responses st = [] ∧
    ∀ ls st', mstar (Machine0 := logs_machine "k") st ls st' → CloserClose ∉ ls →
      producer_done st' = false ∧ pending st' = pending st ∧ pending st ≠ None.
Proof.
  apply (overlong_piece_stalls "k" stdoutWriter long_piece).
  - rewrite (assoc_L (++)). unfold long_piece.
    rewrite take_app_le
      by (rewrite length_app, length_replicate, MaxScanTokenSize_value; lia).
    apply no_bracket. intros Hin. apply elem_of_take in Hin as (i&Hi&_).
    apply list_elem_of_lookup_2 in Hi. apply elem_of_app in Hi as [Hi|Hi].
    + simpl in Hi. by repeat (apply elem_of_cons in Hi as [Hi|Hi]; [done|]); apply elem_of_nil in Hi.
    + by apply elem_of_replicate in Hi as [? _].
  - pose proof messageSeparator_length. unfold long_piece.
    rewrite !length_app, length_replicate, MaxScanTokenSize_value. lia.
Defined.

#[local] Existing Instance handshake_jwt.
#[local] Existing Instance demo_url.

Definition demo_client : docker_client :=
  mkDockerClient
    (λ id, if String.eqb id "c1" then Ok (mkContainer "c1" (Some true)) else Err (NoSuchContainer id))
    (λ _, Err (OtherError "")).

