(* ===== verification/SocketPump.v ===== *)
(** * Relaying a socket: [dockersocketproxy/proxy.go] and [console/console.go]

    Both handlers dial a unix socket and relay it: one goroutine decodes the
    incoming messages and writes them to the connection, the handler itself
    reads the connection and sends what it read, base64-encoded.  The two
    sources are the same but for where they dial; this file is their set-up and
    the machine of the two goroutines.

    A label is a step of a goroutine together with what the outside world
    answers to it: the message received, the bytes and error of a read, how
    much of a write was accepted.  A locally closed connection answers reads
    with an error.

    The write to the connection is taken together with the receive of the message
    it comes from: a goroutine held in [conn.Write] by a peer that does not read
    is not a state of its own, it is the goroutine that has not yet received.
    What the handler has received, written and sent in a state is therefore what
    it is in some state of the program between two writes, which is what the
    properties here speak of; that a peer takes what is written is part of the
    label. *)

From Stdlib Require Import ZArith.
From S2P Require Import Prelude GoStd Base64 Values Jwt Config Auth Handshake Wire.

(** ** Set-up *)

Section setup.
Context {K : Type} `{!JWT K} `{!URLParser} (Dial : string → option error).
Implicit Types c : config K.

Definition docker_socket : string := "/var/run/docker.sock".

(** [Handler.Handle] of dockersocketproxy, up to the relay: the socket it is
    connected to, or the early return. *)
Definition proxy_setup c (initialMessage : string) : outcome (early + string) :=
  r ← request_token c initialMessage;
  match r with
  | inl e => Val (inl e)
  | inr _ =>
      match Dial docker_socket with
      | Some _ => Val (inl NoConn)
      | None => Val (inr docker_socket)
      end
  end.

(** [fmt.Sprintf(socketLocFmt, container)]. *)
Definition socketLoc (container : string) : string :=
  "/var/lib/rancher/vm/" +:+ container +:+ "/vnc".

(** [Handler.Handle] of console, up to the relay. *)
Definition console_setup c (initialMessage : string) : outcome (early + string) :=
  r ← request_token c initialMessage;
  match r with
  | inl e => Val (inl e)
  | inr token =>
      console ← assert (as_map (get (Claims token) "console"));
      container ← assert (as_string (get console "container"));
      match Dial (socketLoc container) with
      | Some _ => Val (inl NoConn)
      | None => Val (inr (socketLoc container))
      end
  end.
End setup.

(** ** The relay *)

(** Where the inbound goroutine is: in its loop, or in its deferred function
    before each of the two statements, or gone. *)
Inductive inbound_phase := Receiving | Flagging | Closing | Gone.

#[export] Instance inbound_phase_eq_decision : EqDecision inbound_phase.
Proof. solve_decision. Defined.

Inductive log_entry := DecodeError | WriteError | ReadError (e : error).

Record pump := mkPump {
  inbound : inbound_phase;
  closed : bool;                 (* the variable [closed] *)
  conn_closed : bool;            (* [conn.Close] was called *)
  finished : bool;               (* the handler has returned *)
  responses : list Message;
  logged : list log_entry;
  received : list string;        (* messages taken from the incoming channel *)
  to_conn : bytes;               (* bytes written to the connection *)
  from_conn : list bytes         (* the non-empty error-free reads *)
}.

Definition pump_init : pump := mkPump Receiving false false false [] [] [] [] [].

Inductive pump_label :=
| InMessage (msg : string) (accepted : option nat)
    (* a message; [Some n]: its write fails after [n] bytes *)
| InClosed                       (* the incoming channel is closed *)
| InFlag                         (* [closed = true] *)
| InClose                        (* [conn.Close()] *)
| MainRead (data : bytes) (err : option error).

Definition buffer_size : nat := 1024.

Section pump.
Context (key : string).

(** One turn of the inbound loop. *)
Definition inbound_message (msg : string) (accepted : option nat) (st : pump) : pump :=
  let received := received st ++ [msg] in
  match DecodeString msg with
  | Err _ =>
      mkPump Flagging (closed st) (conn_closed st) (finished st) (responses st)
        (logged st ++ [DecodeError]) received (to_conn st) (from_conn st)
  | Ok data =>
      match accepted with
      | None =>
          mkPump Receiving (closed st) (conn_closed st) (finished st) (responses st)
            (logged st) received (to_conn st ++ data) (from_conn st)
      | Some n =>
          mkPump Flagging (closed st) (conn_closed st) (finished st) (responses st)
            (logged st ++ [WriteError]) received (to_conn st ++ take n data) (from_conn st)
      end
  end.

Definition inbound_to (p : inbound_phase) (cl cc : bool) (st : pump) : pump :=
  mkPump p cl cc (finished st) (responses st) (logged st) (received st) (to_conn st) (from_conn st).

(** One turn of the reading loop; the return runs the deferred signal. *)
Definition main_read (data : bytes) (err : option error) (st : pump) : pump :=
  let n := length data in
  match err with
  | None =>
      if 0 <? n then
        mkPump (inbound st) (closed st) (conn_closed st) (finished st)
          (responses st ++ [body_message key (EncodeToString data)]) (logged st) (received st)
          (to_conn st) (from_conn st ++ [data])
      else st
  | Some e =>
      let log := if negb (bool_decide (e = EOF)) && negb (closed st) then [ReadError e] else [] in
      mkPump (inbound st) (closed st) (conn_closed st) true
        (responses st ++ [SignalHandlerClosed key]) (logged st ++ log) (received st)
        (to_conn st) (from_conn st)
  end.

#[export] Instance pump_machine : Machine pump pump_label := λ l st,
  match l, inbound st with
  | InMessage msg accepted, Receiving => Some (inbound_message msg accepted st)
  | InClosed, Receiving => Some (inbound_to Flagging (closed st) (conn_closed st) st)
  | InFlag, Flagging => Some (inbound_to Closing true (conn_closed st) st)
  | InClose, Closing => Some (inbound_to Gone (closed st) true st)
  | MainRead data err, _ =>
      if finished st || (buffer_size <? length data) || (conn_closed st && bool_decide (err = None))
      then None else Some (main_read data err st)
  | _, _ => None
  end.

(** ** Invariant *)

(** The bytes of the messages, as long as each decodes. *)
Fixpoint decoded (l : list string) : option bytes :=
  match l with
  | [] => Some []
  | m :: l => match DecodeString m with
              | Ok d => app d <$> decoded l
              | Err _ => None
              end
  end.

Lemma decoded_snoc l m d :
  decoded l = Some d →
  decoded (l ++ [m]) = match DecodeString m with Ok e => Some (d ++ e) | Err _ => None end.
Proof.
  revert d. induction l as [|x l IH]; intros d H; simpl in *.
  - injection H as <-. destruct (DecodeString m); simpl; [by rewrite app_nil_r|done].
  - destruct (DecodeString x); [|done]. destruct (decoded l) as [d'|]; [|done].
    injection H as <-. rewrite (IH d') by done. destruct (DecodeString m); simpl; [|done].
    by rewrite (assoc_L (++)).
Qed.

Record pump_inv (st : pump) : Prop := {
  pump_out : responses st =
    (body_message key ∘ EncodeToString <$> from_conn st) ++
    (if finished st then [SignalHandlerClosed key] else []);
  pump_in : if bool_decide (inbound st = Receiving) then decoded (received st) = Some (to_conn st)
            else ∃ l, l `prefix_of` received st ∧ length (received st) ≤ S (length l) ∧
                      ∃ d r, decoded l = Some d ∧ to_conn st = d ++ r ∧
                             (r = [] ∨ ∃ m e, received st = l ++ [m] ∧ DecodeString m = Ok e ∧ r `prefix_of` e);
  pump_flags : closed st = bool_decide (inbound st = Closing ∨ inbound st = Gone) ∧
               conn_closed st = bool_decide (inbound st = Gone);
  pump_sizes : Forall (λ c, 0 < length c ≤ buffer_size) (from_conn st)
}.

Lemma pump_inv_init : pump_inv pump_init.
Proof. by split. Qed.

Lemma pump_inv_message msg accepted st :
  pump_inv st → inbound st = Receiving → pump_inv (inbound_message msg accepted st).
Proof.
  intros [Ho Hi [Hf1 Hf2] Hs] Hr. rewrite Hr in Hi, Hf1, Hf2.
  rewrite bool_decide_eq_true_2 in Hi by done.
  pose proof (decoded_snoc _ msg _ Hi) as Hd.
  unfold inbound_message. destruct (DecodeString msg) as [d|e] eqn:E; [destruct accepted as [n|]|].
  - split; simpl; [done| |done|done]. exists (received st). split_and!.
    + by eexists.
    + rewrite length_app. simpl. lia.
    + exists (to_conn st), (take n d). split_and!; [done|done|]. right. exists msg, d.
      split_and!; [done|done|]. apply prefix_take.
  - by split.
  - split; simpl; [done| |done|done]. exists (received st). split_and!.
    + by eexists.
    + rewrite length_app. simpl. lia.
    + exists (to_conn st), []. rewrite app_nil_r. split_and!; [done|done|by left].
Qed.

Lemma pump_inv_step l st st' : pump_inv st → mstep l st = Some st' → pump_inv st'.
Proof.
  intros HI Hs. unfold mstep, pump_machine in Hs. destruct l as [msg a| | | |data err].
  - destruct (inbound st) eqn:E; try done. injection Hs as <-. by apply pump_inv_message.
  - destruct (inbound st) eqn:E; try done. injection Hs as <-.
    destruct HI as [Ho Hi [Hf1 Hf2] Hsz]. rewrite E in *. split; simpl; [done| |done|done].
    rewrite bool_decide_eq_true_2 in Hi by done.
    exists (received st). split_and!; [done|lia|]. exists (to_conn st), [].
    rewrite app_nil_r. split_and!; [done|done|by left].
  - destruct (inbound st) eqn:E; try done. injection Hs as <-.
    destruct HI as [Ho Hi [Hf1 Hf2] Hsz]. rewrite E in *. by split.
  - destruct (inbound st) eqn:E; try done. injection Hs as <-.
    destruct HI as [Ho Hi [Hf1 Hf2] Hsz]. rewrite E in *. by split.
  - destruct (finished st) eqn:Ef; [done|]. simpl in Hs.
    destruct (Nat.ltb_spec buffer_size (length data)) as [|Hle]; [done|]. simpl in Hs.
    destruct (conn_closed st && bool_decide (err = None)) eqn:Ec; [done|]. injection Hs as <-.
    destruct HI as [Ho Hi [Hf1 Hf2] Hsz]. rewrite Ef, app_nil_r in Ho. unfold main_read.
    destruct err as [e|].
    + split; simpl; [by rewrite Ho|done|done|done].
    + destruct (Nat.ltb_spec 0 (length data)); [|by split; rewrite ?Ef, ?app_nil_r].
      split; simpl; [|done|done|].
      * rewrite Ef, Ho, fmap_app, app_nil_r. done.
      * apply Forall_app. split; [done|]. by apply Forall_singleton.
Qed.

Lemma pump_reachable_inv st : reachable pump_init st → pump_inv st.
Proof. intros H. eapply reachable_invariant; [apply pump_inv_step|exact H|apply pump_inv_init]. Qed.

Lemma pump_bodies_keyed cs :
  Forall (λ m, Key m = key) (body_message key ∘ EncodeToString <$> cs) ∧
  filter is_close (body_message key ∘ EncodeToString <$> cs) = [].
Proof. induction cs as [|c cs [IH1 IH2]]; [by repeat constructor|]. rewrite fmap_cons. split; [by constructor|done]. Qed.

#[export] Instance pump_handler_spec : Handler_spec pump pump_label pump_init key responses.
Proof.
  split; intros st H; rewrite (pump_out _ (pump_reachable_inv _ H)).
  - apply Forall_app. split; [apply pump_bodies_keyed|]. destruct (finished st); by repeat constructor.
  - rewrite filter_app, (proj2 (pump_bodies_keyed _)). destruct (finished st); simpl; lia.
Qed.
End pump.

(** ** Lemmas *)

(** What a client that decodes the bodies gets. *)
Definition client_bytes (st : pump) : list (result bytes) :=
  DecodeString ∘ MBody <$> filter (λ m, Type_ m = Body) (responses st).

Lemma bodies_decode key (cs : list bytes) :
  DecodeString ∘ MBody <$> filter (λ m, Type_ m = Body) (body_message key ∘ EncodeToString <$> cs) = Ok <$> cs.
Proof.
  induction cs as [|c cs IH]; [done|]. rewrite !fmap_cons, filter_cons_True by done.
  rewrite fmap_cons, IH. simpl. by rewrite decode_encode.
Qed.

(** The socket handlers either return early, or panic on a claim, or relay. *)
Lemma proxy_setup_relays {K} `{!JWT K} `{!URLParser} Dial (c : config K) m s :
  proxy_setup Dial c m = Val (inr s) ↔
  (∃ t, authorised c m t) ∧ s = docker_socket ∧ Dial docker_socket = None.
Proof.
  unfold proxy_setup. destruct (request_token_cases c m) as [(t&Ht&->)|(Hn&e&->)]; simpl.
  - destruct (Dial docker_socket); naive_solver.
  - naive_solver.
Qed.

(** ** Properties *)

(** The relay is faithful in both directions, whatever the interleaving:
    a client that decodes the bodies it received gets, in order, exactly the
    blocks that were read from the socket; the bytes written to the socket
    are, as long as the inbound loop runs, the decoded messages in order, and
    afterwards end inside the message at which it stopped; the session's end
    is its last message. *)
Theorem pump_relays key st :
  reachable (Machine0 := pump_machine key) pump_init st →
  client_bytes st = Ok <$> from_conn st ∧
  (inbound st = Receiving → decoded (received st) = Some (to_conn st)) ∧
  (∃ d r l, l `prefix_of` received st ∧ decoded l = Some d ∧ to_conn st = d ++ r ∧
     (r = [] ∨ ∃ m e, received st = l ++ [m] ∧ DecodeString m = Ok e ∧ r `prefix_of` e)) ∧
  (filter is_close (responses st) = if finished st then [SignalHandlerClosed key] else []) ∧
  (finished st = true → last (responses st) = Some (SignalHandlerClosed key)).
Proof.
  intros H. destruct (pump_reachable_inv _ _ H) as [Ho Hi _ _]. split_and!.
  - unfold client_bytes. rewrite Ho, filter_app, fmap_app, bodies_decode.
    destruct (finished st); simpl; by rewrite app_nil_r.
  - intros Hr. by rewrite bool_decide_eq_true_2 in Hi.
  - case_bool_decide.
    + exists (to_conn st), [], (received st). rewrite app_nil_r. split_and!; [done|done|done|by left].
    + destruct Hi as (l&?&_&d&r&?&?&?). by exists d, r, l.
  - rewrite Ho, filter_app, (proj2 (pump_bodies_keyed _ _)). by destruct (finished st).
  - intros Hf. by rewrite Ho, Hf, last_snoc.
Qed.

(** C39: when the client goes away the relay ends: wherever the inbound
    goroutine is, the goroutines alone bring the handler to its return and the
    connection to be closed, and the error of the read this causes is not
    logged. *)
Theorem pump_terminates key st :
  reachable (Machine0 := pump_machine key) pump_init st → finished st = false →
  ∃ ls st', length ls ≤ 4 ∧ Forall (λ l, ∀ m a, l ≠ InMessage m a) ls ∧
    mstar (Machine0 := pump_machine key) st ls st' ∧
    finished st' = true ∧ conn_closed st' = true ∧ inbound st' = Gone ∧ logged st' = logged st.
Proof.
  intros Hr Hf. destruct (pump_reachable_inv _ _ Hr) as [_ _ [Hfl Hcc] _].
  destruct st as [ib cl cc fin rs lg rc tc fc]; simpl in *. subst fin.
  exists (drop (match ib with Receiving => 0 | Flagging => 1 | Closing => 2 | Gone => 3 end)
    [InClosed; InFlag; InClose; MainRead [] (Some ErrClosedPipe)]).
  destruct ib; subst cl cc; simpl; (eexists; split; [lia|split; [by repeat constructor|]];
    split; [apply mrun_mstar; reflexivity|]); simpl; by rewrite app_nil_r.
Qed.

(** C38: the handlers relay only for an authorised token: the docker socket
    for any such token, the socket of a virtual machine for the container the
    token's claims name. *)
Theorem socket_handlers_gated {K} `{!JWT K} `{!URLParser} Dial (c : config K) m s :
  (proxy_setup Dial c m = Val (inr s) ↔
     (∃ t, authorised c m t) ∧ s = docker_socket ∧ Dial docker_socket = None) ∧
  (console_setup Dial c m = Val (inr s) ↔
     ∃ t console container, authorised c m t ∧ get (Claims t) "console" = VMap console ∧
       get console "container" = VString container ∧
       s = "/var/lib/rancher/vm/" +:+ container +:+ "/vnc" ∧ Dial s = None) ∧
  is_val (proxy_setup Dial c m) ∧
  (console_setup Dial c m = Panics TypeAssertion ↔
     ∃ t, authorised c m t ∧ ∀ console container, get (Claims t) "console" = VMap console →
       get console "container" ≠ VString container).
Proof.
  split; [apply proxy_setup_relays|].
  unfold console_setup, proxy_setup.
  destruct (request_token_cases c m) as [(t&Ht&E)|(Hn&e&E)]; rewrite E; simpl.
  2:{ split; [naive_solver|]. split; [by eexists|naive_solver]. }
  assert (∀ t', authorised c m t' → t' = t) as Huniq.
  { intros t' (u&Hu&Hp&_). destruct Ht as (u'&Hu'&Hp'&_). congruence. }
  split; [|split; [by destruct (Dial docker_socket); eexists|]].
  - destruct (nested_claim (Claims t) "console" "container" (λ _ container,
      match Dial (socketLoc container) with
      | Some _ => Val (inl NoConn)
      | None => Val (inr (A := early) (socketLoc container))
      end)) as [(cm&id&Hc&Hi&->)|[-> Hno]].
    + split.
      * destruct (Dial (socketLoc id)) eqn:Ed; [done|]. intros [= <-]. by exists t, cm, id.
      * intros (t'&cm'&id'&Ht'&Hc'&Hi'&->&Hd). apply Huniq in Ht' as ->.
        assert (cm' = cm) as -> by congruence. assert (id' = id) as -> by congruence.
        unfold socketLoc. by rewrite Hd.
    + split; [done|]. intros (t'&cm'&id'&Ht'&Hc'&Hi'&_). apply Huniq in Ht' as ->.
      by destruct (Hno cm' id').
  - destruct (nested_claim (Claims t) "console" "container" (λ _ container,
      match Dial (socketLoc container) with
      | Some _ => Val (inl NoConn)
      | None => Val (inr (A := early) (socketLoc container))
      end)) as [(cm&id&Hc&Hi&->)|[-> Hno]].
    + split; [by destruct (Dial (socketLoc id))|]. intros (t'&Ht'&Hno). apply Huniq in Ht' as ->.
      by destruct (Hno cm id).
    + split; [|done]. intros _. by exists t.
Qed.

(** ** Witnesses *)

(** "aGk=" is "hi"; the socket answered "yo". *)
Definition demo_relay : pump :=
  mkPump Receiving false false false [body_message "k" "eW8="] [] ["aGk="]
    (bytes_of "hi") [bytes_of "yo"].

Lemma demo_relay_reachable : reachable (Machine0 := pump_machine "k") pump_init demo_relay.
Proof.
  exists [InMessage "aGk=" None; MainRead (bytes_of "yo") None]. apply mrun_mstar. vm_compute. reflexivity.
Qed.

Lemma pump_relays_witness :
  client_bytes demo_relay = [Ok (bytes_of "yo")] ∧
  (inbound demo_relay = Receiving → decoded (received demo_relay) = Some (to_conn demo_relay)) ∧
  (∃ d r l, l `prefix_of` received demo_relay ∧ decoded l = Some d ∧ to_conn demo_relay = d ++ r ∧
     (r = [] ∨ ∃ m e, received demo_relay = l ++ [m] ∧ DecodeString m = Ok e ∧ r `prefix_of` e)) ∧
  (filter is_close (responses demo_relay) = []) ∧
  (finished demo_relay = true → last (responses demo_relay) = Some (SignalHandlerClosed "k")).
Proof. apply (pump_relays "k" demo_relay). apply demo_relay_reachable. Defined.

Lemma pump_terminates_witness :
  ∃ ls st', length ls ≤ 4 ∧ Forall (λ l, ∀ m a, l ≠ InMessage m a) ls ∧
    mstar (Machine0 := pump_machine "k") demo_relay ls st' ∧
    finished st' = true ∧ conn_closed st' = true ∧ inbound st' = Gone ∧ logged st' = [].
Proof. apply (pump_terminates "k" demo_relay); [apply demo_relay_reachable|reflexivity]. Defined.
