(* ===== verification/Exec.v ===== *)
(** * [exec/exec.go]

    The exec handler: [convert] turns the claims into the options of an exec
    object, [Handle_setup] is the handler up to its goroutines, and a
    machine models those: the inbound goroutine writes decoded input to one
    pipe, the outbound goroutine reads another and sends what it read.  The
    docker client's [StartExec] is the other end of both pipes: a copier of the
    input, which outlives the call, and the writes of the output, over
    before the call returns. *)

From Stdlib Require Import ZArith.
From S2P Require Import Prelude GoStd Base64 Values Jwt Config Auth Handshake DockerClient Wire.

(** ** The options *)

(** [if param, ok := execMap[k]; ok { if val, ok := param.(T); ok { .. } }]. *)
Definition param {A} (as_type : value → option A) (zero : A) (m : gmap string value) (k : string) : A :=
  match m !! k with
  | Some param => match as_type param with Some val => val | None => zero end
  | None => zero
  end.

(** The strings of a list; everything else in it is skipped. *)
Fixpoint strings_of (l : list value) : list string :=
  match l with
  | [] => []
  | item :: l => match as_string item with
                 | Some val => val :: strings_of l
                 | None => strings_of l
                 end
  end.

Definition convert (execMap : gmap string value) : CreateExecOptions :=
  mkCreateExecOptions
    (param as_bool false execMap "AttachStdin")
    (param as_bool false execMap "AttachStdout")
    (param as_bool false execMap "AttachStderr")
    (param as_bool false execMap "Tty")
    (param as_string "" execMap "Container")
    (match execMap !! "Cmd" with
     | Some param => match as_slice param with Some list => strings_of list | None => [] end
     | None => []
     end).

Section setup.
Context {K : Type} `{!JWT K} `{!URLParser} (client : result docker_client).
Implicit Types c : config K.

(** [Handle] up to the goroutines: the id of the exec object to start. *)
Definition Handle_setup c (initialMessage : string) : outcome (early + string) :=
  r ← request_token c initialMessage;
  match r with
  | inl e => Val (inl e)
  | inr token =>
      execMap ← assert (as_map (get (Claims token) "exec"));
      let execConfig := convert execMap in
      match client with
      | Err _ => Val (inl NoClient)
      | Ok client =>
          match CreateExec client execConfig with
          | Err _ => Val (inl NoExec)
          | Ok id => Val (inr id)
          end
      end
  end.
End setup.

(** ** The goroutines *)

(** The inbound goroutine: in its loop, past the end-of-transmission byte, gone. *)
Inductive in_phase := InLoop | InEOT | InGone.

#[export] Instance in_phase_eq_decision : EqDecision in_phase.
Proof. solve_decision. Defined.

Record exec_state := mkExec {
  inphase : in_phase;
  in_pending : option bytes;     (* the inbound goroutine's write in progress *)
  copier : bool;                 (* the client still copies the input *)
  out_pending : option bytes;    (* the client's write in progress *)
  out_closed : bool;             (* outputWriter was closed *)
  holding : option bytes;        (* read by the outbound goroutine, not yet sent *)
  out_live : bool;
  finished : bool;               (* StartExec returned, and with it the handler *)
  responses : list Message;
  received : list string;        (* messages taken from the incoming channel *)
  stdin : bytes;                 (* input the client took *)
  stdout : bytes                 (* output the client wrote *)
}.

Definition exec_init : exec_state :=
  mkExec InLoop None true None false None true false [] [] [] [].

Inductive exec_label :=
| EIn (msg : string)          (* a message arrives *)
| EInClosed                   (* the incoming channel is closed *)
| EInDone                     (* the end-of-transmission write returned: [w.Close()] *)
| EStdin (n : nat)            (* the copier reads at most n+1 bytes *)
| ECopierStop                 (* the copier's own write failed *)
| EOut (data : bytes)         (* the client writes output *)
| EOutAbort                   (* that write fails: the pipe was closed *)
| ERead (n : nat)             (* the outbound goroutine reads at most n+1 bytes *)
| EReadEOF                    (* it reads the end of file *)
| ESend                       (* it sends what it read *)
| EReturn.                    (* StartExec returns *)

Definition EOT : bytes := [Byte.x04].

Definition read_size : nat := 4096.

#[local] Arguments Nat.min : simpl never.

Section exec.
Context (key : string).

Definition set_in (p : in_phase) (pend : option bytes) (rc : list string) (sin : bytes) (st : exec_state) :
    exec_state :=
  mkExec p pend (copier st) (out_pending st) (out_closed st) (holding st) (out_live st)
    (finished st) (responses st) rc sin (stdout st).

Definition set_out (pend : option bytes) (closed : bool) (hold : option bytes) (live : bool)
    (rs : list Message) (out : bytes) (st : exec_state) : exec_state :=
  mkExec (inphase st) (in_pending st) (copier st) pend closed hold live (finished st) rs
    (received st) (stdin st) out.

(** A write in progress is over when nothing is left of it. *)
Definition rest_of (d : bytes) : option bytes := if bool_decide (d = []) then None else Some d.

#[export] Instance exec_machine : Machine exec_state exec_label := λ l st,
  match l with
  | EIn msg =>
      match inphase st, in_pending st with
      | InLoop, None =>
          match DecodeString msg with
          | Err _ => Some (set_in InLoop None (received st ++ [msg]) (stdin st) st)
          | Ok data => Some (set_in InLoop (Some data) (received st ++ [msg]) (stdin st) st)
          end
      | _, _ => None
      end
  | EInClosed =>
      match inphase st, in_pending st with
      | InLoop, None => Some (set_in InEOT (Some EOT) (received st) (stdin st) st)
      | _, _ => None
      end
  | EInDone =>
      match inphase st, in_pending st with
      | InEOT, None =>
          Some (set_out (out_pending st) true (holding st) (out_live st) (responses st) (stdout st)
                  (set_in InGone None (received st) (stdin st) st))
      | _, _ => None
      end
  | EStdin n =>
      match copier st, in_pending st with
      | true, Some d =>
          Some (set_in (inphase st) (rest_of (drop (S n) d)) (received st) (stdin st ++ take (S n) d) st)
      | _, _ => None
      end
  | ECopierStop =>
      Some (mkExec (inphase st) (in_pending st) false (out_pending st) (out_closed st) (holding st)
              (out_live st) (finished st) (responses st) (received st) (stdin st) (stdout st))
  | EOut data =>
      if finished st || out_closed st then None
      else match out_pending st with
      | Some _ => None
      | None => Some (set_out (Some data) (out_closed st) (holding st) (out_live st) (responses st)
                        (stdout st ++ data) st)
      end
  | EOutAbort =>
      match out_closed st, out_pending st with
      | true, Some _ =>
          Some (set_out None true (holding st) (out_live st) (responses st) (stdout st) st)
      | _, _ => None
      end
  | ERead n =>
      match out_live st, holding st, out_pending st with
      | true, None, Some d =>
          let k := Nat.min (S n) read_size in
          Some (set_out (rest_of (drop k d)) (out_closed st) (Some (take k d)) true (responses st) (stdout st) st)
      | _, _, _ => None
      end
  | EReadEOF =>
      match out_live st, holding st, out_pending st with
      | true, None, None =>
          if out_closed st then Some (set_out None true None false (responses st) (stdout st) st) else None
      | _, _, _ => None
      end
  | ESend =>
      match holding st with
      | None => None
      | Some c =>
          let rs := if 0 <? length c then [body_message key (EncodeToString c)] else [] in
          Some (set_out (out_pending st) (out_closed st) None (out_live st) (responses st ++ rs) (stdout st) st)
      end
  | EReturn =>
      if finished st then None
      else match out_pending st with
      | Some _ => None
      | None =>
          Some (mkExec (inphase st) (in_pending st) (copier st) None (out_closed st) (holding st)
                  (out_live st) true (responses st ++ [SignalHandlerClosed key]) (received st)
                  (stdin st) (stdout st))
      end
  end.

(** ** What the messages carry *)

(** The input: the messages that decode. *)
Definition input_of (l : list string) : bytes :=
  concat ((λ m, match DecodeString m with Ok d => d | Err _ => [] end) <$> l).

(** The output: the bodies, decoded. *)
Definition output_of (rs : list Message) : bytes :=
  input_of (MBody <$> filter (λ m, Type_ m = Body) rs).

Lemma input_of_snoc l m :
  input_of (l ++ [m]) = input_of l ++ match DecodeString m with Ok d => d | Err _ => [] end.
Proof. unfold input_of. rewrite fmap_app, concat_app. simpl. by rewrite app_nil_r. Qed.

Lemma output_of_body rs c :
  output_of (rs ++ (if 0 <? length c then [body_message key (EncodeToString c)] else [])) = output_of rs ++ c.
Proof.
  unfold output_of. destruct (Nat.ltb_spec 0 (length c)) as [|Hc].
  - rewrite filter_app, fmap_app.
    change (MBody <$> filter _ [body_message key (EncodeToString c)]) with [EncodeToString c].
    by rewrite input_of_snoc, decode_encode.
  - destruct c; [|simpl in Hc; lia]. by rewrite !app_nil_r.
Qed.

Lemma output_of_close rs : output_of (rs ++ [SignalHandlerClosed key]) = output_of rs.
Proof. unfold output_of. rewrite filter_app, fmap_app. simpl. by rewrite app_nil_r. Qed.

Lemma rest_of_default d : default [] (rest_of d) = d.
Proof. unfold rest_of. by case_bool_decide. Qed.

(** ** Invariant *)

Record exec_inv (st : exec_state) : Prop := {
  e_keyed : Forall (λ m, Key m = key) (responses st);
  e_close : length (filter is_close (responses st)) = if finished st then 1 else 0;
  e_input : stdin st ++ default [] (in_pending st) =
            input_of (received st) ++ (if bool_decide (inphase st = InLoop) then [] else EOT);
  e_gone : inphase st = InGone → in_pending st = None;
  e_closed : out_closed st = bool_decide (inphase st = InGone);
  e_output : ∃ lost, stdout st = output_of (responses st) ++ default [] (holding st)
                       ++ default [] (out_pending st) ++ lost ∧ (lost ≠ [] → out_closed st = true);
  e_live : out_live st = false → out_closed st = true ∧ holding st = None
}.

Lemma exec_inv_init : exec_inv exec_init.
Proof. split; try done. by exists []. Qed.

Lemma exec_inv_stdin st st' n : exec_inv st → mstep (EStdin n) st = Some st' → exec_inv st'.
Proof.
  intros [Hk Hc Hi Hg Hcl Ho Hl] Hs. unfold mstep in Hs. simpl in Hs.
  destruct (copier st) eqn:Ec; [|done]. destruct (in_pending st) as [d|] eqn:Ep; [|done].
  injection Hs as <-. split; simpl; try done.
  - rewrite rest_of_default, <- (assoc_L (++)), take_drop. done.
  - intros Hgone. by apply Hg in Hgone.
Qed.

Lemma exec_inv_in st st' l :
  (∃ m, l = EIn m) ∨ l = EInClosed ∨ l = EInDone ∨ l = ECopierStop →
  exec_inv st → mstep l st = Some st' → exec_inv st'.
Proof.
  intros Hin [Hk Hc Hi Hg Hcl Ho Hl] Hs. unfold mstep in Hs.
  destruct Hin as [[m ->]|[->|[->| ->]]]; simpl in Hs.
  4: { injection Hs as <-. by split. }
  all: destruct (inphase st) eqn:Ep, (in_pending st) as [d|] eqn:Ei; try done.
  - simpl in Hi. rewrite !app_nil_r in Hi.
    destruct (DecodeString m) as [d|e] eqn:Ed; injection Hs as <-; split; simpl; try done;
      rewrite input_of_snoc, Ed, Hi; by rewrite ?app_nil_r.
  - injection Hs as <-. simpl in Hi. rewrite !app_nil_r in Hi. split; simpl; try done.
    by rewrite Hi.
  - injection Hs as <-. split; simpl; try done.
    + destruct Ho as (lost&Ho&Hlost). by exists lost.
    + intros Hlv. by destruct (Hl Hlv).
Qed.

Lemma exec_inv_out st st' l :
  (∃ d, l = EOut d) ∨ l = EOutAbort ∨ (∃ n, l = ERead n) ∨ l = EReadEOF ∨ l = ESend ∨ l = EReturn →
  exec_inv st → mstep l st = Some st' → exec_inv st'.
Proof.
  intros Hin [Hk Hc Hi Hg Hcl (lost&Ho&Hlost) Hl] Hs. unfold mstep in Hs.
  destruct Hin as [[d ->]|[->|[[n ->]|[->|[->| ->]]]]]; simpl in Hs.
  - destruct (finished st || out_closed st) eqn:Ef; [done|]. apply orb_false_iff in Ef as [_ Ef].
    destruct (out_pending st) eqn:Ep; [done|]. injection Hs as <-. split; simpl; try done.
    assert (lost = []) as -> by (destruct lost; [done|]; by rewrite Hlost in Ef).
    exists []. split; [|done]. rewrite Ho. simpl. by rewrite !app_nil_r, (assoc_L (++)).
  - destruct (out_closed st) eqn:Ec, (out_pending st) as [d|] eqn:Ep; try done.
    injection Hs as <-. split; simpl; try done.
    by exists (d ++ lost).
  - destruct (out_live st) eqn:El, (holding st) eqn:Eh, (out_pending st) as [d|] eqn:Ep; try done.
    injection Hs as <-. split; simpl; try done.
    exists lost. split; [|done]. rewrite Ho, rest_of_default. simpl.
    by rewrite (assoc_L (++) (take _ _)), take_drop.
  - destruct (out_live st) eqn:El, (holding st) eqn:Eh, (out_pending st) as [d|] eqn:Ep; try done.
    destruct (out_closed st) eqn:Ec; [|done]. injection Hs as <-. split; simpl; try done. by exists lost.
  - destruct (holding st) as [c|] eqn:Eh; [|done]. injection Hs as <-. split; simpl; try done.
    + apply Forall_app. split; [done|]. destruct (0 <? length c); by repeat constructor.
    + rewrite filter_app, length_app, Hc. destruct (0 <? length c); simpl; lia.
    + exists lost. split; [|done]. rewrite output_of_body, Ho. simpl. by rewrite (assoc_L (++)).
    + intros Hlv. by destruct (Hl Hlv).
  - destruct (finished st) eqn:Ef; [done|]. destruct (out_pending st) eqn:Ep; [done|].
    injection Hs as <-. split; simpl; try done.
    + apply Forall_app. split; [done|]. by repeat constructor.
    + by rewrite filter_app, length_app, Hc.
    + exists lost. by rewrite output_of_close, Ho.
Qed.

Lemma exec_inv_step l st st' : exec_inv st → mstep l st = Some st' → exec_inv st'.
Proof.
  destruct l; intros HI Hs;
    first [by eapply exec_inv_stdin | eapply exec_inv_in; [|done..]; by eauto 6
          | eapply exec_inv_out; [|done..]; by eauto 9].
Qed.

Lemma exec_reachable_inv st : reachable exec_init st → exec_inv st.
Proof. intros H. eapply reachable_invariant; [apply exec_inv_step|exact H|apply exec_inv_init]. Qed.

#[export] Instance exec_handler_spec : Handler_spec exec_state exec_label exec_init key responses.
Proof.
  split; intros st H.
  - apply e_keyed, (exec_reachable_inv _ H).
  - rewrite (e_close _ (exec_reachable_inv _ H)). destruct (finished st); lia.
Qed.
End exec.

(** ** Lemmas *)

Definition outbound (l : exec_label) : Prop := match l with ERead _ | ESend => True | _ => False end.

(** What the outbound goroutine has still to do. *)
Definition backlog (st : exec_state) : nat :=
  2 * match out_pending st with Some d => S (length d) | None => 0 end +
  match holding st with Some _ => 1 | None => 0 end.

Lemma outbound_progress key st :
  exec_inv key st → out_closed st = false →
  (holding st = None ∧ out_pending st = None) ∨
  ∃ l st', outbound l ∧ mstep (Machine := exec_machine key) l st = Some st' ∧
    exec_inv key st' ∧ out_closed st' = false ∧ stdout st' = stdout st ∧ backlog st' < backlog st.
Proof.
  intros HI Hc. destruct (out_live st) eqn:Hl.
  2:{ destruct (e_live _ _ HI Hl). congruence. }
  destruct (holding st) as [c|] eqn:Eh.
  - right. destruct (mstep (Machine := exec_machine key) ESend st) as [st'|] eqn:Hs;
      [|unfold mstep, exec_machine in Hs; by rewrite Eh in Hs].
    exists ESend, st'. split; [done|].
    split; [done|]. split; [by eapply exec_inv_step|].
    unfold mstep, exec_machine in Hs. rewrite Eh in Hs. injection Hs as <-.
    unfold backlog. simpl. rewrite Eh. split_and!; [done|done|lia].
  - destruct (out_pending st) as [d|] eqn:Ep; [right|by left].
    destruct (mstep (Machine := exec_machine key) (ERead (length d)) st) as [st'|] eqn:Hs;
      [|unfold mstep, exec_machine in Hs; by rewrite Hl, Eh, Ep in Hs].
    exists (ERead (length d)), st'. split; [done|].
    split; [done|]. split; [by eapply exec_inv_step|].
    unfold mstep, exec_machine in Hs. rewrite Hl, Eh, Ep in Hs. injection Hs as <-.
    unfold backlog. simpl. rewrite Eh, Ep. split_and!; [done|done|].
    unfold rest_of. case_bool_decide as Hd; [lia|]. rewrite length_drop.
    assert (0 < Nat.min (S (length d)) read_size) by (unfold read_size; lia).
    destruct d; [by rewrite drop_nil in Hd|]. simpl. lia.
Qed.

(** The claims a server makes out of options. *)
Definition exec_claims (o : CreateExecOptions) : gmap string value :=
  list_to_map [("AttachStdin", VBool (AttachStdin o)); ("AttachStdout", VBool (AttachStdout o));
    ("AttachStderr", VBool (AttachStderr o)); ("Tty", VBool (Tty o));
    ("Container", VString (ExecContainer o)); ("Cmd", VSlice (VString <$> Cmd o))].

Lemma strings_of_strings l : strings_of (VString <$> l) = l.
Proof. induction l as [|s l IH]; [done|]. rewrite fmap_cons. simpl. by rewrite IH. Qed.

(** ** Properties *)

(** The session is faithful in both directions, whatever the
    interleaving and the sizes of the reads: the input the process got and the
    write in progress are the decoded messages in order, the undecodable ones
    skipped, followed by end-of-transmission once the client left; the decoded
    bodies are a prefix of the output written, none of which is lost while
    the pipe is open; every message has the key and one at most closes. *)
Theorem exec_relays key st :
  reachable (Machine0 := exec_machine key) exec_init st →
  stdin st ++ default [] (in_pending st) =
    input_of (received st) ++ (if bool_decide (inphase st = InLoop) then [] else EOT) ∧
  output_of (responses st) `prefix_of` stdout st ∧
  (out_closed st = false →
     stdout st = output_of (responses st) ++ default [] (holding st) ++ default [] (out_pending st)) ∧
  Forall (λ m, Key m = key) (responses st) ∧
  length (filter is_close (responses st)) = (if finished st then 1 else 0).
Proof.
  intros H. destruct (exec_reachable_inv _ _ H) as [Hk Hc Hi _ _ (lost&Ho&Hl) _].
  split_and!; [done| | |done|done].
  - rewrite Ho. by eexists.
  - intros Hoc. destruct lost; [by rewrite app_nil_r in Ho|]. by rewrite Hl in Hoc.
Qed.

(** C31: while the output pipe is open the outbound goroutine alone delivers
    everything the process has written. *)
Theorem exec_output_delivered key st :
  reachable (Machine0 := exec_machine key) exec_init st → out_closed st = false →
  ∃ ls st', Forall outbound ls ∧ mstar (Machine0 := exec_machine key) st ls st' ∧
    stdout st' = stdout st ∧ output_of (responses st') = stdout st.
Proof.
  intros Hr Hc.
  destruct (drive (Machine0 := exec_machine key) outbound
    (λ s, exec_inv key s ∧ out_closed s = false ∧ stdout s = stdout st)
    (λ s, holding s = None ∧ out_pending s = None) backlog) with (s := st)
    as (ls&st'&Hls&Hrun&(HI&Hc'&Hst)&Hh&Hp).
  - intros s (HI&Hcs&Hs). destruct (outbound_progress key s HI Hcs) as [?|(l&s'&?&?&?&?&?&?)]; [by left|].
    right. exists l, s'. split_and!; [done|done|done|done|congruence|done].
  - split_and!; [by apply exec_reachable_inv|done|done].
  - exists ls, st'. split_and!; [done|done|done|].
    destruct HI as [_ _ _ _ _ (lost&Ho&Hl) _]. rewrite Hh, Hp in Ho. simpl in Ho.
    destruct lost; [|by rewrite Hl in Hc']. rewrite app_nil_r in Ho. congruence.
Qed.

(** Once the client has stopped copying the input - after the process
    ended, say - a message that arrives strands both goroutines: the inbound
    one stays in its write for ever, so the output pipe is never closed and the
    outbound one never ends, even when the incoming channel is closed. *)
Theorem exec_leak key st d :
  reachable (Machine0 := exec_machine key) exec_init st →
  copier st = false → in_pending st = Some d →
  ∀ ls st', mstar (Machine0 := exec_machine key) st ls st' →
    in_pending st' = Some d ∧ out_closed st' = false ∧ out_live st' = true.
Proof.
  intros Hr Hc Hp ls st' Hrun.
  assert (exec_inv key st' ∧ copier st' = false ∧ in_pending st' = Some d) as (HI&_&Hp').
  { eapply (mstar_invariant (Machine0 := exec_machine key)
      (λ s, exec_inv key s ∧ copier s = false ∧ in_pending s = Some d)); [|exact Hrun|].
    - intros l s s' (HI&Hcs&Hps) Hs. split; [by eapply exec_inv_step|].
      unfold mstep, exec_machine in Hs. destruct l; rewrite ?Hcs, ?Hps in Hs; simpl in Hs;
        try done; repeat (case_match; try done); injection Hs as <-; simpl; split; congruence.
    - split; [by apply exec_reachable_inv|done]. }
  assert (out_closed st' = false) as Hoc.
  { rewrite (e_closed _ _ HI). apply bool_decide_eq_false_2. intros Hg.
    by rewrite (e_gone _ _ HI Hg) in Hp'. }
  split_and!; [done|done|]. destruct (out_live st') eqn:E; [done|].
  destruct (e_live _ _ HI E). congruence.
Qed.

(** [convert] recovers the options from the claims made of them, whatever
    other claims there are. *)
Theorem convert_exec_claims o m : exec_claims o ⊆ m → convert m = o.
Proof.
  intros Hsub. pose proof (λ k v, lookup_weaken (exec_claims o) m k v) as H.
  unfold convert, param.
  rewrite (H "AttachStdin" (VBool (AttachStdin o))), (H "AttachStdout" (VBool (AttachStdout o))),
    (H "AttachStderr" (VBool (AttachStderr o))), (H "Tty" (VBool (Tty o))),
    (H "Container" (VString (ExecContainer o))), (H "Cmd" (VSlice (VString <$> Cmd o)));
    try (exact Hsub || reflexivity).
  simpl. rewrite strings_of_strings. by destruct o.
Qed.

(** An exec object is created and started exactly for an authorised
    token with an [exec] object among its claims, with the options these
    claims convert to; without that object the handler panics. *)
Theorem exec_setup_correct {K} `{!JWT K} `{!URLParser} (client : docker_client) (c : config K) m :
  (∀ id, Handle_setup (Ok client) c m = Val (inr id) ↔
     ∃ t exec, authorised c m t ∧ get (Claims t) "exec" = VMap exec ∧
       CreateExec client (convert exec) = Ok id) ∧
  (∀ p, Handle_setup (Ok client) c m = Panics p ↔
     p = TypeAssertion ∧ ∃ t, authorised c m t ∧ as_map (get (Claims t) "exec") = None).
Proof.
  unfold Handle_setup. destruct (request_token_cases c m) as [(t&Ht&E)|(Hn&e&E)]; rewrite E; simpl.
  2:{ naive_solver. }
  assert (∀ t', authorised c m t' → t' = t) as Huniq.
  { intros t' (u&Hu&Hp&_). destruct Ht as (u'&Hu'&Hp'&_). congruence. }
  destruct (as_map (get (Claims t) "exec")) as [exec|] eqn:Em; simpl.
  - assert (get (Claims t) "exec" = VMap exec) as Hexec
      by (destruct (get (Claims t) "exec"); simplify_eq/=; done).
    destruct (CreateExec client (convert exec)) as [id'|e] eqn:Ec; split; intros x.
    + split; [intros [= <-]; by exists t, exec|].
      intros (t'&exec'&Ht'&He'&Hc'). apply Huniq in Ht' as ->. congruence.
    + split; [done|]. intros (_&t'&Ht'&Hno). apply Huniq in Ht' as ->. congruence.
    + split; [done|]. intros (t'&exec'&Ht'&He'&Hc'). apply Huniq in Ht' as ->. congruence.
    + split; [done|]. intros (_&t'&Ht'&Hno). apply Huniq in Ht' as ->. congruence.
  - split; intros x; [split; [done|]|split; [intros [= <-]; split; [done|]; by exists t|by intros [-> _]]].
    intros (t'&exec'&Ht'&He'&_). apply Huniq in Ht' as ->. by rewrite He' in Em.
Qed.

(** ** Witnesses *)

(** The client sent "ls" and something undecodable; the process answered
    "ok" twice, of which one is on its way. *)
Definition demo_exec : exec_state :=
  mkExec InLoop None true (Some (bytes_of "ok")) false (Some (bytes_of "ok")) true false []
    ["bHM="; "!"] (bytes_of "ls") (bytes_of "okok").

Lemma demo_exec_reachable : reachable (Machine0 := exec_machine "k") exec_init demo_exec.
Proof.
  exists [EIn "bHM="; EStdin 9; EIn "!"; EOut (bytes_of "ok"); ERead 4095; EOut (bytes_of "ok")].
  apply mrun_mstar. vm_compute. reflexivity.
Qed.

Lemma exec_relays_witness :
  bytes_of "ls" ++ [] = input_of ["bHM="; "!"] ++ [] ∧
  output_of (responses demo_exec) `prefix_of` bytes_of "okok" ∧
  (out_closed demo_exec = false →
     bytes_of "okok" = output_of (responses demo_exec) ++ bytes_of "ok" ++ bytes_of "ok") ∧
  Forall (λ m, Key m = "k") (responses demo_exec) ∧
  length (filter is_close (responses demo_exec)) = 0.
Proof. apply (exec_relays "k" demo_exec). apply demo_exec_reachable. Defined.

Lemma exec_output_delivered_witness :
  ∃ ls st', Forall outbound ls ∧ mstar (Machine0 := exec_machine "k") demo_exec ls st' ∧
    stdout st' = stdout demo_exec ∧ output_of (responses st') = bytes_of "okok".
Proof. apply (exec_output_delivered "k" demo_exec); [apply demo_exec_reachable|reflexivity]. Defined.

(** The process ended, then a key was pressed. *)
Definition demo_leak : exec_state :=
  default exec_init (mrun (Machine0 := exec_machine "k")
    [EReturn; EIn "bHM="; EStdin 9; ECopierStop; EIn "bHM="] exec_init).

Lemma exec_leak_witness :
  in_pending demo_leak = Some (bytes_of "ls") ∧ out_closed demo_leak = false ∧ out_live demo_leak = true.
Proof.
  apply (exec_leak "k" demo_leak (bytes_of "ls")) with (ls := []).
  - exists [EReturn; EIn "bHM="; EStdin 9; ECopierStop; EIn "bHM="]. apply mrun_mstar. vm_compute. reflexivity.
  - vm_compute. reflexivity.
  - vm_compute. reflexivity.
  - constructor.
Defined.

Definition demo_opts : CreateExecOptions := mkCreateExecOptions true true false true "c1" ["sh"; "-i"].

Lemma convert_exec_claims_witness :
  convert (<["User" := VString "root"]> (exec_claims demo_opts)) = demo_opts.
Proof. apply (convert_exec_claims demo_opts). apply insert_subseteq. reflexivity. Defined.
