(* ===== verification/EventRouter.v ===== *)
(** * [events/event_router.go]

    The router of docker events: a listener channel, a goroutine that takes an
    event from it and waits for a worker, and a pool of workers that run the
    handlers registered for the event's status.  The machine's labels are the
    steps of [routeEvents] and of the workers, and what the environment does:
    post an event, close the listener (as the docker client does when the
    daemon ends the event stream).

    A worker is taken from the [workers] channel and put back by its deferred
    function, so the channel is modelled by how many workers are in it. *)

From Stdlib Require Import ZArith.
From stdpp Require Import list_numbers.
From S2P Require Import Prelude.

Record APIEvent := mkAPIEvent { Status : string; EventID : string; From : string; Time : Z }.

#[export] Instance APIEvent_eq_decision : EqDecision APIEvent.
Proof. solve_decision. Defined.

(** A channel of [*docker.APIEvents] carries events and nil. *)
Abbreviation event_ptr := (option APIEvent).

(** A run of [doWork]: the position of its event in the order of dispatch,
    the event, and the handlers still to run. *)
Record job (H : Type) := mkJob { job_id : nat; job_event : event_ptr; todo : list H }.
Arguments mkJob {H}. Arguments job_id {H}. Arguments job_event {H}. Arguments todo {H}.

Record router (H : Type) := mkRouter {
  listener : list event_ptr;
  lclosed : bool;
  workers : nat;                        (* idle workers, in the channel *)
  holding : option event_ptr;           (* routeEvents waits for a worker for it *)
  timer_fired : bool;                   (* of the current event *)
  busy : list (job H);
  timeouts : nat;                       (* "Timed out waiting for worker" lines *)
  errors : nat;                         (* "Error processing event" lines *)
  posted : list event_ptr;
  dispatched : list event_ptr;
  ran : list (nat * H)                  (* handler calls completed, with their job *)
}.
Arguments mkRouter {H}. Arguments listener {H}. Arguments lclosed {H}. Arguments workers {H}.
Arguments holding {H}. Arguments timer_fired {H}. Arguments busy {H}. Arguments timeouts {H}.
Arguments errors {H}. Arguments posted {H}. Arguments dispatched {H}. Arguments ran {H}.

Inductive router_label :=
| Post (e : event_ptr)
| CloseListener
| Recv                       (* event := <-e.listener *)
| TimerFires                 (* <-timer.C *)
| Dispatch                   (* w := <-e.workers; go w.doWork(event, e) *)
| Handled (i : nat) (err : option error)   (* the next handler of job i returns *)
| WorkDone (i : nat).        (* doWork returns and puts its worker back *)

Section router.
Context {H : Type} (bufferSize workerPoolSize : nat) (handlers : gmap string (list H)).

(** [NewEventRouter]. *)
Definition NewEventRouter : router H :=
  mkRouter [] false workerPoolSize None false [] 0 0 [] [] [].

(** The handlers [doWork] runs: none for nil or for a status nobody registered. *)
Definition handlers_for (e : event_ptr) : list H :=
  match e with
  | None => []
  | Some event => default [] (handlers !! Status event)
  end.

Definition set_route (l : list event_ptr) (cl : bool) (hold : option event_ptr) (fired : bool)
    (st : router H) : router H :=
  mkRouter l cl (workers st) hold fired (busy st) (timeouts st) (errors st) (posted st)
    (dispatched st) (ran st).

Definition post (e : event_ptr) (st : router H) : router H :=
  mkRouter (listener st) (lclosed st) (workers st) (holding st) (timer_fired st) (busy st)
    (timeouts st) (errors st) (posted st ++ [e]) (dispatched st) (ran st).

Definition set_pool (w : nat) (b : list (job H)) (errs : nat) (rn : list (nat * H)) (st : router H) :
    router H :=
  mkRouter (listener st) (lclosed st) w (holding st) (timer_fired st) b (timeouts st) errs
    (posted st) (dispatched st) rn.

#[export] Instance router_machine : Machine (router H) router_label := λ l st,
  match l with
  | Post e =>
      if lclosed st then None
      else if length (listener st) <? bufferSize then
        Some (post e (set_route (listener st ++ [e]) false (holding st) (timer_fired st) st))
      else
        (* an unbuffered channel hands over to a waiting receiver *)
        match bufferSize, holding st with
        | 0, None => Some (post e (set_route [] false (Some e) false st))
        | _, _ => None
        end
  | CloseListener =>
      if lclosed st then None
      else Some (set_route (listener st) true (holding st) (timer_fired st) st)
  | Recv =>
      match holding st, listener st with
      | None, e :: l => Some (set_route l (lclosed st) (Some e) false st)
      | None, [] => if lclosed st then Some (set_route [] true (Some None) false st) else None
      | Some _, _ => None
      end
  | TimerFires =>
      match holding st with
      | Some e =>
          if timer_fired st then None
          else Some (mkRouter (listener st) (lclosed st) (workers st) (Some e) true (busy st)
                       (S (timeouts st)) (errors st) (posted st) (dispatched st) (ran st))
      | None => None
      end
  | Dispatch =>
      match holding st, workers st with
      | Some e, S w =>
          Some (mkRouter (listener st) (lclosed st) w None (timer_fired st)
                  (busy st ++ [mkJob (length (dispatched st)) e (handlers_for e)])
                  (timeouts st) (errors st) (posted st) (dispatched st ++ [e]) (ran st))
      | _, _ => None
      end
  | Handled i err =>
      match busy st !! i with
      | Some (mkJob id e (h :: hs)) =>
          Some (set_pool (workers st) (<[i := mkJob id e hs]> (busy st))
                  (match err with Some _ => S (errors st) | None => errors st end)
                  (ran st ++ [(id, h)]) st)
      | _ => None
      end
  | WorkDone i =>
      match busy st !! i with
      | Some (mkJob _ _ []) =>
          if workers st <? workerPoolSize then
            Some (set_pool (S (workers st)) (delete i (busy st)) (errors st) (ran st) st)
          else None
      | _ => None
      end
  end.

(** ** Invariant *)

Definition holding_list (st : router H) : list event_ptr :=
  match holding st with Some e => [e] | None => [] end.

(** The handler calls of one job. *)
Definition ran_of (id : nat) (st : router H) : list H :=
  snd <$> filter (λ p, p.1 = id) (ran st).

Record router_inv (st : router H) : Prop := {
  r_pool : workers st + length (busy st) = workerPoolSize;
  r_fifo : ∃ k, dispatched st ++ holding_list st ++ listener st = posted st ++ replicate k None ∧
                (0 < k → lclosed st = true ∧ listener st = []);
  r_jobs i j : busy st !! i = Some j →
    dispatched st !! job_id j = Some (job_event j) ∧
    ran_of (job_id j) st ++ todo j = handlers_for (job_event j);
  r_ids : NoDup (job_id <$> busy st);
  r_over id e : dispatched st !! id = Some e → id ∉ (job_id <$> busy st) →
    ran_of id st = handlers_for e;
  r_ran id h : (id, h) ∈ ran st → id < length (dispatched st);
  r_buffer : length (listener st) ≤ bufferSize
}.

Lemma router_inv_init : router_inv NewEventRouter.
Proof.
  split; simpl; [lia|exists 0; split; [done|lia]|done|constructor|done| |lia].
  intros id h Hin. by apply elem_of_nil in Hin.
Qed.

Lemma ran_of_snoc id id' h st :
  snd <$> filter (λ p, p.1 = id) (ran st ++ [(id', h)]) =
    ran_of id st ++ (if decide (id' = id) then [h] else []).
Proof.
  unfold ran_of. rewrite filter_app, fmap_app. f_equal.
  destruct (decide (id' = id)) as [->|Hne].
  - by rewrite filter_cons_True.
  - by rewrite filter_cons_False.
Qed.

Lemma router_inv_post e st st' :
  router_inv st → mstep (Post e) st = Some st' → router_inv st'.
Proof.
  intros [Hp (k&Hk&Hk') Hj Hi Ho Hr Hb] Hs. unfold mstep in Hs. simpl in Hs.
  destruct (lclosed st) eqn:Hc; [done|].
  assert (k = 0) as -> by (destruct k; [done|]; destruct Hk'; [lia|done]).
  rewrite app_nil_r in Hk.
  destruct (Nat.ltb_spec (length (listener st)) bufferSize).
  - injection Hs as <-. split; simpl; try done.
    + exists 0. split; [|lia]. unfold holding_list in *. simpl.
      by rewrite app_nil_r, <- Hk, <- !(assoc_L (++)).
    + rewrite length_app. simpl. lia.
  - destruct bufferSize; [|done]. destruct (holding st) eqn:Eh; [done|]. injection Hs as <-.
    destruct (listener st) eqn:El; [|simpl in *; lia].
    split; simpl; try done; [|lia].
    exists 0. split; [|lia]. unfold holding_list in *. rewrite Eh in Hk. simpl in *.
    rewrite !app_nil_r in *. by rewrite Hk.
Qed.

Lemma router_inv_route st st' l :
  l = CloseListener ∨ l = Recv ∨ l = TimerFires →
  router_inv st → mstep l st = Some st' → router_inv st'.
Proof.
  intros Hl [Hp (k&Hk&Hk') Hj Hi Ho Hr Hb] Hs. unfold mstep in Hs.
  destruct Hl as [->|[->| ->]]; simpl in Hs.
  - destruct (lclosed st) eqn:Hc; [done|]. injection Hs as <-. split; simpl; try done.
    exists k. split; [done|]. intros Hk0. destruct (Hk' Hk0). done.
  - destruct (holding st) eqn:Eh; [done|]. unfold holding_list in Hk. rewrite Eh in Hk.
    destruct (listener st) as [|e l] eqn:El.
    + destruct (lclosed st) eqn:Hc; [|done]. injection Hs as <-. split; simpl; try done.
      exists (S k). split; [|done]. rewrite !app_nil_r in Hk. unfold holding_list; simpl.
      by rewrite Hk, replicate_cons_app, (assoc_L (++)).
    + injection Hs as <-. split; simpl; try done.
      * exists k. split; [done|]. intros Hk0. destruct (Hk' Hk0). done.
      * simpl in Hb. lia.
  - destruct (holding st) eqn:Eh; [|done]. destruct (timer_fired st); [done|].
    injection Hs as <-. split; simpl; try done. exists k. unfold holding_list in *. by rewrite Eh in Hk.
Qed.
Lemma ran_of_new st : router_inv st → ran_of (length (dispatched st)) st = [].
Proof.
  intros HI. unfold ran_of.
  destruct (filter _ (ran st)) as [|[id h] l] eqn:E; [done|exfalso].
  assert ((id, h) ∈ filter (λ p, p.1 = length (dispatched st)) (ran st)) as Hin
    by (rewrite E; constructor).
  apply list_elem_of_filter in Hin as [Hid Hin]. apply (r_ran _ HI) in Hin. simpl in Hid. lia.
Qed.

Lemma job_id_lt st i j : router_inv st → busy st !! i = Some j → job_id j < length (dispatched st).
Proof. intros HI Hj. destruct (r_jobs _ HI _ _ Hj) as [Hd _]. by apply lookup_lt_Some in Hd. Qed.

Lemma router_inv_dispatch st st' :
  router_inv st → mstep Dispatch st = Some st' → router_inv st'.
Proof.
  intros HI Hs. unfold mstep in Hs. simpl in Hs.
  destruct (holding st) as [e|] eqn:Eh; [|done]. destruct (workers st) as [|w] eqn:Ew; [done|].
  injection Hs as <-. pose proof (ran_of_new st HI) as Hnew.
  pose proof (λ i j, job_id_lt st i j HI) as Hlt.
  destruct HI as [Hp (k&Hk&Hk') Hj Hi Ho Hr Hb]. split; simpl.
  - rewrite length_app. simpl. lia.
  - exists k. split; [|done]. unfold holding_list in *. rewrite Eh in Hk. simpl in *.
    by rewrite <- (assoc_L (++)).
  - intros i j [Hj'|(Hi'&Hj')]%lookup_app_Some.
    + destruct (Hj _ _ Hj') as [Hd Hran]. split; [by apply lookup_app_l_Some|done].
    + apply list_lookup_singleton_Some in Hj' as [_ <-]. simpl. split.
      * by rewrite lookup_app_r, Nat.sub_diag by lia.
      * change (ran_of (length (dispatched st)) st ++ handlers_for e = handlers_for e). by rewrite Hnew.
  - rewrite fmap_app. apply NoDup_app. split_and!; [done| |apply NoDup_singleton].
    intros id Hid Hin. apply list_elem_of_singleton in Hin as ->. simpl in Hid.
    apply list_elem_of_fmap in Hid as (j&Hid&Hj'). apply list_elem_of_lookup in Hj' as [i Hj'].
    specialize (Hlt _ _ Hj'). lia.
  - intros id e' He Hnot. rewrite fmap_app in Hnot.
    apply not_elem_of_app in Hnot as [Hnot1 Hnot2].
    apply lookup_app_Some in He as [He|(Hle&He)]; [by apply Ho|].
    apply list_lookup_singleton_Some in He as [Hz _]. destruct Hnot2. simpl.
    apply list_elem_of_singleton. lia.
  - intros id h Hin. rewrite length_app. apply Hr in Hin. lia.
  - done.
Qed.

Lemma router_inv_handled i err st st' :
  router_inv st → mstep (Handled i err) st = Some st' → router_inv st'.
Proof.
  intros HI Hs. unfold mstep in Hs. simpl in Hs.
  destruct (busy st !! i) as [[id e [|h hs]]|] eqn:Ei; try done. injection Hs as <-.
  pose proof (job_id_lt _ _ _ HI Ei) as Hlt. simpl in Hlt.
  destruct HI as [Hp (k&Hk&Hk') Hj Hi Ho Hr Hb].
  assert (job_id <$> <[i:=mkJob id e hs]> (busy st) = job_id <$> busy st) as Hids.
  { rewrite list_fmap_insert. apply list_insert_id. by rewrite list_lookup_fmap, Ei. }
  split; simpl; unfold ran_of; simpl; rewrite ?Hids; try done.
  - by rewrite length_insert.
  - by exists k.
  - intros i' j Hj'. rewrite ran_of_snoc.
    apply list_lookup_insert_Some in Hj' as [(<-&<-&_)|(Hne&Hj')].
    + destruct (Hj _ _ Ei) as [Hd Hran]. split; [done|]. simpl in *.
      by rewrite decide_True, <- (assoc_L (++)).
    + destruct (Hj _ _ Hj') as [Hd Hran]. split; [done|].
      rewrite decide_False, app_nil_r; [done|]. intros Heq. apply Hne.
      eapply (NoDup_lookup _ _ _ _ Hi); rewrite list_lookup_fmap; [by rewrite Ei|by rewrite Hj', Heq].
  - intros id' e' He Hnot. rewrite ran_of_snoc, decide_False, app_nil_r; [by apply Ho|].
    intros <-. apply Hnot. apply list_elem_of_fmap. exists (mkJob id e (h :: hs)).
    split; [done|]. by apply list_elem_of_lookup_2 in Ei.
  - intros id' h' [Hin|Hin]%elem_of_app; [by eapply Hr|].
    apply list_elem_of_singleton in Hin as [= -> ->]. done.
Qed.

Lemma router_inv_done i st st' :
  router_inv st → mstep (WorkDone i) st = Some st' → router_inv st'.
Proof.
  intros HI Hs. unfold mstep in Hs. simpl in Hs.
  destruct (busy st !! i) as [[id e [|h hs]]|] eqn:Ei; try done.
  destruct (workers st <? workerPoolSize); [|done]. injection Hs as <-.
  destruct HI as [Hp (k&Hk&Hk') Hj Hi Ho Hr Hb].
  pose proof (lookup_lt_Some _ _ _ Ei) as Hlen.
  pose proof (delete_take_drop (busy st) i) as Hdel.
  pose proof (take_drop_middle _ _ _ Ei) as Hsplit.
  split; simpl; try done.
  - rewrite length_delete by done. lia.
  - by exists k.
  - intros i' j Hj'. rewrite list_lookup_delete in Hj'. repeat case_match; by eapply Hj.
  - rewrite Hdel. rewrite <- Hsplit, fmap_app, fmap_cons in Hi. rewrite fmap_app.
    apply NoDup_app in Hi as (H1&H2&[_ H3]%NoDup_cons). apply NoDup_app.
    split_and!; [done| |done]. intros x Hx1 Hx2. apply (H2 x Hx1). by right.
  - intros id' e' He Hnot. destruct (decide (id' = id)) as [->|Hne].
    + destruct (Hj _ _ Ei) as [Hd Hran]. simpl in *. rewrite app_nil_r in Hran.
      unfold ran_of in *. simpl. congruence.
    + apply (Ho id' e' He). rewrite <- Hsplit, fmap_app, fmap_cons. rewrite Hdel, fmap_app in Hnot.
      set_solver.
Qed.

Lemma router_inv_step l st st' : router_inv st → mstep l st = Some st' → router_inv st'.
Proof.
  intros HI Hs. destruct l.
  - by eapply router_inv_post.
  - eapply router_inv_route; [|done..]; auto.
  - eapply router_inv_route; [|done..]; auto.
  - eapply router_inv_route; [|done..]; auto.
  - by eapply router_inv_dispatch.
  - by eapply router_inv_handled.
  - by eapply router_inv_done.
Qed.

Lemma router_reachable_inv st : reachable NewEventRouter st → router_inv st.
Proof. intros H'. eapply reachable_invariant; [apply router_inv_step|exact H'|apply router_inv_init]. Qed.
End router.

(** ** Progress *)

(** The steps of the router's own goroutines, with handlers that succeed. *)
Definition internal (l : router_label) : Prop :=
  match l with Recv | Dispatch | Handled _ None | WorkDone _ => True | _ => False end.

Section progress.
Context {H : Type} (bufferSize workerPoolSize : nat) (handlers : gmap string (list H)).
Implicit Types st : router H.

#[local] Existing Instance router_machine.
#[local] Instance this_machine : Machine (router H) router_label :=
  router_machine bufferSize workerPoolSize handlers.

Let hs_of := handlers_for handlers.

(** What is left to do. *)
Definition work_left st : nat :=
  sum_list_with (λ e, 3 + length (hs_of e)) (listener st) +
  sum_list_with (λ e, 2 + length (hs_of e)) (holding_list st) +
  sum_list_with (λ j, 1 + length (todo j)) (busy st).

Definition quiet st : Prop := listener st = [] ∧ holding st = None ∧ busy st = [].

(** The events are kept: what was posted and what is dispatched next. *)
Definition in_order st : list event_ptr := dispatched st ++ holding_list st ++ listener st.

Record kept st0 st : Prop := {
  k_inv : router_inv bufferSize workerPoolSize handlers st;
  k_closed : lclosed st = lclosed st0;
  k_posted : posted st = posted st0;
  k_order : in_order st = in_order st0
}.

Lemma sum_list_with_insert {A} (f : A → nat) l i x y :
  l !! i = Some x → sum_list_with f (<[i:=y]> l) + f x = sum_list_with f l + f y.
Proof.
  revert i. induction l as [|z l IH]; intros [|i] Hi; simpl in *; [done|done| |].
  - injection Hi as ->. lia.
  - pose proof (IH _ Hi). lia.
Qed.

(** A sum over a list of which one element changes, under a function that changes
    for that element only. *)
Lemma sum_list_with_change {A} (f g : A → nat) l i x y :
  l !! i = Some x → (∀ k z, k ≠ i → l !! k = Some z → f z = g z) →
  sum_list_with g (<[i:=y]> l) + f x = sum_list_with f l + g y.
Proof.
  revert i. induction l as [|z l IH]; intros [|i] Hi Hne; simpl in *; [done|done| |].
  - injection Hi as ->. assert (sum_list_with g l = sum_list_with f l) as ->; [|lia].
    clear IH. assert (∀ k z, l !! k = Some z → f z = g z) as Hl by (intros k z; by apply (Hne (S k))).
    clear Hne. induction l as [|z l IH]; simpl; [done|]. rewrite (Hl 0 z eq_refl), IH; [done|]. intros k. apply (Hl (S k)).
  - rewrite (Hne 0 z) by done. enough (sum_list_with g (<[i:=y]> l) + f x = sum_list_with f l + g y) by lia.
    apply (IH i Hi). intros k w Hki Hk. apply (Hne (S k)); [congruence|done].
Qed.

Lemma router_progress_busy st0 st :
  kept st0 st → busy st ≠ [] →
  ∃ l st', internal l ∧ mstep l st = Some st' ∧ kept st0 st' ∧ work_left st' < work_left st.
Proof.
  intros [HI Hc Hp Ho] Hb. destruct (busy st) as [|[id e hs] js] eqn:E; [done|].
  destruct hs as [|h hs].
  - destruct (mstep (WorkDone 0) st) as [st'|] eqn:Hs.
    2:{ unfold mstep, this_machine, router_machine in Hs. rewrite E in Hs. simpl in Hs.
        pose proof (r_pool _ _ _ _ HI) as Hpool. rewrite E in Hpool. simpl in Hpool.
        destruct (Nat.ltb_spec (workers st) workerPoolSize); [done|lia]. }
    exists (WorkDone 0), st'. split; [done|]. split; [done|].
    pose proof (router_inv_step _ _ _ _ _ _ HI Hs) as HI'.
    unfold mstep, this_machine, router_machine in Hs. rewrite E in Hs. simpl in Hs.
    destruct (workers st <? workerPoolSize); [|done]. injection Hs as <-.
    split; [by split|]. unfold work_left, holding_list. simpl. rewrite E. simpl. lia.
  - destruct (mstep (Handled 0 None) st) as [st'|] eqn:Hs;
      [|unfold mstep, this_machine, router_machine in Hs; by rewrite E in Hs].
    exists (Handled 0 None), st'. split; [done|]. split; [done|].
    pose proof (router_inv_step _ _ _ _ _ _ HI Hs) as HI'.
    unfold mstep, this_machine, router_machine in Hs. rewrite E in Hs. injection Hs as <-.
    split; [by split|]. unfold work_left, holding_list. simpl. rewrite E. simpl. lia.
Qed.

Lemma router_progress_dispatch st0 st e :
  kept st0 st → holding st = Some e → busy st = [] → 0 < workerPoolSize →
  ∃ st', mstep Dispatch st = Some st' ∧ kept st0 st' ∧ work_left st' < work_left st.
Proof.
  intros [HI Hc Hp Ho] Eh Eb Hpos.
  pose proof (r_pool _ _ _ _ HI) as Hpool. rewrite Eb in Hpool. simpl in Hpool.
  destruct (workers st) as [|w] eqn:Ew; [lia|].
  destruct (mstep Dispatch st) as [st'|] eqn:Hs;
    [|unfold mstep, this_machine, router_machine in Hs; by rewrite Eh, Ew in Hs].
  exists st'. split; [done|]. pose proof (router_inv_step _ _ _ _ _ _ HI Hs) as HI'.
  unfold mstep, this_machine, router_machine in Hs. rewrite Eh, Ew in Hs. injection Hs as <-.
  split; [split; [done..|]|].
  - rewrite <- Ho. unfold in_order, holding_list. simpl. rewrite Eh. by rewrite <- (assoc_L (++)).
  - unfold work_left, holding_list. simpl. rewrite Eh, Eb. simpl. unfold hs_of. lia.
Qed.

Lemma router_progress_recv st0 st e l :
  kept st0 st → holding st = None → listener st = e :: l →
  ∃ st', mstep Recv st = Some st' ∧ kept st0 st' ∧ work_left st' < work_left st.
Proof.
  intros [HI Hc Hp Ho] Eh El. destruct (mstep Recv st) as [st'|] eqn:Hs;
    [|unfold mstep, this_machine, router_machine in Hs; by rewrite Eh, El in Hs].
  exists st'. split; [done|]. pose proof (router_inv_step _ _ _ _ _ _ HI Hs) as HI'.
  unfold mstep, this_machine, router_machine in Hs. rewrite Eh, El in Hs. injection Hs as <-.
  split; [split; [done..|]|].
  - rewrite <- Ho. unfold in_order, holding_list. simpl. by rewrite Eh, El.
  - unfold work_left, holding_list. simpl. rewrite Eh, El. simpl. lia.
Qed.

(** The goroutines alone bring the router to rest. *)
Lemma router_quiesces st0 :
  0 < workerPoolSize → router_inv bufferSize workerPoolSize handlers st0 →
  ∃ ls st', Forall internal ls ∧ mstar st0 ls st' ∧ kept st0 st' ∧ quiet st'.
Proof.
  intros Hpos HI. apply (drive internal (kept st0) quiet work_left); [|by split].
  intros st Hk. destruct (decide (busy st = [])) as [Eb|Eb];
    [|right; by apply router_progress_busy].
  destruct (holding st) as [e|] eqn:Eh.
  - right. destruct (router_progress_dispatch st0 st e Hk Eh Eb Hpos) as (st'&?&?&?).
    by exists Dispatch, st'.
  - destruct (listener st) as [|e l] eqn:El; [by left|right].
    destruct (router_progress_recv st0 st e l Hk Eh El) as (st'&?&?&?). by exists Recv, st'.
Qed.

(** *** All runs *)

(** The steps of the router's goroutines and the returns of its handlers; the
    docker client posts nothing and leaves the listener open. *)
Definition going (l : router_label) : Prop :=
  match l with Post _ | CloseListener => False | _ => True end.

(** What the routing goroutine has to do, when a handler costs [cost] steps. *)
Definition queue_left (cost : nat) st : nat :=
  sum_list_with (λ e, 4 + cost * length (hs_of e)) (listener st) +
  sum_list_with (λ e, (if timer_fired st then 2 else 3) + cost * length (hs_of e)) (holding_list st).

(** What each such step changes. *)
Lemma going_step cost l st st' :
  going l → lclosed st = false → mstep l st = Some st' →
  posted st' = posted st ∧ lclosed st' = false ∧
  match l with
  | Recv | TimerFires =>
      busy st' = busy st ∧ dispatched st' = dispatched st ∧ queue_left cost st' < queue_left cost st
  | Dispatch =>
      ∃ e, busy st' = busy st ++ [mkJob (length (dispatched st)) e (handlers_for handlers e)] ∧
        queue_left cost st' + 2 + cost * length (handlers_for handlers e) ≤ queue_left cost st
  | Handled i _ =>
      ∃ id e h hs, busy st !! i = Some (mkJob id e (h :: hs)) ∧ busy st' = <[i := mkJob id e hs]> (busy st) ∧
        dispatched st' = dispatched st ∧ queue_left cost st' = queue_left cost st
  | WorkDone i =>
      ∃ id e, busy st !! i = Some (mkJob id e []) ∧ busy st' = delete i (busy st) ∧
        dispatched st' = dispatched st ∧ queue_left cost st' = queue_left cost st
  | _ => False
  end.
Proof.
  intros Hg Hc Hs. unfold mstep, this_machine, router_machine in Hs. unfold queue_left, holding_list, hs_of.
  destruct l as [e| | | | |i err|i]; try done.
  - destruct (holding st); [done|]. destruct (listener st) as [|e l] eqn:El; [by rewrite Hc in Hs|].
    injection Hs as <-. simpl. split_and!; try done. lia.
  - destruct (holding st) as [e|] eqn:Eh; [|done]. destruct (timer_fired st); [done|]. injection Hs as <-. simpl.
    split_and!; try done. lia.
  - destruct (holding st) as [e|] eqn:Eh, (workers st); try done. injection Hs as <-. simpl.
    split_and!; try done. exists e. split; [done|]. destruct (timer_fired st); lia.
  - destruct (busy st !! i) as [[id e [|h hs]]|] eqn:Ei; try done. injection Hs as <-.
    split_and!; try done. by exists id, e, h, hs.
  - destruct (busy st !! i) as [[id e [|h hs]]|] eqn:Ei; try done. destruct (_ <? _); [|done]. injection Hs as <-.
    split_and!; try done. by exists id, e.
Qed.

Lemma sum_list_with_delete {A} (f : A → nat) l i x :
  l !! i = Some x → sum_list_with f l = f x + sum_list_with f (delete i l).
Proof.
  revert i. induction l as [|z l IH]; intros [|i] Hi; simpl in *; [done|done|by injection Hi as ->|].
  rewrite (IH _ Hi). lia.
Qed.

Definition router_left st : nat := queue_left 1 st + sum_list_with (λ j, 1 + length (todo j)) (busy st).

Lemma router_left_step l st st' :
  going l → lclosed st = false → mstep l st = Some st' → router_left st' < router_left st.
Proof.
  intros Hg Hc Hs. unfold router_left. destruct (going_step 1 l st st' Hg Hc Hs) as (_&_&Hl).
  destruct l as [e| | | | |i err|i]; try done.
  - destruct Hl as (->&_&?). lia.
  - destruct Hl as (->&_&?). lia.
  - destruct Hl as (e&->&?). rewrite sum_list_with_app. simpl. lia.
  - destruct Hl as (id&e&h&hs&Hi&->&_&->).
    pose proof (sum_list_with_insert (λ j, 1 + length (todo j)) _ i _ (mkJob id e hs) Hi). simpl in *. lia.
  - destruct Hl as (id&e&Hi&->&_&->). rewrite (sum_list_with_delete _ _ _ _ Hi). simpl. lia.
Qed.

(** A router that cannot go on is at rest. *)
Lemma router_stuck st :
  0 < workerPoolSize → router_inv bufferSize workerPoolSize handlers st → lclosed st = false →
  (∀ l, going l → mstep l st = None) → quiet st.
Proof.
  intros Hpos HI Hc Hstuck. assert (kept st st) as Hk by by split.
  destruct (decide (busy st = [])) as [Eb|Eb].
  2:{ destruct (router_progress_busy st st Hk Eb) as (l&st'&Hl&Hs&_). rewrite Hstuck in Hs; [done|by destruct l]. }
  destruct (holding st) as [e|] eqn:Eh.
  { destruct (router_progress_dispatch st st e Hk Eh Eb Hpos) as (st'&Hs&_). by rewrite Hstuck in Hs. }
  destruct (listener st) as [|e l] eqn:El; [by split|].
  destruct (router_progress_recv st st e l Hk Eh El) as (st'&Hs&_). by rewrite Hstuck in Hs.
Qed.

(** A closed listener keeps a router at rest going: one turn delivers nil. *)
Lemma closed_turn st :
  0 < workerPoolSize → router_inv bufferSize workerPoolSize handlers st →
  quiet st → lclosed st = true →
  ∃ st', mstar st [Recv; Dispatch; WorkDone 0] st' ∧
    router_inv bufferSize workerPoolSize handlers st' ∧
    quiet st' ∧ lclosed st' = true ∧ dispatched st' = dispatched st ++ [None].
Proof.
  intros Hpos HI (El&Eh&Eb) Hc.
  pose proof (r_pool _ _ _ _ HI) as Hpool. rewrite Eb in Hpool. simpl in Hpool.
  destruct st as [l cl w hold f b t er po di ra]; simpl in *. subst l hold b cl.
  destruct w as [|w]; [lia|].
  assert (mstar (mkRouter [] true (S w) None f [] t er po di ra) [Recv; Dispatch; WorkDone 0]
    (mkRouter [] true (S w) None false [] t er po (di ++ [None]) ra)) as Hrun.
  { apply mrun_mstar. unfold mrun, mstep, this_machine. simpl.
    by rewrite (proj2 (Nat.ltb_lt _ _)) by lia. }
  eexists. split; [exact Hrun|]. split; [|done].
  eapply mstar_invariant; [apply router_inv_step|exact Hrun|exact HI].
Qed.

Lemma closed_turns n st :
  0 < workerPoolSize → router_inv bufferSize workerPoolSize handlers st →
  quiet st → lclosed st = true →
  ∃ ls st', Forall internal ls ∧ mstar st ls st' ∧ dispatched st' = dispatched st ++ replicate n None.
Proof.
  intros Hpos. revert st. induction n as [|n IH]; intros st HI Hq Hc.
  - exists [], st. split_and!; [constructor|constructor|by rewrite app_nil_r].
  - destruct (closed_turn st Hpos HI Hq Hc) as (st1&Hrun&HI1&Hq1&Hc1&Hd1).
    destruct (IH st1 HI1 Hq1 Hc1) as (ls&st2&Hls&Hrun2&Hd2).
    exists ([Recv; Dispatch; WorkDone 0] ++ ls), st2. split_and!.
    + apply Forall_app. split; [by repeat constructor|done].
    + by eapply mstar_app.
    + rewrite Hd2, Hd1, <- (assoc_L (++)). done.
Qed.

(** The timer of an event fires once. *)
Definition timer_inv st : Prop :=
  timeouts st ≤ length (dispatched st) +
    match holding st with Some _ => if timer_fired st then 1 else 0 | None => 0 end.

Lemma timer_inv_step l st st' : timer_inv st → mstep l st = Some st' → timer_inv st'.
Proof.
  unfold timer_inv, mstep, this_machine. intros HI Hs. destruct l; simpl in Hs;
    repeat (case_match; try discriminate Hs); simplify_eq/=;
    rewrite ?length_app; simpl; try lia;
    repeat match goal with E : holding _ = _ |- _ => rewrite E in HI end;
    repeat match goal with E : timer_fired _ = _ |- _ => rewrite E in HI end; try lia; congruence.
Qed.
End progress.

(** ** Properties *)

Section properties.
Context {H : Type} (bufferSize workerPoolSize : nat) (handlers : gmap string (list H)).
Implicit Types st : router H.

#[local] Existing Instance router_machine.
#[local] Instance the_machine : Machine (router H) router_label :=
  router_machine bufferSize workerPoolSize handlers.

(** C10: whatever the schedule, no worker is lost or made, events are
    dispatched in the order posted, each at most once (followed by nils when
    the listener was closed), and a dispatched event
    has run the handlers of its status in order, all of them once its worker
    is back, whatever errors they returned. *)
Theorem router_safe st :
  reachable (NewEventRouter workerPoolSize) st →
  workers st + length (busy st) = workerPoolSize ∧
  (∃ k, dispatched st ++ holding_list st ++ listener st = posted st ++ replicate k None ∧
        (0 < k → lclosed st = true)) ∧
  (∀ i j, busy st !! i = Some j → ran_of (job_id j) st ++ todo j = handlers_for handlers (job_event j)) ∧
  (∀ id e, dispatched st !! id = Some e → id ∉ (job_id <$> busy st) →
     ran_of id st = handlers_for handlers e).
Proof.
  intros Hr. destruct (router_reachable_inv _ _ _ _ Hr) as [Hp (k&Hk&Hk') Hj Hi Ho _ _].
  split_and!; [done| | |done].
  - exists k. split; [done|]. intros Hk0. by destruct (Hk' Hk0).
  - intros i j Hb. by destruct (Hj i j Hb).
Qed.

(** With at least one worker, the router's goroutines on their own bring
    any reachable state to one where everything posted has been dispatched, in
    order, and every dispatched event has run its handlers. *)
Theorem router_progress st :
  0 < workerPoolSize → reachable (NewEventRouter workerPoolSize) st → lclosed st = false →
  ∃ ls st', Forall internal ls ∧ mstar st ls st' ∧ dispatched st' = posted st ∧
    (∀ id e, posted st !! id = Some e → ran_of id st' = handlers_for handlers e) ∧
    workers st' = workerPoolSize.
Proof.
  intros Hpos Hr Hc. pose proof (router_reachable_inv _ _ _ _ Hr) as HI.
  destruct (router_quiesces _ _ _ st Hpos HI) as (ls&st'&Hls&Hrun&[HI' Hc' Hp' Ho']&Hl&Hh&Hb).
  exists ls, st'. destruct HI' as [Hpool (k&Hk&Hk') _ _ Hover _ _].
  assert (dispatched st' = posted st) as Hd.
  { assert (k = 0) as -> by (destruct k; [done|]; destruct Hk'; [lia|congruence]).
    unfold holding_list in Hk. rewrite Hl, Hh, !app_nil_r in Hk. congruence. }
  split_and!; [done|done|done| |rewrite Hb in Hpool; simpl in Hpool; lia].
  intros id e He. apply Hover; [congruence|]. rewrite Hb. apply not_elem_of_nil.
Qed.

(** When the docker client closes the listener - it does so when the
    daemon ends the event stream - the routing goroutine never stops: the
    receive succeeds at once with nil, and the router dispatches nil events
    without end, a worker each. *)
Theorem router_spins st n :
  0 < workerPoolSize → reachable (NewEventRouter workerPoolSize) st → lclosed st = true →
  ∃ ls st', Forall internal ls ∧ mstar st ls st' ∧
    ∃ l, dispatched st' = l ++ replicate n None.
Proof.
  intros Hpos Hr Hc. pose proof (router_reachable_inv _ _ _ _ Hr) as HI.
  destruct (router_quiesces _ _ _ st Hpos HI) as (ls&st'&Hls&Hrun&[HI' Hc' Hp' Ho']&Hq).
  destruct (closed_turns _ _ _ n st' Hpos HI' Hq) as (ls2&st2&Hls2&Hrun2&Hd); [congruence|].
  exists (ls ++ ls2), st2. split_and!; [by apply Forall_app|by eapply mstar_app|by eexists].
Qed.

(** Waiting for a worker is reported at most once per event: the timer
    is made once for an event and never reset, so after its first expiry the
    wait is silent, though the line it logs announces a new wait. *)
Theorem timer_fires_once st :
  reachable (NewEventRouter workerPoolSize) st →
  timeouts st ≤ length (dispatched st) + length (holding_list st).
Proof.
  intros Hr. assert (timer_inv st) as HI.
  { eapply reachable_invariant; [apply (timer_inv_step bufferSize workerPoolSize handlers)|exact Hr|].
    unfold timer_inv. simpl. lia. }
  unfold timer_inv, holding_list in *. destruct (holding st); [|done].
  destruct (timer_fired st); simpl; lia.
Qed.
End properties.

(** ** Witnesses *)

Definition demo_event (status : string) : APIEvent := mkAPIEvent status "c1" "img" 5.
Definition demo_handlers : gmap string (list nat) := {[ "start" := [1; 2] ]}.

#[local] Instance demo_machine : Machine (router nat) router_label := router_machine 2 1 demo_handlers.

(** Two events posted, the first at its second handler, the second waiting. *)
Definition demo_labels : list router_label :=
  [Post (Some (demo_event "start")); Post (Some (demo_event "pull")); Recv; Dispatch; Recv;
   TimerFires; Handled 0 (Some (OtherError "x"))].

Definition demo_router : router nat :=
  default (NewEventRouter 1) (mrun demo_labels (NewEventRouter 1)).

Lemma demo_router_reachable : reachable (NewEventRouter 1) demo_router.
Proof. exists demo_labels. apply mrun_mstar. vm_compute. reflexivity. Qed.

Lemma router_safe_witness :
  workers demo_router + length (busy demo_router) = 1 ∧
  (∃ k, dispatched demo_router ++ holding_list demo_router ++ listener demo_router
          = posted demo_router ++ replicate k None ∧ (0 < k → lclosed demo_router = true)) ∧
  (∀ i j, busy demo_router !! i = Some j →
     ran_of (job_id j) demo_router ++ todo j = handlers_for demo_handlers (job_event j)) ∧
  (∀ id e, dispatched demo_router !! id = Some e → id ∉ (job_id <$> busy demo_router) →
     ran_of id demo_router = handlers_for demo_handlers e).
Proof. apply (router_safe 2 1 demo_handlers demo_router). apply demo_router_reachable. Defined.

Lemma router_progress_witness :
  ∃ ls st', Forall internal ls ∧ mstar demo_router ls st' ∧ dispatched st' = posted demo_router ∧
    (∀ id e, posted demo_router !! id = Some e → ran_of id st' = handlers_for demo_handlers e) ∧
    workers st' = 1.
Proof.
  apply (router_progress 2 1 demo_handlers demo_router);
    [lia|apply demo_router_reachable|vm_compute; reflexivity].
Defined.

Lemma router_spins_witness :
  ∃ ls st', Forall internal ls ∧
    mstar (default demo_router (mrun [CloseListener] demo_router)) ls st' ∧
    ∃ l, dispatched st' = l ++ replicate 3 None.
Proof.
  apply (router_spins 2 1 demo_handlers); [lia| |vm_compute; reflexivity].
  exists (demo_labels ++ [CloseListener]). apply mrun_mstar. vm_compute. reflexivity.
Defined.

Lemma timer_fires_once_witness :
  timeouts demo_router ≤ length (dispatched demo_router) + length (holding_list demo_router).
Proof. apply (timer_fires_once 2 1 demo_handlers demo_router). apply demo_router_reachable. Defined.
