(* ===== verification/SendToRancher.v ===== *)
(** * [events/send_to_rancher_handler.go]

    The handler that reports a container event to the Rancher server.  Calls of
    it run in the workers of the event router, concurrently; they exclude each
    other with the application-wide locks of event-subscriber/locks, a set of
    keys owned by one goroutine.  [Handle] is one call with what the lock, the
    docker client and the server answer; [sender_machine] interleaves calls. *)

From Stdlib Require Import ZArith.
From S2P Require Import Prelude EventRouter.

Definition simulatedEvent : string := "-simulated-".

(** The report: an [rclient.ContainerEvent]. *)
Record ContainerEvent (C : Type) := mkContainerEvent {
  ExternalStatus : string;
  ExternalId : string;
  ExternalFrom : string;
  ExternalTimestamp : Z;
  ReportedHostUuid : string;
  DockerInspect : option C
}.
Arguments mkContainerEvent {C}.

(** The error is a [docker.NoSuchContainer]. *)
Definition is_NoSuchContainer (e : error) : bool :=
  match e with NoSuchContainer _ => true | _ => false end.

Section sender.
Context {C : Type} (hostUuid : string).

Definition container_event (event : APIEvent) (container : option C) : ContainerEvent C :=
  mkContainerEvent (Status event) (EventID event) (From event) (Time event) hostUuid container.

Definition lock_key (event : APIEvent) : string := Status event +:+ EventID event.

(** What the inspection gives: go on with a container or without, or the error
    that is returned. *)
Definition inspected (r : result C) : result (option C) :=
  match r with
  | Ok container => Ok (Some container)
  | Err e => if is_NoSuchContainer e then Ok None else Err e
  end.

(** One call: the error it returns and the events it created at the server.
    [locked] says that the key is taken. *)
Definition Handle (locked : bool) (InspectContainer : result C) (Create : option error)
    (event : APIEvent) : option error * list (ContainerEvent C) :=
  if String.eqb (From event) simulatedEvent then (None, [])
  else if locked then (None, [])
  else
    match inspected InspectContainer with
    | Err e => (Some e, [])
    | Ok container => (Create, [container_event event container])
    end.

(** ** Interleaved calls *)

Inductive phase :=
| Entered                                  (* before the test of [From] and the lock *)
| Inspecting                               (* holds the lock *)
| Creating (container : option C)          (* holds the lock *)
| Unlocking (r : option error)             (* returns, the deferred Unlock still to run *)
| Returned (r : option error).

Record senders := mkSenders {
  lockedItems : gset string;
  calls : list (APIEvent * phase);
  created : list (nat * ContainerEvent C)    (* requests made, with their call *)
}.

Inductive sender_label :=
| SLock (i : nat)
| SInspect (i : nat) (r : result C)
| SCreate (i : nat) (err : option error)
| SUnlock (i : nat).

Definition set_phase (i : nat) (event : APIEvent) (p : phase) (locks : gset string)
    (cr : list (nat * ContainerEvent C)) (st : senders) : senders :=
  mkSenders locks (<[i := (event, p)]> (calls st)) cr.

#[export] Instance sender_machine : Machine senders sender_label := λ l st,
  match l with
  | SLock i =>
      match calls st !! i with
      | Some (event, Entered) =>
          if String.eqb (From event) simulatedEvent then
            Some (set_phase i event (Returned None) (lockedItems st) (created st) st)
          else if bool_decide (lock_key event ∈ lockedItems st) then
            Some (set_phase i event (Returned None) (lockedItems st) (created st) st)
          else
            Some (set_phase i event Inspecting ({[lock_key event]} ∪ lockedItems st) (created st) st)
      | _ => None
      end
  | SInspect i r =>
      match calls st !! i with
      | Some (event, Inspecting) =>
          match inspected r with
          | Err e => Some (set_phase i event (Unlocking (Some e)) (lockedItems st) (created st) st)
          | Ok container => Some (set_phase i event (Creating container) (lockedItems st) (created st) st)
          end
      | _ => None
      end
  | SCreate i err =>
      match calls st !! i with
      | Some (event, Creating container) =>
          Some (set_phase i event (Unlocking err) (lockedItems st)
                  (created st ++ [(i, container_event event container)]) st)
      | _ => None
      end
  | SUnlock i =>
      match calls st !! i with
      | Some (event, Unlocking r) =>
          Some (set_phase i event (Returned r) (lockedItems st ∖ {[lock_key event]}) (created st) st)
      | _ => None
      end
  end.

Definition senders_init (events : list APIEvent) : senders :=
  mkSenders ∅ ((λ e, (e, Entered)) <$> events) [].

(** The call holds its lock. *)
Definition critical (p : phase) : bool :=
  match p with Inspecting | Creating _ | Unlocking _ => true | _ => false end.

Definition holds (st : senders) (i : nat) (k : string) : Prop :=
  ∃ event p, calls st !! i = Some (event, p) ∧ critical p = true ∧ lock_key event = k.

(** A call that has not yet reached the server. *)
Definition before_create (p : phase) : bool :=
  match p with Entered | Inspecting | Creating _ => true | _ => false end.

Record sender_inv (st : senders) : Prop := {
  s_locks k : k ∈ lockedItems st ↔ ∃ i, holds st i k;
  s_mutex i j k : holds st i k → holds st j k → i = j;
  s_real i event p : calls st !! i = Some (event, p) → critical p = true → From event ≠ simulatedEvent;
  s_created i ce : (i, ce) ∈ created st →
    ∃ event p c, calls st !! i = Some (event, p) ∧ before_create p = false ∧
      From event ≠ simulatedEvent ∧ ce = container_event event c;
  s_once : NoDup (fst <$> created st)
}.

Lemma holds_set i event p locks cr st e0 p0 j k :
  calls st !! i = Some (e0, p0) →
  holds (set_phase i event p locks cr st) j k ↔
    (j = i ∧ critical p = true ∧ lock_key event = k) ∨ (j ≠ i ∧ holds st j k).
Proof.
  intros Hi. unfold holds, set_phase. simpl. pose proof (lookup_lt_Some _ _ _ Hi) as Hlt. split.
  - intros (e&q&Hj&Hc&Hk). apply list_lookup_insert_Some in Hj as [(<-&[= <- <-]&_)|[Hne Hj]]; [by left|].
    right. split; [done|]. by exists e, q.
  - intros [(->&Hc&Hk)|(Hne&e&q&Hj&Hc&Hk)].
    + exists event, p. by rewrite list_lookup_insert_eq.
    + exists e, q. by rewrite list_lookup_insert_ne.
Qed.

Lemma sender_inv_init events : sender_inv (senders_init events).
Proof.
  assert (∀ i event p, calls (senders_init events) !! i = Some (event, p) → p = Entered) as Hent.
  { intros i event p Hi. apply list_lookup_fmap_Some in Hi. naive_solver. }
  split; simpl.
  - intros k. split; [set_solver|]. intros (i&e&p&Hi&Hc&_). by rewrite (Hent _ _ _ Hi) in Hc.
  - intros i j k (e&p&Hi&Hc&_). by rewrite (Hent _ _ _ Hi) in Hc.
  - intros i e p Hi Hc. by rewrite (Hent _ _ _ Hi) in Hc.
  - intros i ce Hin. by apply elem_of_nil in Hin.
  - constructor.
Qed.

(** A step that keeps what the locks say: the call stays inside or outside its
    critical section, or enters and leaves it with the lock. *)
Lemma sender_inv_set i event p p0 locks st :
  sender_inv st → calls st !! i = Some (event, p0) →
  (before_create p = true → before_create p0 = true) →
  (critical p = true → critical p0 = true ∨
     (From event ≠ simulatedEvent ∧ lock_key event ∉ lockedItems st)) →
  locks = (if critical p then {[lock_key event]} ∪ lockedItems st
           else if critical p0 then lockedItems st ∖ {[lock_key event]} else lockedItems st) →
  sender_inv (set_phase i event p locks (created st) st).
Proof.
  intros [Hl Hm Hr Hc Ho] Hi Hb Hcr ->. split; simpl; [| | | |done].
  - intros k. setoid_rewrite (holds_set _ _ _ _ _ _ _ _ _ _ Hi).
    assert (∀ j, holds st j k → j = i → k = lock_key event ∧ critical p0 = true) as Hself.
    { intros j (e&q&Hj&Hq&Hk) ->. rewrite Hi in Hj. by injection Hj as -> ->. }
    destruct (critical p) eqn:Ep; [|destruct (critical p0) eqn:Ep0].
    + rewrite elem_of_union, elem_of_singleton, Hl. split.
      * intros [->|[j Hj]]; [exists i; by left|]. destruct (decide (j = i)) as [E|E].
        -- exists i. left. by destruct (Hself _ Hj E) as [-> _].
        -- exists j. by right.
      * intros [j [(->&_&<-)|[_ Hj]]]; [by left|right; by exists j].
    + rewrite elem_of_difference, elem_of_singleton, Hl. split.
      * intros [[j Hj] Hne]. exists j. right. split; [|done]. intros E.
        by destruct (Hself _ Hj E) as [-> _].
      * intros [j [(?&?&?)|[Hne Hj]]]; [done|]. split; [by exists j|]. intros ->. apply Hne.
        apply (Hm _ _ _ Hj). by exists event, p0.
    + rewrite Hl. split; [|intros [j [(?&?&?)|[Hne Hj]]]; [done|by exists j]].
      intros [j Hj]. exists j. right. split; [|done]. intros E. by destruct (Hself _ Hj E).
  - assert (∀ j, j ≠ i → critical p = true → holds st j (lock_key event) → False) as Hex.
    { intros j Hne Hp Hj. destruct (Hcr Hp) as [Hp0|[_ Hfree]].
      - apply Hne, (Hm _ _ _ Hj). by exists event, p0.
      - apply Hfree, Hl. by exists j. }
    intros j1 j2 k Hj1 Hj2.
    apply (holds_set _ _ _ _ _ _ _ _ _ _ Hi) in Hj1 as [(->&Hp&<-)|[Hne1 Hj1]];
      apply (holds_set _ _ _ _ _ _ _ _ _ _ Hi) in Hj2 as [(->&Hp'&Hk)|[Hne2 Hj2]].
    + done.
    + by destruct (Hex j2).
    + subst k. by destruct (Hex j1).
    + by eapply Hm.
  - intros j e q [(<-&[= <- <-]&_)|[Hne Hj]]%list_lookup_insert_Some Hq; [|by eapply Hr].
    destruct (Hcr Hq) as [Hp0|[? _]]; [by eapply Hr|done].
  - intros j ce Hin. destruct (Hc j ce Hin) as (e&q&c&Hj&Hq&He&->).
    destruct (decide (j = i)) as [->|Hne].
    + rewrite Hi in Hj. injection Hj as <- <-. exists event, p, c.
      rewrite list_lookup_insert_eq by (by eapply lookup_lt_Some). split_and!; [done| |done|done].
      destruct (before_create p) eqn:E; [|done]. by rewrite Hb in Hq.
    + exists e, q, c. by rewrite list_lookup_insert_ne.
Qed.

Lemma sender_inv_create i err event c st :
  sender_inv st → calls st !! i = Some (event, Creating c) →
  sender_inv (set_phase i event (Unlocking err) (lockedItems st)
                (created st ++ [(i, container_event event c)]) st).
Proof.
  intros HI Hi. pose proof HI as [Hl Hm Hr Hc Ho].
  assert (lock_key event ∈ lockedItems st) as Hlk by (apply Hl; exists i; by exists event, (Creating c)).
  destruct (sender_inv_set i event (Unlocking err) (Creating c) (lockedItems st) st HI Hi)
    as [Hl' Hm' Hr' Hc' Ho']; [done|by left|simpl; set_solver|].
  split; simpl in *; [exact Hl'|exact Hm'|exact Hr'| |].
  - intros j ce [Hin|Hin]%elem_of_app; [by apply Hc'|].
    apply list_elem_of_singleton in Hin as [= -> ->]. exists event, (Unlocking err), c.
    rewrite list_lookup_insert_eq by (by eapply lookup_lt_Some).
    split_and!; [done|done|by eapply Hr|done].
  - rewrite fmap_app. apply NoDup_app. split_and!; [done| |apply NoDup_singleton].
    intros j Hj Hin. apply list_elem_of_singleton in Hin as ->. simpl in Hj.
    apply list_elem_of_fmap in Hj as ([j ce]&->&Hj).
    destruct (Hc _ _ Hj) as (e&q&c'&Hj'&Hq&_). simpl in *. rewrite Hi in Hj'. by injection Hj' as <- <-.
Qed.

Lemma sender_inv_step l st st' : sender_inv st → mstep l st = Some st' → sender_inv st'.
Proof.
  intros HI Hs. destruct l as [i|i r|i err|i]; unfold mstep in Hs; simpl in Hs;
    destruct (calls st !! i) as [[event p]|] eqn:Hi; try done; destruct p as [| |c|r'|r']; try done.
  - destruct (String.eqb_spec (From event) simulatedEvent) as [|Hsim];
      [injection Hs as <-; by eapply sender_inv_set|].
    case_bool_decide as Hk; injection Hs as <-; [by eapply sender_inv_set|].
    eapply sender_inv_set; [done|done|done|by right|done].
  - assert (lock_key event ∈ lockedItems st) as Hlk
      by (apply (s_locks _ HI); exists i; by exists event, Inspecting).
    destruct (inspected r); injection Hs as <-;
      (eapply sender_inv_set; [done|done|done|by left|simpl; set_solver]).
  - injection Hs as <-. by apply sender_inv_create.
  - injection Hs as <-. eapply sender_inv_set; done.
Qed.

Lemma sender_reachable_inv events st : reachable (senders_init events) st → sender_inv st.
Proof. intros H. eapply reachable_invariant; [apply sender_inv_step|exact H|apply sender_inv_init]. Qed.
End sender.

(** A call that runs by itself does what [Handle] says. *)
Lemma call_runs {C} hostUuid (st : senders (C := C)) i event ins cre :
  calls st !! i = Some (event, Entered) →
  let '(r, reports) := Handle hostUuid (bool_decide (lock_key event ∈ lockedItems st)) ins cre event in
  ∃ ls st', mstar (Machine0 := sender_machine hostUuid) st ls st' ∧
    Forall (λ l, l ∈ [SLock i; SInspect i ins; SCreate i cre; SUnlock i]) ls ∧
    calls st' = <[i := (event, Returned r)]> (calls st) ∧
    lockedItems st' = lockedItems st ∧
    created st' = created st ++ (pair i <$> reports).
Proof.
  intros Hi. pose proof (lookup_lt_Some _ _ _ Hi) as Hlt. unfold Handle.
  destruct (String.eqb (From event) simulatedEvent) eqn:Esim.
  { exists [SLock i]. eexists. split; [apply mrun_mstar; unfold mrun, mstep; simpl; by rewrite Hi, Esim|].
    simpl. rewrite app_nil_r. split_and!; [repeat constructor|done..]. }
  case_bool_decide as Hk.
  { exists [SLock i]. eexists. split.
    { apply mrun_mstar. unfold mrun, mstep. simpl. by rewrite Hi, Esim, bool_decide_eq_true_2. }
    simpl. rewrite app_nil_r. split_and!; [repeat constructor|done..]. }
  assert (({[lock_key event]} ∪ lockedItems st) ∖ {[lock_key event]} = lockedItems st) as Hset
    by set_solver.
  destruct (inspected ins) as [c|e] eqn:Eins.
  - exists [SLock i; SInspect i ins; SCreate i cre; SUnlock i]. eexists. split.
    { apply mrun_mstar. unfold mrun, mstep. simpl. rewrite Hi, Esim, bool_decide_eq_false_2 by done.
      simpl. rewrite list_lookup_insert_eq by done. rewrite Eins. simpl.
      rewrite !list_insert_insert_eq, list_lookup_insert_eq by done. simpl.
      by rewrite !list_insert_insert_eq, list_lookup_insert_eq by done. }
    simpl. rewrite Hset, !list_insert_insert_eq.
    split_and!; [|done|done|done]. repeat (constructor; [set_solver|]). constructor.
  - exists [SLock i; SInspect i ins; SUnlock i]. eexists. split.
    { apply mrun_mstar. unfold mrun, mstep. simpl. rewrite Hi, Esim, bool_decide_eq_false_2 by done.
      simpl. rewrite list_lookup_insert_eq by done. rewrite Eins. simpl.
      by rewrite !list_insert_insert_eq, list_lookup_insert_eq by done. }
    simpl. rewrite Hset, !list_insert_insert_eq, app_nil_r.
    split_and!; [|done|done|done]. repeat (constructor; [set_solver|]). constructor.
Qed.

(** *** A call by itself *)

(** A run of the steps of call [i] only, the docker client answering [ins] and
    the server [cre]. *)
Definition alone_run {C} hostUuid (i : nat) (ins : result C) (cre : option error)
    (st : senders (C := C)) (ls : list (sender_label (C := C))) (st' : senders (C := C)) : Prop :=
  mstar (Machine0 := sender_machine hostUuid) st ls st' ∧
  Forall (λ l, l ∈ [SLock i; SInspect i ins; SCreate i cre; SUnlock i]) ls.

(** At any time the call has at most one step to make. *)
Lemma alone_one {C} hostUuid i (ins : result C) cre st l l' st1 st2 :
  l ∈ [SLock i; SInspect i ins; SCreate i cre; SUnlock i] →
  l' ∈ [SLock i; SInspect i ins; SCreate i cre; SUnlock i] →
  sender_machine hostUuid l st = Some st1 → sender_machine hostUuid l' st = Some st2 → l = l'.
Proof.
  rewrite !elem_of_cons, !elem_of_nil. unfold sender_machine.
  intros [->|[->|[->|[->|[]]]]] [->|[->|[->|[->|[]]]]] H1 H2; try done; exfalso; simpl in H1, H2;
    destruct (calls st !! i) as [[e [| | | |]]|]; done.
Qed.

(** So that every such run goes on to where one has ended. *)
Lemma alone_unique {C} hostUuid i (ins : result C) cre st ls st' ls2 st2 :
  alone_run hostUuid i ins cre st ls st' → (∃ event r, calls st' !! i = Some (event, Returned r)) →
  alone_run hostUuid i ins cre st ls2 st2 → ∃ ls', alone_run hostUuid i ins cre st2 ls' st'.
Proof.
  intros [Hr Hl] Hend [Hr2 Hl2]. revert ls Hr Hl. induction Hr2 as [st|st l st1 ls2 st2 Hs _ IH]; intros ls Hr Hl.
  { by exists ls. }
  apply Forall_cons in Hl2 as [Hl2 Hls2]. destruct Hr as [st|st l0 st0 ls st' Hs0 Hr].
  - exfalso. destruct Hend as (e&r&Hi). rewrite !elem_of_cons, elem_of_nil in Hl2. unfold mstep, sender_machine in Hs.
    by destruct Hl2 as [->|[->|[->|[->|[]]]]]; rewrite Hi in Hs.
  - apply Forall_cons in Hl as [Hl Hls]. pose proof (alone_one _ _ _ _ _ _ _ _ _ Hl Hl2 Hs0 Hs) as ->.
    unfold mstep in *. rewrite Hs in Hs0. injection Hs0 as ->. by apply (IH Hls2 ls).
Qed.

(** ** Properties *)

(** C19: calls of the handler for the same status and container never overlap:
    at any time at most one of them is past the lock, and the set of locked keys
    is exactly that of the calls that hold one. *)
Theorem senders_exclude {C} hostUuid events (st : senders (C := C)) :
  reachable (Machine0 := sender_machine hostUuid) (senders_init events) st →
  (∀ k, k ∈ lockedItems st ↔ ∃ i, holds st i k) ∧
  (∀ i j ei ej pi pj, calls st !! i = Some (ei, pi) → calls st !! j = Some (ej, pj) →
     critical pi = true → critical pj = true →
     Status ei = Status ej → EventID ei = EventID ej → i = j).
Proof.
  intros Hr. destruct (sender_reachable_inv _ _ _ Hr) as [Hl Hm _ _ _]. split; [exact Hl|].
  intros i j ei ej pi pj Hi Hj Hci Hcj Hs He. apply (Hm i j (lock_key ei)).
  - by exists ei, pi.
  - exists ej, pj. split_and!; [done|done|]. unfold lock_key. by rewrite Hs, He.
Qed.

(** Whatever the interleaving, every event created at the server reports a
    call's own event - its status, container, image, time and this host - and no
    call creates two; simulated events are never reported. *)
Theorem senders_report {C} hostUuid events (st : senders (C := C)) :
  reachable (Machine0 := sender_machine hostUuid) (senders_init events) st →
  NoDup (fst <$> created st) ∧
  (∀ i ce, (i, ce) ∈ created st → ∃ event p,
     calls st !! i = Some (event, p) ∧ From event ≠ simulatedEvent ∧
     ExternalStatus _ ce = Status event ∧ ExternalId _ ce = EventID event ∧
     ExternalFrom _ ce = From event ∧ ExternalTimestamp _ ce = Time event ∧
     ReportedHostUuid _ ce = hostUuid).
Proof.
  intros Hr. destruct (sender_reachable_inv _ _ _ Hr) as [_ _ _ Hc Ho]. split; [done|].
  intros i ce Hin. destruct (Hc i ce Hin) as (event&p&c&Hi&_&Hs&->). by exists event, p.
Qed.

(** C35: a call that runs by itself ends, and in one way only, whatever the
    docker client and the server answer: a simulated event and one whose status
    and container are locked are dropped; otherwise the container is inspected,
    and the event is reported with its status, container, image and time, this
    host and the inspected container, or without one when docker no longer knows
    it; any other error of the inspection is returned and nothing reported.  The
    call returns the server's answer to the report, and the locks are as they
    were. *)
Theorem Handle_reports {C} hostUuid (st : senders (C := C)) i event ins cre :
  calls st !! i = Some (event, Entered) →
  ∃ st' r reports,
    (∃ ls, alone_run hostUuid i ins cre st ls st') ∧
    (∀ ls st2, alone_run hostUuid i ins cre st ls st2 → ∃ ls', alone_run hostUuid i ins cre st2 ls' st') ∧
    calls st' = <[i := (event, Returned r)]> (calls st) ∧
    lockedItems st' = lockedItems st ∧ created st' = created st ++ reports ∧
    (From event = "-simulated-" → r = None ∧ reports = []) ∧
    (Status event +:+ EventID event ∈ lockedItems st → r = None ∧ reports = []) ∧
    (From event ≠ "-simulated-" → (Status event +:+ EventID event) ∉ lockedItems st →
       let report container :=
         (i, {| ExternalStatus := Status event; ExternalId := EventID event; ExternalFrom := From event;
                ExternalTimestamp := Time event; ReportedHostUuid := hostUuid; DockerInspect := container |}) in
       (∀ container, ins = Ok container → r = cre ∧ reports = [report (Some container)]) ∧
       (∀ id, ins = Err (NoSuchContainer id) → r = cre ∧ reports = [report None]) ∧
       (∀ err, ins = Err err → (∀ id, err ≠ NoSuchContainer id) → r = Some err ∧ reports = [])).
Proof.
  intros Hi. pose proof (call_runs hostUuid st i event ins cre Hi) as Hrun.
  destruct (Handle hostUuid (bool_decide (lock_key event ∈ lockedItems st)) ins cre event) as [r reports] eqn:EH.
  destruct Hrun as (ls&st'&Hst&Hls&Hcalls&Hlock&Hcr). exists st', r, (pair i <$> reports).
  split; [by exists ls|]. split.
  { intros ls2 st2. apply (alone_unique hostUuid i ins cre st ls st'); [done|].
    rewrite Hcalls, list_lookup_insert_eq by (by eapply lookup_lt_Some). by eexists _, _. }
  split_and!; [done|done|done| | |]; unfold Handle, simulatedEvent, lock_key in EH.
  - intros Hs. rewrite Hs in EH. simpl in EH. by injection EH as <- <-.
  - intros Hk. rewrite bool_decide_eq_true_2 in EH by done. destruct (String.eqb _ _); by injection EH as <- <-.
  - intros Hs Hk. rewrite bool_decide_eq_false_2 in EH by done. apply String.eqb_neq in Hs. rewrite Hs in EH.
    split_and!; [intros ct ->|intros id ->|intros err -> Hne]; simpl in EH; [by injection EH as <- <-..|].
    destruct err; simpl in EH; first [by destruct (Hne _ eq_refl)|by injection EH as <- <-].
Qed.

(** ** Witnesses *)

Definition two_stops : list APIEvent := [demo_event "stop"; demo_event "stop"; demo_event "start"].

(** The first call is between its inspection and the request, the second was
    turned away, the third holds another lock. *)
Definition demo_senders : senders (C := string) :=
  default (senders_init two_stops) (mrun (Machine0 := sender_machine "h")
    [SLock 0; SLock 1; SLock 2; SInspect 0 (Err (NoSuchContainer "c1")); SInspect 2 (Ok "json");
     SCreate 2 None] (senders_init two_stops)).

Lemma demo_senders_reachable :
  reachable (Machine0 := sender_machine "h") (senders_init two_stops) demo_senders.
Proof.
  exists [SLock 0; SLock 1; SLock 2; SInspect 0 (Err (NoSuchContainer "c1")); SInspect 2 (Ok "json");
     SCreate 2 None].
  apply mrun_mstar. vm_compute. reflexivity.
Qed.

Lemma senders_exclude_witness :
  (∀ k, k ∈ lockedItems demo_senders ↔ ∃ i, holds demo_senders i k) ∧
  (∀ i j ei ej pi pj, calls demo_senders !! i = Some (ei, pi) → calls demo_senders !! j = Some (ej, pj) →
     critical pi = true → critical pj = true →
     Status ei = Status ej → EventID ei = EventID ej → i = j).
Proof. apply (senders_exclude "h" two_stops demo_senders). apply demo_senders_reachable. Defined.

Lemma senders_report_witness :
  created demo_senders = [(2, container_event "h" (demo_event "start") (Some "json"))] ∧
  NoDup (fst <$> created demo_senders) ∧
  (∀ i ce, (i, ce) ∈ created demo_senders → ∃ event p,
     calls demo_senders !! i = Some (event, p) ∧ From event ≠ simulatedEvent ∧
     ExternalStatus _ ce = Status event ∧ ExternalId _ ce = EventID event ∧
     ExternalFrom _ ce = From event ∧ ExternalTimestamp _ ce = Time event ∧
     ReportedHostUuid _ ce = "h").
Proof.
  split; [vm_compute; reflexivity|].
  apply (senders_report "h" two_stops demo_senders). apply demo_senders_reachable.
Defined.

Lemma Handle_reports_witness :
  ∃ st' r reports,
    (∃ ls, alone_run "h" 0 (Err (NoSuchContainer "c1")) (Some EOF) (senders_init (C := string) two_stops) ls st') ∧
    calls st' = <[0 := (demo_event "stop", Returned r)]> (calls (senders_init two_stops)) ∧
    lockedItems st' = ∅ ∧ created st' = reports ∧ r = Some EOF ∧
    reports = [(0, container_event "h" (demo_event "stop") None)].
Proof.
  destruct (Handle_reports "h" (senders_init (C := string) two_stops) 0 (demo_event "stop")
    (Err (NoSuchContainer "c1")) (Some EOF) eq_refl) as (st'&r&reports&Hrun&_&Hc&Hl&Hcr&_&_&Hrep).
  destruct (Hrep ltac:(discriminate) ltac:(apply not_elem_of_empty)) as (_&H&_).
  destruct (H "c1" eq_refl) as [Hr Hreports].
  exists st', r, reports. split; [exact Hrun|]. split; [exact Hc|]. split; [exact Hl|]. split; [exact Hcr|].
  split; [exact Hr|exact Hreports].
Defined.
