(* ===== verification/EventsProcessor.v ===== *)
(** * [events/entry.go]

    The start of event processing: the clients, the handlers per status, the
    router, and one simulated start event for every container already running.
    The clients and the answers of the docker daemon are parameters; the
    router is [EventRouter]'s, the only handler [SendToRancher]'s.
    [NewDockerEventsProcessor] takes the clients the agent is configured for.

    [Process] is the method up to its last loop; the loop's sends on the
    router's channel are the machine [process_machine], where a send waits until
    the channel takes it: [Process_returns] says when it comes to its end, and
    [Process_blocks] when it never does. *)

From Stdlib Require Import ZArith.
From S2P Require Import Prelude GoStd Config DockerClient EventRouter SendToRancher.

(** The fields of a [SendToRancherHandler] that matter: the clients are those of
    the process. *)
Record sender := mkSender { sender_hostUuid : string }.

(** [getHandlersFn]; the Rancher client is nil when none is configured. *)
Definition getHandlersFn {R} (rancherClient : option R) (hostUuid : string) :
    gmap string (list sender) :=
  match rancherClient with
  | None => ∅
  | Some _ =>
      let handlers : gmap string (list sender) := ∅ in
      let sendToRancherHandler := mkSender hostUuid in
      let handlers := <["start" := default [] (handlers !! "start") ++ [sendToRancherHandler]]> handlers in
      let handlers := <["stop" := [sendToRancherHandler]]> handlers in
      let handlers := <["die" := [sendToRancherHandler]]> handlers in
      let handlers := <["kill" := [sendToRancherHandler]]> handlers in
      <["destroy" := [sendToRancherHandler]]> handlers
  end.

(** The event posted for a container that is already running. *)
Definition simulated_start (id : string) : APIEvent := mkAPIEvent "start" id simulatedEvent 0.

(** What [Process] has set going when it returns an error or comes to its last
    loop. *)
Record processing (H : Type) := mkProcessing {
  pool : nat;                                  (* workers, and the listener's buffer *)
  table : gmap string (list H);
  listening : bool;                            (* AddEventListener succeeded *)
  posts : list APIEvent                        (* what the loop sends on the listener, in order *)
}.
Arguments mkProcessing {H}. Arguments pool {H}. Arguments table {H}. Arguments listening {H}.
Arguments posts {H}.

(** The pool size, and the functions that make the clients and the handlers. *)
Record DockerEventsProcessor (D R H : Type) := mkProcessor {
  poolSize : Z;
  getDockerClient : result D;
  getHandlers : D → option R → result (gmap string (list H));
  getRancherClient : result (option R)
}.
Arguments mkProcessor {D R H}. Arguments poolSize {D R H}. Arguments getDockerClient {D R H}.
Arguments getHandlers {D R H}. Arguments getRancherClient {D R H}.

Section process.
Context {D R H : Type}.
Implicit Types de : DockerEventsProcessor D R H.
Context (AddEventListener : D → option error) (ListContainers : D → result (list string)).

(** [NewEventRouter]: making a channel of a negative size panics. *)
Definition new_router (poolSize : Z) (handlers : gmap string (list H)) : outcome (processing H) :=
  if (poolSize <? 0)%Z then Panics NegativeMakeSize
  else Val (mkProcessing (Z.to_nat poolSize) handlers false []).

(** [router.Start()]: the routing goroutine runs whatever the listener's fate. *)
Definition Start (client : D) (p : processing H) : option error * processing H :=
  match AddEventListener client with
  | Some err => (Some err, p)
  | None => (None, mkProcessing (pool p) (table p) true (posts p))
  end.

(** [router.Stop()]: a router has a listener; the routing goroutine stays. *)
Definition Stop (RemoveEventListener : option error) (p : processing H) :
    option error * processing H :=
  match RemoveEventListener with
  | Some err => (Some err, p)
  | None => (None, mkProcessing (pool p) (table p) false (posts p))
  end.

(** [Process], up to its last loop: the error it returns or, without one, what is
    running when it comes to the loop, and the events it then sends. *)
Definition Process de : outcome (option error * option (processing H)) :=
  match getDockerClient de with
  | Err err => Val (Some err, None)
  | Ok dockerClient =>
      match getRancherClient de with
      | Err err => Val (Some err, None)
      | Ok rancherClient =>
          match getHandlers de dockerClient rancherClient with
          | Err err => Val (Some err, None)
          | Ok handlers =>
              router ← new_router (poolSize de) handlers;
              let '(_, router) := Start dockerClient router in
              match ListContainers dockerClient with
              | Err err => Val (Some err, Some router)
              | Ok containers =>
                  Val (None, Some (mkProcessing (pool router) (table router) (listening router)
                                     (simulated_start <$> containers)))
              end
          end
      end
  end.
End process.

(** ** The last loop of [Process] *)

Section sends.
Context {H : Type} (p : processing H).

(** The goroutine of [Process]: in its loop, returned without an error, or ended
    by a send on a channel the docker client has closed. *)
Inductive process_state :=
| Sending (st : router H) (to_send : list APIEvent)
| Processed (st : router H)
| SendPanicked (st : router H).

Inductive process_label :=
| PRouter (l : router_label)   (* a step of the router, or of the docker client *)
| PSend                        (* router.listener <- event, when there is room *)
| PReturn.                     (* return nil *)

(** The router beside it; docker sends and closes only what it listens for. *)
Definition beside_step (l : router_label) (st : router H) : option (router H) :=
  match l with
  | Post _ | CloseListener =>
      if listening p then router_machine (pool p) (pool p) (table p) l st else None
  | _ => router_machine (pool p) (pool p) (table p) l st
  end.

#[export] Instance process_machine : Machine process_state process_label := λ l s,
  match l, s with
  | PRouter l, Sending st to_send => st ← beside_step l st; Some (Sending st to_send)
  | PRouter l, Processed st => st ← beside_step l st; Some (Processed st)
  | PSend, Sending st (event :: to_send) =>
      if lclosed st then Some (SendPanicked st)
      else st ← router_machine (pool p) (pool p) (table p) (Post (Some event)) st; Some (Sending st to_send)
  | PReturn, Sending st [] => Some (Processed st)
  | _, _ => None
  end.

Definition process_start : process_state := Sending (NewEventRouter (pool p)) (posts p).
End sends.

(** [NewDockerEventsProcessor], by the configuration and the environment; what
    the client libraries make of their settings are parameters. *)
Definition getHostUuid {K} (c : config K) : string := HostUuid c.

Definition NewDockerEventsProcessor {K D R} (new_client : client_config → result D)
    (NewRancherClient : string → string → string → result R) (env : environment) (c : config K) :
    DockerEventsProcessor D R sender :=
  mkProcessor (EventsPoolSize c) (new_client (NewDockerClient env))
    (λ _ rancherClient, Ok (getHandlersFn rancherClient (getHostUuid c)))
    (GetRancherClient NewRancherClient c).

(** ** Lemmas *)

Section sending.
Context {H : Type} (p : processing H).
Implicit Types s : process_state (H := H).

#[local] Instance this_process : Machine process_state process_label := process_machine p.

Definition router_in s : router H :=
  match s with Sending st _ | Processed st | SendPanicked st => st end.

(** What was sent was posted, in order. *)
Definition process_inv s : Prop :=
  router_inv (pool p) (pool p) (table p) (router_in s) ∧
  match s with
  | Sending st to_send => ∃ sent, posts p = sent ++ to_send ∧ (Some <$> sent) `sublist_of` posted st
  | Processed st => (Some <$> posts p) `sublist_of` posted st
  | SendPanicked st => lclosed st = true
  end.

Lemma router_posted (n m : nat) (hs : gmap string (list H)) l st st' :
  router_machine n m hs l st = Some st' →
  posted st' = posted st ++ match l with Post e => [e] | _ => [] end.
Proof.
  intros Hs. unfold router_machine in Hs. destruct l; repeat case_match; simplify_eq/=; by rewrite ?app_nil_r.
Qed.

Lemma beside_inv l st st' : beside_step p l st = Some st' → router_machine (pool p) (pool p) (table p) l st = Some st'.
Proof. unfold beside_step. by destruct l, (listening p). Qed.

Lemma process_inv_step l s s' : process_inv s → mstep l s = Some s' → process_inv s'.
Proof.
  intros [HI Hs] Hst. unfold mstep, this_process, process_machine in Hst.
  assert (∀ l st st', router_inv (pool p) (pool p) (table p) st →
    router_machine (pool p) (pool p) (table p) l st = Some st' → router_inv (pool p) (pool p) (table p) st') as Hstep
    by (intros ?????; by eapply router_inv_step).
  destruct l as [l| |], s as [st es|st|st]; try done.
  - destruct (beside_step p l st) as [st'|] eqn:E; [|done]. injection Hst as <-. apply beside_inv in E.
    split; [by eapply Hstep|]. destruct Hs as (sent&?&?). exists sent. split; [done|].
    rewrite (router_posted _ _ _ _ _ _ E). by apply sublist_inserts_r.
  - destruct (beside_step p l st) as [st'|] eqn:E; [|done]. injection Hst as <-. apply beside_inv in E.
    split; [by eapply Hstep|]. rewrite (router_posted _ _ _ _ _ _ E). by apply sublist_inserts_r.
  - destruct es as [|e es]; [done|]. destruct (lclosed st) eqn:Ec; [injection Hst as <-; by split|].
    destruct (router_machine _ _ _ _ _) as [st'|] eqn:E; [|done]. injection Hst as <-.
    split; [by eapply Hstep|]. destruct Hs as (sent&Hp&Hsub). exists (sent ++ [e]).
    split; [by rewrite Hp, <- (assoc_L (++))|]. rewrite (router_posted _ _ _ _ _ _ E), fmap_app. by apply sublist_app.
  - destruct es as [|e es]; [|done]. injection Hst as <-. split; [done|]. destruct Hs as (sent&Hp&Hsub).
    by rewrite Hp, app_nil_r.
Qed.

Lemma process_reachable_inv s : reachable (process_start p) s → process_inv s.
Proof.
  intros Hr. eapply reachable_invariant; [apply process_inv_step|exact Hr|].
  split; [apply router_inv_init|]. exists []. split; [done|apply sublist_nil_l].
Qed.

(** The steps of the program's goroutines. *)
Definition process_going (l : process_label) : Prop := match l with PRouter l => going l | _ => True end.

Definition process_left s : nat :=
  match s with
  | Sending st es => S (sum_list_with (λ e, 5 + length (handlers_for (table p) (Some e))) es) + router_left (table p) st
  | Processed st => router_left (table p) st
  | SendPanicked _ => 0
  end.

Lemma post_left e st st' :
  router_machine (pool p) (pool p) (table p) (Post (Some e)) st = Some st' →
  lclosed st' = false ∧
  router_left (table p) st' ≤ router_left (table p) st + 4 + length (handlers_for (table p) (Some e)).
Proof.
  intros Hs. unfold router_machine in Hs. destruct (lclosed st) eqn:Hc; [done|].
  unfold router_left, queue_left, holding_list. destruct (_ <? _).
  - injection Hs as <-. simpl. rewrite sum_list_with_app. simpl. split; [done|lia].
  - destruct (pool p); [|done]. destruct (holding st) eqn:Eh; [done|]. injection Hs as <-. simpl.
    split; [done|]. lia.
Qed.

Lemma process_left_step l s s' :
  process_going l → lclosed (router_in s) = false → mstep l s = Some s' →
  lclosed (router_in s') = false ∧ process_left s' < process_left s.
Proof.
  intros Hg Hc Hst. unfold mstep, this_process, process_machine in Hst.
  destruct l as [l| |], s as [st es|st|st]; try done; simpl in Hg, Hc.
  - destruct (beside_step p l st) as [st'|] eqn:E; [|done]. injection Hst as <-. apply beside_inv in E.
    destruct (going_step (pool p) (pool p) (table p) 1 l st st' Hg Hc E) as (_&?&_).
    split; [done|]. pose proof (router_left_step (pool p) (pool p) (table p) l st st' Hg Hc E). simpl. lia.
  - destruct (beside_step p l st) as [st'|] eqn:E; [|done]. injection Hst as <-. apply beside_inv in E.
    destruct (going_step (pool p) (pool p) (table p) 1 l st st' Hg Hc E) as (_&?&_).
    split; [done|]. by apply (router_left_step (pool p) (pool p) (table p) l).
  - destruct es as [|e es]; [done|]. rewrite Hc in Hst. destruct (router_machine _ _ _ _ _) as [st'|] eqn:E; [|done].
    injection Hst as <-. apply post_left in E as [? ?]. split; [done|]. simpl in *. lia.
  - destruct es as [|e es]; [|done]. injection Hst as <-. split; [done|]. simpl. lia.
Qed.

(** A loop that cannot go on is over. *)
Lemma process_stuck s :
  0 < pool p → process_inv s → lclosed (router_in s) = false →
  (∀ l, process_going l → mstep l s = None) → ∃ st, s = Processed st.
Proof.
  intros Hpos [HI Hs] Hc Hstuck. destruct s as [st es|st|st]; simpl in *; [exfalso|by eexists|congruence].
  destruct (router_stuck (pool p) (pool p) (table p) st Hpos HI Hc) as (El&_).
  { intros l Hl. specialize (Hstuck (PRouter l) Hl). unfold mstep, this_process, process_machine in Hstuck.
    assert (beside_step p l st = router_machine (pool p) (pool p) (table p) l st) as E by (by destruct l).
    rewrite E in Hstuck. change (router_machine (pool p) (pool p) (table p) l st = None). revert Hstuck. by destruct (router_machine _ _ _ l st). }
  destruct es as [|e es].
  - by specialize (Hstuck PReturn I).
  - specialize (Hstuck PSend I). unfold mstep, this_process, process_machine in Hstuck. rewrite Hc in Hstuck.
    unfold router_machine in Hstuck. rewrite Hc, El in Hstuck. destruct (Nat.ltb_spec (length (@nil event_ptr)) (pool p)); [done|simpl in *; lia].
Qed.

(** With a worker every run of the goroutines comes to the return of [Process],
    all the start events sent: however they are scheduled they make at most
    [process_left] steps, and are not stuck before. *)
Lemma process_runs s ls s' :
  0 < pool p → reachable (process_start p) s → lclosed (router_in s) = false →
  mstar s ls s' → Forall process_going ls →
  length ls ≤ process_left s ∧
  ((∀ l, process_going l → mstep l s' = None) → ∃ st, s' = Processed st ∧ (Some <$> posts p) `sublist_of` posted st).
Proof.
  intros Hpos Hr Hc Hrun Hls.
  destruct (mstar_decreases process_going (λ s, lclosed (router_in s) = false) process_left s ls s') as [Hc' Hle];
    [intros; by eapply process_left_step|done..|].
  split; [lia|]. intros Hstuck.
  assert (process_inv s') as HI by (apply process_reachable_inv; eapply reachable_trans; [exact Hr|by exists ls]).
  destruct (process_stuck s' Hpos HI Hc' Hstuck) as [st ->]. exists st. split; [done|apply HI].
Qed.

(** Without a worker the second send waits for ever. *)
Lemma process_waits s :
  pool p = 0 → 1 < length (posts p) → reachable (process_start p) s →
  match s with Sending _ to_send => to_send ≠ [] | Processed _ => False | SendPanicked st => lclosed st = true end.
Proof.
  intros Hz Hlen Hr. pose proof (process_reachable_inv s Hr) as [HI Hs].
  assert (dispatched (router_in s) = []) as Hd.
  { assert (process_inv s ∧ dispatched (router_in s) = []) as [_ ?]; [|done].
    eapply (reachable_invariant (λ s, process_inv s ∧ dispatched (router_in s) = [])); [|exact Hr|split; [by apply process_reachable_inv, reachable_refl|done]].
    clear -Hz. intros l s s' [HI Hd] Hst. split; [by eapply process_inv_step|].
    assert (∀ l st st', router_inv (pool p) (pool p) (table p) st → dispatched st = [] →
      router_machine (pool p) (pool p) (table p) l st = Some st' → dispatched st' = []) as Hno.
    { clear -Hz. intros l st st' HI Hd Hs. pose proof (r_pool _ _ _ _ HI) as Hp. rewrite Hz in Hp.
      unfold router_machine in Hs. destruct l; repeat case_match; simplify_eq/=; first [done|lia]. }
    unfold mstep, this_process, process_machine in Hst. destruct HI as [HI _].
    destruct l as [l| |], s as [st es|st|st]; try done; simpl in Hd.
    - destruct (beside_step p l st) as [st'|] eqn:E; [|done]. injection Hst as <-. apply beside_inv in E. by eapply Hno.
    - destruct (beside_step p l st) as [st'|] eqn:E; [|done]. injection Hst as <-. apply beside_inv in E. by eapply Hno.
    - destruct es as [|e es]; [done|]. destruct (lclosed st); [by injection Hst as <-|].
      destruct (router_machine _ _ _ _ _) as [st'|] eqn:E; [|done]. injection Hst as <-. by eapply Hno.
    - destruct es; [|done]. by injection Hst as <-. }
  assert (length (posted (router_in s)) ≤ 1) as Hone.
  { destruct (r_fifo _ _ _ _ HI) as (k&Hk&_). pose proof (r_buffer _ _ _ _ HI) as Hb. rewrite Hz in Hb.
    apply (f_equal length) in Hk. rewrite Hd, !length_app in Hk. simpl in Hk.
    unfold holding_list in Hk. destruct (holding (router_in s)); simpl in Hk; lia. }
  destruct s as [st es|st|st]; simpl in *; [|apply sublist_length in Hs; rewrite length_fmap in Hs; lia|done].
  intros ->. destruct Hs as (sent&Hp&Hsub%sublist_length). rewrite app_nil_r in Hp. subst sent.
  rewrite length_fmap in Hsub. lia.
Qed.
End sending.

Lemma getHandlersFn_lookup {R} (r : R) hostUuid s :
  getHandlersFn (Some r) hostUuid !! s =
    if decide (s ∈ ["start"; "stop"; "die"; "kill"; "destroy"]) then Some [mkSender hostUuid] else None.
Proof.
  unfold getHandlersFn. rewrite lookup_empty. simpl.
  destruct (decide (s = "destroy")) as [->|?]; [by rewrite lookup_insert_eq|rewrite lookup_insert_ne by done].
  destruct (decide (s = "kill")) as [->|?]; [by rewrite lookup_insert_eq|rewrite lookup_insert_ne by done].
  destruct (decide (s = "die")) as [->|?]; [by rewrite lookup_insert_eq|rewrite lookup_insert_ne by done].
  destruct (decide (s = "stop")) as [->|?]; [by rewrite lookup_insert_eq|rewrite lookup_insert_ne by done].
  destruct (decide (s = "start")) as [->|?]; [by rewrite lookup_insert_eq|rewrite lookup_insert_ne by done].
  rewrite lookup_empty, decide_False; [done|set_solver].
Qed.

(** [Process] returns an error: nothing is posted. *)
Ltac process_fails :=
  simpl; split_and!;
    [intros p; split; [done|intros (?&?&?&?&?&?&?&?&?); congruence]|done|by eexists].

(** [Process] answers without an error exactly when the clients, the
    handlers and the list of containers are had; it has then started a router
    with a worker per pool slot and sends it one simulated start event per
    listed container, in order, whether or not the router could listen to the
    daemon: the error of [Start] is dropped. *)
Lemma Process_spec {D R H} (de : DockerEventsProcessor D R H) ae lc :
  (0 ≤ poolSize de)%Z →
  (∀ p, Process ae lc de = Val (None, Some p) ↔
     ∃ d r hs ids, getDockerClient de = Ok d ∧ getRancherClient de = Ok r ∧ getHandlers de d r = Ok hs ∧
       lc d = Ok ids ∧
       p = mkProcessing (Z.to_nat (poolSize de)) hs (bool_decide (ae d = None)) (simulated_start <$> ids)) ∧
  Process ae lc de ≠ Val (None, None) ∧
  is_val (Process ae lc de).
Proof.
  intros Hpos. unfold Process, new_router, Start. rewrite (proj2 (Z.ltb_ge _ _)) by done.
  destruct (getDockerClient de) as [d|]; [|process_fails]. destruct (getRancherClient de) as [r|]; [|process_fails].
  destruct (getHandlers de d r) as [hs|] eqn:Eh; [|process_fails].
  destruct (lc d) as [ids|] eqn:El; simpl; [|destruct (ae d); process_fails].
  destruct (ae d) as [e|] eqn:Ea; simpl; (split_and!; [intros p; split|done|by eexists]);
    first [by intros [= <-]; exists d, r, hs, ids; rewrite Ea
          |intros (d'&r'&hs'&ids'&[= <-]&[= <-]&Hh&Hl&->); rewrite Ea;
           assert (hs' = hs) as -> by congruence; assert (ids' = ids) as -> by congruence; reflexivity].
Qed.

(** ** Properties *)

(** With a worker, the last loop of [Process] is over after finitely many steps
    of the goroutines, whichever they are, and has sent its events in order,
    those of docker in between; every one of them that is dispatched runs the
    reporting handler, which makes no request for it. *)
Theorem Process_returns {H} (p : processing H) s ls s' :
  0 < pool p → reachable (Machine0 := process_machine p) (process_start p) s → lclosed (router_in s) = false →
  mstar (Machine0 := process_machine p) s ls s' → Forall process_going ls →
  length ls ≤ process_left p s ∧
  ((∀ l, process_going l → process_machine p l s' = None) →
     ∃ st, s' = Processed st ∧ (Some <$> posts p) `sublist_of` posted st) ∧
  ∀ hostUuid id (locked : bool) (ins : result string) cre,
    handlers_for (getHandlersFn (Some ()) hostUuid) (Some (simulated_start id)) = [mkSender hostUuid] ∧
    Handle hostUuid locked ins cre (simulated_start id) = (None, []).
Proof.
  intros Hpos Hr Hc Hrun Hls. destruct (process_runs p s ls s' Hpos Hr Hc Hrun Hls) as [Hle Hend].
  split_and!; [done|done|]. intros hostUuid id locked ins cre. split; [|done].
  unfold handlers_for. by rewrite getHandlersFn_lookup.
Qed.

(** With a pool of size zero and more than one container the loop never ends: the
    channel has no room and its reader waits for a worker that does not exist. *)
Theorem Process_blocks {H} (p : processing H) s :
  pool p = 0 → 1 < length (posts p) → reachable (Machine0 := process_machine p) (process_start p) s →
  match s with Sending _ to_send => to_send ≠ [] | Processed _ => False | SendPanicked st => lclosed st = true end.
Proof. apply process_waits. Qed.

(** ** Witnesses *)

Definition demo_processor : DockerEventsProcessor () () sender :=
  NewDockerEventsProcessor (λ _, Ok ()) (λ _ _ _, Ok ()) ∅
    (config_of (K := unit) (<["host-uuid" := FString "h"]> (<["cattle-url" := FString "u"]>
      (<["cattle-access-key" := FString "a"]> (<["cattle-secret-key" := FString "s"]> registry)))) None false).

Lemma Process_spec_witness :
  Process (λ _, Some EOF) (λ _, Ok ["a"; "b"]) demo_processor
  = Val (None, Some (mkProcessing 10 (getHandlersFn (Some ()) "h") false
                       [simulated_start "a"; simulated_start "b"])).
Proof.
  apply (proj1 (Process_spec demo_processor (λ _, Some EOF) (λ _, Ok ["a"; "b"]) ltac:(vm_compute; discriminate))).
  exists (), (Some ()), (getHandlersFn (Some ()) "h"), ["a"; "b"].
  split_and!; vm_compute; reflexivity.
Defined.

Definition demo_processing (n : nat) : processing sender :=
  mkProcessing n (getHandlersFn (Some ()) "h") true (simulated_start <$> ["a"; "b"]).

Definition demo_sending (n : nat) (ls : list process_label) : process_state :=
  default (process_start (demo_processing n)) (mrun (Machine0 := process_machine (demo_processing n)) ls (process_start (demo_processing n))).

Lemma Process_returns_witness :
  ∃ st, demo_sending 1 [PSend; PRouter Recv; PSend; PReturn; PRouter Dispatch; PRouter (Handled 0 None); PRouter (WorkDone 0);
                        PRouter Recv; PRouter Dispatch; PRouter (Handled 0 None); PRouter (WorkDone 0)] = Processed st ∧
    posted st = Some <$> (simulated_start <$> ["a"; "b"]) ∧ 11 ≤ process_left (demo_processing 1) (process_start (demo_processing 1)).
Proof.
  eexists. split; [vm_compute; reflexivity|]. split; [vm_compute; reflexivity|].
  refine (proj1 (Process_returns (demo_processing 1) (process_start (demo_processing 1))
    [PSend; PRouter Recv; PSend; PReturn; PRouter Dispatch; PRouter (Handled 0 None); PRouter (WorkDone 0);
     PRouter Recv; PRouter Dispatch; PRouter (Handled 0 None); PRouter (WorkDone 0)] _ _ _ _ _ _)).
  - simpl. lia.
  - apply reachable_refl.
  - reflexivity.
  - apply mrun_mstar. vm_compute. reflexivity.
  - repeat constructor.
Defined.

Lemma Process_blocks_witness :
  match demo_sending 0 [PSend; PRouter TimerFires] with
  | Sending _ to_send => to_send ≠ [] | Processed _ => False | SendPanicked st => lclosed st = true end.
Proof.
  apply (Process_blocks (demo_processing 0)); [reflexivity|simpl; lia|].
  exists [PSend; PRouter TimerFires]. apply mrun_mstar. vm_compute. reflexivity.
Defined.
