(* ===== verification/EventSystem.v ===== *)
(** * From docker's events to the server's

    The router of [EventRouter] with the handler of [SendToRancher] in its
    workers: a worker that comes to a handler starts a call of it, the calls of
    the workers interleave, and the worker goes on when its call has returned.
    [owner] records for every call the position of its event in the order of
    dispatch, [current] the call a worker is in, [turned] which calls found their
    key taken, and by which call.

    [events_reported] and [events_settle] follow an event from the listener to
    the report at the Rancher server: what holds of every state, and what every
    run comes to when docker sends no more. *)

From Stdlib Require Import ZArith.
From S2P Require Import Prelude EventRouter SendToRancher EventsProcessor.

Section reporting.
Context {C : Type} (bufferSize workerPoolSize : nat) (hostUuid : string).

(** The handlers of an agent with a Rancher client. *)
Definition reporters : gmap string (list sender) := getHandlersFn (Some tt) hostUuid.

Record reporting := mkReporting {
  router_of : router sender;
  senders_of : senders (C := C);
  owner : list nat;
  current : gmap nat nat;
  turned : list (nat * nat)
}.

Definition reporting_start : reporting := mkReporting (NewEventRouter workerPoolSize) (senders_init []) [] ∅ [].

Inductive reporting_label :=
| Route (l : router_label)       (* a step of the router, the return of a handler apart *)
| Call (i : nat)                 (* the worker of job [i] calls the next handler *)
| InCall (l : sender_label (C := C))      (* a step of a call *)
| Return (i : nat).              (* the call of job [i] has returned *)

(** A call of [Handle] begins. *)
Definition enter (event : APIEvent) (st : senders (C := C)) : senders :=
  mkSenders (lockedItems st) (calls st ++ [(event, Entered)]) (created st).

(** The call that holds a key. *)
Definition holder (key : string) (st : senders (C := C)) : option nat :=
  fst <$> list_find (λ c, critical c.2 = true ∧ lock_key c.1 = key) (calls st).

(** A call that finds its key taken is turned away by the call that holds it. *)
Definition turned_by (l : sender_label (C := C)) (st : senders (C := C)) : list (nat * nat) :=
  match l with
  | SLock i =>
      match calls st !! i with
      | Some (event, Entered) =>
          if String.eqb (From event) simulatedEvent then []
          else if bool_decide (lock_key event ∈ lockedItems st) then
            match holder (lock_key event) st with Some j => [(i, j)] | None => [] end
          else []
      | _ => []
      end
  | _ => []
  end.

Definition route_step := router_machine bufferSize workerPoolSize reporters.
Definition call_step := sender_machine (C := C) hostUuid.

Definition reporting_step (l : reporting_label) (s : reporting) : option reporting :=
  match l with
  | Route (Handled _ _) => None
  | Route l => r ← route_step l (router_of s); Some (mkReporting r (senders_of s) (owner s) (current s) (turned s))
  | Call i =>
      j ← busy (router_of s) !! i;
      match job_event j, todo j, current s !! job_id j with
      | Some event, _ :: _, None =>
          Some (mkReporting (router_of s) (enter event (senders_of s)) (owner s ++ [job_id j])
                  (<[job_id j := length (calls (senders_of s))]> (current s)) (turned s))
      | _, _, _ => None
      end
  | InCall l => st ← call_step l (senders_of s); 
      Some (mkReporting (router_of s) st (owner s) (current s) (turned s ++ turned_by l (senders_of s)))
  | Return i =>
      j ← busy (router_of s) !! i;
      n ← current s !! job_id j;
      match calls (senders_of s) !! n with
      | Some (_, Returned err) =>
          r ← route_step (Handled i err) (router_of s);
          Some (mkReporting r (senders_of s) (owner s) (delete (job_id j) (current s)) (turned s))
      | _ => None
      end
  end.

#[export] Instance reporting_machine : Machine reporting reporting_label := reporting_step.

(** ** What becomes of a call *)

(** The calls that were turned away are those of [turned]; every other call that
    is over has made its request or has failed.  A call that turned another away
    was not turned away itself. *)
Record turned_inv (st : senders (C := C)) (t : list (nat * nat)) : Prop := {
  t_done n event p : calls st !! n = Some (event, p) → From event ≠ simulatedEvent →
    match p with
    | Unlocking None => n ∈ (created st).*1
    | Returned None => n ∈ (created st).*1 ∨ n ∈ t.*1
    | _ => True
    end;
  t_pair n j : (n, j) ∈ t → ∃ en ej pj,
    calls st !! n = Some (en, Returned None) ∧ calls st !! j = Some (ej, pj) ∧
    lock_key en = lock_key ej ∧ From ej ≠ simulatedEvent ∧ pj ≠ Entered ∧ j ∉ t.*1
}.

(** A step of call [i], which adds [x] to the calls turned away. *)
Lemma turned_set i event p0 p locks cr (st : senders (C := C)) t x :
  turned_inv st t → calls st !! i = Some (event, p0) → (∀ r, p0 ≠ Returned r) → p ≠ Entered →
  created st `prefix_of` cr →
  (From event ≠ simulatedEvent →
    match p with
    | Unlocking None => i ∈ cr.*1
    | Returned None => i ∈ cr.*1 ∨ i ∈ (t ++ x).*1
    | _ => True
    end) →
  (∀ n j, (n, j) ∈ x → n = i ∧ p0 = Entered ∧ p = Returned None ∧ j ≠ i ∧ (j ∉ t.*1) ∧
     ∃ ej pj, calls st !! j = Some (ej, pj) ∧ lock_key event = lock_key ej ∧
       From ej ≠ simulatedEvent ∧ pj ≠ Entered) →
  turned_inv (set_phase i event p locks cr st) (t ++ x).
Proof.
  intros [Hd Hp] Hi Hp0 Hpe [r Hr] Hown Hx. pose proof (lookup_lt_Some _ _ _ Hi) as Hlt. split.
  - intros n e q Hn Hs. simpl in *. apply list_lookup_insert_Some in Hn as [(<-&[= <- <-]&_)|[Hne Hn]]; [by apply Hown|].
    specialize (Hd n e q Hn Hs). destruct q as [| |c|[err|]|[err|]]; try done; rewrite Hr, !fmap_app, !elem_of_app;
      [|destruct Hd]; auto.
  - assert (∀ n j, (n, j) ∈ t → n ≠ i) as Hni.
    { intros n j Hin ->. destruct (Hp i j Hin) as (en&ej&pj&Hn&_). rewrite Hi in Hn. injection Hn as _ ->. by destruct (Hp0 None). }
    intros n j Hin. apply elem_of_app in Hin as [Hin|Hin].
    + destruct (Hp n j Hin) as (en&ej&pj&Hn&Hj&Hk&Hs&Hpj&Hnt). specialize (Hni n j Hin).
      assert (j ∉ (t ++ x).*1) as Hnx.
      { rewrite fmap_app, not_elem_of_app. split; [done|]. intros ([n' j']&->&Hin')%list_elem_of_fmap.
        destruct (Hx _ _ Hin') as (?&?&_). simpl in *. simplify_eq. }
      destruct (decide (j = i)) as [->|Hji].
      * exists en, ej, p. rewrite Hi in Hj. injection Hj as <- <-. simpl.
        rewrite list_lookup_insert_ne, list_lookup_insert_eq by done. done.
      * exists en, ej, pj. simpl. rewrite !list_lookup_insert_ne by done. done.
    + destruct (Hx n j Hin) as (->&->&->&Hji&Hnt&ej&pj&Hj&Hk&Hs&Hpj). exists event, ej, pj. simpl.
      rewrite list_lookup_insert_eq, list_lookup_insert_ne by done. split_and!; try done.
      rewrite fmap_app, not_elem_of_app. split; [done|]. intros ([n' j']&->&Hin')%list_elem_of_fmap.
      destruct (Hx _ _ Hin') as (?&_). simpl in *. congruence.
Qed.

Lemma holder_spec (st : senders (C := C)) key :
  sender_inv hostUuid st → key ∈ lockedItems st →
  ∃ j e p, holder key st = Some j ∧ calls st !! j = Some (e, p) ∧ critical p = true ∧ lock_key e = key.
Proof.
  intros Hinv (j&e&p&Hj&Hc&Hk)%(s_locks hostUuid _ Hinv). unfold holder.
  destruct (list_find _ (calls st)) as [[j' [e' p']]|] eqn:E.
  - apply list_find_Some in E as (Hj'&[Hc' Hk']&_). by exists j', e', p'.
  - apply list_find_None in E. rewrite Forall_forall in E. destruct (E (e, p)); [|done].
    by eapply list_elem_of_lookup_2.
Qed.

Lemma turned_step l (st st' : senders (C := C)) t :
  sender_inv hostUuid st → turned_inv st t → call_step l st = Some st' → turned_inv st' (t ++ turned_by l st).
Proof.
  intros Hinv Ht Hs. destruct l as [i|i r|i err|i]; unfold call_step in Hs; simpl in *;
    destruct (calls st !! i) as [[event p]|] eqn:Hi; try done; destruct p as [| |c|r'|r']; try done.
  - destruct (String.eqb_spec (From event) simulatedEvent) as [Hsim|Hsim].
    { injection Hs as <-. apply (turned_set i event Entered); try done. intros n j Hin. by apply elem_of_nil in Hin. }
    case_bool_decide as Hk; injection Hs as <-.
    + destruct (holder_spec st _ Hinv Hk) as (j&e&p&->&Hj&Hc&He). apply (turned_set i event Entered); try done.
      * intros _. right. rewrite fmap_app. apply elem_of_app. right. by apply list_elem_of_singleton.
      * intros n j' [= -> ->]%list_elem_of_singleton. split_and!; try done.
        -- intros ->. rewrite Hi in Hj. by injection Hj as _ <-.
        -- intros ([n j']&->&Hin)%list_elem_of_fmap. destruct (t_pair _ _ Ht _ _ Hin) as (?&?&?&Hn&_).
           simpl in *. rewrite Hj in Hn. by injection Hn as _ ->.
        -- exists e, p. split_and!; [done|done|by eapply (s_real hostUuid)|by intros ->].
    + apply (turned_set i event Entered); try done. intros n j Hin. by apply elem_of_nil in Hin.
  - destruct (inspected r); injection Hs as <-; apply (turned_set i event Inspecting); try done;
      intros n j Hin; by apply elem_of_nil in Hin.
  - injection Hs as <-. apply (turned_set i event (Creating c)); try done; [by eexists| |].
    + intros _. destruct err; [done|]. rewrite fmap_app. apply elem_of_app. right. by apply list_elem_of_singleton.
    + intros n j Hin. by apply elem_of_nil in Hin.
  - injection Hs as <-. apply (turned_set i event (Unlocking r')); try done.
    + intros Hsim. pose proof (t_done _ _ Ht i event _ Hi Hsim) as Hd. destruct r'; [done|]. by left.
    + intros n j Hin. by apply elem_of_nil in Hin.
Qed.

Lemma turned_enter event (st : senders (C := C)) t : turned_inv st t → turned_inv (enter event st) t.
Proof.
  intros [Hd Hp]. split; simpl.
  - intros n e p Hn Hs. apply lookup_app_Some in Hn as [Hn|[_ Hn]]; [by apply (Hd n e p)|].
    apply list_lookup_singleton_Some in Hn as [_ [= <- <-]]. done.
  - intros n j Hin. destruct (Hp n j Hin) as (en&ej&pj&Hn&Hj&?). exists en, ej, pj.
    rewrite !lookup_app_l by (by eapply lookup_lt_Some). done.
Qed.

Lemma enter_inv event (st : senders (C := C)) : sender_inv hostUuid st → sender_inv hostUuid (enter event st).
Proof.
  intros [Hl Hm Hr Hc Ho].
  assert (∀ i e p, calls (enter event st) !! i = Some (e, p) → critical p = true → calls st !! i = Some (e, p)) as Hold.
  { intros i e p Hp Hcr. apply lookup_app_Some in Hp as [Hp|[_ Hp]]; [done|].
    apply list_lookup_singleton_Some in Hp as [_ [= <- <-]]. done. }
  assert (∀ i k, holds (enter event st) i k ↔ holds st i k) as Hh.
  { intros i k. split; intros (e&p&Hp&Hcr&Hk); exists e, p; split_and!; try done; [by apply Hold|].
    simpl. rewrite lookup_app_l by (by eapply lookup_lt_Some). done. }
  split; simpl.
  - intros k. rewrite Hl. by setoid_rewrite Hh.
  - intros i j k. rewrite !Hh. apply Hm.
  - intros i e p Hp Hcr. by apply (Hr i e p (Hold _ _ _ Hp Hcr)).
  - intros i ce Hin. destruct (Hc i ce Hin) as (e&p&c&Hi&Hrest). exists e, p, c. split; [|done].
    rewrite lookup_app_l by (by eapply lookup_lt_Some). done.
  - done.
Qed.

(** ** The invariant *)

Definition calls_of (id : nat) (l : list nat) : nat := length (filter (λ x, x = id) l).

Record reporting_inv (s : reporting) : Prop := {
  e_router : router_inv bufferSize workerPoolSize reporters (router_of s);
  e_senders : sender_inv hostUuid (senders_of s);
  e_turned : turned_inv (senders_of s) (turned s);
  e_owner : length (owner s) = length (calls (senders_of s));
  e_event n event p id : calls (senders_of s) !! n = Some (event, p) → owner s !! n = Some id →
    dispatched (router_of s) !! id = Some (Some event);
  e_current id n : current s !! id = Some n →
    owner s !! n = Some id ∧ ∃ i j, busy (router_of s) !! i = Some j ∧ job_id j = id ∧ todo j ≠ [];
  e_count id : calls_of id (owner s) =
    length (ran_of id (router_of s)) + (match current s !! id with Some _ => 1 | None => 0 end);
  e_over n event p id : calls (senders_of s) !! n = Some (event, p) → owner s !! n = Some id →
    current s !! id ≠ Some n → ∃ r, p = Returned r
}.

Lemma reporting_inv_start : reporting_inv reporting_start.
Proof.
  split; simpl; try done; [apply router_inv_init|apply (sender_inv_init hostUuid [])|].
  split; [done|]. intros n j Hin. by apply elem_of_nil in Hin.
Qed.

(** A step of the router other than the return of a handler. *)
Lemma route_keeps l r r' :
  route_step l r = Some r' → (∀ i err, l ≠ Handled i err) →
  dispatched r `prefix_of` dispatched r' ∧ ran r' = ran r ∧
  ∀ i j, busy r !! i = Some j → todo j ≠ [] → ∃ i', busy r' !! i' = Some j.
Proof.
  intros Hs Hl. unfold route_step, router_machine in Hs.
  destruct l as [e| | | | |i err|i]; [..|by destruct (Hl i err)|].
  1-4: repeat case_match; simplify_eq; simpl; split_and!; try done; intros i j Hj _; by exists i.
  - destruct (holding r) as [e|], (workers r); try done. injection Hs as <-. simpl. split_and!; [by eexists|done|].
    intros i j Hj _. exists i. by rewrite lookup_app_l by (by eapply lookup_lt_Some).
  - destruct (busy r !! i) as [[id e [|h hs]]|] eqn:Ei; try done. destruct (_ <? _); [|done]. injection Hs as <-. simpl.
    split_and!; [done|done|]. intros k j Hj Ht. destruct (decide (k < i)).
    + exists k. by rewrite list_lookup_delete_lt.
    + destruct k as [|k]; [assert (i = 0) as -> by lia; rewrite Ei in Hj; by injection Hj as <-|].
      destruct (decide (i = S k)) as [->|]; [rewrite Ei in Hj; by injection Hj as <-|].
      exists k. by rewrite list_lookup_delete_ge by lia.
Qed.

(** A step of a call. *)
Lemma call_keeps l (st st' : senders (C := C)) :
  call_step l st = Some st' →
  length (calls st') = length (calls st) ∧
  ∀ n event p', calls st' !! n = Some (event, p') →
    ∃ p, calls st !! n = Some (event, p) ∧ ((∃ r, p = Returned r) → ∃ r, p' = Returned r).
Proof.
  intros Hs. assert (∃ i event p p' locks cr, calls st !! i = Some (event, p) ∧ (∀ r, p ≠ Returned r) ∧
    st' = set_phase i event p' locks cr st) as (i&event&p&q&locks&cr&Hi&Hp&->).
  { destruct l as [i|i r|i err|i]; unfold call_step in Hs; simpl in Hs;
      destruct (calls st !! i) as [[event p]|] eqn:Hi; try done; destruct p as [| |c|r'|r']; try done;
      repeat case_match; simplify_eq; (eexists _, _, _, _, _, _; split_and!; [exact Hi|done|reflexivity]). }
  simpl. split; [by rewrite length_insert|]. intros n e p' Hn.
  apply list_lookup_insert_Some in Hn as [(<-&[= <- <-]&_)|[Hne Hn]].
  - exists p. split; [done|]. intros [r ->]. by destruct (Hp r).
  - exists p'. auto.
Qed.

Lemma reporting_inv_route l s r' :
  reporting_inv s → (∀ i err, l ≠ Handled i err) → route_step l (router_of s) = Some r' →
  reporting_inv (mkReporting r' (senders_of s) (owner s) (current s) (turned s)).
Proof.
  intros [Hr Hs Hn Ho He Hc Hk Hv] Hl Hst. destruct (route_keeps l _ _ Hst Hl) as ([d Hd]&Hran&Hbusy).
  split; simpl; try done.
  - by eapply router_inv_step.
  - intros n event p id Hp Hid. rewrite Hd. apply lookup_app_l_Some. by eapply He.
  - intros id n Hid. destruct (Hc id n Hid) as [? (i&j&Hj&Hji&Ht)]. split; [done|].
    destruct (Hbusy i j Hj Ht) as [i' Hi']. by exists i', j.
  - intros id. unfold ran_of. rewrite Hran. apply Hk.
Qed.

Lemma reporting_inv_in_call l s st' :
  reporting_inv s → call_step l (senders_of s) = Some st' →
  reporting_inv (mkReporting (router_of s) st' (owner s) (current s) (turned s ++ turned_by l (senders_of s))).
Proof.
  intros [Hr Hs Hn Ho He Hc Hk Hv] Hst. destruct (call_keeps l _ _ Hst) as [Hlen Hph]. split; simpl; try done.
  - by eapply sender_inv_step.
  - by apply turned_step.
  - congruence.
  - intros n event p id Hp Hid. destruct (Hph n event p Hp) as (q&Hq&_). by eapply He.
  - intros n event p id Hp Hid Hcu. destruct (Hph n event p Hp) as (q&Hq&Hret). apply Hret. by eapply Hv.
Qed.

Lemma reporting_inv_call i j event s :
  reporting_inv s → busy (router_of s) !! i = Some j → job_event j = Some event → todo j ≠ [] →
  current s !! job_id j = None →
  reporting_inv (mkReporting (router_of s) (enter event (senders_of s)) (owner s ++ [job_id j])
    (<[job_id j := length (calls (senders_of s))]> (current s)) (turned s)).
Proof.
  intros [Hr Hs Hn Ho He Hc Hk Hv] Hj Hje Ht Hcu.
  destruct (r_jobs _ _ _ _ Hr i j Hj) as [Hd _]. split; simpl; try done.
  - by apply enter_inv.
  - by apply turned_enter.
  - rewrite !length_app, Ho. done.
  - intros n e p id Hp Hid. apply lookup_app_Some in Hp as [Hp|[Hlen Hp]].
    + rewrite lookup_app_l in Hid by (rewrite Ho; by eapply lookup_lt_Some). by eapply He.
    + apply list_lookup_singleton_Some in Hp as [Hz [= <- <-]]. assert (n = length (owner s)) as -> by (rewrite Ho; lia).
      rewrite lookup_app_r, Nat.sub_diag in Hid by lia. injection Hid as <-. by rewrite Hd, Hje.
  - intros id n Hid. destruct (decide (id = job_id j)) as [->|Hne].
    + rewrite lookup_insert_eq in Hid. injection Hid as <-. rewrite <- Ho, lookup_app_r, Nat.sub_diag by lia.
      split; [done|]. by exists i, j.
    + rewrite lookup_insert_ne in Hid by done. destruct (Hc id n Hid) as [Hon ?]. split; [|done].
      by apply lookup_app_l_Some.
  - intros id. unfold calls_of. rewrite filter_app, length_app. fold (calls_of id (owner s)). rewrite Hk.
    destruct (decide (id = job_id j)) as [->|Hne].
    + rewrite lookup_insert_eq, Hcu. rewrite filter_cons_True by done. simpl. lia.
    + rewrite lookup_insert_ne by done. rewrite filter_cons_False by done. simpl. lia.
  - intros n e p id Hp Hid Hne. apply lookup_app_Some in Hp as [Hp|[Hlen Hp]].
    + rewrite lookup_app_l in Hid by (rewrite Ho; by eapply lookup_lt_Some).
      apply (Hv n e p id Hp Hid). intros Hc'. destruct (decide (id = job_id j)) as [->|Hn']; [congruence|].
      by rewrite lookup_insert_ne in Hne.
    + apply list_lookup_singleton_Some in Hp as [Hz [= <- <-]]. assert (n = length (owner s)) as -> by (rewrite Ho; lia).
      rewrite lookup_app_r, Nat.sub_diag in Hid by lia. injection Hid as <-. by rewrite lookup_insert_eq, Ho in Hne.
Qed.

Lemma reporting_inv_return i j n event err r' s :
  reporting_inv s → busy (router_of s) !! i = Some j → current s !! job_id j = Some n →
  calls (senders_of s) !! n = Some (event, Returned err) → route_step (Handled i err) (router_of s) = Some r' →
  reporting_inv (mkReporting r' (senders_of s) (owner s) (delete (job_id j) (current s)) (turned s)).
Proof.
  intros [Hr Hs Hn Ho He Hc Hk Hv] Hj Hcu Hcall Hst.
  assert (router_inv bufferSize workerPoolSize reporters r') as Hr' by (by eapply router_inv_step).
  unfold route_step, router_machine in Hst. rewrite Hj in Hst.
  destruct j as [id e [|h hs]]; [done|]. injection Hst as <-. simpl in *. split; simpl; try done.
  - intros id' m Hm. apply lookup_delete_Some in Hm as [Hne Hm].
    destruct (Hc id' m Hm) as [? (i'&j'&Hj'&Hji&Ht)]. split; [done|]. exists i', j'. split; [|done].
    rewrite list_lookup_insert_ne; [done|]. intros <-. rewrite Hj in Hj'. injection Hj' as <-. by destruct Hne.
  - intros id'. unfold ran_of. simpl. rewrite ran_of_snoc, length_app. rewrite Hk.
    destruct (decide (id = id')) as [->|Hne]; [rewrite lookup_delete_eq, Hcu|rewrite lookup_delete_ne by done]; simpl; lia.
  - intros m e' p id' Hm Hid Hne. destruct (decide (id' = id)) as [->|Hd].
    + destruct (decide (m = n)) as [->|Hmn]; [rewrite Hcall in Hm; injection Hm as _ <-; by exists err|].
      apply (Hv m e' p id Hm Hid). congruence.
    + apply (Hv m e' p id' Hm Hid). by rewrite lookup_delete_ne in Hne.
Qed.

#[local] Arguments route_step : simpl never.
#[local] Arguments call_step : simpl never.

Lemma reporting_inv_step l s s' : reporting_inv s → mstep l s = Some s' → reporting_inv s'.
Proof.
  intros HI Hs. unfold mstep, reporting_machine in Hs. destruct l as [l|i|l|i]; simpl in Hs.
  - destruct (route_step l (router_of s)) as [r'|] eqn:E; [|by destruct l].
    assert (∀ i err, l ≠ Handled i err) as Hl by (by intros i err ->).
    assert (s' = mkReporting r' (senders_of s) (owner s) (current s) (turned s)) as -> by (destruct l; first [done|by injection Hs as <-]).
    by apply (reporting_inv_route l).
  - destruct (busy (router_of s) !! i) as [j|] eqn:Ej; [|done]. simpl in Hs.
    destruct (job_event j) as [event|] eqn:Ee; [|done]. destruct (todo j) eqn:Et; [done|].
    destruct (current s !! job_id j) eqn:Ec; [done|]. injection Hs as <-. apply (reporting_inv_call i j event s); [exact HI|exact Ej|exact Ee|intros Hz|exact Ec]. rewrite Et in Hz. discriminate Hz.
  - destruct (call_step l (senders_of s)) as [st'|] eqn:E; [|done]. injection Hs as <-. by apply reporting_inv_in_call.
  - destruct (busy (router_of s) !! i) as [j|] eqn:Ej; [|done]. simpl in Hs.
    destruct (current s !! job_id j) as [n|] eqn:Ec; [|done]. simpl in Hs.
    destruct (calls (senders_of s) !! n) as [[event [| |c|r|err]]|] eqn:En; try done.
    destruct (route_step (Handled i err) (router_of s)) as [r'|] eqn:E; [|done]. injection Hs as <-.
    by eapply reporting_inv_return.
Qed.

(** Reports are never taken back. *)
Lemma created_grows l s s' : mstep l s = Some s' → created (senders_of s) `prefix_of` created (senders_of s').
Proof.
  intros Hs. unfold mstep, reporting_machine in Hs. destruct l as [l|i|l|i]; simpl in Hs.
  - destruct l; try done; destruct (route_step _ _); try done; by injection Hs as <-.
  - destruct (busy _ !! i) as [j|]; [|done]. simpl in Hs. repeat case_match; try done. by injection Hs as <-.
  - destruct (call_step l (senders_of s)) as [st'|] eqn:E; [|done]. injection Hs as <-. simpl.
    unfold call_step in E. destruct l; simpl in E; repeat case_match; simplify_eq; simpl; try done. by eexists.
  - destruct (busy _ !! i) as [j|]; [|done]. simpl in Hs. destruct (current s !! _) as [n|]; [|done]. simpl in Hs.
    repeat case_match; try done. destruct (route_step _ _); [|done]. by injection Hs as <-.
Qed.

Lemma created_grow s ls s' : mstar s ls s' → created (senders_of s) `prefix_of` created (senders_of s').
Proof.
  intros Hr. eapply (mstar_invariant (λ s', created (senders_of s) `prefix_of` created (senders_of s'))); [|exact Hr|done].
  intros l s1 s2 Hp Hs. etrans; [exact Hp|by eapply created_grows].
Qed.

Lemma reporting_reachable_inv s : reachable reporting_start s → reporting_inv s.
Proof. intros Hr. eapply reachable_invariant; [apply reporting_inv_step|exact Hr|apply reporting_inv_start]. Qed.

(** ** The calls of an event *)

Definition reported_statuses : list string := ["start"; "stop"; "die"; "kill"; "destroy"].

(** The events a report is due for. *)
Definition reported (event : APIEvent) : bool :=
  bool_decide (Status event ∈ reported_statuses) && negb (String.eqb (From event) simulatedEvent).

Lemma reported_spec event :
  reported event = true ↔ Status event ∈ reported_statuses ∧ From event ≠ simulatedEvent.
Proof. unfold reported. rewrite andb_true_iff, bool_decide_eq_true, negb_true_iff, String.eqb_neq. done. Qed.

Lemma reporters_for event :
  handlers_for reporters (Some event) = if decide (Status event ∈ reported_statuses) then [mkSender hostUuid] else [].
Proof. unfold handlers_for, reporters. rewrite getHandlersFn_lookup. fold reported_statuses. by case_decide. Qed.

(** None of the statuses is a prefix of another. *)
Lemma lock_key_inj e e' :
  Status e ∈ reported_statuses → Status e' ∈ reported_statuses → lock_key e = lock_key e' →
  Status e = Status e' ∧ EventID e = EventID e'.
Proof.
  unfold lock_key, reported_statuses. rewrite !elem_of_cons, !elem_of_nil. intros H1 H2 Hk.
  destruct H1 as [E1|[E1|[E1|[E1|[E1|[]]]]]]; destruct H2 as [E2|[E2|[E2|[E2|[E2|[]]]]]];
    rewrite E1, E2 in Hk |- *; simpl in Hk; try discriminate Hk; by injection Hk.
Qed.

(** No more calls than handlers, and all of them once the worker is back. *)
Lemma calls_bound s id e :
  reporting_inv s → dispatched (router_of s) !! id = Some e →
  calls_of id (owner s) ≤ length (handlers_for reporters e) ∧
  (id ∉ (job_id <$> busy (router_of s)) →
     calls_of id (owner s) = length (handlers_for reporters e) ∧ current s !! id = None).
Proof.
  intros [Hr _ _ _ _ Hc Hk _] Hd. rewrite Hk.
  assert (∀ n, current s !! id = Some n → id ∈ (job_id <$> busy (router_of s)) ∧
    S (length (ran_of id (router_of s))) ≤ length (handlers_for reporters e)) as Hcur.
  { intros n Hn. destruct (Hc id n Hn) as (_&i&j&Hj&<-&Ht). destruct (r_jobs _ _ _ _ Hr i j Hj) as [Hd' Hran].
    split; [apply list_elem_of_fmap; exists j; split; [done|by eapply list_elem_of_lookup_2]|].
    rewrite Hd in Hd'. injection Hd' as ->. rewrite <- Hran, length_app. destruct (todo j); [done|simpl; lia]. }
  assert (id ∉ (job_id <$> busy (router_of s)) → ran_of id (router_of s) = handlers_for reporters e) as Hover
    by (intros; by eapply r_over).
  destruct (decide (id ∈ (job_id <$> busy (router_of s)))) as [Hin|Hout].
  - split; [|done]. destruct (current s !! id) as [n|] eqn:En; [destruct (Hcur n eq_refl); lia|].
    apply list_elem_of_fmap in Hin as (j&->&[i Hj]%list_elem_of_lookup).
    destruct (r_jobs _ _ _ _ Hr i j Hj) as [Hd' Hran]. rewrite Hd in Hd'. injection Hd' as ->.
    rewrite <- Hran, length_app. lia.
  - destruct (current s !! id) as [n|] eqn:En; [by destruct (Hcur n eq_refl)|].
    rewrite Hover by done. split; [lia|]. split; [lia|done].
Qed.

Lemma calls_of_lookup id l n : l !! n = Some id → 0 < calls_of id l.
Proof.
  intros Hn. unfold calls_of. destruct (filter _ l) eqn:E; [|simpl; lia].
  assert (id ∈ filter (λ x, x = id) l) as Hin by (apply list_elem_of_filter; split; [done|by eapply list_elem_of_lookup_2]).
  rewrite E in Hin. by apply elem_of_nil in Hin.
Qed.

Lemma calls_of_exists id l : 0 < calls_of id l → ∃ n, l !! n = Some id.
Proof.
  unfold calls_of. destruct (filter _ l) as [|x k] eqn:E; simpl; [lia|]. intros _.
  assert (x ∈ filter (λ x, x = id) l) as Hin by (rewrite E; by left).
  apply list_elem_of_filter in Hin as [-> Hin]. by apply list_elem_of_lookup.
Qed.

Lemma calls_of_twice id l n m : l !! n = Some id → l !! m = Some id → calls_of id l ≤ 1 → n = m.
Proof.
  revert n m. induction l as [|x l IH]; intros n m Hn Hm Hle; [done|].
  assert (calls_of id (x :: l) = (if decide (x = id) then 1 else 0) + calls_of id l) as Hcons.
  { unfold calls_of. rewrite filter_cons. by case_decide. }
  rewrite Hcons in Hle. destruct n as [|n], m as [|m]; simpl in *; [done| | |].
  - injection Hn as ->. rewrite decide_True in Hle by done. apply calls_of_lookup in Hm. lia.
  - injection Hm as ->. rewrite decide_True in Hle by done. apply calls_of_lookup in Hn. lia.
  - f_equal. apply IH; [done|done|]. case_decide; lia.
Qed.

(** The event of a call. *)
Lemma call_event s n event p :
  reporting_inv s → calls (senders_of s) !! n = Some (event, p) →
  ∃ id, owner s !! n = Some id ∧ dispatched (router_of s) !! id = Some (Some event) ∧
    Status event ∈ reported_statuses ∧ calls_of id (owner s) = 1.
Proof.
  intros HI Hn. destruct (lookup_lt_is_Some_2 (owner s) n) as [id Hid].
  { rewrite (e_owner _ HI). by eapply lookup_lt_Some. }
  pose proof (e_event _ HI n event p id Hn Hid) as Hd. exists id. split; [done|]. split; [done|].
  destruct (calls_bound s id _ HI Hd) as [Hle _]. pose proof (calls_of_lookup _ _ _ Hid) as Hpos.
  rewrite reporters_for in Hle. case_decide; simpl in Hle; [split; [done|lia]|lia].
Qed.

(** The fate of a call that is over. *)
Definition at_work (p : phase (C := C)) : bool := critical p && before_create p.
Definition failed (p : phase (C := C)) : bool :=
  match p with Unlocking (Some _) | Returned (Some _) => true | _ => false end.

Lemma holder_fate st t j ej pj :
  turned_inv st t → calls st !! j = Some (ej, pj) → From ej ≠ simulatedEvent → pj ≠ Entered → j ∉ t.*1 →
  j ∈ (created st).*1 ∨ failed pj = true ∨ at_work pj = true.
Proof.
  intros Ht Hj Hs Hp Hnt. pose proof (t_done _ _ Ht j ej pj Hj Hs) as Hd.
  destruct pj as [| |c|[err|]|[err|]]; auto; try done. destruct Hd; [by left|done].
Qed.
End reporting.

(** *** What becomes of an event whose worker is back *)

Section fate.
Context {C : Type} (bufferSize workerPoolSize : nat) (hostUuid : string).

Lemma event_fate (s : reporting (C := C)) id event :
  reporting_inv bufferSize workerPoolSize hostUuid s →
  dispatched (router_of s) !! id = Some (Some event) → reported event = true →
  id ∉ (job_id <$> busy (router_of s)) →
  ∃ n err, owner s !! n = Some id ∧ calls (senders_of s) !! n = Some (event, Returned err) ∧
    (n ∈ (created (senders_of s)).*1 ∨ err ≠ None ∨
     ∃ j ej pj, (n, j) ∈ turned s ∧ calls (senders_of s) !! j = Some (ej, pj) ∧
       Status ej = Status event ∧ EventID ej = EventID event ∧
       (j ∈ (created (senders_of s)).*1 ∨ failed pj = true ∨ at_work pj = true)).
Proof.
  intros HI Hd [Hst Hsim]%reported_spec Hout.
  pose proof (e_turned _ _ _ _ HI) as Ht.
  destruct (calls_bound _ _ _ s id _ HI Hd) as [_ [Hc Hcur]]; [done|].
  rewrite reporters_for, decide_True in Hc by done.
  destruct (calls_of_exists id (owner s)) as [n Hn]; [rewrite Hc; simpl; lia|].
  destruct (lookup_lt_is_Some_2 (calls (senders_of s)) n) as [[e p] Hcn].
  { rewrite <- (e_owner _ _ _ _ HI). by eapply lookup_lt_Some. }
  pose proof (e_event _ _ _ _ HI n e p id Hcn Hn) as He. rewrite Hd in He. injection He as <-.
  destruct (e_over _ _ _ _ HI n event p id Hcn Hn) as [err ->]; [by rewrite Hcur|].
  exists n, err. split; [done|]. split; [done|]. destruct err as [err|]; [by right; left|].
  destruct (t_done _ _ Ht n event _ Hcn Hsim) as [Hin|Hin]; [by left|right; right].
  apply list_elem_of_fmap in Hin as ([n' j]&Hn'&Hin). simpl in Hn'. subst n'.
  destruct (t_pair _ _ Ht n j Hin) as (en&ej&pj&Hcn'&Hj&Hk&Hsj&Hpj&Hnt).
  rewrite Hcn in Hcn'. injection Hcn' as <-. exists j, ej, pj.
  destruct (call_event _ _ _ s j ej pj HI Hj) as (_&_&_&Hstj&_).
  destruct (lock_key_inj event ej Hst Hstj Hk). split_and!; [done..|by eapply holder_fate].
Qed.
End fate.

(** ** The steps of the agent's own goroutines *)

Section running.
Context {C : Type} (bufferSize workerPoolSize : nat) (hostUuid : string).
Implicit Types s : reporting (C := C).

#[local] Existing Instance reporting_machine.
#[local] Instance this_machine : Machine (reporting (C := C)) reporting_label :=
  reporting_machine bufferSize workerPoolSize hostUuid.

#[local] Arguments route_step : simpl never.
#[local] Arguments call_step : simpl never.

(** They are given good answers: the container is found or is gone, the server
    takes the report. *)
Definition own (l : reporting_label (C := C)) : Prop :=
  match l with
  | Route l => internal l
  | InCall (SInspect _ r) => match inspected r with Ok _ => True | Err _ => False end
  | InCall (SCreate _ err) => err = None
  | _ => True
  end.

Definition settled s : Prop :=
  (∀ n event p, calls (senders_of s) !! n = Some (event, p) → ∃ r, p = Returned r) ∧ current s = ∅.

Definition steps_left (p : phase (C := C)) : nat :=
  match p with Entered => 4 | Inspecting => 3 | Creating _ => 2 | Unlocking _ => 1 | Returned _ => 0 end.

Definition calls_left s : nat :=
  sum_list_with (λ c, steps_left c.2) (calls (senders_of s)) + size (current s).

(** What the end of the calls leaves as it is. *)
Record same_events s0 s : Prop := {
  se_inv : reporting_inv bufferSize workerPoolSize hostUuid s;
  se_closed : lclosed (router_of s) = lclosed (router_of s0);
  se_posted : posted (router_of s) = posted (router_of s0);
  se_dispatched : dispatched (router_of s) = dispatched (router_of s0)
}.

Lemma call_progress (st : senders (C := C)) n event p :
  calls st !! n = Some (event, p) → (∀ r, p ≠ Returned r) →
  ∃ l st' q, own (InCall l) ∧ call_step hostUuid l st = Some st' ∧
    calls st' = <[n := (event, q)]> (calls st) ∧ steps_left q < steps_left p.
Proof.
  intros Hn Hp. unfold call_step. destruct p as [| |c|r|r]; [| | | |by destruct (Hp r)].
  - exists (SLock n). simpl. rewrite Hn. destruct (String.eqb _ _); [|case_bool_decide];
      (eexists _, _; split_and!; [done|done|done|simpl; lia]).
  - exists (SInspect n (Err (NoSuchContainer ""))). simpl. rewrite Hn.
    eexists _, _; split_and!; [done|done|done|simpl; lia].
  - exists (SCreate n None). simpl. rewrite Hn. eexists _, _; split_and!; [done|done|done|simpl; lia].
  - exists (SUnlock n). simpl. rewrite Hn. eexists _, _; split_and!; [done|done|done|simpl; lia].
Qed.

Lemma settle_step s0 s :
  same_events s0 s → settled s ∨
  ∃ l s', own l ∧ mstep l s = Some s' ∧ same_events s0 s' ∧ calls_left s' < calls_left s.
Proof.
  intros [HI Hc Hp Hd].
  destruct (decide (Exists (λ c, 0 < steps_left c.2) (calls (senders_of s)))) as [Hex|Hno].
  - right. apply Exists_exists in Hex as ([event p]&Hin&Hpos). apply list_elem_of_lookup in Hin as [n Hn].
    destruct (call_progress _ n event p Hn) as (l&st'&q&Hown&Hst&Hcalls&Hlt); [intros r ->; simpl in Hpos; lia|].
    eexists (InCall l), _. split; [done|]. assert (mstep (InCall l) s = Some
      (mkReporting (router_of s) st' (owner s) (current s) (turned s ++ turned_by l (senders_of s)))) as Hs.
    { unfold mstep, this_machine, reporting_machine. simpl. by rewrite Hst. }
    split; [exact Hs|]. split; [split; try done; by eapply reporting_inv_step|].
    unfold calls_left. simpl. rewrite Hcalls.
    pose proof (sum_list_with_insert (λ c, steps_left c.2) _ n _ (event, q) Hn). simpl in *. lia.
  - assert (∀ n event p, calls (senders_of s) !! n = Some (event, p) → ∃ r, p = Returned r) as Hret.
    { intros n event p Hn. rewrite <- Forall_Exists_neg, Forall_forall in Hno.
      specialize (Hno (event, p) ltac:(by eapply list_elem_of_lookup_2)). simpl in Hno.
      destruct p as [| |c|r|r]; simpl in Hno; try lia. by exists r. }
    destruct (map_choose_or_empty (current s)) as [(id&n&Hid)|Hempty]; [right|by left].
    destruct (e_current _ _ _ _ HI id n Hid) as (Hon&i&j&Hj&<-&Ht).
    destruct (lookup_lt_is_Some_2 (calls (senders_of s)) n) as [[event p] Hn].
    { rewrite <- (e_owner _ _ _ _ HI). by eapply lookup_lt_Some. }
    destruct (Hret n event p Hn) as [err ->]. destruct j as [id e [|h hs]]; [done|]. simpl in *.
    eexists (Return i), _. split; [done|]. match goal with |- mstep _ _ = Some ?x ∧ _ => assert (mstep (Return i) s = Some x) as Hs end.
    { unfold mstep, this_machine, reporting_machine. simpl. rewrite Hj. simpl. rewrite Hid. simpl. rewrite Hn.
      unfold route_step, router_machine. rewrite Hj. reflexivity. }
    split; [exact Hs|]. split; [split; try done; by eapply reporting_inv_step|].
    unfold calls_left. simpl. rewrite map_size_delete, Hid. simpl.
    assert (size (current s) ≠ 0) by (apply map_size_ne_0_lookup; by exists id). lia.
Qed.

Lemma settles s :
  reporting_inv bufferSize workerPoolSize hostUuid s →
  ∃ ls s', Forall own ls ∧ mstar s ls s' ∧ same_events s s' ∧ settled s'.
Proof. intros HI. apply (drive own (same_events s) settled calls_left); [apply settle_step|by split]. Qed.

(** Nothing is locked when every call is over. *)
Lemma settled_unlocked s k :
  reporting_inv bufferSize workerPoolSize hostUuid s → settled s → k ∉ lockedItems (senders_of s).
Proof.
  intros HI [Hret _] (n&e&p&Hn&Hc&_)%(s_locks hostUuid _ (e_senders _ _ _ _ HI)).
  by destruct (Hret n e p Hn) as [r ->].
Qed.

Lemma in_calls st ls st' r ow cu t :
  mstar (Machine0 := sender_machine hostUuid) st ls st' →
  ∃ t', mstar (mkReporting r st ow cu t) (InCall <$> ls) (mkReporting r st' ow cu t').
Proof.
  intros Hr. revert t. induction Hr as [st|st l st1 ls st' Hs _ IH]; intros t; [exists t; constructor|].
  destruct (IH (t ++ turned_by l st)) as [t' Ht']. exists t'. econstructor; [|exact Ht'].
  assert (call_step hostUuid l st = Some st1) as Hs' by exact Hs.
  unfold mstep, this_machine, reporting_machine. simpl. by rewrite Hs'.
Qed.

(** The calls made since [s1] have reported their events. *)
Record since s1 s : Prop := {
  sn_inv : reporting_inv bufferSize workerPoolSize hostUuid s;
  sn_settled : settled s;
  sn_owner : owner s1 `prefix_of` owner s;
  sn_made n event p : length (owner s1) ≤ n → calls (senders_of s) !! n = Some (event, p) →
    From event ≠ simulatedEvent → ∃ c, (n, container_event hostUuid event c) ∈ created (senders_of s)
}.

(** A call entered where nothing is locked runs to its end and reports. *)
Lemma call_reports (st : senders (C := C)) event :
  lockedItems st = ∅ →
  ∃ ls st' reports, mstar (Machine0 := sender_machine hostUuid) (enter event st) ls st' ∧
    Forall own (InCall <$> ls) ∧ calls st' = calls st ++ [(event, Returned None)] ∧
    created st' = created st ++ reports ∧
    (From event ≠ simulatedEvent → reports = [(length (calls st), container_event hostUuid event None)]).
Proof.
  intros Hk. assert (calls (enter event st) !! length (calls st) = Some (event, Entered)) as Hn
    by (simpl; by rewrite lookup_app_r, Nat.sub_diag by done).
  pose proof (call_runs hostUuid _ _ event (Err (NoSuchContainer "")) None Hn) as Hrun.
  rewrite bool_decide_eq_false_2 in Hrun by (simpl; rewrite Hk; set_solver).
  destruct (Handle hostUuid false _ None event) as [res reports] eqn:EH.
  destruct Hrun as (ls&st'&Hst&Hls&Hcalls&_&Hcr).
  assert (res = None ∧ (From event ≠ simulatedEvent → reports = [container_event hostUuid event None])) as [-> Hrep].
  { unfold Handle in EH. destruct (String.eqb_spec (From event) simulatedEvent); by injection EH as <- <-. }
  exists ls, st', (pair (length (calls st)) <$> reports). split; [done|]. split; [|split; [|split; [done|]]].
  - apply Forall_fmap. eapply Forall_impl; [exact Hls|]. intros l Hl. simpl.
    rewrite !elem_of_cons, elem_of_nil in Hl. by destruct Hl as [->|[->|[->|[->|[]]]]].
  - rewrite Hcalls. simpl. by rewrite insert_app_r_alt, Nat.sub_diag by done.
  - intros Hsim. by rewrite (Hrep Hsim).
Qed.

(** The state after such a call. *)
Lemma since_report s1 s s' event reports :
  since s1 s → reporting_inv bufferSize workerPoolSize hostUuid s' → current s' = ∅ →
  owner s `prefix_of` owner s' → calls (senders_of s') = calls (senders_of s) ++ [(event, Returned None)] →
  created (senders_of s') = created (senders_of s) ++ reports →
  (From event ≠ simulatedEvent → reports = [(length (calls (senders_of s)), container_event hostUuid event None)]) →
  since s1 s'.
Proof.
  intros [HI [Hret Hcur] Hown Hmade] HI' Hcu Ho Hc Hcr Hrep. split; [done| |by etrans| ]; rewrite ?Hc.
  - split; [|done]. rewrite Hc. intros m e p [Hm|[_ Hm]]%lookup_app_Some; [by eapply Hret|].
    apply list_lookup_singleton_Some in Hm as [_ [= <- <-]]. by exists None.
  - intros m e p Hle [Hm|[Hlen Hm]]%lookup_app_Some Hsim; rewrite Hcr; setoid_rewrite elem_of_app.
    + destruct (Hmade m e p Hle Hm Hsim) as [c Hin]. exists c. by left.
    + apply list_lookup_singleton_Some in Hm as [Hz [= <- <-]]. exists None. rewrite Hrep by done.
      replace m with (length (calls (senders_of s))) by lia. right. by apply list_elem_of_singleton.
Qed.

(** A worker comes to a handler, and the call runs to its end. *)
Lemma runs_handler s1 s i r' :
  since s1 s → route_step bufferSize workerPoolSize hostUuid (Handled i None) (router_of s) = Some r' →
  ∃ ls s', Forall own ls ∧ mstar s ls s' ∧ router_of s' = r' ∧ since s1 s'.
Proof.
  intros Hsn Hs. pose proof Hsn as [HI Hset _ _]. pose proof Hset as [Hret Hcur].
  assert (∃ id e h hs, busy (router_of s) !! i = Some (mkJob id (Some e) (h :: hs))) as (id&e&h&hs&Hj).
  { unfold route_step, router_machine in Hs. destruct (busy (router_of s) !! i) as [[id e [|h hs]]|] eqn:Hj; try done.
    destruct e as [e|]; [by exists id, e, h, hs|]. destruct (r_jobs _ _ _ _ (e_router _ _ _ _ HI) i _ Hj) as [_ Hran].
    by destruct (ran_of _ _). }
  destruct (call_reports (senders_of s) e) as (ls&st'&reports&Hst&Hls&Hc&Hcr&Hrep).
  { apply set_eq. intros k. split; [|set_solver]. intros Hin. by apply settled_unlocked in Hin. }
  set (n := length (calls (senders_of s))) in *.
  destruct (in_calls _ ls st' (router_of s) (owner s ++ [id]) (<[id:=n]> (current s)) (turned s) Hst) as [t' Ht'].
  set (s' := mkReporting r' st' (owner s ++ [id]) (delete id (<[id:=n]> (current s))) t').
  assert (mstar s ([Call i] ++ (InCall <$> ls) ++ [Return i]) s') as Hall.
  { eapply mstar_app; [|eapply mstar_app; [exact Ht'|]]; apply mstar_one;
      unfold mstep, this_machine, reporting_machine; simpl; rewrite Hj; simpl.
    - rewrite Hcur, lookup_empty. by destruct s.
    - rewrite lookup_insert_eq. simpl. rewrite Hc, lookup_app_r, Nat.sub_diag by done. simpl. by rewrite Hs. }
  exists ([Call i] ++ (InCall <$> ls) ++ [Return i]), s'. split_and!; [|done|done|].
  - apply Forall_app. split; [by repeat constructor|]. apply Forall_app. split; [done|by repeat constructor].
  - apply (since_report s1 s s' e reports); try done; [|simpl|by apply prefix_app_r].
    + eapply mstar_invariant; [apply reporting_inv_step|exact Hall|exact HI].
    + by rewrite Hcur, delete_insert_id by apply lookup_empty.
Qed.

(** *** All runs *)

(** The steps of the agent's goroutines, whatever docker and the server answer;
    docker sends nothing more. *)
Definition agent_going (l : reporting_label (C := C)) : Prop :=
  match l with Route l => going l | _ => True end.

(** What a worker has to do: a step to come back, and six for each handler, five
    of them in its call and at its return. *)
Definition job_left (cu : gmap nat nat) (j : job sender) : nat :=
  1 + match cu !! job_id j with None => 6 * length (todo j) | Some _ => 6 * length (todo j) - 5 end.

Definition events_left s : nat :=
  queue_left (reporters hostUuid) 6 (router_of s) +
  sum_list_with (job_left (current s)) (busy (router_of s)) +
  sum_list_with (λ c, steps_left c.2) (calls (senders_of s)).

Record ongoing s0 s : Prop := {
  og_inv : reporting_inv bufferSize workerPoolSize hostUuid s;
  og_open : lclosed (router_of s) = false;
  og_posted : posted (router_of s) = posted (router_of s0)
}.

(** A step of a call uses one up. *)
Lemma call_left l (st st' : senders (C := C)) :
  call_step hostUuid l st = Some st' →
  sum_list_with (λ c, steps_left c.2) (calls st') < sum_list_with (λ c, steps_left c.2) (calls st).
Proof.
  intros Hs. assert (∃ i event p q, calls st !! i = Some (event, p) ∧ calls st' = <[i := (event, q)]> (calls st) ∧
    steps_left q < steps_left p) as (i&event&p&q&Hi&->&Hlt).
  { unfold call_step in Hs. destruct l as [i|i r|i err|i]; simpl in Hs;
      destruct (calls st !! i) as [[event p]|] eqn:Hi; try done; destruct p as [| |c|r'|r']; try done;
      repeat case_match; simplify_eq; (eexists i, event, _, _; split_and!; [exact Hi|reflexivity|simpl; lia]). }
  pose proof (sum_list_with_insert (λ c, steps_left c.2) _ i _ (event, q) Hi). simpl in *. lia.
Qed.

(** The identifiers of the jobs differ. *)
Lemma job_others s i j k z :
  reporting_inv bufferSize workerPoolSize hostUuid s → busy (router_of s) !! i = Some j →
  k ≠ i → busy (router_of s) !! k = Some z → job_id z ≠ job_id j.
Proof.
  intros HI Hi Hne Hk He. apply Hne. eapply (NoDup_lookup _ _ _ _ (r_ids _ _ _ _ (e_router _ _ _ _ HI)));
    rewrite list_lookup_fmap; [by rewrite Hk|rewrite Hi; simpl; by rewrite He].
Qed.

Lemma route_left l s r' :
  reporting_inv bufferSize workerPoolSize hostUuid s → lclosed (router_of s) = false → going l →
  (∀ i err, l ≠ Handled i err) → route_step bufferSize workerPoolSize hostUuid l (router_of s) = Some r' →
  events_left (mkReporting r' (senders_of s) (owner s) (current s) (turned s)) < events_left s.
Proof.
  intros HI Hc Hg Hl Hs. unfold events_left. simpl.
  destruct (going_step bufferSize workerPoolSize (reporters hostUuid) 6 l _ r' Hg Hc Hs) as (_&_&Hx).
  destruct l as [e| | | | |i err|i]; try done; [| | |by destruct (Hl i err)|].
  - destruct Hx as (->&_&?). lia.
  - destruct Hx as (->&_&?). lia.
  - destruct Hx as (e&->&?). rewrite sum_list_with_app. cbn [sum_list_with foldr].
    set (id := length (dispatched (router_of s))) in *. set (hs := handlers_for (reporters hostUuid) e) in *.
    assert (current s !! id = None) as En.
    { destruct (current s !! id) as [n|] eqn:En; [exfalso|done].
      destruct (e_current _ _ _ _ HI _ n En) as (_&i&j&Hj&Hid&_).
      pose proof (job_id_lt _ _ _ _ _ _ (e_router _ _ _ _ HI) Hj). lia. }
    assert (job_left (current s) (mkJob id e hs) = 1 + 6 * length hs) as -> by (unfold job_left; simpl; by rewrite En).
    lia.
  - destruct Hx as (id&e&Hi&->&_&->). pose proof (sum_list_with_delete (job_left (current s)) _ _ _ Hi) as Hsum.
    assert (1 ≤ job_left (current s) (mkJob id e [])) by (unfold job_left; lia). lia.
Qed.

Lemma ongoing_step s0 l s s' :
  agent_going l → ongoing s0 s → mstep l s = Some s' → ongoing s0 s' ∧ events_left s' < events_left s.
Proof.
  intros Hg [HI Hc Hp] Hs. pose proof (reporting_inv_step _ _ _ _ _ _ HI Hs) as HI'.
  unfold mstep, this_machine, reporting_machine in Hs. destruct l as [l|i|l|i]; simpl in Hs.
  - destruct (route_step bufferSize workerPoolSize hostUuid l (router_of s)) as [r'|] eqn:E; [|by destruct l].
    assert (∀ i err, l ≠ Handled i err) as Hl by (by intros i err ->).
    assert (s' = mkReporting r' (senders_of s) (owner s) (current s) (turned s)) as -> by (destruct l; first [done|by injection Hs as <-]).
    destruct (going_step _ _ _ 6 l _ r' Hg Hc E) as (Hp'&Hc'&_).
    split; [split; [done|done|simpl; congruence]|by apply (route_left l)].
  - destruct (busy (router_of s) !! i) as [j|] eqn:Ej; [|done]. simpl in Hs.
    destruct (job_event j) as [event|] eqn:Ee; [|done]. destruct (todo j) eqn:Et; [done|].
    destruct (current s !! job_id j) eqn:Ec; [done|]. injection Hs as <-. split; [by split|].
    unfold events_left. simpl. rewrite sum_list_with_app. simpl.
    pose proof (sum_list_with_change (job_left (current s)) (job_left (<[job_id j:=length (calls (senders_of s))]> (current s)))
      (busy (router_of s)) i j j Ej) as Hsum. rewrite list_insert_id in Hsum by done.
    assert (job_left (<[job_id j:=length (calls (senders_of s))]> (current s)) j + 5 = job_left (current s) j) as Hj.
    { unfold job_left. rewrite lookup_insert_eq, Ec, Et. simpl. lia. }
    specialize (Hsum ltac:(intros k z Hk Hz; unfold job_left; rewrite lookup_insert_ne;
      [done|intros He; by apply (job_others s i j k z HI Ej Hk Hz)])). lia.
  - destruct (call_step hostUuid l (senders_of s)) as [st'|] eqn:E; [|done]. injection Hs as <-. split; [by split|].
    unfold events_left. simpl. pose proof (call_left l _ _ E). lia.
  - destruct (busy (router_of s) !! i) as [j|] eqn:Ej; [|done]. simpl in Hs.
    destruct (current s !! job_id j) as [n|] eqn:Ec; [|done]. simpl in Hs.
    destruct (calls (senders_of s) !! n) as [[event [| |c|r|err]]|] eqn:En; try done.
    destruct (route_step bufferSize workerPoolSize hostUuid (Handled i err) (router_of s)) as [r'|] eqn:E; [|done]. injection Hs as <-.
    destruct (going_step _ _ _ 6 (Handled i err) _ r' I Hc E) as (Hp'&Hc'&id&e&h&hs&Hi&Hb&_&Hql).
    split; [split; [done|done|simpl; congruence]|]. unfold events_left. simpl. rewrite Hb, Hql.
    rewrite Ej in Hi. injection Hi as ->. simpl in *.
    pose proof (sum_list_with_change (job_left (current s)) (job_left (delete id (current s)))
      (busy (router_of s)) i _ (mkJob id e hs) Ej) as Hsum.
    specialize (Hsum ltac:(intros k z Hk Hz; unfold job_left; rewrite lookup_delete_ne;
      [done|intros He; by apply (job_others s i _ k z HI Ej Hk Hz)])).
    assert (job_left (current s) (mkJob id e (h :: hs)) = 2 + 6 * length hs) as E1 by (unfold job_left; simpl; rewrite Ec; lia).
    assert (job_left (delete id (current s)) (mkJob id e hs) = 1 + 6 * length hs) as E2
      by (unfold job_left; simpl; by rewrite lookup_delete_eq).
    rewrite E1, E2 in Hsum. lia.
Qed.

(** The goroutines are stuck only at rest. *)
Lemma events_stuck s :
  0 < workerPoolSize → reporting_inv bufferSize workerPoolSize hostUuid s → lclosed (router_of s) = false →
  (∀ l, agent_going l → mstep l s = None) → quiet (router_of s) ∧ settled s.
Proof.
  intros Hpos HI Hc Hstuck.
  assert (∀ n event p, calls (senders_of s) !! n = Some (event, p) → ∃ r, p = Returned r) as Hret.
  { intros n event p Hn. destruct p as [| |c|r|r]; [..|by exists r]; exfalso;
      (destruct (call_progress _ n event _ Hn) as (l&st'&q&_&Hst&_); [done|];
       specialize (Hstuck (InCall l) I); unfold mstep, this_machine, reporting_machine in Hstuck; simpl in Hstuck;
       by rewrite Hst in Hstuck). }
  assert (busy (router_of s) = []) as Hb.
  { destruct (busy (router_of s)) as [|[id e [|h hs]] js] eqn:E; [done|exfalso..].
    - specialize (Hstuck (Route (WorkDone 0)) I). unfold mstep, this_machine, reporting_machine in Hstuck. simpl in Hstuck.
      unfold route_step, router_machine in Hstuck. rewrite E in Hstuck. simpl in Hstuck.
      pose proof (r_pool _ _ _ _ (e_router _ _ _ _ HI)) as Hpool. rewrite E in Hpool. simpl in Hpool.
      destruct (Nat.ltb_spec (workers (router_of s)) workerPoolSize); [done|lia].
    - assert (busy (router_of s) !! 0 = Some (mkJob id e (h :: hs))) as Hj by by rewrite E.
      destruct e as [event|]; [|destruct (r_jobs _ _ _ _ (e_router _ _ _ _ HI) 0 _ Hj) as [_ Hran]; by destruct (ran_of _ _)].
      destruct (current s !! id) as [n|] eqn:Ec.
      + destruct (e_current _ _ _ _ HI id n Ec) as (Hon&_).
        destruct (lookup_lt_is_Some_2 (calls (senders_of s)) n) as [[ev p] Hn].
        { rewrite <- (e_owner _ _ _ _ HI). by eapply lookup_lt_Some. }
        destruct (Hret n ev p Hn) as [err ->]. specialize (Hstuck (Return 0) I).
        unfold mstep, this_machine, reporting_machine in Hstuck. simpl in Hstuck. rewrite Hj in Hstuck. simpl in Hstuck.
        rewrite Ec in Hstuck. simpl in Hstuck. rewrite Hn in Hstuck. unfold route_step, router_machine in Hstuck. by rewrite Hj in Hstuck.
      + specialize (Hstuck (Call 0) I). unfold mstep, this_machine, reporting_machine in Hstuck. simpl in Hstuck.
        rewrite Hj in Hstuck. simpl in Hstuck. by rewrite Ec in Hstuck. }
  split; [|split; [done|]].
  - apply (router_stuck bufferSize workerPoolSize (reporters hostUuid)); [done|apply HI|done|].
    intros l Hl. change (route_step bufferSize workerPoolSize hostUuid l (router_of s) = None).
    specialize (Hstuck (Route l) Hl). unfold mstep, this_machine, reporting_machine in Hstuck.
    destruct (route_step bufferSize workerPoolSize hostUuid l (router_of s)) as [r'|] eqn:E; [exfalso|done].
    destruct l as [e| | | | |i err|i]; try done; simpl in Hstuck; rewrite ?E in Hstuck; try done.
    unfold route_step, router_machine in E. by rewrite Hb in E.
  - apply map_empty. intros id. destruct (current s !! id) as [n|] eqn:En; [exfalso|done].
    destruct (e_current _ _ _ _ HI id n En) as (_&i&j&Hj&_). by rewrite Hb in Hj.
Qed.

(** The run of the router that [router_quiesces] gives, with its calls. *)
Lemma runs_router s1 ls r' s :
  mstar (Machine0 := router_machine bufferSize workerPoolSize (reporters hostUuid)) (router_of s) ls r' →
  Forall internal ls → since s1 s →
  ∃ ls' s', Forall own ls' ∧ mstar s ls' s' ∧ router_of s' = r' ∧ since s1 s'.
Proof.
  intros Hr. remember (router_of s) as r eqn:Er. revert s Er.
  induction Hr as [r|r l r1 ls r' Hs _ IH]; intros s -> Hls Hsn; [exists [], s; split_and!; [constructor|constructor|done|done]|].
  apply Forall_cons in Hls as [Hl Hls].
  assert (∃ ls1 s2, Forall own ls1 ∧ mstar s ls1 s2 ∧ router_of s2 = r1 ∧ since s1 s2) as (ls1&s2&Ho1&Hm1&E1&Hsn1).
  { assert ((∃ i, l = Handled i None) ∨ ∀ i err, l ≠ Handled i err) as [[i ->]|Hnot];
      [destruct l as [| | | | |i [err|]|]; try done; eauto; by left; exists i|by apply (runs_handler s1 s i)|].
    destruct Hsn as [HI Hset Hown Hmade].
    set (s2 := mkReporting r1 (senders_of s) (owner s) (current s) (turned s)).
    assert (mstep (Route l) s = Some s2) as Hs2.
    { assert (route_step bufferSize workerPoolSize hostUuid l (router_of s) = Some r1) as Hs' by exact Hs.
      unfold mstep, this_machine, reporting_machine. simpl.
      destruct l as [| | | | |i err|]; try done; try (by destruct (Hnot i err)); by rewrite Hs'. }
    exists [Route l], s2. split_and!; [by constructor|by apply mstar_one|done|].
    split; [by eapply reporting_inv_step|exact Hset|exact Hown|exact Hmade]. }
  destruct (IH s2) as (ls2&s3&Ho2&Hm2&E2&Hsn2); [done|done|done|].
  exists (ls1 ++ ls2), s3. split_and!; [by apply Forall_app|by eapply mstar_app|done|done].
Qed.
End running.

(** ** Properties *)

Section properties.
Context {C : Type} (bufferSize workerPoolSize : nat) (hostUuid : string).
Implicit Types s : reporting (C := C).

#[local] Existing Instance reporting_machine.
#[local] Instance the_machine : Machine (reporting (C := C)) reporting_label :=
  reporting_machine bufferSize workerPoolSize hostUuid.

(** C11: however the router, its workers and their calls interleave, a report at
    the Rancher server is of an event of one of the five statuses that docker
    sent and the router dispatched, with its fields and this host, and an event
    has one report at most; and when the worker of such an event is back, its
    call has reported it, has failed, or was turned away by a call for the same
    status and container that was at work then, and that has itself reported,
    has failed or is still at work. *)
Theorem events_reported s :
  reachable (reporting_start workerPoolSize) s →
  (∀ n ce, (n, ce) ∈ created (senders_of s) → ∃ id event c,
     owner s !! n = Some id ∧ dispatched (router_of s) !! id = Some (Some event) ∧
     reported event = true ∧ ce = container_event hostUuid event c) ∧
  (∀ n m ce cm, (n, ce) ∈ created (senders_of s) → (m, cm) ∈ created (senders_of s) →
     owner s !! n = owner s !! m → n = m ∧ ce = cm) ∧
  (∀ id event, dispatched (router_of s) !! id = Some (Some event) → reported event = true →
     id ∉ (job_id <$> busy (router_of s)) →
     ∃ n err, owner s !! n = Some id ∧ calls (senders_of s) !! n = Some (event, Returned err) ∧
       (n ∈ (created (senders_of s)).*1 ∨ err ≠ None ∨
        ∃ j ej pj, (n, j) ∈ turned s ∧ calls (senders_of s) !! j = Some (ej, pj) ∧
          Status ej = Status event ∧ EventID ej = EventID event ∧
          (j ∈ (created (senders_of s)).*1 ∨ failed pj = true ∨ at_work pj = true))).
Proof.
  intros Hr. pose proof (reporting_reachable_inv _ _ _ s Hr) as HI.
  pose proof (e_senders _ _ _ _ HI) as Hs. split_and!.
  - intros n ce Hin. destruct (s_created _ _ Hs n ce Hin) as (event&p&c&Hn&_&Hsim&->).
    destruct (call_event _ _ _ s n event p HI Hn) as (id&Hid&Hd&Hst&_).
    exists id, event, c. split_and!; [done|done|by apply reported_spec|done].
  - intros n m ce cm Hn Hm Ho.
    destruct (s_created _ _ Hs n ce Hn) as (event&p&c&Hcn&_).
    destruct (call_event _ _ _ s n event p HI Hcn) as (id&Hid&_&_&H1). rewrite Hid in Ho.
    assert (n = m) as -> by (eapply calls_of_twice; [done|done|lia]). split; [done|].
    apply list_elem_of_lookup in Hn as [i Hi], Hm as [j Hj].
    assert (i = j) as -> by (eapply (NoDup_lookup _ _ _ _ (s_once _ _ Hs)); by rewrite list_lookup_fmap, ?Hi, ?Hj).
    rewrite Hi in Hj. by injection Hj.
  - intros id event Hd Hrep Hout. by eapply event_fate.
Qed.

(** C12: with a worker and an open listener, when docker sends no more, every run of
    the agent's goroutines comes to rest, whatever the schedule and whatever the
    docker client and the server answer: they make at most [events_left] steps,
    and when none is left to make, everything docker sent has been dispatched in
    order, every worker is back and every call is over; and every event of one of
    the five statuses has been reported, or its call has failed, or was turned
    away by a call for the same status and container that has itself reported or
    failed. *)
Theorem events_settle s ls s' :
  0 < workerPoolSize → reachable (reporting_start workerPoolSize) s → lclosed (router_of s) = false →
  mstar s ls s' → Forall agent_going ls →
  length ls ≤ events_left hostUuid s ∧
  ((∀ l, agent_going l → mstep l s' = None) →
     dispatched (router_of s') = posted (router_of s) ∧ quiet (router_of s') ∧ settled s' ∧
     ∀ id event, posted (router_of s) !! id = Some (Some event) → reported event = true →
       ∃ n err, owner s' !! n = Some id ∧ calls (senders_of s') !! n = Some (event, Returned err) ∧
         ((∃ c, (n, container_event hostUuid event c) ∈ created (senders_of s')) ∨ err ≠ None ∨
          ∃ j ej err', (n, j) ∈ turned s' ∧ calls (senders_of s') !! j = Some (ej, Returned err') ∧
            Status ej = Status event ∧ EventID ej = EventID event ∧
            ((∃ c, (j, container_event hostUuid ej c) ∈ created (senders_of s')) ∨ err' ≠ None))).
Proof.
  intros Hpos Hr Hcl Hrun Hls. pose proof (reporting_reachable_inv _ _ _ s Hr) as HI.
  destruct (mstar_decreases agent_going (ongoing bufferSize workerPoolSize hostUuid s) (events_left hostUuid) s ls s')
    as [[HI' Hcl' Hp'] Hle]; [intros; by eapply ongoing_step|done|done|by split|].
  split; [lia|]. intros Hstuck.
  destruct (events_stuck bufferSize workerPoolSize hostUuid s' Hpos HI' Hcl' Hstuck) as [Hq Hset].
  assert (dispatched (router_of s') = posted (router_of s)) as Hd.
  { destruct (e_router _ _ _ _ HI') as [_ (k&Hk&Hk') _ _ _ _ _]. destruct Hq as (Hl&Hh&_).
    destruct k; [|destruct Hk'; [lia|congruence]].
    unfold holding_list in Hk. rewrite Hl, Hh, !app_nil_r in Hk. congruence. }
  assert (∀ n event err, calls (senders_of s') !! n = Some (event, Returned err) → n ∈ (created (senders_of s')).*1 →
    ∃ c, (n, container_event hostUuid event c) ∈ created (senders_of s')) as Hmade.
  { intros n event err Hn ([n' ce]&->&Hin)%list_elem_of_fmap. simpl in *.
    destruct (s_created _ _ (e_senders _ _ _ _ HI') _ _ Hin) as (e&p&c&Hn'&_&_&->). exists c. congruence. }
  split_and!; [done..|]. intros id event Hid Hrep. rewrite <- Hd in Hid.
  destruct (event_fate _ _ _ s' id event HI' Hid Hrep) as (n&err&Hn&Hc&Hfate).
  { destruct Hq as (_&_&->). apply not_elem_of_nil. }
  exists n, err. split; [done|]. split; [done|].
  destruct Hfate as [Hin|[?|(j&ej&pj&Hin&Hj&?&?&Hf)]]; [left; by eapply Hmade|by right; left|right; right].
  destruct (proj1 Hset j ej pj Hj) as [err' ->]. exists j, ej, err'. split_and!; try done.
  destruct Hf as [Hf|[Hf|Hf]]; [left; by eapply Hmade|right; by destruct err'|done].
Qed.

(** There is a run, besides, in which nothing is turned away: the agent's
    goroutines on their own - with a docker daemon and a server that answer, the
    calls one after the other - bring any reachable state to one where everything
    docker sent has been dispatched in order, and every event that was still
    waiting and is to be reported has its report. *)
Theorem events_reach_server s :
  0 < workerPoolSize → reachable (reporting_start workerPoolSize) s → lclosed (router_of s) = false →
  ∃ ls s', Forall own ls ∧ mstar s ls s' ∧ dispatched (router_of s') = posted (router_of s) ∧
    quiet (router_of s') ∧ settled s' ∧ created (senders_of s) `prefix_of` created (senders_of s') ∧
    ∀ id event, posted (router_of s) !! id = Some (Some event) → length (dispatched (router_of s)) ≤ id →
      reported event = true → ∃ n c, owner s' !! n = Some id ∧
        (n, container_event hostUuid event c) ∈ created (senders_of s').
Proof.
  intros Hpos Hr Hcl. pose proof (reporting_reachable_inv _ _ _ s Hr) as HI.
  destruct (settles _ _ _ s HI) as (ls1&s1&Ho1&Hm1&[HI1 Hc1 Hp1 Hd1]&Hset1).
  destruct (router_quiesces _ _ _ (router_of s1) Hpos (e_router _ _ _ _ HI1)) as (rs&r'&Hint&Hrun&[Hri Hrc Hrp _]&Hq).
  destruct (runs_router _ _ _ s1 rs r' s1 Hrun Hint) as (ls2&s2&Ho2&Hm2&<-&[HI2 Hset2 Hown Hmade]).
  { split; [done|done|done|]. intros n event p Hle Hn. apply lookup_lt_Some in Hn.
    rewrite (e_owner _ _ _ _ HI1) in Hle. lia. }
  assert (dispatched (router_of s2) = posted (router_of s)) as Hd.
  { destruct Hri as [_ (k&Hk&Hk') _ _ _ _ _]. destruct Hq as (Hl&Hh&_).
    destruct k; [|destruct Hk'; [lia|congruence]].
    unfold holding_list in Hk. rewrite Hl, Hh, !app_nil_r in Hk. congruence. }
  exists (ls1 ++ ls2), s2. split_and!; [by apply Forall_app|by eapply mstar_app|done|done|done| |].
  { eapply created_grow. by eapply mstar_app. }
  intros id event Hid Hle [Hst Hsim]%reported_spec. rewrite <- Hd in Hid.
  destruct (calls_bound _ _ _ s2 id _ HI2 Hid) as [_ [Hc _]].
  { destruct Hq as (_&_&->). apply not_elem_of_nil. }
  rewrite reporters_for, decide_True in Hc by done.
  destruct (calls_of_exists id (owner s2)) as [n Hn]; [rewrite Hc; simpl; lia|].
  destruct (lookup_lt_is_Some_2 (calls (senders_of s2)) n) as [[e p] Hcn].
  { rewrite <- (e_owner _ _ _ _ HI2). by eapply lookup_lt_Some. }
  pose proof (e_event _ _ _ _ HI2 n e p id Hcn Hn) as He. rewrite Hid in He. injection He as <-.
  assert (length (owner s1) ≤ n) as Hnew.
  { destruct (decide (n < length (owner s1))) as [Hlt|]; [exfalso|lia].
    destruct (lookup_lt_is_Some_2 (owner s1) n Hlt) as [id' Hid']. destruct Hown as [k Hk].
    assert (id' = id) as -> by (rewrite Hk, lookup_app_l, Hid' in Hn by done; by injection Hn).
    destruct (lookup_lt_is_Some_2 (calls (senders_of s1)) n) as [[e' p'] Hc'];
      [by rewrite <- (e_owner _ _ _ _ HI1)|].
    pose proof (e_event _ _ _ _ HI1 n e' p' id Hc' Hid') as He. apply lookup_lt_Some in He. rewrite Hd1 in He. lia. }
  destruct (Hmade n event p Hnew Hcn Hsim) as [c Hin]. by exists n, c.
Qed.
End properties.

(** ** Witnesses *)

(** Two starts and a stop of a container, two workers: the first call is at the
    docker client, which turns the second away; the third event waits. *)
Definition demo_report_labels : list (reporting_label (C := string)) :=
  [Route (Post (Some (demo_event "start"))); Route (Post (Some (demo_event "start")));
   Route Recv; Route (Post (Some (demo_event "stop"))); Route Dispatch; Call 0; InCall (SLock 0);
   Route Recv; Route Dispatch; Call 1; InCall (SLock 1); Return 1; Route (WorkDone 1);
   InCall (SInspect 0 (Ok "json")); InCall (SCreate 0 None)].

Definition demo_reporting : reporting (C := string) :=
  default (reporting_start 2) (mrun (Machine0 := reporting_machine 2 2 "h") demo_report_labels (reporting_start 2)).

Lemma demo_reporting_reachable : reachable (Machine0 := reporting_machine 2 2 "h") (reporting_start 2) demo_reporting.
Proof. exists demo_report_labels. apply mrun_mstar. vm_compute. reflexivity. Qed.

Lemma events_reported_witness :
  turned demo_reporting = [(1, 0)] ∧
  created (senders_of demo_reporting) = [(0, container_event "h" (demo_event "start") (Some "json"))] ∧
  ∃ n err, owner demo_reporting !! n = Some 1 ∧
    calls (senders_of demo_reporting) !! n = Some (demo_event "start", Returned err) ∧
    (n ∈ (created (senders_of demo_reporting)).*1 ∨ err ≠ None ∨
     ∃ j ej pj, (n, j) ∈ turned demo_reporting ∧ calls (senders_of demo_reporting) !! j = Some (ej, pj) ∧
       Status ej = "start" ∧ EventID ej = "c1" ∧
       (j ∈ (created (senders_of demo_reporting)).*1 ∨ failed pj = true ∨ at_work pj = true)).
Proof.
  split; [vm_compute; reflexivity|]. split; [vm_compute; reflexivity|].
  apply (events_reported 2 2 "h" demo_reporting demo_reporting_reachable);
    [vm_compute; reflexivity|vm_compute; reflexivity|].
  intros Hin. vm_compute in Hin. apply list_elem_of_singleton in Hin. discriminate Hin.
Defined.

(** The rest of that run. *)
Definition demo_rest : list (reporting_label (C := string)) :=
  [Route Recv; Route Dispatch; Call 1; InCall (SLock 2); InCall (SInspect 2 (Err EOF)); InCall (SUnlock 0);
   InCall (SUnlock 2); Return 0; Return 1; Route (WorkDone 1); Route (WorkDone 0)].

Definition demo_settled : reporting (C := string) :=
  default demo_reporting (mrun (Machine0 := reporting_machine 2 2 "h") demo_rest demo_reporting).

Lemma events_settle_witness :
  length demo_rest ≤ events_left "h" demo_reporting ∧
  ((∀ l, agent_going l → reporting_machine 2 2 "h" l demo_settled = None) →
     dispatched (router_of demo_settled) = posted (router_of demo_reporting) ∧ quiet (router_of demo_settled) ∧
     settled demo_settled ∧
     ∀ id event, posted (router_of demo_reporting) !! id = Some (Some event) → reported event = true →
       ∃ n err, owner demo_settled !! n = Some id ∧ calls (senders_of demo_settled) !! n = Some (event, Returned err) ∧
         ((∃ c, (n, container_event "h" event c) ∈ created (senders_of demo_settled)) ∨ err ≠ None ∨
          ∃ j ej err', (n, j) ∈ turned demo_settled ∧ calls (senders_of demo_settled) !! j = Some (ej, Returned err') ∧
            Status ej = Status event ∧ EventID ej = EventID event ∧
            ((∃ c, (j, container_event "h" ej c) ∈ created (senders_of demo_settled)) ∨ err' ≠ None))).
Proof.
  apply (events_settle 2 2 "h" demo_reporting demo_rest demo_settled);
    [lia|exact demo_reporting_reachable|vm_compute; reflexivity|apply mrun_mstar; vm_compute; reflexivity|repeat constructor].
Defined.

Lemma events_reach_server_witness :
  ∃ ls s', Forall own ls ∧ mstar (Machine0 := reporting_machine 2 2 "h") demo_reporting ls s' ∧
    dispatched (router_of s') = posted (router_of demo_reporting) ∧ quiet (router_of s') ∧ settled s' ∧
    created (senders_of demo_reporting) `prefix_of` created (senders_of s') ∧
    ∀ id event, posted (router_of demo_reporting) !! id = Some (Some event) →
      length (dispatched (router_of demo_reporting)) ≤ id → reported event = true →
      ∃ n c, owner s' !! n = Some id ∧ (n, container_event "h" event c) ∈ created (senders_of s').
Proof.
  apply (events_reach_server 2 2 "h" demo_reporting);
    [lia|exact demo_reporting_reachable|vm_compute; reflexivity].
Defined.
