(* ===== verification/Proxy.v ===== *)
(** * [proxy/proxy.go] and [proxy/io.go]

    The handler that forwards an HTTP request to a container and its response
    back.  A request and a response travel as a sequence of [HTTPMessage]s in
    JSON: [HttpReader] is the body of the request, read from the incoming
    messages, [HttpWriter] writes the response as messages.

    The JSON is that of [HttpCodec] and the urls are those of [Url].  How
    [net/http] writes a request, dialing, what the peer answers and the size at
    which [make] panics ([Alloc]) are parameters. *)

From Stdlib Require Import ZArith Ascii.
From S2P Require Import Prelude GoStd Url Json Wire HttpCodec.

(** ** [HttpReader] *)

(** [Chan]: the messages still to come, after which the channel is closed. *)
Record http_reader := mkReader { Buffered : bytes; Chan : list string; REOF : bool }.

(** ** [HttpWriter] *)

Record http_writer := mkWriter { WMessage : HTTPMessage; sent : list Message }.

(** The buffer of [io.Copy]. *)
Definition copy_buffer : nat := N.to_nat 32768.

Lemma copy_buffer_pos : 0 < copy_buffer.
Proof. unfold copy_buffer. lia. Qed.

#[global] Opaque copy_buffer.

Section proxy.
Definition read (h : http_reader) : http_reader * option error :=
  match Chan h with
  | [] => (h, Some EOF)
  | str :: chan =>
      match Unmarshal str with
      | Err e => (mkReader (Buffered h) chan (REOF h), Some e)
      | Ok message => (mkReader (HBody message) chan (HEOF message), None)
      end
  end.

(** [Read] into a slice of [n] bytes: the bytes copied and the error. *)
Definition Read (n : nat) (h : http_reader) : http_reader * (bytes * option error) :=
  let '(h, err) :=
    if (length (Buffered h) =? 0) && negb (REOF h) then read h else (h, None) in
  match err with
  | Some e => (h, ([], Some e))
  | None =>
      let count := Nat.min n (length (Buffered h)) in
      let data := take count (Buffered h) in
      (mkReader (drop count (Buffered h)) (Chan h) (REOF h),
       (data, if REOF h then Some EOF else None))
  end.

(** [io.Copy] from the reader with a buffer of [n] bytes: what it copied, and
    the error it returns ([EOF] is none). *)
Fixpoint Copy (n fuel : nat) (h : http_reader) : bytes * option error * http_reader :=
  match fuel with
  | 0 => ([], None, h)
  | S fuel =>
      let '(h, (data, err)) := Read n h in
      match err with
      | Some EOF => (data, None, h)
      | Some e => (data, Some e, h)
      | None => let '(rest, err, h) := Copy n fuel h in (data ++ rest, err, h)
      end
  end.

(** The number of reads is at most the bytes and the messages, and one. *)
Definition copy_fuel (h : http_reader) : nat :=
  S (length (Buffered h)) +
  foldr (λ s k, match Unmarshal s with Ok m => S (length (HBody m)) | Err _ => 1 end + k) 0 (Chan h).

Definition writeMessage (key : string) (h : http_writer) : http_writer :=
  mkWriter zero_message (sent h ++ [body_message key (Marshal (WMessage h))]).

Definition set_body (b : bytes) (m : HTTPMessage) : HTTPMessage :=
  mkHTTPMessage (Hijack m) (HHost m) (HMethod m) (URL m) (Headers m) (Code m) b (HEOF m).

Definition set_eof (m : HTTPMessage) : HTTPMessage :=
  mkHTTPMessage (Hijack m) (HHost m) (HMethod m) (URL m) (Headers m) (Code m) (HBody m) true.

Definition Write (key : string) (b : bytes) (h : http_writer) : http_writer :=
  writeMessage key (mkWriter (set_body b (WMessage h)) (sent h)).

Definition Close (key : string) (h : http_writer) : http_writer :=
  writeMessage key (mkWriter (set_eof (WMessage h)) (sent h)).

(** [io.Copy] into the writer: a [Write] per block read from the source. *)
Definition copy_to (key : string) (blocks : list bytes) (h : http_writer) : http_writer :=
  foldl (λ h b, Write key b h) h blocks.

(** ** The handler *)

Definition Header_Get (h : option (gmap string (list string))) (key : string) : string :=
  match h with
  | Some m => match m !! key with Some (v :: _) => v | _ => "" end
  | None => ""
  end.

(** [Set] writes into the map: on a nil map it panics. *)
Definition Header_Set (h : option (gmap string (list string))) (key v : string) :
    outcome (option (gmap string (list string))) :=
  match h with
  | Some m => Val (Some (<[key := [v]]> m))
  | None => Panics NilMapWrite
  end.

(** [setContentLength]: the request's length after it. *)
Definition setContentLength (header : option (gmap string (list string))) : result Z :=
  let lengthString := Header_Get header "Content-Length" in
  if String.eqb lengthString "" then Ok 0%Z else Atoi lengthString.

(** The first message; a closed channel reads as the empty string. *)
Definition readMessage (incoming : list string) : result HTTPMessage :=
  Unmarshal (hd "" incoming).

(** A method is a token of HTTP; the empty one stands for GET. *)
Definition token_char (c : ascii) : bool := alphanum c || char_in c "!#$%&'*+-.^_`|~".

Fixpoint all_token (s : string) : bool :=
  match s with "" => true | String c s => token_char c && all_token s end.

(** [http.NewRequest], as far as it may fail: the url it parses. *)
Definition NewRequest (method url : string) : result Url.URL :=
  if all_token method then Url.Parse url else Err (OtherError "net/http: invalid method").

(** What the outside world answers: dialing, the response with the blocks its
    body is read in. *)
Record response_of := mkResponse { RCode : Z; RHeader : gmap string (list string); RBlocks : list bytes }.

Context {AL : Alloc} (Dial : string → option error)
  (Do : HTTPMessage → Z → http_reader → result response_of)
  (request_bytes : HTTPMessage → option (gmap string (list string)) → bytes → result bytes).

Definition response_message (resp : response_of) : HTTPMessage :=
  mkHTTPMessage false "" "" "" (Some (RHeader resp)) (RCode resp) [] false.

(** [doHttp]: the messages it sends. *)
Definition doHttp (message : HTTPMessage) (key : string) (incoming : list string) : list Message :=
  match NewRequest (HMethod message) (URL message) with
  | Err _ => []
  | Ok _ =>
      match setContentLength (Headers message) with
      | Err _ => []
      | Ok length =>
          match Do message length (mkReader (HBody message) incoming (HEOF message)) with
          | Err _ => []
          | Ok resp =>
              let httpWriter := mkWriter (response_message resp) [] in
              let httpWriter := writeMessage key httpWriter in
              let httpWriter := copy_to key (RBlocks resp) httpWriter in
              sent (Close key httpWriter)
          end
      end
  end.

(** [make([]byte, content, content)] panics. *)
Definition make_panics (content : Z) : bool := (0 <? content)%Z && (max_alloc <? content)%Z.

(** The content read for the request itself: a buffer is made, the reader is read
    once, and what it did not give is left as zeros. *)
Definition initial_content (content : Z) (r : http_reader) : outcome (http_reader * bytes) :=
  if make_panics content then Panics MakeSizeOutOfRange
  else if (0 <? content)%Z then
    let '(r, (data, _)) := Read (Z.to_nat content) r in
    Val (r, data ++ replicate (Z.to_nat content - length data) Byte.x00)
  else Val (r, []).

(** What [doHijack] writes to the connection and sends back, the bytes read from
    the connection given as blocks. *)
Record hijacked := mkHijacked { to_conn : bytes; from_conn : list Message }.

Definition doHijack (message : HTTPMessage) (key : string) (incoming : list string)
    (blocks : list bytes) : outcome hijacked :=
  match NewRequest (HMethod message) (URL message) with
  | Err _ => Val (mkHijacked [] [])
  | Ok _ =>
      header ← (if String.eqb (Header_Get (Headers message) "Connection") "Upgrade"
                then Val (Headers message) else Header_Set (Headers message) "Connection" "close");
      match setContentLength header with
      | Err _ => Val (mkHijacked [] [])
      | Ok content =>
          match Url.Parse (URL message) with
          | Err _ => Val (mkHijacked [] [])
          | Ok u =>
              match Dial (Host u) with
              | Some _ => Val (mkHijacked [] [])
              | None =>
                  let reader := mkReader (HBody message) incoming (HEOF message) in
                  rb ← initial_content content reader;
                  let '(reader, buf) := rb in
                  match request_bytes message header buf with
                  | Err _ => Val (mkHijacked [] [])
                  | Ok req =>
                      let '(copied, _, _) := Copy copy_buffer (copy_fuel reader) reader in
                      let writer := copy_to key blocks (mkWriter zero_message []) in
                      Val (mkHijacked (req ++ copied) (sent (Close key writer)))
                  end
              end
          end
      end
  end.

(** [Handle]: what it sends, the closing signal included. *)
Definition Handle (key : string) (incoming : list string) (blocks : list bytes) : outcome (list Message) :=
  match readMessage incoming with
  | Err _ => Val [SignalHandlerClosed key]
  | Ok message =>
      out ← (if Hijack message
             then (λ h, from_conn h) <$> doHijack message key (tl incoming) blocks
             else Val (doHttp message key (tl incoming)));
      Val (out ++ [SignalHandlerClosed key])
  end.
End proxy.

(** The second parse of a hijacked request's url is the one [NewRequest] made. *)
Lemma NewRequest_Parse method url u : NewRequest method url = Ok u → Url.Parse url = Ok u.
Proof. unfold NewRequest. by destruct (all_token method). Qed.

(** ** Lemmas on the reader *)

Lemma take_min_length {A} n (l : list A) : take (Nat.min n (length l)) l = take n l.
Proof.
  destruct (Nat.le_ge_cases n (length l)); [by rewrite Nat.min_l|].
  by rewrite Nat.min_r, !take_ge by lia.
Qed.

Lemma drop_min_length {A} n (l : list A) : drop (Nat.min n (length l)) l = drop n l.
Proof.
  destruct (Nat.le_ge_cases n (length l)); [by rewrite Nat.min_l|].
  by rewrite Nat.min_r, !drop_ge by lia.
Qed.

Section reader.
Definition not_EOF (e : error) : option error := match e with EOF => None | e => Some e end.

(** The bytes a copy gets from messages: all the bodies, except that a body
    that comes with the end of the stream is read only once. *)
Fixpoint stream_of (n : nat) (chan : list string) : bytes * option error :=
  match chan with
  | [] => ([], None)
  | str :: chan =>
      match Unmarshal str with
      | Err e => ([], not_EOF e)
      | Ok message =>
          if HEOF message then (take n (HBody message), None)
          else let '(rest, err) := stream_of n chan in (HBody message ++ rest, err)
      end
  end.

Definition reader_spec (n : nat) (h : http_reader) : bytes * option error :=
  if REOF h then (take n (Buffered h), None)
  else let '(rest, err) := stream_of n (Chan h) in (Buffered h ++ rest, err).

Lemma Read_buffered n b chan eof :
  b ≠ [] → Read n (mkReader b chan eof) =
    (mkReader (drop n b) chan eof, (take n b, if eof then Some EOF else None)).
Proof.
  intros Hb. unfold Read. simpl. destruct (Nat.eqb_spec (length b) 0) as [Hl|_]; [by destruct b|].
  simpl. by rewrite take_min_length, drop_min_length.
Qed.

Lemma Read_spec n h :
  0 < n →
  let '(h', (data, err)) := Read n h in
  match err with
  | Some e => reader_spec n h = (data, not_EOF e)
  | None => copy_fuel h' < copy_fuel h ∧
      reader_spec n h = let '(rest, err) := reader_spec n h' in (data ++ rest, err)
  end.
Proof.
  intros Hn. unfold Read. destruct h as [b chan eof]. simpl.
  destruct eof; simpl.
  { rewrite andb_false_r. simpl. unfold reader_spec. simpl. f_equal. by rewrite take_min_length. }
  destruct b as [|x b]; simpl.
  - unfold read. simpl. destruct chan as [|str chan]; simpl; [done|].
    destruct (Unmarshal str) as [m|e] eqn:E; simpl; [|unfold reader_spec; simpl; by rewrite E].
    destruct (HEOF m) eqn:He; simpl.
    + unfold reader_spec. simpl. rewrite E, He. by rewrite take_min_length.
    + split.
      * unfold copy_fuel. simpl. rewrite E, length_drop. lia.
      * unfold reader_spec. simpl. rewrite E, He. destruct (stream_of n chan) as [rest err].
        by rewrite (assoc_L (++)), take_drop.
  - split.
    + unfold copy_fuel. simpl. assert (0 < Nat.min n (S (length b))) by lia.
      rewrite length_drop. simpl. lia.
    + unfold reader_spec. simpl. destruct (stream_of n chan) as [rest err].
      by rewrite (assoc_L (++)), take_drop.
Qed.

Lemma Copy_spec n fuel h :
  0 < n → copy_fuel h ≤ fuel → (Copy n fuel h).1 = reader_spec n h.
Proof.
  intros Hn. revert h. induction fuel as [|fuel IH]; intros h Hf; [unfold copy_fuel in Hf; lia|].
  pose proof (Read_spec n h Hn) as HR. cbn [Copy].
  destruct (Read n h) as [h' [data [e|]]].
  - rewrite HR. by destruct e.
  - destruct HR as [Hlt ->]. rewrite <- (IH h') by lia.
    by destruct (Copy n fuel h') as [[rest err] h''].
Qed.
End reader.

(** ** Lemmas on the writer *)

Section writer.
(** A response body and its end, as messages. *)
Definition relayed (blocks : list bytes) : list HTTPMessage :=
  ((λ b, set_body b zero_message) <$> blocks) ++ [set_eof zero_message].

Definition decode_out (out : list Message) : list (result HTTPMessage) := Unmarshal ∘ MBody <$> out.

Lemma plain_zero b eof : plain_message (mkHTTPMessage false "" "" "" None 0 b eof).
Proof. split; [repeat split; by apply is_ascii_utf8|done|done]. Qed.

Lemma copy_to_sent key blocks ss :
  copy_to key blocks (mkWriter zero_message ss) =
    mkWriter zero_message (ss ++ ((λ b, body_message key (Marshal (set_body b zero_message))) <$> blocks)).
Proof.
  revert ss. induction blocks as [|b blocks IH]; intros ss; simpl; [by rewrite app_nil_r|].
  unfold copy_to in *. simpl.
  change (Write key b (mkWriter zero_message ss))
    with (mkWriter zero_message (ss ++ [body_message key (Marshal (set_body b zero_message))])).
  by rewrite IH, <- (assoc_L (++)).
Qed.

Lemma relay_sent key blocks ss :
  sent (Close key (copy_to key blocks (mkWriter zero_message ss))) =
    ss ++ (body_message key ∘ Marshal <$> relayed blocks).
Proof.
  rewrite copy_to_sent. unfold Close, writeMessage, relayed. simpl.
  rewrite fmap_app, <- list_fmap_compose, <- (assoc_L (++)). done.
Qed.

Lemma decode_out_relayed key ms :
  Forall plain_message ms → decode_out (body_message key ∘ Marshal <$> ms) = Ok <$> ms.
Proof.
  intros Hp. unfold decode_out. rewrite <- list_fmap_compose.
  apply list_fmap_ext. intros i m Hi. simpl. apply Unmarshal_Marshal.
  by eapply Forall_lookup in Hp.
Qed.

Lemma relayed_plain blocks : Forall plain_message (relayed blocks).
Proof.
  apply Forall_app. split.
  - apply Forall_fmap, Forall_true. intros b. apply (plain_zero b false).
  - apply Forall_singleton, (plain_zero [] true).
Qed.

Lemma bodies_keyed key ms : Forall (λ m, Key m = key ∧ Type_ m = Body) (body_message key ∘ Marshal <$> ms).
Proof. by apply Forall_fmap, Forall_true. Qed.
End writer.

#[local] Arguments Copy : simpl never.
#[local] Arguments copy_fuel : simpl never.
#[local] Arguments Close : simpl never.

(** ** Properties *)

Section properties.
Context {AL : Alloc} (Dial : string → option error)
  (Do : HTTPMessage → Z → http_reader → result response_of)
  (request_bytes : HTTPMessage → option (gmap string (list string)) → bytes → result bytes).

(** C18: a copy from [HttpReader], whatever its buffer, ends, and gets the
    bodies of the messages in order; but of the body that comes with the end of
    the stream it gets only as much as fits the buffer: [Read] reports the end
    with the first part. *)
Theorem Copy_correct n h :
  0 < n →
  (Copy n (copy_fuel h) h).1 = reader_spec n h ∧
  (∀ ms b, REOF h = false →
     Chan h = Marshal <$> ((λ b, set_body b zero_message) <$> ms) ++ [set_eof (set_body b zero_message)] →
     (Copy n (copy_fuel h) h).1 = (Buffered h ++ concat ms ++ take n b, None)).
Proof.
  intros Hn. pose proof (Copy_spec n (copy_fuel h) h Hn (Nat.le_refl _)) as Hc. split; [done|].
  intros ms b He Hchan. rewrite Hc. unfold reader_spec. rewrite He, Hchan. clear Hc Hchan.
  assert (stream_of n (Marshal <$> ((λ b, set_body b zero_message) <$> ms)
            ++ [set_eof (set_body b zero_message)]) = (concat ms ++ take n b, None)) as ->; [|done].
  induction ms as [|m ms IH].
  - cbn [fmap list_fmap app stream_of]. by rewrite Unmarshal_Marshal by apply (plain_zero b true).
  - rewrite !fmap_cons. cbn [app]. rewrite fmap_cons. cbn [stream_of].
    rewrite Unmarshal_Marshal by apply (plain_zero m false).
    simpl. simpl in IH. rewrite IH. by rewrite (assoc_L (++)).
Qed.

(** C8: a request that is forwarded and answered comes back whole: the
    messages sent carry the session's key and decode to the status and headers,
    then the blocks of the body in order, then the end; the closing signal is
    last. *)
Theorem http_forwarded key incoming blocks m u len resp :
  readMessage incoming = Ok m → Hijack m = false →
  NewRequest (HMethod m) (URL m) = Ok u → setContentLength (Headers m) = Ok len →
  Do m len (mkReader (HBody m) (tl incoming) (HEOF m)) = Ok resp →
  plain_message (response_message resp) →
  ∃ out, Handle Dial Do request_bytes key incoming blocks
           = Val (out ++ [SignalHandlerClosed key]) ∧
    Forall (λ x, Key x = key ∧ Type_ x = Body) out ∧
    decode_out out = Ok <$> response_message resp :: relayed (RBlocks resp).
Proof.
  intros Hm Hh Hr Hl Hd Hp. unfold Handle. rewrite Hm, Hh. unfold doHttp. rewrite Hr, Hl, Hd.
  eexists. split; [reflexivity|]. unfold writeMessage. rewrite relay_sent.
  change (sent _ ++ [_]) with [body_message key (Marshal (response_message resp))].
  split; [apply (bodies_keyed key (response_message resp :: _))|].
  apply (decode_out_relayed key (response_message resp :: _)). constructor; [done|apply relayed_plain].
Qed.

(** A hijacked connection relays both ways: the request, with the
    content its length announces, and then everything the reader yields go to
    the connection; the blocks read from it come back as messages, then the
    end.  A message without headers makes it panic, unless the request cannot
    be made at all: [Set] writes to a nil map; and so does, once connected, a
    content length beyond what [make] takes. *)
Theorem hijack_relayed key incoming blocks m :
  (doHijack Dial request_bytes m key incoming blocks = Panics NilMapWrite ↔
     (∃ u, NewRequest (HMethod m) (URL m) = Ok u) ∧ Headers m = None) ∧
  (∀ u hs content,
     NewRequest (HMethod m) (URL m) = Ok u → Headers m = Some hs →
     Header_Get (Headers m) "Connection" = "Upgrade" →
     setContentLength (Headers m) = Ok content → Dial (Host u) = None →
     (doHijack Dial request_bytes m key incoming blocks = Panics MakeSizeOutOfRange ↔
        (0 < content)%Z ∧ (max_alloc < content)%Z)) ∧
  (∀ u hs content req r buf,
     NewRequest (HMethod m) (URL m) = Ok u → Headers m = Some hs →
     Header_Get (Headers m) "Connection" = "Upgrade" →
     setContentLength (Headers m) = Ok content → Dial (Host u) = None →
     initial_content content (mkReader (HBody m) incoming (HEOF m)) = Val (r, buf) →
     request_bytes m (Headers m) buf = Ok req →
     ∃ out, doHijack Dial request_bytes m key incoming blocks
       = Val (mkHijacked (req ++ (reader_spec copy_buffer r).1) out) ∧
       decode_out out = Ok <$> relayed blocks).
Proof.
  split_and!.
  - unfold doHijack. destruct (NewRequest (HMethod m) (URL m)) as [u|]; [|naive_solver].
    destruct (String.eqb_spec (Header_Get (Headers m) "Connection") "Upgrade") as [Hu|Hu].
    + simpl. split; [|intros [_ Hn]; by rewrite Hn in Hu]. intros Hd. exfalso. revert Hd.
      unfold initial_content, mbind, outcome_bind. repeat case_match; naive_solver.
    + destruct (Headers m) as [hs|]; simpl; [|naive_solver].
      split; [|naive_solver]. intros Hd. exfalso. revert Hd.
      unfold initial_content, mbind, outcome_bind. repeat case_match; naive_solver.
  - intros u hs content Hr Hhs Hu Hl Hd. unfold doHijack. rewrite Hr, Hu. simpl.
    rewrite Hl, (NewRequest_Parse _ _ _ Hr), Hd. rewrite <- !Z.ltb_lt, <- andb_true_iff.
    change ((0 <? content)%Z && (max_alloc <? content)%Z) with (make_panics content).
    unfold initial_content. destruct (make_panics content); [done|]. split; [|done].
    unfold mbind, outcome_bind. repeat case_match; naive_solver.
  - intros u hs content req r buf Hr Hhs Hu Hl Hd Hi Hreq.
    unfold doHijack. rewrite Hr, Hu. simpl. rewrite Hl, (NewRequest_Parse _ _ _ Hr), Hd, Hi. simpl. rewrite Hreq.
    assert ((Copy copy_buffer (copy_fuel r) r).1 = reader_spec copy_buffer r) as Hc
      by (apply Copy_spec; [apply copy_buffer_pos|done]).
    destruct (Copy copy_buffer (copy_fuel r) r) as [[copied e] r']. simpl in Hc. rewrite <- Hc.
    exists (sent (Close key (copy_to key blocks (mkWriter zero_message [])))). split; [reflexivity|]. rewrite relay_sent. apply decode_out_relayed, relayed_plain.
Qed.

(** The content of a hijacked request is whatever one read gives, filled
    up with zero bytes: a body that arrives in several messages is sent as its
    first message and zeros, and its rest follows the request. *)
Theorem hijack_initial_content n b chan eof :
  0 < n → (Z.of_nat n ≤ max_alloc)%Z → b ≠ [] →
  initial_content (Z.of_nat n) (mkReader b chan eof)
  = Val (mkReader (drop n b) chan eof, take n b ++ replicate (n - length b) Byte.x00).
Proof.
  intros Hn Hm Hb. unfold initial_content, make_panics. rewrite (proj2 (Z.ltb_ge _ _) Hm), andb_false_r.
  rewrite (proj2 (Z.ltb_lt _ _)), Nat2Z.id by lia.
  rewrite Read_buffered by done. do 4 f_equal. rewrite length_take. lia.
Qed.
End properties.

(** ** Witnesses *)

#[local] Instance demo_alloc : Alloc := (2 ^ 47)%Z.

Lemma Copy_correct_witness :
  (Copy 3 (copy_fuel (mkReader (bytes_of "ab") (Marshal <$> [set_eof (set_body (bytes_of "cdef") zero_message)]) false))
     (mkReader (bytes_of "ab") (Marshal <$> [set_eof (set_body (bytes_of "cdef") zero_message)]) false)).1
  = (bytes_of "abcde", None).
Proof.
  apply (proj2 (Copy_correct 3 (mkReader (bytes_of "ab")
    (Marshal <$> [set_eof (set_body (bytes_of "cdef") zero_message)]) false) ltac:(lia)) [] (bytes_of "cdef"));
    reflexivity.
Defined.

Definition demo_get : HTTPMessage :=
  mkHTTPMessage false "web" "GET" "http://web/" (Some {[ "Content-Length" := ["2"] ]}) 0 (bytes_of "hi") true.

Definition demo_response : response_of :=
  mkResponse 200 {[ "Server" := ["x"] ]} [bytes_of "yes"; bytes_of "no"].

Lemma http_forwarded_witness :
  ∃ out, Handle (λ _, None) (λ _ _ _, Ok demo_response) (λ _ _ _, Err EOF)
           "k" [Marshal demo_get] [] = Val (out ++ [SignalHandlerClosed "k"]) ∧
    Forall (λ x, Key x = "k" ∧ Type_ x = Body) out ∧
    decode_out out = Ok <$> response_message demo_response :: relayed [bytes_of "yes"; bytes_of "no"].
Proof.
  eapply (http_forwarded (λ _, None) (λ _ _ _, Ok demo_response)
    (λ _ _ _, Err EOF) "k" [Marshal demo_get] [] demo_get _ 2 demo_response).
  - vm_compute. reflexivity.
  - reflexivity.
  - vm_compute. reflexivity.
  - vm_compute. reflexivity.
  - reflexivity.
  - split; [repeat split; by apply is_ascii_utf8| |unfold is_int64; simpl; lia].
    intros h [= <-]. split; [apply insert_non_empty|]. apply map_Forall_insert_2; [|apply map_Forall_empty].
    split; [|repeat constructor]; by apply is_ascii_utf8.
Defined.

Lemma hijack_relayed_witness :
  doHijack (λ _, None) (λ _ _ _, Err EOF)
    (mkHTTPMessage true "web" "GET" "http://web/" None 0 [] false) "k" [] [] = Panics NilMapWrite.
Proof.
  apply (proj2 (proj1 (hijack_relayed (λ _, None)
    (λ _ _ _, Err EOF) (λ _ _ _, Err EOF) "k" [] [] (mkHTTPMessage true "web" "GET" "http://web/" None 0 [] false)))).
  split; [eexists; vm_compute; reflexivity|reflexivity].
Defined.

Lemma hijack_initial_content_witness :
  initial_content 5 (mkReader (bytes_of "abc") ["rest"] false)
  = Val (mkReader [] ["rest"] false, bytes_of "abc" ++ replicate 2 Byte.x00).
Proof. apply (hijack_initial_content 5 (bytes_of "abc") ["rest"] false); [lia|discriminate|discriminate]. Defined.
