(* ===== verification/ProxyRelay.v ===== *)
(** * The container proxy as a machine

    [Proxy] computes what the handler of [proxy/proxy.go] does with the whole
    of its input; here it runs while the messages arrive: [readMessage], then
    for a hijacked request the goroutine that copies the messages to the
    connection and waits for the channel to close, beside the copy of the
    connection to the client; for any other request the transport, which reads
    the body whenever it likes, beside the copy of the response.
    [relay_refines_Handle] says that every run that ends has done what
    [Proxy.Handle] says. *)

From Stdlib Require Import ZArith.
From S2P Require Import Prelude GoStd Url Json Wire HttpCodec Proxy.

(** Where [Handle] is. *)
Inductive main_phase :=
| First                          (* in [readMessage] *)
| Content (message : HTTPMessage) (header : option (gmap string (list string))) (content : Z)
                                 (* connected, about to read the initial content *)
| Relaying                       (* in [io.Copy(writer, conn)] *)
| Waiting                        (* in [wg.Wait()] *)
| Requesting                     (* in [client.Do] *)
| Responding                     (* in [io.Copy(httpWriter, resp.Body)] *)
| Returned
| Crashed (p : panic).

(** Who reads the messages beside it: nobody yet, the transport, or the
    goroutine of a hijacked request. *)
Inductive inbound_phase := Nobody | Transport | Copying | Draining | Gone.

#[export] Instance inbound_phase_eq_decision : EqDecision inbound_phase.
Proof. solve_decision. Defined.

(** [rbuf] and [reof] are the [HttpReader]'s; the last fields record what
    happened: what was received, whether the channel's end was seen, how dialing
    answers, the status that was answered, whether the writer was closed, and the
    bytes in both directions. *)
Record relay := mkRelay {
  phase : main_phase;
  inbound : inbound_phase;
  rbuf : bytes;
  reof : bool;
  conn_closed : bool;
  responses : list Message;
  received : list string;
  in_closed : bool;
  dial : string → option error;
  status : option (Z * gmap string (list string));
  ended : bool;
  to_conn : bytes;
  from_conn : list bytes
}.

Definition relay_init : relay :=
  mkRelay First Nobody [] false false [] [] false (λ _, None) None false [] [].

(** What a receive from the incoming channel gave: a message, or its end. *)
Abbreviation input := (option string).

Inductive relay_label :=
| RFirst (str : input) (answer : string → option error)
| RContent (str : option input) (failed : option nat)
    (* the buffer is made, the initial content is read, with a receive if there
       is one, and the request is written; [Some n]: this fails after [n] bytes *)
| RRead (n : nat) (str : option input) (failed : option nat)
    (* [Read] of at most [n] bytes, and the write of what it gave *)
| RDrain (str : string)
| RClose                         (* the channel is closed: [conn.Close()] *)
| RResponse (code : Z) (header : gmap string (list string))
| RFail                          (* [client.Do] returns an error *)
| RBlock (data : bytes) (err : option error)
    (* a read of the connection, or of the response's body *)
| RWaited.

Section relay.
Context {AL : Alloc} (request_bytes : HTTPMessage → option (gmap string (list string)) → bytes → result bytes)
  (key : string).

(** ** The steps *)

Definition reader_of (st : relay) (chan : list string) : http_reader := mkReader (rbuf st) chan (reof st).

Definition needs_message (st : relay) : bool := (length (rbuf st) =? 0) && negb (reof st).

(** The receive is the one the reader makes: none when it has bytes or has seen
    the end, and no message after the channel's end. *)
Definition can_receive (str : option input) (st : relay) : bool :=
  match str with
  | None => negb (needs_message st)
  | Some (Some _) => needs_message st && negb (in_closed st)
  | Some None => needs_message st
  end.

Definition chan_of (str : option input) : list string :=
  match str with Some (Some s) => [s] | _ => [] end.

Definition note (str : option input) (st : relay) : relay :=
  mkRelay (phase st) (inbound st) (rbuf st) (reof st) (conn_closed st) (responses st)
    (received st ++ chan_of str) (in_closed st || bool_decide (str = Some None)) (dial st)
    (status st) (ended st) (to_conn st) (from_conn st).

Definition set_reader (h : http_reader) (st : relay) : relay :=
  mkRelay (phase st) (inbound st) (Buffered h) (REOF h) (conn_closed st) (responses st) (received st)
    (in_closed st) (dial st) (status st) (ended st) (to_conn st) (from_conn st).

Definition go (p : main_phase) (i : inbound_phase) (st : relay) : relay :=
  mkRelay p i (rbuf st) (reof st) (conn_closed st) (responses st) (received st) (in_closed st) (dial st)
    (status st) (ended st) (to_conn st) (from_conn st).

Definition transmit (b : bytes) (st : relay) : relay :=
  mkRelay (phase st) (inbound st) (rbuf st) (reof st) (conn_closed st) (responses st) (received st)
    (in_closed st) (dial st) (status st) (ended st) (to_conn st ++ b) (from_conn st).

Definition respond (rs : list Message) (st : relay) : relay :=
  mkRelay (phase st) (inbound st) (rbuf st) (reof st) (conn_closed st) rs (received st)
    (in_closed st) (dial st) (status st) (ended st) (to_conn st) (from_conn st).

Definition close_conn (st : relay) : relay :=
  mkRelay (phase st) (inbound st) (rbuf st) (reof st) true (responses st) (received st)
    (in_closed st) (dial st) (status st) (ended st) (to_conn st) (from_conn st).

Definition set_dial (answer : string → option error) (st : relay) : relay :=
  mkRelay (phase st) (inbound st) (rbuf st) (reof st) (conn_closed st) (responses st) (received st)
    (in_closed st) answer (status st) (ended st) (to_conn st) (from_conn st).

(** The return of [Handle], with its deferred signal. *)
Definition return_ (st : relay) : relay :=
  go Returned (inbound st) (respond (responses st ++ [SignalHandlerClosed key]) st).

(** [doHttp] and [doHijack], up to the first call that waits. *)
Definition begin_http (message : HTTPMessage) (st : relay) : relay :=
  match NewRequest (HMethod message) (URL message) with
  | Err _ => return_ st
  | Ok _ =>
      match setContentLength (Headers message) with
      | Err _ => return_ st
      | Ok _ => go Requesting Transport st
      end
  end.

Definition begin_hijack (message : HTTPMessage) (st : relay) : relay :=
  match NewRequest (HMethod message) (URL message) with
  | Err _ => return_ st
  | Ok _ =>
      match (if String.eqb (Header_Get (Headers message) "Connection") "Upgrade"
             then Val (Headers message) else Header_Set (Headers message) "Connection" "close") with
      | Panics p => go (Crashed p) Nobody st
      | Val header =>
          match setContentLength header, Url.Parse (URL message) with
          | Err _, _ | _, Err _ => return_ st
          | Ok content, Ok u =>
              match dial st (Host u) with
              | Some _ => return_ st
              | None => go (Content message header content) Nobody st
              end
          end
      end
  end.

Definition first_message (str : input) (st : relay) : relay :=
  match Unmarshal (default "" str) with
  | Err _ => return_ st
  | Ok message =>
      let st := set_reader (mkReader (HBody message) [] (HEOF message)) st in
      if Hijack message then begin_hijack message st else begin_http message st
  end.

(** The initial content is read and the request written; a request that fails
    returns, with the deferred [conn.Close()]. *)
Definition write_request (message : HTTPMessage) (header : option (gmap string (list string))) (buf : bytes)
    (failed : option nat) (st : relay) : relay :=
  match request_bytes message header buf, failed with
  | Err _, _ => return_ (close_conn st)
  | Ok req, Some n => return_ (close_conn (transmit (take n req) st))
  | Ok req, None => go Relaying Copying (transmit req st)
  end.

(** One turn of [io.Copy(conn, reader)]. *)
Definition copy_turn (data : bytes) (err : option error) (failed : option nat) (st : relay) : relay :=
  match failed, data, err with
  | Some n, _ :: _, _ => go (phase st) Draining (transmit (take n data) st)
  | _, _, Some _ => go (phase st) Draining (transmit data st)
  | _, _, None => transmit data st
  end.

Definition close_writer (st : relay) : relay :=
  mkRelay (phase st) (inbound st) (rbuf st) (reof st) (conn_closed st)
    (sent (Close key (mkWriter zero_message (responses st)))) (received st)
    (in_closed st) (dial st) (status st) true (to_conn st) (from_conn st).

(** A block of the response, and the end of the copy: the writer is closed, then
    the handler returns or waits for the other goroutine. *)
Definition block (data : bytes) (err : option error) (st : relay) : relay :=
  let st := match data with
    | [] => st
    | _ => mkRelay (phase st) (inbound st) (rbuf st) (reof st) (conn_closed st)
             (sent (Write key data (mkWriter zero_message (responses st)))) (received st) (in_closed st)
             (dial st) (status st) (ended st) (to_conn st) (from_conn st ++ [data])
    end in
  match err with
  | None => st
  | Some _ =>
      let st := close_writer st in
      match phase st with Relaying => go Waiting (inbound st) st | _ => return_ st end
  end.

Definition begin_response (code : Z) (header : gmap string (list string)) (st : relay) : relay :=
  mkRelay Responding (inbound st) (rbuf st) (reof st) (conn_closed st)
    (sent (writeMessage key (mkWriter (response_message (mkResponse code header [])) (responses st))))
    (received st) (in_closed st) (dial st) (Some (code, header)) (ended st) (to_conn st) (from_conn st).

Definition relay_step (l : relay_label) (st : relay) : option relay :=
  match l, phase st, inbound st with
  | RFirst str answer, First, _ =>
      Some (first_message str (set_dial answer (note (Some str) st)))
  | RContent str failed, Content message header content, _ =>
      if make_panics content then
        match str with None => Some (go (Crashed MakeSizeOutOfRange) Nobody st) | Some _ => None end
      else if (0 <? content)%Z then
        if can_receive str st then
          match initial_content content (reader_of st (chan_of str)) with
          | Val (h, buf) => Some (write_request message header buf failed (set_reader h (note str st)))
          | Panics _ => None
          end
        else None
      else match str with None => Some (write_request message header [] failed st) | Some _ => None end
  | RRead n str failed, _, Transport =>
      if can_receive str st && (0 <? n) then
        let '(h, (data, err)) := Read n (reader_of st (chan_of str)) in
        Some (transmit data (set_reader h (note str st)))
      else None
  | RRead n str failed, _, Copying =>
      if can_receive str st && (n =? copy_buffer) then
        let '(h, (data, err)) := Read n (reader_of st (chan_of str)) in
        Some (copy_turn data err failed (set_reader h (note str st)))
      else None
  | RDrain str, _, Draining =>
      if in_closed st then None else Some (note (Some (Some str)) st)
  | RClose, _, Draining => Some (close_conn (go (phase st) Gone (note (Some None) st)))
  | RResponse code header, Requesting, _ => Some (begin_response code header st)
  | RFail, Requesting, _ => Some (return_ st)
  | RBlock data err, (Relaying | Responding), _ =>
      if (copy_buffer <? length data) || (conn_closed st && bool_decide (err = None)) then None
      else Some (block data err st)
  | RWaited, Waiting, Gone => Some (return_ st)
  | _, _, _ => None
  end.

#[export] Instance relay_machine : Machine relay relay_label := relay_step.

(** ** What is sent *)

(** The messages the writer has written. *)
Definition frames (st : relay) : list HTTPMessage :=
  match status st with Some (c, h) => [response_message (mkResponse c h [])] | None => [] end ++
  ((λ b, set_body b zero_message) <$> from_conn st) ++
  (if ended st then [set_eof zero_message] else []).

Definition returned (st : relay) : bool := match phase st with Returned => true | _ => false end.

(** Before the response, while it is copied, and after. *)
Definition stage (st : relay) : Prop :=
  match phase st with
  | First | Content _ _ _ | Requesting | Crashed _ => status st = None ∧ ended st = false ∧ from_conn st = []
  | Relaying | Responding => ended st = false
  | Waiting | Returned => True
  end.

Record out_inv (st : relay) : Prop := {
  out_frames : responses st =
    (body_message key ∘ Marshal <$> frames st) ++ (if returned st then [SignalHandlerClosed key] else []);
  out_stage : stage st
}.

Lemma out_inv_init : out_inv relay_init.
Proof. by split. Qed.

(** Steps that send nothing. *)
Lemma out_quiet st st' :
  out_inv st → responses st' = responses st → frames st' = frames st → returned st' = returned st →
  stage st' → out_inv st'.
Proof. intros [Ho _] Hr Hf Hd Hs. split; [|done]. by rewrite Hr, Hf, Hd. Qed.

Lemma out_return st : out_inv st → returned st = false → out_inv (return_ st).
Proof. intros [Ho _] Hr. split; [|done]. rewrite Hr, app_nil_r in Ho. simpl. by rewrite Ho. Qed.

(** One more message of the writer. *)
Lemma out_write st m :
  out_inv st → returned st = false → ended st = false →
  sent (writeMessage key (mkWriter m (responses st))) =
    (body_message key ∘ Marshal <$>
      (match status st with Some (c, h) => [response_message (mkResponse c h [])] | None => [] end ++
       ((λ b, set_body b zero_message) <$> from_conn st)) ++ [m]).
Proof.
  intros [Ho _] Hr He. rewrite Hr, app_nil_r in Ho. unfold frames in Ho. rewrite He, app_nil_r in Ho.
  rewrite fmap_app, <- Ho. done.
Qed.

Lemma out_first str st : out_inv st → phase st = First → out_inv (first_message str st).
Proof.
  intros Hi Hp. assert (returned st = false) as Hr by (unfold returned; by rewrite Hp).
  pose proof (out_stage st Hi) as Hs. unfold stage in Hs. rewrite Hp in Hs.
  assert (∀ h, out_inv (set_reader h st)) as Hi'.
  { intros h. apply (out_quiet st); try done. unfold stage. simpl. by rewrite Hp. }
  unfold first_message. destruct (Unmarshal (default "" str)) as [m|e]; [|by apply out_return].
  unfold begin_hijack, begin_http. repeat case_match; first [by apply out_return|by apply (out_quiet st)].
Qed.

Lemma out_request st m h buf failed :
  out_inv st → (∃ h c, phase st = Content m h c) → out_inv (write_request m h buf failed st).
Proof.
  intros Hi (h'&c&Hp). assert (returned st = false) as Hr by (unfold returned; by rewrite Hp).
  pose proof (out_stage st Hi) as Hs. unfold stage in Hs. rewrite Hp in Hs.
  unfold write_request. destruct (request_bytes m h buf) as [req|e]; [destruct failed as [n|]|].
  - apply out_return; [by apply (out_quiet st); [..|apply Hi]|done].
  - apply (out_quiet st); try done; by destruct Hs as (?&?&?).
  - apply out_return; [by apply (out_quiet st); [..|apply Hi]|done].
Qed.

Lemma out_turn st data err failed : out_inv st → out_inv (copy_turn data err failed st).
Proof. intros Hi. unfold copy_turn. repeat case_match; by apply (out_quiet st); [..|apply Hi]. Qed.

Lemma out_block st data err :
  out_inv st → phase st = Relaying ∨ phase st = Responding → out_inv (block data err st).
Proof.
  intros Hi Hp.
  assert (∀ t, out_inv t → (phase t = Relaying ∨ phase t = Responding) → returned t = false ∧ ended t = false) as Hopen.
  { intros t [_ Ht] Hp'. unfold stage in Ht. unfold returned. by destruct Hp' as [E|E]; rewrite E in *. }
  unfold block. set (st1 := match data with [] => st | _ => _ end).
  assert (out_inv st1 ∧ phase st1 = phase st) as [Hi1 Hp1].
  { unfold st1. destruct data as [|x data]; [done|]. destruct (Hopen st Hi Hp) as [Hr He]. split; [|done].
    split; [|unfold stage; simpl; by destruct Hp as [E|E]; rewrite E].
    etrans; [exact (out_write st (set_body (x :: data) zero_message) Hi Hr He)|].
    unfold frames. simpl. change (returned _) with (returned st). by rewrite Hr, He, !app_nil_r, (fmap_app _ (from_conn st)), <- (assoc_L (++)). }
  destruct err as [e|]; [|done].
  rewrite <- Hp1 in Hp. destruct (Hopen st1 Hi1 Hp) as [Hr He].
  assert (responses (close_writer st1) = (body_message key ∘ Marshal <$> frames (close_writer st1))) as Hc.
  { etrans; [exact (out_write st1 (set_eof zero_message) Hi1 Hr He)|]. unfold frames. simpl. by rewrite (assoc_L (++)). }
  change (phase (close_writer st1)) with (phase st1).
  destruct Hp as [E|E]; rewrite E; (split; [|done]); simpl in *; by rewrite Hc, ?app_nil_r.
Qed.

Lemma out_inv_step l st st' : out_inv st → relay_step l st = Some st' → out_inv st'.
Proof.
  intros Hi Hs. unfold relay_step in Hs. destruct l as [str a|str failed|n str failed|str| |code h| |data err|].
  - destruct (phase st) eqn:Hp; try done. injection Hs as <-. apply out_first; [|done].
    by apply (out_quiet st); [..|apply Hi].
  - destruct (phase st) as [|m h c| | | | | |] eqn:Hp; try done. destruct (make_panics c).
    { destruct str; [done|]. injection Hs as <-. pose proof (out_stage st Hi) as Hst. unfold stage in Hst. rewrite Hp in Hst.
      apply (out_quiet st); try done. unfold returned. by rewrite Hp. }
    destruct (0 <? c)%Z.
    + destruct (can_receive str st); [|done].
      destruct (initial_content c (reader_of st (chan_of str))) as [[rd buf]|]; [|done]. injection Hs as <-.
      apply out_request; [by apply (out_quiet st); [..|apply Hi]|by exists h, c].
    + destruct str; [done|]. injection Hs as <-. apply out_request; [done|by exists h, c].
  - destruct (inbound st); try done; destruct (can_receive str st && _); try done;
      destruct (Read n (reader_of st (chan_of str))) as [rd [data err]]; simplify_eq.
    + by apply (out_quiet st); [..|apply Hi].
    + apply out_turn. by apply (out_quiet st); [..|apply Hi].
  - destruct (inbound st), (in_closed st); try done; simplify_eq. by apply (out_quiet st); [..|apply Hi].
  - destruct (inbound st); try done; simplify_eq. by apply (out_quiet st); [..|apply Hi].
  - destruct (phase st) eqn:Hp; try done; simplify_eq. pose proof (out_stage st Hi) as Hst.
    unfold stage in Hst. rewrite Hp in Hst. destruct Hst as (H1&H2&H3). split; [|done].
    etrans; [exact (out_write st _ Hi ltac:(unfold returned; by rewrite Hp) H2)|].
    unfold frames. simpl. by rewrite H1, H2, H3.
  - destruct (phase st) eqn:Hp; try done; simplify_eq. apply out_return; [done|unfold returned; by rewrite Hp].
  - assert (phase st = Relaying ∨ phase st = Responding) as Hp by (destruct (phase st); try done; auto).
    assert (st' = block data err st) as ->.
    { destruct Hp as [E|E]; rewrite E in Hs; by destruct (_ || _); [|injection Hs as <-]. }
    by apply out_block.
  - destruct (phase st) eqn:Hp; try done; destruct (inbound st); try done; simplify_eq.
    apply out_return; [done|unfold returned; by rewrite Hp].
Qed.

Lemma relay_out st : reachable relay_init st → out_inv st.
Proof. intros H. eapply reachable_invariant; [apply out_inv_step|exact H|apply out_inv_init]. Qed.

Lemma frames_keyed fs :
  Forall (λ m, Key m = key) (body_message key ∘ Marshal <$> fs) ∧
  filter is_close (body_message key ∘ Marshal <$> fs) = [].
Proof. induction fs as [|f fs [IH1 IH2]]; [done|]. rewrite fmap_cons. split; [by constructor|done]. Qed.

#[export] Instance relay_handler_spec : Handler_spec relay relay_label relay_init key responses.
Proof.
  split; intros st H; rewrite (out_frames _ (relay_out _ H)).
  - apply Forall_app. split; [apply frames_keyed|]. destruct (returned st); by repeat constructor.
  - rewrite filter_app, (proj2 (frames_keyed _)). destruct (returned st); simpl; lia.
Qed.

(** ** What [Proxy.Handle] says *)

(** A read depends only on the message it receives. *)
Lemma Read_frame n st str more :
  can_receive str st = true → (str = Some None → more = []) →
  Read n (reader_of st (chan_of str ++ more)) =
    let '(h, r) := Read n (reader_of st (chan_of str)) in (mkReader (Buffered h) more (REOF h), r).
Proof.
  unfold can_receive, needs_message, reader_of, Read. destruct st as [? ? b e]; simpl.
  destruct str as [[s|]|]; simpl; intros Hc Hm.
  - apply andb_prop in Hc as [-> _]. unfold read. simpl. by destruct (Unmarshal s).
  - rewrite Hc, Hm by done. done.
  - apply negb_true_iff in Hc. by rewrite Hc.
Qed.

Lemma initial_content_frame c st str more :
  can_receive str st = true → (str = Some None → more = []) →
  initial_content c (reader_of st (chan_of str ++ more)) =
    (λ r, (mkReader (Buffered r.1) (if (0 <? c)%Z then more else chan_of str ++ more) (REOF r.1), r.2)) <$>
      initial_content c (reader_of st (chan_of str)).
Proof.
  intros Hc Hm. unfold initial_content. destruct (make_panics c); [done|]. destruct (0 <? c)%Z; [|done].
  rewrite (Read_frame _ _ _ _ Hc Hm). by destruct (Read _ _) as [h [data err]].
Qed.

(** The part of [doHijack] before the connection is made. *)
Definition connects (answer : string → option error) (m : HTTPMessage)
    (header : option (gmap string (list string))) (content : Z) : Prop :=
  Hijack m = true ∧ (∃ u, NewRequest (HMethod m) (URL m) = Ok u) ∧
  (if String.eqb (Header_Get (Headers m) "Connection") "Upgrade"
   then Val (Headers m) else Header_Set (Headers m) "Connection" "close") = Val header ∧
  setContentLength header = Ok content ∧
  ∃ u, Url.Parse (URL m) = Ok u ∧ answer (Host u) = None.

Lemma doHijack_connects answer m header content incoming blocks :
  connects answer m header content →
  doHijack answer request_bytes m key incoming blocks =
    match initial_content content (mkReader (HBody m) incoming (HEOF m)) with
    | Panics p => Panics p
    | Val (reader, buf) =>
        match request_bytes m header buf with
        | Err _ => Val (mkHijacked [] [])
        | Ok req => Val (mkHijacked (req ++ (reader_spec copy_buffer reader).1) (body_message key ∘ Marshal <$> relayed blocks))
        end
    end.
Proof.
  intros (_&(u&Hr)&Hh&Hl&u'&Hu&Hd). unfold doHijack. rewrite Hr, Hh. cbn [mbind outcome_bind]. rewrite Hl, Hu, Hd.
  destruct (initial_content _ _) as [[r buf]|p]; [|done]. cbn [mbind outcome_bind].
  destruct (request_bytes m header buf) as [req|]; [|done].
  rewrite <- (Copy_spec copy_buffer (copy_fuel r) r copy_buffer_pos (Nat.le_refl _)).
  destruct (Copy copy_buffer (copy_fuel r) r) as [[copied e] r']. by rewrite relay_sent.
Qed.

(** The answer of the request, as [Handle] takes it. *)
Definition answer_of (st : relay) : result response_of :=
  match status st with Some (c, h) => Ok (mkResponse c h (from_conn st)) | None => Err EOF end.

Definition handled (st : relay) : outcome (list Message) :=
  Proxy.Handle (dial st) (λ _ _ _, answer_of st) request_bytes key (received st) (from_conn st).

(** A hijacked connection: the request is written, and what was copied with
    what the reader still gives is what [doHijack] copies. *)
Definition hijacking (st : relay) : Prop :=
  ∃ s rest m header content buf req done,
    received st = s :: rest ∧ Unmarshal s = Ok m ∧ connects (dial st) m header content ∧
    request_bytes m header buf = Ok req ∧ to_conn st = req ++ done ∧
    ∀ more, (in_closed st = true → more = []) →
      ∃ h, initial_content content (mkReader (HBody m) (rest ++ more) (HEOF m)) = Val (h, buf) ∧
        (reader_spec copy_buffer h).1 =
          done ++ (if decide (inbound st = Copying) then (reader_spec copy_buffer (reader_of st more)).1 else []).

(** A request that is forwarded by [client.Do]. *)
Definition forwarding (st : relay) : Prop :=
  ∃ s rest m u len, received st = s :: rest ∧ Unmarshal s = Ok m ∧ Hijack m = false ∧
    NewRequest (HMethod m) (URL m) = Ok u ∧ setContentLength (Headers m) = Ok len.

Lemma handled_message st s rest m :
  received st = s :: rest → Unmarshal s = Ok m →
  handled st =
    (out ← (if Hijack m
            then (λ h, Proxy.from_conn h) <$> doHijack (dial st) request_bytes m key rest (from_conn st)
            else Val (doHttp (λ _ _ _, answer_of st) m key rest));
     Val (out ++ [SignalHandlerClosed key])).
Proof. intros Hr Hm. unfold handled, Proxy.Handle, Proxy.readMessage. rewrite Hr. simpl hd. by rewrite Hm. Qed.

Lemma hijacking_handled st :
  hijacking st → inbound st ≠ Copying →
  ∃ m, Proxy.readMessage (received st) = Ok m ∧ Hijack m = true ∧
    doHijack (dial st) request_bytes m key (tl (received st)) (from_conn st) =
      Val (mkHijacked (to_conn st) (body_message key ∘ Marshal <$> relayed (from_conn st))).
Proof.
  intros (s&rest&m&header&content&buf&req&dn&Hrc&Hm&Hc&Hreq&Hto&Hmore) Hin. exists m.
  rewrite Hrc. simpl. split; [done|]. split; [apply Hc|]. rewrite (doHijack_connects _ _ _ _ _ _ Hc).
  destruct (Hmore [] (λ _, eq_refl)) as (h&Hi&Hs). rewrite app_nil_r in Hi. rewrite Hi, Hreq.
  rewrite decide_False, app_nil_r in Hs by done. by rewrite Hs, Hto.
Qed.

(** No write to the connection fails. *)
Definition clean (l : relay_label) : Prop :=
  match l with RContent _ failed | RRead _ _ failed => failed = None | _ => True end.

Definition finishing (st : relay) : Prop :=
  inbound st = Gone ∧ in_closed st = true ∧ conn_closed st = true.

(** What each phase knows of the run. *)
Definition tracks (st : relay) : Prop :=
  match phase st with
  | First => st = relay_init
  | Content m header content =>
      inbound st = Nobody ∧ to_conn st = [] ∧ rbuf st = HBody m ∧ reof st = HEOF m ∧
      connects (dial st) m header content ∧ ∃ s, received st = [s] ∧ Unmarshal s = Ok m
  | Relaying => hijacking st ∧ status st = None ∧ (inbound st = Copying ∨ inbound st = Draining ∨ finishing st)
  | Waiting =>
      hijacking st ∧ status st = None ∧ ended st = true ∧
      (inbound st = Copying ∨ inbound st = Draining ∨ finishing st)
  | Requesting => forwarding st ∧ inbound st = Transport
  | Responding => forwarding st ∧ inbound st = Transport ∧ is_Some (status st)
  | Returned =>
      (inbound st = Nobody ∧ handled st = Val (responses st)) ∨
      (hijacking st ∧ finishing st ∧ status st = None ∧ ended st = true) ∨
      (forwarding st ∧ inbound st = Transport ∧
        (status st = None ∧ from_conn st = [] ∧ ended st = false ∨ is_Some (status st) ∧ ended st = true))
  | Crashed p => handled st = Panics p ∧ inbound st = Nobody
  end.

Lemma first_received str :
  Proxy.readMessage (chan_of (Some str)) = Unmarshal (default "" str) ∧
  ∀ m, Unmarshal (default "" str) = Ok m → ∃ s, chan_of (Some str) = [s] ∧ Unmarshal s = Ok m.
Proof. destruct str as [s|]; (split; [done|]); [by exists s|]. intros m Hm. vm_compute in Hm. discriminate. Qed.

Lemma tracks_first str answer : tracks (first_message str (set_dial answer (note (Some str) relay_init))).
Proof.
  destruct (first_received str) as [Hrm Hok]. unfold set_dial, note, relay_init. cbn [app orb phase inbound rbuf reof
    conn_closed responses received in_closed status ended to_conn from_conn].
  generalize (bool_decide (Some str = Some None)) as closed. intros closed.
  generalize dependent (chan_of (Some str)). intros incoming Hrm Hok. unfold first_message.
  destruct (Unmarshal (default "" str)) as [m|e] eqn:Hm.
  2:{ left. split; [done|]. unfold handled, Proxy.Handle. simpl received. by rewrite Hrm. }
  destruct (Hok m eq_refl) as (s&->&Hs). clear Hok Hrm Hm.
  set (st := set_reader _ _).
  pose proof (handled_message st s [] m eq_refl Hs) as Hd. destruct (Hijack m) eqn:Hh.
  - unfold doHijack in Hd. unfold begin_hijack. destruct (NewRequest (HMethod m) (URL m)) as [u|] eqn:Hr; [|by left].
    destruct (if String.eqb _ _ then _ else _) as [header|pn] eqn:Hhd; [|by split].
    cbn [mbind outcome_bind] in Hd. destruct (setContentLength header) as [content|] eqn:Hl; [|by left].
    pose proof (NewRequest_Parse _ _ _ Hr) as Hu. rewrite Hu in *.
    destruct (dial st (Host u)) eqn:Ha; [by left|].
    split_and!; try done; [|by exists s]. split_and!; try done; by eexists.
  - unfold doHttp in Hd. unfold begin_http. destruct (NewRequest (HMethod m) (URL m)) as [u|] eqn:Hr; [|by left].
    destruct (setContentLength (Headers m)) as [len|] eqn:Hl; [|by left].
    split; [|done]. by exists s, [], m, u, len.
Qed.

(** A relayed request is one that [Handle] does not panic on. *)
Lemma hijacking_val st : hijacking st → is_val (handled st).
Proof.
  intros (s&rest&m&header&content&buf&req&dn&Hrc&Hm&Hc&Hreq&Hto&Hmore).
  destruct (Hmore [] (λ _, eq_refl)) as (h&Hi&_). rewrite app_nil_r in Hi.
  rewrite (handled_message st s rest m Hrc Hm), (proj1 Hc), (doHijack_connects _ _ _ _ _ _ Hc), Hi, Hreq. by eexists.
Qed.

Lemma forwarding_val st : forwarding st → is_val (handled st).
Proof.
  intros (s&rest&m&u&len&Hrc&Hm&Hh&_). rewrite (handled_message st s rest m Hrc Hm), Hh. by eexists.
Qed.

(** *** The goroutine of a hijacked connection *)

Lemma hijacking_ext st st' :
  received st' = received st → dial st' = dial st → to_conn st' = to_conn st → in_closed st' = in_closed st →
  inbound st' = inbound st → rbuf st' = rbuf st → reof st' = reof st → hijacking st → hijacking st'.
Proof.
  unfold hijacking, reader_of. by intros -> -> -> -> -> -> ->.
Qed.

Lemma hijacking_start st st' s m header content str h buf req :
  received st = [s] → Unmarshal s = Ok m → connects (dial st) m header content →
  rbuf st = HBody m → reof st = HEOF m → can_receive str st = true → (0 < content)%Z →
  initial_content content (reader_of st (chan_of str)) = Val (h, buf) →
  request_bytes m header buf = Ok req →
  st' = go Relaying Copying (transmit req (set_reader h (note str st))) → to_conn st = [] →
  hijacking st'.
Proof.
  intros Hrc Hm Hc Hb He Hr H0 Hi Hreq -> Hto. exists s, (chan_of str), m, header, content, buf, req, [].
  simpl. rewrite Hrc, Hto, app_nil_r. split_and!; try done. intros more Hmore.
  unfold reader_of in *. simpl. rewrite <- Hb, <- He.
  pose proof (initial_content_frame content st str more Hr) as Hf. unfold reader_of in Hf.
  rewrite Hi, (proj2 (Z.ltb_lt _ _) H0) in Hf.
  eexists. split; [apply Hf|done]. intros ->. apply Hmore. by rewrite orb_true_r.
Qed.

Lemma hijacking_start_empty st s m header content req :
  received st = [s] → Unmarshal s = Ok m → connects (dial st) m header content →
  rbuf st = HBody m → reof st = HEOF m → (0 <? content)%Z = false → to_conn st = [] →
  request_bytes m header [] = Ok req → hijacking (go Relaying Copying (transmit req st)).
Proof.
  intros Hrc Hm Hc Hb He H0 Hto Hreq. exists s, [], m, header, content, [], req, [].
  simpl. rewrite Hrc, Hto, app_nil_r. split_and!; try done. intros more Hmore.
  unfold initial_content, make_panics, reader_of. rewrite H0, <- Hb, <- He. by eexists.
Qed.

Lemma hijacking_read st str h data err :
  hijacking st → inbound st = Copying → can_receive str st = true →
  Read copy_buffer (reader_of st (chan_of str)) = (h, (data, err)) →
  hijacking (copy_turn data err None (set_reader h (note str st))).
Proof.
  intros (s&rest&m&header&content&buf&req&dn&Hrc&Hm&Hc&Hreq&Hto&Hmore) Hin Hr HR.
  assert (∀ x : relay, x = go (phase st) (match err with Some _ => Draining | None => Copying end) (transmit data (set_reader h (note str st))) →
    hijacking x) as Hx.
  { intros x ->. exists s, (rest ++ chan_of str), m, header, content, buf, req, (dn ++ data). simpl.
    rewrite Hrc, Hto, (assoc_L (++)). split_and!; try done. intros more Hcl.
    destruct (Hmore (chan_of str ++ more)) as (h0&Hi&Hs).
    { intros Hic. rewrite Hic in Hcl. rewrite (Hcl eq_refl). destruct str as [[x|]|]; try done.
      simpl in Hr. by rewrite Hic, andb_false_r in Hr. }
    exists h0. rewrite <- (assoc_L (++) rest). split; [done|]. rewrite Hs, <- (assoc_L (++)). f_equal.
    rewrite decide_True by done.
    assert (str = Some None → more = []) as Hn by (intros ->; apply Hcl; by rewrite orb_true_r).
    pose proof (Read_spec copy_buffer (reader_of st (chan_of str ++ more)) copy_buffer_pos) as Hspec.
    rewrite (Read_frame _ _ _ _ Hr Hn), HR in Hspec. destruct err as [e|].
    - rewrite Hspec. simpl. by rewrite app_nil_r.
    - destruct Hspec as [_ ->]. rewrite decide_True by done.
      change (reader_of _ more) with (mkReader (Buffered h) more (REOF h)).
      by destruct (reader_spec copy_buffer (mkReader (Buffered h) more (REOF h))). }
  destruct err as [e|]; [by apply Hx|].
  by apply (hijacking_ext (go (phase st) Copying (transmit data (set_reader h (note str st))))); [..|apply Hx].
Qed.

Lemma hijacking_drain st str :
  hijacking st → inbound st = Draining → in_closed st = false → hijacking (note (Some (Some str)) st).
Proof.
  intros (s&rest&m&header&content&buf&req&dn&Hrc&Hm&Hc&Hreq&Hto&Hmore) Hin Hcl.
  exists s, (rest ++ [str]), m, header, content, buf, req, dn. simpl. rewrite Hrc.
  split_and!; try done. intros more _. rewrite <- (assoc_L (++)). simpl.
  destruct (Hmore (str :: more)) as (h&Hi&Hs); [congruence|]. exists h. split; [done|].
  rewrite decide_False in * by congruence. done.
Qed.

Lemma hijacking_close st :
  hijacking st → inbound st = Draining → hijacking (close_conn (go (phase st) Gone (note (Some None) st))).
Proof.
  intros (s&rest&m&header&content&buf&req&dn&Hrc&Hm&Hc&Hreq&Hto&Hmore) Hin.
  exists s, rest, m, header, content, buf, req, dn. simpl. rewrite app_nil_r.
  split_and!; try done. intros more Hcl. rewrite Hcl by apply orb_true_r.
  destruct (Hmore []) as (h&Hi&Hs); [done|]. exists h. split; [done|]. by rewrite decide_False in Hs by congruence.
Qed.

(** *** The invariant *)

Lemma content_silent st m h c : out_inv st → phase st = Content m h c → responses st = [] ∧ from_conn st = [].
Proof.
  intros [Ho Hs] Hp. unfold stage in Hs. rewrite Hp in Hs. destruct Hs as (H1&H2&H3).
  rewrite Ho. unfold frames, returned. by rewrite H1, H2, H3, Hp.
Qed.

(** A request that cannot be written. *)
Lemma handled_unwritten st st' s rest m header content rd buf e :
  received st' = s :: rest → dial st' = dial st → Unmarshal s = Ok m → connects (dial st) m header content →
  initial_content content (mkReader (HBody m) rest (HEOF m)) = Val (rd, buf) →
  request_bytes m header buf = Err e → handled st' = Val [SignalHandlerClosed key].
Proof.
  intros Hrc Hd Hm Hc Hi He. rewrite (handled_message st' s rest m Hrc Hm), Hd.
  rewrite (proj1 Hc), (doHijack_connects _ _ _ _ _ _ Hc), Hi, He. done.
Qed.

(** A buffer that cannot be made. *)
Lemma handled_panics st s rest m header content p :
  received st = s :: rest → Unmarshal s = Ok m → connects (dial st) m header content →
  initial_content content (mkReader (HBody m) rest (HEOF m)) = Panics p → handled st = Panics p.
Proof.
  intros Hrc Hm Hc Hi. by rewrite (handled_message st s rest m Hrc Hm), (proj1 Hc), (doHijack_connects _ _ _ _ _ _ Hc), Hi.
Qed.

Lemma tracks_content str st st' :
  (∃ m h c, phase st = Content m h c) → out_inv st → tracks st →
  relay_step (RContent str None) st = Some st' → tracks st'.
Proof.
  intros (m&header&c&Hp) Hi Ht Hs. unfold tracks in Ht. rewrite Hp in Ht.
  destruct Ht as (Hin&Hto&Hb&He&Hc&s&Hrc&Hm). destruct (content_silent _ _ _ _ Hi Hp) as [Hrs Hfc].
  pose proof (out_stage _ Hi) as Hst. unfold stage in Hst. rewrite Hp in Hst. destruct Hst as (Hst&_&_).
  unfold relay_step in Hs. rewrite Hp in Hs. destruct (make_panics c) eqn:Hmk.
  { destruct str; [done|]. injection Hs as <-. split; [|done].
    apply (handled_panics _ s [] m header c); try done. unfold initial_content. by rewrite Hmk. }
  destruct (0 <? c)%Z eqn:H0.
  - destruct (can_receive str st) eqn:Hr; [|done].
    destruct (initial_content c (reader_of st (chan_of str))) as [[rd buf]|] eqn:Hic; [|done]. injection Hs as <-.
    unfold write_request. destruct (request_bytes m header buf) as [req|e] eqn:Hreq.
    + split; [|split; [done|by left]]. apply (hijacking_start st _ s m header c str rd buf req); try done; by apply Z.ltb_lt.
    + left. split; [done|].
      rewrite (handled_unwritten st _ s (chan_of str) m header c rd buf e); try done; [simpl; by rewrite Hrs|simpl; by rewrite Hrc|].
      unfold reader_of in Hic. by rewrite <- Hb, <- He.
  - destruct str; [done|]. injection Hs as <-. unfold write_request.
    destruct (request_bytes m header []) as [req|e] eqn:Hreq.
    + split; [|split; [done|by left]]. by apply (hijacking_start_empty st s m header c req).
    + left. split; [done|].
      rewrite (handled_unwritten st _ s [] m header c (mkReader (HBody m) [] (HEOF m)) [] e); try done; [simpl; by rewrite Hrs|].
      unfold initial_content. by rewrite Hmk, H0.
Qed.

(** A step of the goroutine. *)
Lemma tracks_goroutine st st' :
  tracks st → inbound st = Copying ∨ inbound st = Draining →
  phase st' = phase st → status st' = status st → ended st' = ended st →
  (hijacking st → hijacking st') → (inbound st' = Copying ∨ inbound st' = Draining ∨ finishing st') →
  tracks st'.
Proof.
  unfold tracks. intros Ht Hin -> -> -> Hh Hin'.
  assert (inbound st ≠ Nobody ∧ inbound st ≠ Transport ∧ inbound st ≠ Gone) as (H1&H2&H3) by (by destruct Hin as [-> | ->]).
  destruct (phase st); [|tauto|tauto|tauto|tauto|tauto| |tauto].
  - rewrite Ht in H1. by destruct H1.
  - destruct Ht as [[? _]|[(_&[? _]&_)|(_&?&_)]]; tauto.
Qed.

(** A step of the transport. *)
Lemma tracks_transport st st' l :
  tracks st → inbound st = Transport → inbound st' = Transport →
  phase st' = phase st → status st' = status st → ended st' = ended st → from_conn st' = from_conn st →
  received st' = received st ++ l → tracks st'.
Proof.
  unfold tracks. intros Ht Hin -> -> -> -> -> Hrc.
  assert (forwarding st → forwarding st') as Hf.
  { intros (s&rest&m&u&len&Hr&?). exists s, (rest ++ l), m, u, len. by rewrite Hrc, Hr. }
  assert (¬ finishing st) as Hnf by (intros [Hg _]; congruence).
  assert (inbound st ≠ Nobody ∧ inbound st ≠ Copying ∧ inbound st ≠ Draining) as (H1&H2&H3) by (by rewrite Hin).
  destruct (phase st); [|tauto|tauto|tauto|tauto|tauto| |tauto].
  - by rewrite Ht in Hin.
  - destruct Ht as [[Hn _]|[(_&Hfin&_)|(Hfw&_&Hc)]]; [congruence|done|]. right; right. auto.
Qed.

Lemma block_shape st data err :
  let st' := block data err st in
  received st' = received st ∧ dial st' = dial st ∧ to_conn st' = to_conn st ∧ in_closed st' = in_closed st ∧
  inbound st' = inbound st ∧ rbuf st' = rbuf st ∧ reof st' = reof st ∧ status st' = status st ∧
  conn_closed st' = conn_closed st ∧
  (err ≠ None → ended st' = true) ∧
  phase st' = (match err with None => phase st | Some _ => match phase st with Relaying => Waiting | _ => Returned end end).
Proof.
  unfold block. destruct data as [|x data], err as [e|]; simpl; try done; destruct (phase st) eqn:E; simpl; by rewrite ?E.
Qed.

Lemma tracks_block st data err :
  tracks st → phase st = Relaying ∨ phase st = Responding → tracks (block data err st).
Proof.
  intros Ht Hp. destruct (block_shape st data err) as (H1&H2&H3&H4&H5&H6&H7&H8&H9&H10&H11).
  generalize dependent (block data err st). intros st' H1 H2 H3 H4 H5 H6 H7 H8 H9 H10 H11.
  assert (hijacking st → hijacking st') as Hh by (by apply hijacking_ext).
  assert (forwarding st → forwarding st') as Hf by (unfold forwarding; by rewrite H1).
  unfold tracks, finishing in *. rewrite H11, H5, H8, H4, H9.
  destruct Hp as [E|E]; rewrite E in *; destruct err as [e|]; try tauto.
  - destruct Ht as (?&?&?). split_and!; auto.
  - destruct Ht as (?&?&?). right; right. split_and!; auto.
Qed.

Lemma tracks_step l st st' :
  out_inv st → tracks st → clean l → relay_step l st = Some st' → tracks st'.
Proof.
  intros Hi Ht Hl Hs. destruct l as [str a|str failed|n str failed|str| |code h| |data err|]; unfold clean in Hl.
  - unfold relay_step in Hs. destruct (phase st) eqn:Hp; try done. injection Hs as <-.
    unfold tracks in Ht. rewrite Hp in Ht. subst st. apply tracks_first.
  - subst failed. apply (tracks_content str st st'); [|done..].
    unfold relay_step in Hs. destruct (phase st) eqn:E; try done. by eexists _, _, _.
  - subst failed. unfold relay_step in Hs. destruct (inbound st) eqn:Hin; try done.
    + destruct (can_receive str st && (0 <? n)) eqn:Hr; [|by destruct (phase st)]. 
      destruct (Read n (reader_of st (chan_of str))) as [h [data err]] eqn:HR.
      assert (st' = transmit data (set_reader h (note str st))) as -> by (destruct (phase st); congruence).
      by apply (tracks_transport st _ (chan_of str)).
    + destruct (can_receive str st && (n =? copy_buffer)) eqn:Hr; [|by destruct (phase st)].
      apply andb_prop in Hr as [Hr ->%Nat.eqb_eq].
      destruct (Read copy_buffer (reader_of st (chan_of str))) as [h [data err]] eqn:HR.
      assert (st' = copy_turn data err None (set_reader h (note str st))) as -> by (destruct (phase st); congruence).
      apply (tracks_goroutine st); try done; [by left|unfold copy_turn; by destruct err..| |].
      * intros Hh. by apply (hijacking_read st str h data err).
      * unfold copy_turn. destruct err; [right; by left|by left].
  - unfold relay_step in Hs. destruct (inbound st) eqn:Hin; try (by destruct (phase st)).
    assert (in_closed st = false ∧ st' = note (Some (Some str)) st) as [Hcl ->]
      by (destruct (in_closed st), (phase st); naive_solver).
    apply (tracks_goroutine st); try done; [by right|intros; by apply hijacking_drain|right; by left].
  - unfold relay_step in Hs. destruct (inbound st) eqn:Hin; try (by destruct (phase st)).
    assert (st' = close_conn (go (phase st) Gone (note (Some None) st))) as -> by (destruct (phase st); congruence).
    apply (tracks_goroutine st); try done; [by right|intros; by apply hijacking_close|right; right].
    split_and!; try done. apply orb_true_r.
  - unfold relay_step in Hs. destruct (phase st) eqn:Hp; try done. injection Hs as <-.
    unfold tracks in Ht. rewrite Hp in Ht. destruct Ht. by split_and!.
  - unfold relay_step in Hs. destruct (phase st) eqn:Hp; try done. injection Hs as <-.
    pose proof (out_stage _ Hi) as Hst. unfold stage, tracks in *. rewrite Hp in *. right; right. simpl. tauto.
  - assert (phase st = Relaying ∨ phase st = Responding) as Hp
      by (unfold relay_step in Hs; destruct (phase st); try done; auto).
    assert (st' = block data err st) as ->.
    { unfold relay_step in Hs. destruct Hp as [E|E]; rewrite E in Hs; by destruct (_ || _); [|injection Hs as <-]. }
    by apply tracks_block.
  - unfold relay_step in Hs. destruct (phase st) eqn:Hp; try done. destruct (inbound st) eqn:Hin; try done. injection Hs as <-.
    unfold tracks, finishing in *. rewrite Hp in Ht. right; left. simpl.
    destruct Ht as (Hh&?&?&[?|[?|?]]); [congruence|congruence|]. split_and!; try tauto.
Qed.

(** ** Who runs beside whom *)

Definition beside (p : main_phase) (i : inbound_phase) (over : bool) : bool :=
  match p, i with
  | (First | Content _ _ _ | Crashed _), Nobody
  | (Requesting | Responding), Transport
  | (Relaying | Waiting), (Copying | Draining)
  | Returned, (Nobody | Transport) => true
  | (Relaying | Waiting | Returned), Gone => over
  | _, _ => false
  end.

Definition shape (st : relay) : Prop :=
  beside (phase st) (inbound st) (in_closed st && conn_closed st) = true.

Lemma turn_shape data err failed st :
  let st' := copy_turn data err failed st in
  phase st' = phase st ∧ (inbound st' = inbound st ∨ inbound st' = Draining) ∧ rbuf st' = rbuf st ∧ reof st' = reof st ∧
  in_closed st' = in_closed st ∧ conn_closed st' = conn_closed st.
Proof. unfold copy_turn. repeat case_match; simpl; auto 10. Qed.

Lemma shape_first str st : inbound st = Nobody → shape (first_message str st).
Proof.
  intros Hin. unfold first_message, begin_hijack, begin_http, shape.
  repeat case_match; simpl; by rewrite ?Hin.
Qed.

Lemma shape_step l st st' : shape st → relay_step l st = Some st' → shape st'.
Proof.
  unfold shape at 1. intros Hi Hs.
  destruct l as [str a|str failed|n str failed|str| |code h| |data err|]; unfold relay_step in Hs.
  - destruct (phase st); try done. injection Hs as <-. destruct (inbound st) eqn:Ei; try done. by apply shape_first.
  - destruct (phase st) as [|m h c| | | | | |] eqn:E; try done. destruct (inbound st) eqn:Ei; try done.
    unfold write_request, shape in *. repeat case_match; simplify_eq; simpl; by rewrite ?Ei.
  - destruct (inbound st) eqn:Ei; try by destruct (phase st).
    + assert (∃ data h, st' = transmit data (set_reader h (note str st))) as (data&h&->)
        by (destruct (can_receive str st && (0 <? n)), (Read n (reader_of st (chan_of str))) as [? [? ?]], (phase st); naive_solver).
      unfold shape. simpl. rewrite Ei. by destruct (phase st).
    + assert (∃ data err h, st' = copy_turn data err failed (set_reader h (note str st))) as (data&err&h&->)
        by (destruct (can_receive str st && (n =? copy_buffer)), (Read n (reader_of st (chan_of str))) as [? [? ?]], (phase st); naive_solver).
      unfold shape. destruct (turn_shape data err failed (set_reader h (note str st))) as (->&Hc&_&_&->&->).
      simpl in *. destruct Hc as [-> | ->]; rewrite ?Ei; by destruct (phase st).
  - destruct (inbound st) eqn:Ei; try by destruct (phase st).
    assert (st' = note (Some (Some str)) st) as -> by (destruct (in_closed st), (phase st); naive_solver).
    unfold shape. simpl. rewrite Ei. by destruct (phase st).
  - destruct (inbound st) eqn:Ei; try by destruct (phase st).
    assert (st' = close_conn (go (phase st) Gone (note (Some None) st))) as -> by (destruct (phase st); congruence).
    unfold shape. simpl. rewrite orb_true_r. by destruct (phase st).
  - destruct (phase st) eqn:E; try done. injection Hs as <-. unfold shape. simpl. by destruct (inbound st).
  - destruct (phase st) eqn:E; try done. injection Hs as <-. unfold shape. simpl. by destruct (inbound st).
  - assert (phase st = Relaying ∨ phase st = Responding) as Hp by (destruct (phase st); try done; auto).
    assert (st' = block data err st) as ->
      by (destruct Hp as [E|E]; rewrite E in Hs; destruct (_ || _); simplify_eq; done).
    destruct (block_shape st data err) as (_&_&_&Hic&Hin&_&_&_&Hcc&_&Hph). unfold shape. rewrite Hic, Hin, Hcc, Hph.
    destruct err; [|done]. by destruct Hp as [E|E]; rewrite E in *; destruct (inbound st).
  - destruct (phase st) eqn:E; try done. destruct (inbound st) eqn:Ei; try done. injection Hs as <-. unfold shape. simpl. by rewrite Ei.
Qed.

Lemma relay_shape st : reachable relay_init st → shape st.
Proof. intros H. by eapply reachable_invariant; [apply shape_step|exact H|]. Qed.

(** The handler panics only on its first message, a hijacked request: one without
    headers, or one whose content does not fit a slice. *)
Definition crash_cause (p : panic) (m : HTTPMessage) : Prop :=
  Hijack m = true ∧
  (p = NilMapWrite ∧ Headers m = None ∨
   p = MakeSizeOutOfRange ∧ ∃ content, setContentLength (Headers m) = Ok content ∧ (max_alloc < content)%Z).

Definition crash_ok (st : relay) : Prop :=
  match phase st with
  | First => st = relay_init
  | Content m header content =>
      (∃ s, received st = [s] ∧ Unmarshal s = Ok m) ∧ Hijack m = true ∧ setContentLength (Headers m) = Ok content
  | Crashed p => ∃ s m, received st = [s] ∧ Unmarshal s = Ok m ∧ crash_cause p m
  | _ => True
  end.

(** Setting another header leaves the length. *)
Lemma setContentLength_header headers header :
  (if String.eqb (Header_Get headers "Connection") "Upgrade"
   then Val headers else Header_Set headers "Connection" "close") = Val header →
  setContentLength header = setContentLength headers.
Proof.
  destruct (String.eqb _ _); [by intros [= ->]|]. destruct headers as [hs|]; [|done]. intros [= <-].
  unfold setContentLength, Header_Get. by rewrite lookup_insert_ne.
Qed.

Lemma crash_first str a st : st = relay_init → crash_ok (first_message str (set_dial a (note (Some str) st))).
Proof.
  intros ->. destruct (first_received str) as [_ Hok]. unfold first_message.
  destruct (Unmarshal (default "" str)) as [m|e] eqn:Hm; [|done]. destruct (Hok m eq_refl) as (s&Hs&Hu).
  unfold crash_ok, begin_hijack, begin_http. destruct (Hijack m) eqn:Hh; [|by repeat case_match; simpl].
  destruct (NewRequest (HMethod m) (URL m)); [|done]. destruct (if String.eqb _ _ then _ else _) as [header|p] eqn:Hd.
  - destruct (setContentLength header) as [content|] eqn:Hl; [|done]. destruct (Url.Parse (URL m)) as [u|]; [|done].
    destruct (dial _ (Host u)); [done|]. rewrite (setContentLength_header _ _ Hd) in Hl.
    split; [by exists s|done].
  - exists s, m. split; [done|]. split; [done|]. split; [done|]. left.
    destruct (String.eqb _ _), (Headers m); by simplify_eq/=.
Qed.

(** Past the set-up there is no panic. *)
Definition later (st : relay) : bool :=
  match phase st with First | Content _ _ _ | Crashed _ => false | _ => true end.

Lemma later_step l st st' : later st = true → relay_step l st = Some st' → later st' = true.
Proof.
  unfold later. intros Hl Hs. destruct l as [str a|str failed|n str failed|str| |code h| |data err|]; unfold relay_step in Hs.
  - by destruct (phase st).
  - by destruct (phase st).
  - assert (phase st' = phase st) as ->; [|done].
    unfold copy_turn in Hs. destruct (phase st) eqn:E, (inbound st); try done; repeat case_match; simplify_eq/=; congruence.
  - assert (phase st' = phase st) as ->; [|done]. destruct (phase st) eqn:E, (inbound st), (in_closed st); try done; injection Hs as <-; simpl; congruence.
  - assert (phase st' = phase st) as ->; [|done]. destruct (phase st) eqn:E, (inbound st); try done; injection Hs as <-; simpl; congruence.
  - destruct (phase st); try done. by injection Hs as <-.
  - destruct (phase st); try done. by injection Hs as <-.
  - assert (st' = block data err st ∧ (phase st = Relaying ∨ phase st = Responding)) as [-> Ho]
      by (destruct (_ || _), (phase st); simplify_eq; auto).
    destruct (block_shape st data err) as (_&_&_&_&_&_&_&_&_&_&->). destruct err; [by destruct (phase st)|done].
  - destruct (phase st), (inbound st); try done. by injection Hs as <-.
Qed.

Lemma crash_ok_step l st st' : shape st ∧ crash_ok st → relay_step l st = Some st' → shape st' ∧ crash_ok st'.
Proof.
  intros [Hsh Hi] Hs. split; [by eapply shape_step|]. destruct (later st) eqn:Hl.
  { pose proof (later_step l st st' Hl Hs) as Hl'. unfold later, crash_ok in *. by destruct (phase st'). }
  unfold later, shape, crash_ok in Hl, Hsh, Hi. destruct (phase st) as [|m header content| | | | | |p] eqn:E; try done.
  - rewrite Hi in Hs. destruct l as [str a| | | | | | | |]; try done. injection Hs as <-. by apply crash_first.
  - destruct (inbound st) eqn:Ein; try done. unfold relay_step in Hs. rewrite E, Ein in Hs.
    destruct l as [|str failed| | | | | | |]; try done. destruct (make_panics content) eqn:Hmk.
    + destruct str; [done|]. injection Hs as <-. destruct Hi as ((s&Hs&Hu)&Hh&Hc). exists s, m.
      split; [done|]. split; [done|]. split; [done|]. right. split; [done|]. exists content. split; [done|].
      by apply andb_prop in Hmk as [_ ?%Z.ltb_lt].
    + unfold write_request in Hs. repeat case_match; by simplify_eq/=.
  - destruct (inbound st) eqn:Ein; try done. unfold relay_step in Hs. rewrite E, Ein in Hs. by destruct l.
Qed.

Lemma relay_crash_ok st p :
  reachable relay_init st → phase st = Crashed p →
  ∃ s m, received st = [s] ∧ Unmarshal s = Ok m ∧ crash_cause p m.
Proof.
  intros Hr Hp. destruct (reachable_invariant (λ t, shape t ∧ crash_ok t) relay_init st crash_ok_step Hr) as [_ Hc]; [done|].
  unfold crash_ok in Hc. by rewrite Hp in Hc.
Qed.

(** When [Handle] would panic on what was received, the machine has, or its next
    step does. *)
Lemma tracks_panics st p :
  tracks st → handled st = Panics p →
  phase st = Crashed p ∨
  (∃ st', relay_step (RContent None None) st = Some st') ∧
  ∀ l st', relay_step l st = Some st' → phase st' = Crashed p.
Proof.
  intros Ht Hp. assert (¬ is_val (handled st)) as Hn by (intros [v Hv]; congruence).
  unfold tracks in Ht. destruct (phase st) as [|m header c| | | | | |p'] eqn:E.
  - subst st. vm_compute in Hp. discriminate Hp.
  - destruct Ht as (Hin&_&Hb&He&Hc&s&Hrc&Hm). right.
    rewrite (handled_message st s [] m Hrc Hm), (proj1 Hc), (doHijack_connects _ _ _ _ _ _ Hc) in Hp.
    unfold initial_content in Hp. destruct (make_panics c) eqn:Hmk.
    + injection Hp as <-. unfold relay_step. rewrite E, Hin, Hmk. split; [by eexists|].
      intros l st'. destruct l as [| |n str failed| | | | | |]; try done. by destruct str; [|intros [= <-]].
    + exfalso. revert Hp. destruct (0 <? c)%Z; [destruct (Read _ _) as [h [data err]]|];
        destruct (request_bytes _ _ _); discriminate.
  - destruct Hn. by apply hijacking_val, Ht.
  - destruct Hn. by apply hijacking_val, Ht.
  - destruct Hn. by apply forwarding_val, Ht.
  - destruct Hn. by apply forwarding_val, Ht.
  - destruct Ht as [[_ Hv]|[[Hh _]|[Hf _]]]; destruct Hn; [by eexists|by apply hijacking_val|by apply forwarding_val].
  - left. f_equal. destruct Ht. congruence.
Qed.

(** ** The end of a hijacked session *)

(** The steps that follow the end of the channel: nothing is received. *)
Definition ending (l : relay_label) : Prop :=
  match l with
  | RRead _ None None | RRead _ (Some None) None | RClose | RBlock [] (Some ErrClosedPipe) | RWaited => True
  | _ => False
  end.

(** No message is received. *)
Definition no_message (l : relay_label) : Prop :=
  match l with
  | RFirst (Some _) _ | RContent (Some (Some _)) _ | RRead _ (Some (Some _)) _ | RDrain _ => False
  | _ => True
  end.

(** A step of the agent: all but one more block from the peer. *)
Definition own (l : relay_label) : bool := match l with RBlock _ None => false | _ => true end.

Definition to_go (st : relay) : nat :=
  match inbound st with Copying => 4 + length (rbuf st) | Draining => 3 | _ => 0 end +
  match phase st with Relaying => 2 | Waiting => 1 | _ => 0 end.

Definition hijack_open (st : relay) : Prop := phase st = Relaying ∨ phase st = Waiting.

(** Without a message the reader's buffer shrinks, or the copy ends. *)
Lemma silent_read st str :
  can_receive str st = true → (∀ s, str ≠ Some (Some s)) →
  let '(h, (data, err)) := Read copy_buffer (reader_of st (chan_of str)) in
  err ≠ None ∨ length (Buffered h) < length (rbuf st).
Proof.
  unfold can_receive, Read, reader_of, needs_message. intros Hr Hno. simpl.
  destruct str as [[s|]|]; [by destruct (Hno s)| |].
  - rewrite Hr. simpl. by left.
  - apply negb_true_iff in Hr. rewrite Hr. simpl. destruct (reof st); [by left|right].
    rewrite andb_true_r in Hr. apply Nat.eqb_neq in Hr. rewrite length_drop. pose proof copy_buffer_pos. lia.
Qed.

(** A relayed session stays one until it returns. *)
Definition relays (st : relay) : Prop :=
  match inbound st with
  | Nobody | Transport => False
  | _ => phase st = Relaying ∨ phase st = Waiting ∨ phase st = Returned
  end.

Lemma open_relays st : shape st → hijack_open st → relays st.
Proof. unfold shape, hijack_open, relays. intros Hs [E|E]; rewrite E in *; destruct (inbound st); try done; auto. Qed.

(** What a step makes of a relayed session. *)
Lemma relays_step l st st' :
  relays st → relay_step l st = Some st' →
  relays st' ∧ (conn_closed st = true → own l = true ∧ conn_closed st' = true) ∧
  (no_message l → if own l then to_go st' < to_go st else to_go st' = to_go st).
Proof.
  unfold relays. intros Hp Hs.
  assert (phase st = Relaying ∨ phase st = Waiting ∨ phase st = Returned) as Hph0 by (destruct (inbound st); tauto).
  destruct l as [str a|str failed|n str failed|str| |code h| |data err|]; unfold relay_step in Hs;
    try (by destruct Hph0 as [E|[E|E]]; rewrite E in Hs).
  - destruct (inbound st) eqn:Hin; try by destruct (phase st).
    assert (can_receive str st && (n =? copy_buffer) = true) as Hr by (by destruct (_ && _), (phase st)).
    rewrite Hr in Hs. apply andb_prop in Hr as [Hr ->%Nat.eqb_eq].
    pose proof (silent_read st str Hr) as Hsil.
    destruct (Read copy_buffer (reader_of st (chan_of str))) as [h [data err]] eqn:HR.
    assert (st' = copy_turn data err failed (set_reader h (note str st))) as -> by (destruct (phase st); congruence).
    destruct (turn_shape data err failed (set_reader h (note str st))) as (Hph&Hi'&Hb&_&_&Hcc). simpl in *.
    unfold to_go. rewrite Hph, Hcc, Hb, Hin. split; [by destruct Hi' as [-> | ->]; rewrite ?Hin|]. split; [done|].
    intros Hno. destruct Hi' as [Hi'| ->]; [|lia]. rewrite Hi', Hin.
    destruct Hsil as [He|Hlt]; [by intros s ->| |lia].
    exfalso. unfold copy_turn in Hi'. destruct err; [|done]. destruct failed, data; simpl in Hi'; congruence.
  - destruct (inbound st) eqn:Hin; try by destruct (phase st).
    assert (st' = note (Some (Some str)) st) as -> by (destruct (in_closed st), (phase st); congruence).
    simpl. by rewrite Hin.
  - destruct (inbound st) eqn:Hin; try by destruct (phase st).
    assert (st' = close_conn (go (phase st) Gone (note (Some None) st))) as -> by (destruct (phase st); congruence).
    unfold to_go. simpl. rewrite Hin. split; [done|]. split; [done|]. intros _. lia.
  - assert (phase st = Relaying) as E by (by destruct Hph0 as [E|[E|E]]; rewrite E in Hs).
    rewrite E in Hs. destruct (copy_buffer <? length data); [done|]. simpl in Hs.
    destruct (conn_closed st && bool_decide (err = None)) eqn:Hc; [done|]. injection Hs as <-.
    destruct (block_shape st data err) as (_&_&_&_&Hi'&Hb&_&_&Hcc&_&Hph). rewrite E in Hph.
    unfold to_go. rewrite Hi', Hb, Hph, Hcc, E. split; [destruct (inbound st), err; auto|].
    split; [|destruct err; simpl; intros _; lia]. intros Hcl. split; [|done]. rewrite Hcl in Hc. by destruct err.
  - assert (phase st = Waiting ∧ inbound st = Gone) as [E Hg]
      by (destruct Hph0 as [E|[E|E]]; rewrite E in Hs; [done|by destruct (inbound st)|done]).
    rewrite E, Hg in Hs. injection Hs as <-. unfold to_go. simpl. rewrite Hg, E.
    split; [auto|]. split; [done|]. intros _. lia.
Qed.

Lemma relays_run st ls st' :
  relays st → mstar st ls st' →
  relays st' ∧ (conn_closed st = true → Forall (λ l, own l = true) ls) ∧
  (Forall no_message ls → length (filter (λ l, own l = true) ls) + to_go st' ≤ to_go st).
Proof.
  intros Hr Hrun. induction Hrun as [st|st l st1 ls st2 Hs _ IH]; [split_and!; auto|].
  destruct (relays_step l st st1 Hr Hs) as (Hr1&Hcl&Hlt). destruct (IH Hr1) as (Hr2&Hcl2&Hle). split; [done|]. split.
  - intros Hc. destruct (Hcl Hc) as [Ho Hc1]. constructor; auto.
  - intros [Hn Hns]%Forall_cons. specialize (Hlt Hn). specialize (Hle Hns). destruct (own l) eqn:Ho.
    + rewrite filter_cons_True by done. simpl. lia.
    + rewrite filter_cons_False by by rewrite Ho. lia.
Qed.

Lemma ending_read st :
  inbound st = Copying →
  ∃ l st', ending l ∧ relay_step l st = Some st' ∧ phase st' = phase st ∧
    (inbound st' = Draining ∨ inbound st' = Copying ∧ length (rbuf st') < length (rbuf st)).
Proof.
  intros Hin. destruct (needs_message st) eqn:Hn.
  - exists (RRead copy_buffer (Some None) None).
    assert (relay_step (RRead copy_buffer (Some None) None) st =
      Some (copy_turn [] (Some EOF) None (set_reader (reader_of st []) (note (Some None) st)))) as Hs.
    { unfold relay_step. rewrite Hin. unfold can_receive. rewrite Hn, Nat.eqb_refl. simpl.
      unfold Read, reader_of. simpl. unfold needs_message in Hn. rewrite Hn. by destruct (phase st). }
    eexists. split; [done|]. split; [exact Hs|]. split; [done|by left].
  - exists (RRead copy_buffer None None).
    destruct (Read copy_buffer (reader_of st [])) as [h [data err]] eqn:HR.
    assert (relay_step (RRead copy_buffer None None) st = Some (copy_turn data err None (set_reader h (note None st)))) as Hs.
    { unfold relay_step. rewrite Hin. unfold can_receive. rewrite Hn, Nat.eqb_refl. simpl. rewrite HR. by destruct (phase st). }
    eexists. split; [done|]. split; [exact Hs|]. unfold Read, reader_of, needs_message in *. simpl in HR. rewrite Hn in HR.
    injection HR as <- <- <-. destruct (reof st) eqn:He; [by split; [|left]|]. split; [done|]. right. simpl. split; [done|].
    rewrite andb_true_r in Hn. apply Nat.eqb_neq in Hn. rewrite length_drop. pose proof copy_buffer_pos. lia.
Qed.

Lemma ending_step st :
  shape st → hijack_open st →
  ∃ l st', ending l ∧ relay_step l st = Some st' ∧ to_go st' < to_go st ∧
    (hijack_open st' ∨ phase st' = Returned ∧ inbound st' = Gone).
Proof.
  intros Hs Ho. unfold shape in Hs. destruct (inbound st) eqn:Hin; try by destruct Ho as [E|E]; rewrite E in Hs.
  - destruct (ending_read st Hin) as (l&st'&Hl&Hst&Hp&Hc). exists l, st'. split; [done|]. split; [done|].
    unfold hijack_open, to_go. rewrite Hp, Hin. split; [|by left]. destruct Hc as [-> |[-> ?]]; lia.
  - exists RClose, (close_conn (go (phase st) Gone (note (Some None) st))). split; [done|].
    unfold relay_step. rewrite Hin. split; [by destruct Ho as [E|E]; rewrite E|].
    unfold to_go, hijack_open. simpl. rewrite Hin. split; [lia|by left].
  - assert (conn_closed st = true) as Hc by (destruct (conn_closed st); [done|]; rewrite andb_false_r in Hs; by destruct Ho as [E|E]; rewrite E in Hs).
    destruct Ho as [E|E].
    + exists (RBlock [] (Some ErrClosedPipe)), (block [] (Some ErrClosedPipe) st). split; [done|].
      unfold relay_step. rewrite E, Hc. split; [done|].
      destruct (block_shape st [] (Some ErrClosedPipe)) as (_&_&_&_&Hi'&_&_&_&_&_&Hp).
      unfold to_go, hijack_open. rewrite Hi', Hp, E, Hin. split; [lia|auto].
    + exists RWaited, (return_ st). split; [done|]. unfold relay_step. rewrite E, Hin. split; [done|].
      unfold to_go. simpl. rewrite Hin, E. split; [lia|auto].
Qed.
End relay.

(** ** Properties *)

Section properties.
Context {AL : Alloc} (request_bytes : HTTPMessage → option (gmap string (list string)) → bytes → result bytes) (key : string).
#[local] Existing Instance relay_machine.

(** C9: the goroutines together do what [Handle] says, in every run in which no
    write to the connection fails: one that returns has sent exactly the messages
    [Handle] gives for the messages received, the status answered and the blocks
    read, whatever the order in which they came; one that panics does so with the
    panic of [Handle], and when [Handle] would panic on what was received the run
    has panicked, or its next step, whichever it is, does; and once the inbound
    goroutine has copied everything, what was written to the connection is what
    [doHijack] writes. *)
Theorem relay_refines_Handle ls st :
  mstar (Machine0 := relay_machine request_bytes key) relay_init ls st → Forall clean ls →
  (phase st = Returned →
     Proxy.Handle (dial st) (λ _ _ _, answer_of st) request_bytes key (received st) (from_conn st)
       = Val (responses st)) ∧
  (∀ p, phase st = Crashed p →
     Proxy.Handle (dial st) (λ _ _ _, answer_of st) request_bytes key (received st) (from_conn st) = Panics p) ∧
  (∀ p, Proxy.Handle (dial st) (λ _ _ _, answer_of st) request_bytes key (received st) (from_conn st) = Panics p →
     phase st = Crashed p ∨
     (∃ st', relay_step request_bytes key (RContent None None) st = Some st') ∧
     ∀ l st', relay_step request_bytes key l st = Some st' → phase st' = Crashed p) ∧
  (inbound st = Draining ∨ inbound st = Gone →
     ∃ m r, Proxy.readMessage (received st) = Ok m ∧ Hijack m = true ∧
       doHijack (dial st) request_bytes m key (tl (received st)) (from_conn st) = Val r ∧
       to_conn st = Proxy.to_conn r).
Proof.
  intros Hrun Hcl.
  assert (out_inv key st ∧ tracks request_bytes key st) as [Ho Ht].
  { assert (out_inv key relay_init ∧ tracks request_bytes key relay_init) as Hi by (split; [apply out_inv_init|done]).
    revert Hi Hcl. induction Hrun as [st|st l st1 ls st2 Hs _ IH]; intros [Ho Ht] Hcl; [done|].
    apply Forall_cons in Hcl as [Hl Hcl]. apply IH; [|done].
    split; [by eapply out_inv_step|by eapply tracks_step]. }
  change (Proxy.Handle (dial st) (λ _ _ _, answer_of st) request_bytes key (received st) (from_conn st))
    with (handled request_bytes key st).
  pose proof (λ p, tracks_panics request_bytes key st p Ht) as Hpan.
  unfold tracks, finishing in Ht. split_and!.
  - intros Hp. rewrite Hp in Ht. destruct Ht as [[_ ?]|[(Hh&[Hin _]&Hst&He)|(Hf&Hin&Hc)]]; [done| |].
    + destruct (hijacking_handled request_bytes key st Hh) as (m&Hm&Hhj&Hd); [congruence|].
      unfold handled, Proxy.Handle. rewrite Hm, Hhj, Hd. cbn [fmap outcome_fmap mbind outcome_bind Proxy.from_conn].
      rewrite (out_frames _ _ Ho). unfold frames, returned, relayed. by rewrite Hp, Hst, He.
    + destruct Hf as (s&rest&m&u&len&Hrc&Hm&Hh&Hr&Hl). rewrite (handled_message request_bytes key st s rest m Hrc Hm), Hh.
      cbn [mbind outcome_bind]. unfold doHttp. rewrite Hr, Hl, (out_frames _ _ Ho). unfold frames, returned, answer_of.
      rewrite Hp. destruct Hc as [(-> & -> & ->)|[[[c h] ->] ->]]; [done|].
      unfold writeMessage at 1. rewrite relay_sent. done.
  - intros p Hp. rewrite Hp in Ht. apply Ht.
  - exact Hpan.
  - intros Hin. assert (hijacking request_bytes st) as Hh.
    { assert (inbound st ≠ Nobody ∧ inbound st ≠ Transport) as [H1 H2] by (by destruct Hin as [-> | ->]).
      destruct (phase st); try tauto. by rewrite Ht in H1. }
    destruct (hijacking_handled request_bytes key st Hh) as (m&Hm&Hhj&Hd); [by destruct Hin as [-> | ->]|].
    by exists m, (mkHijacked (to_conn st) (body_message key ∘ Marshal <$> relayed (from_conn st))).
Qed.

(** C32: a hijacked request that has come to be relayed lives as long as its
    channel: in every run from then on the handler returns only when the channel
    was closed and the connection with it, even when the peer hung up long
    before.  And after the channel's end every run comes to the return: however
    the goroutines are scheduled and whatever the peer sends or refuses, they make
    at most [to_go] steps of their own, and as long as the handler has not
    returned one of them is there to be made (a step of the copy is done when the
    peer has taken the bytes, or has refused them); once the connection is closed
    no step but theirs is left. *)
Theorem hijack_ends_with_session st :
  reachable (Machine0 := relay_machine request_bytes key) relay_init st →
  phase st = Relaying ∨ phase st = Waiting →
  (∀ ls st', mstar (Machine0 := relay_machine request_bytes key) st ls st' → phase st' = Returned →
     in_closed st' = true ∧ conn_closed st' = true) ∧
  (∀ ls st', mstar (Machine0 := relay_machine request_bytes key) st ls st' → Forall no_message ls →
     length (filter (λ l, own l = true) ls) ≤ to_go st ∧
     (conn_closed st = true → length ls ≤ to_go st) ∧
     (phase st' = Returned ∨ ∃ l st'', ending l ∧ relay_step request_bytes key l st' = Some st'')).
Proof.
  intros Hr Ho. pose proof (relay_shape request_bytes key st Hr) as Hs.
  pose proof (open_relays st Hs Ho) as Hrel.
  assert (∀ ls st', mstar (Machine0 := relay_machine request_bytes key) st ls st' → shape st') as Hsh.
  { intros ls st' Hrun. apply (relay_shape request_bytes key). eapply reachable_trans; [exact Hr|by exists ls]. }
  split; intros ls st' Hrun; destruct (relays_run request_bytes key st ls st' Hrel Hrun) as (Hr'&Hcl&Hle);
    specialize (Hsh ls st' Hrun).
  - intros Hp. unfold shape, relays in *. rewrite Hp in Hsh. destruct (inbound st'); try done. by apply andb_prop in Hsh.
  - intros Hno. specialize (Hle Hno). split; [lia|]. split.
    + intros Hc. specialize (Hcl Hc). assert (filter (λ l, own l = true) ls = ls) as Hf; [|rewrite Hf in Hle; lia].
      clear -Hcl. induction Hcl as [|l ls Hl _ IH]; [done|]. by rewrite filter_cons_True, IH by done.
    + assert (phase st' = Returned ∨ hijack_open st') as [|Ho']; [|by left|right].
      { unfold relays, hijack_open in *. destruct (inbound st'); tauto. }
      destruct (ending_step request_bytes key st' Hsh Ho') as (l&st''&?&?&_). by eexists _, _.
Qed.
End properties.

(** ** Witnesses *)

#[local] Instance demo_alloc : Alloc := (2 ^ 47)%Z.

Definition demo_request (_ : HTTPMessage) (_ : option (gmap string (list string))) (buf : bytes) : result bytes :=
  Ok (bytes_of "GET / HTTP/1.1 " ++ buf).

Definition demo_upgrade : HTTPMessage :=
  mkHTTPMessage true "web" "GET" "http://web:80/" (Some {[ "Connection" := ["Upgrade"] ]}) 0 [] false.

Definition demo_open : list relay_label := [
  RFirst (Some (Marshal demo_upgrade)) (λ _, None); RContent None None;
  RBlock (bytes_of "yo") None; RRead copy_buffer (Some (Some (Marshal (set_body (bytes_of "hi") zero_message)))) None].

Definition demo_end : list relay_label := [
  RBlock [] (Some EOF); RRead copy_buffer (Some None) None; RClose; RWaited].

Definition demo_run_of (ls : list relay_label) : relay :=
  default relay_init (mrun (Machine0 := relay_machine demo_request "k") ls relay_init).

Definition demo_closed : relay := demo_run_of (demo_open ++ demo_end).

Lemma demo_runs ls :
  is_Some (mrun (Machine0 := relay_machine demo_request "k") ls relay_init) →
  mstar (Machine0 := relay_machine demo_request "k") relay_init ls (demo_run_of ls).
Proof. intros [st Hst]. apply mrun_mstar. unfold demo_run_of. by rewrite Hst. Qed.

Lemma relay_refines_Handle_witness :
  Proxy.Handle (λ _, None) (λ _ _ _, Err EOF) demo_request "k"
      [Marshal demo_upgrade; Marshal (set_body (bytes_of "hi") zero_message)] [bytes_of "yo"]
    = Val (responses demo_closed) ∧ length (responses demo_closed) = 3 ∧
  to_conn demo_closed = bytes_of "GET / HTTP/1.1 hi".
Proof.
  split; [|vm_compute; done].
  refine (proj1 (relay_refines_Handle demo_request "k" (demo_open ++ demo_end) demo_closed _ _) _).
  - apply demo_runs. eexists. vm_compute. reflexivity.
  - repeat constructor.
  - vm_compute. reflexivity.
Defined.

(** The session of [demo_open] after its end. *)
Definition demo_over : list relay_label :=
  [RBlock (bytes_of "more") None; RRead copy_buffer (Some None) None; RClose; RBlock [] (Some ErrClosedPipe)].

Lemma hijack_ends_with_session_witness :
  length (filter (λ l, own l = true) demo_over) ≤ to_go (demo_run_of demo_open) ∧
  (conn_closed (demo_run_of demo_open) = true → length demo_over ≤ to_go (demo_run_of demo_open)) ∧
  (phase (demo_run_of (demo_open ++ demo_over)) = Returned ∨
   ∃ l st'', ending l ∧ relay_step demo_request "k" l (demo_run_of (demo_open ++ demo_over)) = Some st'').
Proof.
  refine (proj2 (hijack_ends_with_session demo_request "k" (demo_run_of demo_open) _ _) demo_over
    (demo_run_of (demo_open ++ demo_over)) _ _).
  - exists demo_open. apply demo_runs. eexists. vm_compute. reflexivity.
  - left. vm_compute. reflexivity.
  - apply mrun_mstar. vm_compute. reflexivity.
  - repeat constructor.
Defined.
