(* ===== verification/Haproxy.v ===== *)
(** * [pkg/haproxy/haproxy.go]

    Reading the statistics of haproxy from its socket: [runCommand] sends a
    command and scans the answer into lines, [Stats] turns the lines of
    [show stat] - a header of keys, then comma-separated values - into one map
    per line.  What the socket answers is a parameter, the answer being the
    blocks in which it is read. *)

From Stdlib Require Import ZArith Ascii.
From S2P Require Import Prelude GoStd Bufio.

Abbreviation Stat := (gmap string string).

(** What the socket does: dialing and writing may fail, reads give blocks. *)
Record socket := mkSocket { dial : option error; write : option error; answer : list bytes }.

(** [runCommand]: the lines and the error; [None] is a nil slice. *)
Definition runCommand (conn : socket) (cmd : string) : option (list string) * option error :=
  match dial conn with
  | Some err => (None, Some err)
  | None =>
      match write conn with
      | Some err => (None, Some err)
      | None =>
          let '(tokens, err) := scan_lines (answer conn) in
          (Some (string_of <$> tokens), err)
      end
  end.

(** The loop [for i := 0; i < len(values); i++ { stat[keys[i]] = values[i] }]. *)
Fixpoint fill (keys values : list string) (i : nat) (stat : Stat) : outcome Stat :=
  match values with
  | [] => Val stat
  | v :: values => k ← index keys i; fill keys values (S i) (<[k := v]> stat)
  end.

(** The loop over the lines after the header; a line of another length than the
    header is only logged. *)
Fixpoint stat_lines (keys : list string) (lines : list string) : outcome (list Stat) :=
  match lines with
  | [] => Val []
  | line :: lines =>
      if String.eqb line "" then stat_lines keys lines
      else
        stat ← fill keys (Split "," line) 0 ∅;
        stats ← stat_lines keys lines;
        Val (stat :: stats)
  end.

(** [Monitor.Stats]. *)
Definition Stats (conn : socket) : outcome (result (list Stat)) :=
  match runCommand conn "show stat" with
  | (_, Some err) => Val (Err err)
  | (lines, None) =>
      match default [] lines with
      | [] => Val (Err (OtherError "Failed to find stats"))
      | header :: lines =>
          if negb (HasPrefix header "# ") then Val (Err (OtherError "Failed to find stats"))
          else
            let keys := Split "," (TrimPrefix header "# ") in
            stats ← stat_lines keys lines;
            Val (Ok stats)
      end
  end.

(** ** Lemmas *)

(** Filling never goes past the keys. *)
Lemma fill_panics keys values i stat :
  fill keys values i stat = Panics IndexOutOfRange ↔ length keys < i + length values ∧ values ≠ [].
Proof.
  revert i stat. induction values as [|v values IH]; intros i stat; simpl; [naive_solver|].
  destruct (index keys i) as [k|p] eqn:E; simpl.
  - apply index_val, lookup_lt_Some in E. rewrite IH. split; [intros []; split; [lia|done]|].
    intros [Hl _]. split; [lia|]. intros ->. simpl in Hl. lia.
  - pose proof E as E'. unfold index in E'. destruct (keys !! i) eqn:Ek; [done|]. injection E' as <-.
    apply lookup_ge_None in Ek. split; [|done]. intros _. split; [lia|done].
Qed.

Lemma fill_only_index keys values i stat p : fill keys values i stat = Panics p → p = IndexOutOfRange.
Proof.
  revert i stat. induction values as [|v values IH]; intros i stat; simpl; [done|].
  unfold index. destruct (keys !! i); simpl; [apply IH|]. by intros [= <-].
Qed.

(** What [fill] stores: the columns, a later one winning over an earlier one of
    the same name. *)
Lemma fill_val keys values i stat :
  i + length values ≤ length keys →
  fill keys values i stat = Val (list_to_map (rev (zip (drop i keys) values)) ∪ stat).
Proof.
  revert i stat. induction values as [|v values IH]; intros i stat Hl; simpl in *.
  { rewrite zip_with_nil_r. simpl. by rewrite (left_id_L ∅ (∪)). }
  destruct (lookup_lt_is_Some_2 keys i) as [k Hk]; [lia|].
  unfold index. rewrite Hk. simpl. rewrite IH by lia. f_equal.
  rewrite (drop_S _ _ _ Hk). simpl. rewrite list_to_map_app. simpl.
  rewrite insert_union_singleton_l, (assoc_L (∪)). f_equal.
Qed.

Definition row_stat (keys : list string) (line : string) : Stat :=
  list_to_map (rev (zip keys (Split "," line))).

Lemma stat_lines_val keys lines :
  Forall (λ l, l ≠ "" → length (Split "," l) ≤ length keys) lines →
  stat_lines keys lines = Val (row_stat keys <$> filter (λ l, l ≠ "") lines).
Proof.
  induction 1 as [|l lines Hl Hls IH]; [done|]. cbn [stat_lines].
  destruct (String.eqb_spec l "") as [->|Hne].
  - by rewrite IH, filter_cons_False by naive_solver.
  - rewrite fill_val by (simpl; auto). simpl. rewrite IH. simpl.
    rewrite filter_cons_True by done. rewrite fmap_cons. unfold row_stat at 2.
    by rewrite drop_0, (right_id_L ∅ (∪)).
Qed.

Lemma stat_lines_panics keys lines :
  (∃ l, l ∈ lines ∧ l ≠ "" ∧ length keys < length (Split "," l)) →
  stat_lines keys lines = Panics IndexOutOfRange.
Proof.
  induction lines as [|l lines IH]; intros (l'&Hin&Hne&Hlen); [by apply elem_of_nil in Hin|].
  cbn [stat_lines]. destruct (String.eqb_spec l "") as [->|Hl].
  - apply elem_of_cons in Hin as [->|Hin]; [done|]. apply IH. by exists l'.
  - destruct (fill keys (Split "," l) 0 ∅) as [stat|p] eqn:E; simpl.
    + apply elem_of_cons in Hin as [->|Hin].
      * assert (fill keys (Split "," l) 0 ∅ = Panics IndexOutOfRange) by (by apply fill_panics; split; [|apply Split_not_nil]).
        congruence.
      * rewrite IH; [done|]. by exists l'.
    + by rewrite (fill_only_index _ _ _ _ _ E).
Qed.

(** A line of text that the scanner gives back as it is. *)
Definition good_line (l : string) : Prop :=
  (Byte.x0a ∉ bytes_of l) ∧ last (bytes_of l) ≠ Some Byte.x0d ∧ String.length l < MaxScanTokenSize.

Definition text_of (lines : list string) : bytes := concat ((λ l, bytes_of l ++ newline) <$> lines).

Lemma newline_length : 0 < length newline.
Proof. simpl. lia. Qed.

Lemma good_lines_kept lines :
  Forall good_line lines → dropCR <$> (bytes_of <$> lines) = bytes_of <$> lines.
Proof.
  induction 1 as [|l lines (_&Hl&_) _ IH]; [done|]. by rewrite !fmap_cons, IH, dropCR_id.
Qed.

Lemma scan_lines_text chunks lines :
  concat chunks = text_of lines → reads_fit MaxScanTokenSize ScanLines [] chunks = true →
  Forall good_line lines →
  scan_lines chunks = (bytes_of <$> lines, None).
Proof.
  intros Hc Hf Hg. unfold scan_lines, ScanLines.
  rewrite (scan_reference newline dropCR newline_length MaxScanTokenSize [] chunks);
    [|by apply sep_not_empty, newline_length|simpl; lia|done].
  rewrite app_nil_l, Hc. unfold text_of.
  replace ((λ l, bytes_of l ++ newline) <$> lines) with ((λ m, m ++ newline) <$> (bytes_of <$> lines))
    by (by rewrite <- list_fmap_compose).
  rewrite <- (app_nil_r (concat _)).
  rewrite sep_spec_frames; [|exact newline_length|].
  - rewrite sep_spec_empty by (exact newline_length || exact MaxScanTokenSize_pos).
    rewrite app_nil_r. f_equal. by apply good_lines_kept.
  - apply Forall_fmap. eapply Forall_impl; [exact Hg|]. intros l (Hn&_&Hl). simpl.
    split; [by apply frame_ok_newline|]. rewrite length_bytes_of. simpl. lia.
Qed.

(** The rows haproxy prints as lines, each under the keys. *)
Definition csv (keys : list string) (rows : list (list string)) : list string :=
  ("# " +:+ Join "," keys) :: (Join "," <$> rows).

Definition good_row (keys row : list string) : Prop :=
  row ≠ [] ∧ Join "," row ≠ "" ∧ length row ≤ length keys ∧ Forall (λ w, has_char "," w = false) row.

Lemma fst_zip_take (keys row : list string) : (zip keys row).*1 = take (length row) keys.
Proof.
  revert row. induction keys as [|k keys IH]; intros [|v row]; try done.
  simpl. by rewrite IH.
Qed.

Lemma row_stat_Join keys row :
  NoDup keys → good_row keys row → row_stat keys (Join "," row) = list_to_map (zip keys row).
Proof.
  intros Hk (Hne&_&_&Hw). unfold row_stat. rewrite Split_Join by done.
  symmetry. apply list_to_map_proper; [|apply Permutation_rev].
  rewrite fst_zip_take. rewrite <- (take_drop (length row) keys) in Hk. by apply NoDup_app in Hk as [? _].
Qed.

Lemma csv_lines_fit keys rows :
  Forall (good_row keys) rows →
  Forall (λ l, l ≠ "" → length (Split "," l) ≤ length keys) (Join "," <$> rows) ∧
  filter (λ l, l ≠ "") (Join "," <$> rows) = Join "," <$> rows.
Proof.
  induction 1 as [|row rows (Hne&Hj&Hl&Hw) _ [IH1 IH2]]; [done|]. rewrite fmap_cons. split.
  - constructor; [|done]. intros _. by rewrite Split_Join.
  - by rewrite filter_cons_True, IH2 by done.
Qed.

(** ** Properties *)

(** C33: from the bytes of the socket, in whatever blocks they are read: a
    header of distinct keys and rows no longer than it, printed as lines of
    comma-separated values, give back the rows as maps, in order. *)
Theorem Stats_roundtrip keys rows chunks :
  keys ≠ [] → NoDup keys → Forall (λ w, has_char "," w = false) keys →
  Forall (good_row keys) rows → Forall good_line (csv keys rows) →
  reads_fit MaxScanTokenSize ScanLines [] chunks = true →
  concat chunks = text_of (csv keys rows) →
  Stats (mkSocket None None chunks) = Val (Ok ((λ row, list_to_map (zip keys row)) <$> rows)).
Proof.
  intros Hne Hk Hkc Hr Hg Hf Hc. unfold Stats, runCommand. simpl.
  rewrite (scan_lines_text chunks (csv keys rows) Hc Hf Hg).
  rewrite <- list_fmap_compose, (list_fmap_ext _ id); [|intros i l _; apply string_of_bytes_of].
  rewrite list_fmap_id. unfold csv at 1.
  assert (HasPrefix ("# " +:+ Join "," keys) "# " = true) as Hp by (apply HasPrefix_spec; by eexists).
  cbn -[HasPrefix TrimPrefix Split Join stat_lines String.append]. rewrite Hp.
  cbn -[HasPrefix TrimPrefix Split Join stat_lines String.append].
  rewrite TrimPrefix_app, Split_Join by done.
  destruct (csv_lines_fit keys rows Hr) as [Hfit Hfil].
  rewrite (stat_lines_val keys _ Hfit), Hfil. simpl. do 2 f_equal.
  rewrite <- list_fmap_compose. apply list_fmap_ext. intros i row Hi. simpl.
  apply row_stat_Join; [done|]. by eapply Forall_lookup in Hr.
Qed.

(** On what [runCommand] scanned, [Stats] is total but for one case: it
    panics exactly when a line has more values than there are keys - such a line
    is reported as invalid and then processed all the same. *)
Theorem Stats_panics conn header lines :
  runCommand conn "show stat" = (Some (header :: lines), None) →
  HasPrefix header "# " = true →
  let keys := Split "," (TrimPrefix header "# ") in
  (Stats conn = Panics IndexOutOfRange ↔
     ∃ l, l ∈ lines ∧ l ≠ "" ∧ length keys < length (Split "," l)) ∧
  ((∀ l, l ∈ lines → l ≠ "" → length (Split "," l) ≤ length keys) →
     Stats conn = Val (Ok (row_stat keys <$> filter (λ l, l ≠ "") lines))).
Proof.
  intros Hrun Hp keys. unfold Stats. rewrite Hrun. simpl. rewrite Hp. simpl. fold keys.
  assert ((∀ l, l ∈ lines → l ≠ "" → length (Split "," l) ≤ length keys) →
    stat_lines keys lines = Val (row_stat keys <$> filter (λ l, l ≠ "") lines)) as Hval
    by (intros Hall; apply stat_lines_val, Forall_forall; done).
  split.
  - split; [|intros Hex; by rewrite (stat_lines_panics _ _ Hex)].
    intros Hpan. destruct (decide (Exists (λ l, l ≠ "" ∧ length keys < length (Split "," l)) lines)) as [He|Hne].
    + apply Exists_exists in He. naive_solver.
    + rewrite Hval in Hpan; [done|]. intros l Hl Hle.
      destruct (le_lt_dec (length (Split "," l)) (length keys)); [done|].
      destruct Hne. apply Exists_exists. by exists l.
  - intros Hall. by rewrite (Hval Hall).
Qed.

(** ** Witnesses *)

Definition demo_keys : list string := ["pxname"; "svname"; "scur"].
Definition demo_rows : list (list string) := [["web"; "FRONTEND"; "0"]; ["web"; "s1"]].
Definition demo_answer : list bytes :=
  [bytes_of "# pxname,svna"; bytes_of ("me,scur" +:+ String "010" "web,FRONTEND,0" +:+ String "010" "web,s");
   bytes_of ("1" +:+ String "010" "")].

Lemma Stats_roundtrip_witness :
  Stats (mkSocket None None demo_answer)
  = Val (Ok [list_to_map (zip demo_keys ["web"; "FRONTEND"; "0"]); list_to_map (zip demo_keys ["web"; "s1"])]).
Proof.
  apply (Stats_roundtrip demo_keys demo_rows demo_answer).
  - discriminate.
  - apply (bool_decide_unpack _). vm_compute. exact I.
  - by repeat constructor.
  - repeat constructor; try discriminate; simpl; lia.
  - repeat constructor; try (apply (bool_decide_unpack _); vm_compute; exact I);
      rewrite MaxScanTokenSize_value; apply Nat.ltb_lt; vm_compute; reflexivity.
  - vm_compute. reflexivity.
  - vm_compute. reflexivity.
Defined.

Lemma Stats_panics_witness :
  Stats (mkSocket None None [bytes_of ("# a" +:+ String "010" "1,2")]) = Panics IndexOutOfRange.
Proof.
  apply (proj1 (Stats_panics (mkSocket None None [bytes_of ("# a" +:+ String "010" "1,2")]) "# a" ["1,2"]
    ltac:(vm_compute; reflexivity) ltac:(vm_compute; reflexivity))).
  exists "1,2". split_and!; [by constructor|discriminate|vm_compute; lia].
Defined.
