(* ===== verification/StatsJson.v ===== *)
(** * The JSON of the statistics: types and codec of [stats/common.go]

    The sample docker writes for a container and [FromString], which reads it;
    the sample the handlers send and its text, [Marshal].  Counters keep the
    width of their types: [FromString_range] says that no text gives a number
    that is out of it.

    How [time] reads and writes a time is the class [Times]. *)

From Stdlib Require Import ZArith Ascii.
From S2P Require Import Prelude GoStd Json JsonDecode.

(** ** The sample docker gives *)

Record NetworkCounters := mkNetworkCounters {
  nRxBytes : Z; nRxDropped : Z; nRxErrors : Z; nRxPackets : Z;
  nTxBytes : Z; nTxDropped : Z; nTxErrors : Z; nTxPackets : Z
}.

Record BlkioEntry := mkBlkioEntry { bMajor : Z; bMinor : Z; bOp : string; bValue : Z }.

Record DockerBlkio := mkDockerBlkio {
  IoServiceBytesRecursive : list BlkioEntry;
  IoServicedRecursive : list BlkioEntry;
  IoQueueRecursive : list BlkioEntry;
  IoServiceTimeRecursive : list BlkioEntry;
  IoWaitTimeRecursive : list BlkioEntry;
  IoMergedRecursive : list BlkioEntry;
  IoTimeRecursive : list BlkioEntry;
  SectorsRecursive : list BlkioEntry
}.

Record MemoryCounters := mkMemoryCounters {
  mTotalPgmajfault : Z; mCache : Z; mMappedFile : Z; mTotalInactiveFile : Z;
  mPgpgout : Z; mRss : Z; mTotalMappedFile : Z; mWriteback : Z; mUnevictable : Z;
  mPgpgin : Z; mTotalUnevictable : Z; mPgmajfault : Z; mTotalRss : Z;
  mTotalRssHuge : Z; mTotalWriteback : Z; mTotalInactiveAnon : Z; mRssHuge : Z;
  mHierarchicalMemoryLimit : Z; mTotalPgfault : Z; mTotalActiveFile : Z;
  mActiveAnon : Z; mTotalActiveAnon : Z; mTotalPgpgout : Z; mTotalCache : Z;
  mInactiveAnon : Z; mActiveFile : Z; mPgfault : Z; mInactiveFile : Z; mTotalPgpgin : Z
}.

Record DockerMemory := mkDockerMemory {
  mStats : MemoryCounters; MaxUsage : Z; mUsage : Z; Failcnt : Z; Limit : Z
}.

Record DockerCPUUsage := mkDockerCPUUsage {
  PercpuUsage : list Z; UsageInUsermode : Z; TotalUsage : Z; UsageInKernelmode : Z
}.

Record Throttling := mkThrottling { Periods : Z; ThrottledPeriods : Z; ThrottledTime : Z }.

Record DockerCPU := mkDockerCPU {
  CPUUsage_ : DockerCPUUsage; SystemCPUUsage : Z; ThrottlingData : Throttling
}.

Record DockerStats := mkDockerStats {
  Read : Z;                                 (* a time *)
  PidsCurrent : Z;
  Networks : gmap string NetworkCounters;
  BlkioStats : DockerBlkio;
  MemoryStats_ : DockerMemory;
  CPUStats : DockerCPU;
  PrecpuStats : DockerCPU
}.

(** ** The sample the handlers send *)

Record CpuUsage := mkCpuUsage { Total : Z; PerCpu : list Z; User : Z; System : Z }.

Record PerDiskStats := mkPerDiskStats { Major : Z; Minor : Z; DStats : gmap string Z }.

Record InterfaceStats := mkInterfaceStats {
  Name : string;
  RxBytes : Z; RxPackets : Z; RxErrors : Z; RxDropped : Z;
  TxBytes : Z; TxPackets : Z; TxErrors : Z; TxDropped : Z
}.

Record NetworkStats := mkNetworkStats { Interface : InterfaceStats; Interfaces : list InterfaceStats }.

Record containerStats := mkContainerStats {
  Timestamp : Z;
  Cpu : CpuUsage;
  DiskIo : list PerDiskStats;
  Network : NetworkStats;
  Memory : Z
}.

Record containerInfo := mkContainerInfo { Id : string; Stats : list containerStats }.

Definition zero_interface : InterfaceStats := mkInterfaceStats "" 0 0 0 0 0 0 0 0.

(** [aggregated_stats.go]. *)
Record AggregatedStat := mkAggregatedStat {
  AId : string; ResourceType : string; MemLimit : Z; sample : containerStats
}.

(** ** Reading a sample *)

(** [time.Time]'s own methods: the value of a JSON text, and the text of a time
    whose year has four digits. *)
Class Times := {
  ParseTime : json → result Z;
  FormatTime : Z → result string;
  FormatTime_ascii t s : FormatTime t = Ok s → is_ascii s = true
}.

Definition network_counters_at (js : place) : result NetworkCounters :=
  l ← object_at js;
  nRxBytes ← int_at (field "rx_bytes" l);
  nRxDropped ← int_at (field "rx_dropped" l);
  nRxErrors ← int_at (field "rx_errors" l);
  nRxPackets ← int_at (field "rx_packets" l);
  nTxBytes ← int_at (field "tx_bytes" l);
  nTxDropped ← int_at (field "tx_dropped" l);
  nTxErrors ← int_at (field "tx_errors" l);
  nTxPackets ← int_at (field "tx_packets" l);
  Ok (mkNetworkCounters nRxBytes nRxDropped nRxErrors nRxPackets nTxBytes nTxDropped nTxErrors nTxPackets).

Definition blkio_entry_at (js : place) : result BlkioEntry :=
  l ← object_at js;
  major ← int_at (field "major" l);
  minor ← int_at (field "minor" l);
  op ← string_at (field "op" l);
  value ← int_at (field "value" l);
  Ok (mkBlkioEntry major minor op value).

Definition blkio_at (js : place) : result DockerBlkio :=
  l ← object_at js;
  b0 ← slice_at blkio_entry_at (field "io_service_bytes_recursive" l);
  b1 ← slice_at blkio_entry_at (field "io_serviced_recursive" l);
  b2 ← slice_at blkio_entry_at (field "io_queue_recursive" l);
  b3 ← slice_at blkio_entry_at (field "io_service_time_recursive" l);
  b4 ← slice_at blkio_entry_at (field "io_wait_time_recursive" l);
  b5 ← slice_at blkio_entry_at (field "io_merged_recursive" l);
  b6 ← slice_at blkio_entry_at (field "io_time_recursive" l);
  b7 ← slice_at blkio_entry_at (field "sectors_recursive" l);
  Ok (mkDockerBlkio b0 b1 b2 b3 b4 b5 b6 b7).

Definition memory_counters_at (js : place) : result MemoryCounters :=
  l ← object_at js;
  mTotalPgmajfault ← int_at (field "total_pgmajfault" l);
  mCache ← int_at (field "cache" l);
  mMappedFile ← int_at (field "mapped_file" l);
  mTotalInactiveFile ← int_at (field "total_inactive_file" l);
  mPgpgout ← int_at (field "pgpgout" l);
  mRss ← int_at (field "rss" l);
  mTotalMappedFile ← int_at (field "total_mapped_file" l);
  mWriteback ← int_at (field "writeback" l);
  mUnevictable ← int_at (field "unevictable" l);
  mPgpgin ← int_at (field "pgpgin" l);
  mTotalUnevictable ← int_at (field "total_unevictable" l);
  mPgmajfault ← int_at (field "pgmajfault" l);
  mTotalRss ← int_at (field "total_rss" l);
  mTotalRssHuge ← int_at (field "total_rss_huge" l);
  mTotalWriteback ← int_at (field "total_writeback" l);
  mTotalInactiveAnon ← int_at (field "total_inactive_anon" l);
  mRssHuge ← int_at (field "rss_huge" l);
  mHierarchicalMemoryLimit ← uint64_at (field "hierarchical_memory_limit" l);
  mTotalPgfault ← int_at (field "total_pgfault" l);
  mTotalActiveFile ← int_at (field "total_active_file" l);
  mActiveAnon ← int_at (field "active_anon" l);
  mTotalActiveAnon ← int_at (field "total_active_anon" l);
  mTotalPgpgout ← int_at (field "total_pgpgout" l);
  mTotalCache ← int_at (field "total_cache" l);
  mInactiveAnon ← int_at (field "inactive_anon" l);
  mActiveFile ← int_at (field "active_file" l);
  mPgfault ← int_at (field "pgfault" l);
  mInactiveFile ← int_at (field "inactive_file" l);
  mTotalPgpgin ← int_at (field "total_pgpgin" l);
  Ok (mkMemoryCounters mTotalPgmajfault mCache mMappedFile mTotalInactiveFile mPgpgout mRss mTotalMappedFile
    mWriteback mUnevictable mPgpgin mTotalUnevictable mPgmajfault mTotalRss mTotalRssHuge mTotalWriteback
    mTotalInactiveAnon mRssHuge mHierarchicalMemoryLimit mTotalPgfault mTotalActiveFile mActiveAnon
    mTotalActiveAnon mTotalPgpgout mTotalCache mInactiveAnon mActiveFile mPgfault mInactiveFile mTotalPgpgin).

Definition memory_at (js : place) : result DockerMemory :=
  l ← object_at js;
  stats ← memory_counters_at (field "stats" l);
  max_usage ← int_at (field "max_usage" l);
  usage ← int_at (field "usage" l);
  failcnt ← int_at (field "failcnt" l);
  limit ← int_at (field "limit" l);
  Ok (mkDockerMemory stats max_usage usage failcnt limit).

Definition cpu_usage_at (js : place) : result DockerCPUUsage :=
  l ← object_at js;
  percpu ← slice_at int_at (field "percpu_usage" l);
  user ← int_at (field "usage_in_usermode" l);
  total ← int_at (field "total_usage" l);
  kernel ← int_at (field "usage_in_kernelmode" l);
  Ok (mkDockerCPUUsage percpu user total kernel).

Definition throttling_at (js : place) : result Throttling :=
  l ← object_at js;
  periods ← int_at (field "periods" l);
  throttled_periods ← int_at (field "throttled_periods" l);
  throttled_time ← int_at (field "throttled_time" l);
  Ok (mkThrottling periods throttled_periods throttled_time).

Definition cpu_at (js : place) : result DockerCPU :=
  l ← object_at js;
  usage ← cpu_usage_at (field "cpu_usage" l);
  system ← int_at (field "system_cpu_usage" l);
  throttling ← throttling_at (field "throttling_data" l);
  Ok (mkDockerCPU usage system throttling).

Definition pids_at (js : place) : result Z :=
  l ← object_at js; int_at (field "current" l).

Section codec.
Context `{!Times}.

Definition docker_stats_at (js : place) : result DockerStats :=
  l ← object_at js;
  read ← value_at (λ j _, ParseTime j) 0%Z (field "read" l);
  pids ← pids_at (field "pids_stats" l);
  networks ← map_at network_counters_at (field "networks" l);
  blkio ← blkio_at (field "blkio_stats" l);
  memory ← memory_at (field "memory_stats" l);
  cpu ← cpu_at (field "cpu_stats" l);
  precpu ← cpu_at (field "precpu_stats" l);
  Ok (mkDockerStats read pids (default ∅ networks) blkio memory cpu precpu).

Definition FromString (rawstring : string) : result DockerStats :=
  j ← parse rawstring; docker_stats_at [j].

(** ** Writing a sample *)

Definition cpu_json (c : CpuUsage) : json :=
  JObject [("usage", JObject (
    omit false "total" (json_int (Total c)) ++
    omit (is_nil (PerCpu c)) "per_cpu_usage" (JArray (List.map json_int (PerCpu c))) ++
    omit false "user" (json_int (User c)) ++
    omit false "system" (json_int (System c))))].

Definition disk_json (d : PerDiskStats) : json :=
  JObject [("major", json_int (Major d)); ("minor", json_int (Minor d)); ("stats", json_map json_int (DStats d))].

Definition diskio_json (l : list PerDiskStats) : json :=
  JObject (omit (is_nil l) "io_service_bytes" (JArray (List.map disk_json l))).

Definition interface_fields (i : InterfaceStats) : list (string * json) :=
  [("name", JString (Name i));
   ("rx_bytes", json_int (RxBytes i)); ("rx_packets", json_int (RxPackets i));
   ("rx_errors", json_int (RxErrors i)); ("rx_dropped", json_int (RxDropped i));
   ("tx_bytes", json_int (TxBytes i)); ("tx_packets", json_int (TxPackets i));
   ("tx_errors", json_int (TxErrors i)); ("tx_dropped", json_int (TxDropped i))].

Definition memory_json (usage : Z) : json := JObject [("usage", json_int usage)].

(** The fields of the embedded interface come first. *)
Definition network_json (n : NetworkStats) : json :=
  JObject (interface_fields (Interface n) ++
    omit (is_nil (Interfaces n)) "interfaces" (JArray (List.map (λ i, JObject (interface_fields i)) (Interfaces n)))).

Definition sample_fields (time : string) (s : containerStats) : list (string * json) :=
  [("timestamp", JString time); ("cpu", cpu_json (Cpu s)); ("diskio", diskio_json (DiskIo s));
   ("network", network_json (Network s)); ("memory", memory_json (Memory s))].

Definition aggregated_json (a : AggregatedStat) : result json :=
  time ← FormatTime (Timestamp (sample a));
  Ok (JObject (
    omit (String.eqb (AId a) "") "id" (JString (AId a)) ++
    omit (String.eqb (ResourceType a) "") "resourceType" (JString (ResourceType a)) ++
    omit (MemLimit a =? 0)%Z "memLimit" (json_int (MemLimit a)) ++
    sample_fields time (sample a))).

Fixpoint aggregated_list (l : list AggregatedStat) : result (list json) :=
  match l with
  | [] => Ok []
  | a :: l => j ← aggregated_json a; js ← aggregated_list l; Ok (j :: js)
  end.

Definition Marshal (l : list AggregatedStat) : result bytes :=
  js ← aggregated_list l; Ok (bytes_of (print (JArray js))).
End codec.

(** ** The range of what is read *)

Definition network_ok (n : NetworkCounters) : Prop :=
  Forall is_int64 [nRxBytes n; nRxDropped n; nRxErrors n; nRxPackets n;
                   nTxBytes n; nTxDropped n; nTxErrors n; nTxPackets n].

Definition blkio_entry_ok (e : BlkioEntry) : Prop := Forall is_int64 [bMajor e; bMinor e; bValue e].

Definition blkio_ok (b : DockerBlkio) : Prop :=
  Forall (Forall blkio_entry_ok)
    [IoServiceBytesRecursive b; IoServicedRecursive b; IoQueueRecursive b; IoServiceTimeRecursive b;
     IoWaitTimeRecursive b; IoMergedRecursive b; IoTimeRecursive b; SectorsRecursive b].

Definition memory_counters_ok (m : MemoryCounters) : Prop :=
    Forall is_int64 [mTotalPgmajfault m; mCache m; mMappedFile m; mTotalInactiveFile m; mPgpgout m; mRss m;
    mTotalMappedFile m; mWriteback m; mUnevictable m; mPgpgin m; mTotalUnevictable m; mPgmajfault m; mTotalRss
    m; mTotalRssHuge m; mTotalWriteback m; mTotalInactiveAnon m; mRssHuge m; mTotalPgfault m; mTotalActiveFile
    m; mActiveAnon m; mTotalActiveAnon m; mTotalPgpgout m; mTotalCache m; mInactiveAnon m; mActiveFile m;
    mPgfault m; mInactiveFile m; mTotalPgpgin m] ∧
  is_uint64 (mHierarchicalMemoryLimit m).

Definition memory_ok (m : DockerMemory) : Prop :=
  memory_counters_ok (mStats m) ∧ Forall is_int64 [MaxUsage m; mUsage m; Failcnt m; Limit m].

Definition cpu_ok (c : DockerCPU) : Prop :=
  let u := CPUUsage_ c in let t := ThrottlingData c in
  Forall is_int64 (PercpuUsage u) ∧
  Forall is_int64 [UsageInUsermode u; TotalUsage u; UsageInKernelmode u; SystemCPUUsage c;
                   Periods t; ThrottledPeriods t; ThrottledTime t].

(** Every counter is within its type. *)
Record docker_ok (d : DockerStats) : Prop := {
  ok_pids : is_int64 (PidsCurrent d);
  ok_networks : map_Forall (λ _, network_ok) (Networks d);
  ok_blkio : blkio_ok (BlkioStats d);
  ok_memory : memory_ok (MemoryStats_ d);
  ok_cpu : cpu_ok (CPUStats d);
  ok_precpu : cpu_ok (PrecpuStats d)
}.

(** The fields of a struct that was decoded. *)
Ltac decoded H := repeat (apply result_bind_ok in H as (?&?&H)); injection H as <-.

Ltac in_range := repeat (apply Forall_cons_2; [cbn; eauto with hostapi|]); apply Forall_nil_2.

#[export] Hint Resolve int_at_range uint64_at_range : hostapi.

Lemma network_counters_range js n : network_counters_at js = Ok n → network_ok n.
Proof. intros H. unfold network_counters_at in H. decoded H. unfold network_ok. in_range. Qed.

Lemma blkio_entry_range js e : blkio_entry_at js = Ok e → blkio_entry_ok e.
Proof. intros H. unfold blkio_entry_at in H. decoded H. unfold blkio_entry_ok. in_range. Qed.

Lemma blkio_range js b : blkio_at js = Ok b → blkio_ok b.
Proof.
  intros H. unfold blkio_at in H. decoded H. unfold blkio_ok.
  repeat (apply Forall_cons_2; [eapply slice_at_Forall; [exact blkio_entry_range|done]|]). apply Forall_nil_2.
Qed.

Lemma memory_counters_range js m : memory_counters_at js = Ok m → memory_counters_ok m.
Proof. intros H. unfold memory_counters_at in H. decoded H. split; [in_range|cbn; eauto with hostapi]. Qed.

Lemma memory_range js m : memory_at js = Ok m → memory_ok m.
Proof. intros H. unfold memory_at in H. decoded H. split; [by eapply memory_counters_range|in_range]. Qed.

Lemma cpu_usage_range js u :
  cpu_usage_at js = Ok u →
  Forall is_int64 (PercpuUsage u) ∧ Forall is_int64 [UsageInUsermode u; TotalUsage u; UsageInKernelmode u].
Proof.
  intros H. unfold cpu_usage_at in H. decoded H.
  split; [eapply slice_at_Forall; [exact int_at_range|done]|in_range].
Qed.

Lemma throttling_range js t :
  throttling_at js = Ok t → Forall is_int64 [Periods t; ThrottledPeriods t; ThrottledTime t].
Proof. intros H. unfold throttling_at in H. decoded H. in_range. Qed.

Lemma cpu_range js c : cpu_at js = Ok c → cpu_ok c.
Proof.
  intros H. unfold cpu_at in H. apply result_bind_ok in H as (l&_&H).
  apply result_bind_ok in H as (u&[Hp Hu]%cpu_usage_range&H). apply result_bind_ok in H as (sys&Hs%int_at_range&H).
  apply result_bind_ok in H as (t&Ht%throttling_range&[= <-]).
  split; [done|]. cbn. rewrite !Forall_cons in *. naive_solver.
Qed.

Lemma FromString_range `{T : !Times} s d : FromString s = Ok d → docker_ok d.
Proof.
  intros H. unfold FromString, docker_stats_at in H. apply result_bind_ok in H as (j&_&H). decoded H.
  split; cbn; eauto using blkio_range, memory_range, cpu_range.
  - match goal with E : pids_at _ = Ok _ |- _ => apply result_bind_ok in E as (?&_&?) end. by eapply int_at_range.
  - match goal with E : map_at _ _ = Ok ?o |- _ => destruct o as [m|] end; [|apply map_Forall_empty].
    by eapply map_at_Forall; [exact network_counters_range|].
Qed.

(** ** The text that is written *)

Lemma json_int_line z : one_line_json (json_int z).
Proof. constructor. apply Itoa_no_control. Qed.

Lemma omit_line empty name j :
  one_line_json j → Forall (λ kv, one_line_json kv.2) (omit empty name j).
Proof. intros Hj. destruct empty; repeat constructor. done. Qed.

Lemma ints_line l : one_line_json (JArray (List.map json_int l)).
Proof. constructor. apply Forall_fmap, Forall_true. apply json_int_line. Qed.

Lemma json_map_line {A} (enc : A → json) m : (∀ x, one_line_json (enc x)) → one_line_json (json_map enc m).
Proof.
  intros He. constructor. rewrite sort_keys_Permutation. apply Forall_fmap, Forall_true. intros [k x]. apply He.
Qed.

#[local] Hint Resolve json_int_ok json_int_line ints_line omit_line : core.

Lemma interface_fields_line i : Forall (λ kv, one_line_json kv.2) (interface_fields i).
Proof. unfold interface_fields. repeat (apply Forall_cons_2; [first [apply json_int_line|constructor]|]). apply Forall_nil_2. Qed.

Lemma sample_fields_line time s : Forall (λ kv, one_line_json kv.2) (sample_fields time s).
Proof.
  unfold sample_fields. repeat (apply Forall_cons_2; cbn [snd]); [constructor| | | | |apply Forall_nil_2].
  - constructor. apply Forall_singleton. constructor. by repeat apply Forall_app_2; apply omit_line.
  - constructor. apply omit_line. constructor. apply Forall_fmap, Forall_true. intros d. constructor.
    repeat (apply Forall_cons_2; cbn [snd]); [apply json_int_line..|by apply json_map_line|apply Forall_nil_2].
  - constructor. apply Forall_app_2; [apply interface_fields_line|]. apply omit_line. constructor.
    apply Forall_fmap, Forall_true. intros i. constructor. apply interface_fields_line.
  - constructor. apply Forall_singleton, json_int_line.
Qed.

Section text.
Context `{T : !Times}.

Lemma aggregated_list_line l js : aggregated_list l = Ok js → Forall one_line_json js.
Proof.
  revert js. induction l as [|a l IH]; intros js H; simpl in H; [injection H as <-; constructor|].
  apply result_bind_ok in H as (j&Hj&H). apply result_bind_ok in H as (js'&Hjs&[= <-]).
  constructor; [|by apply IH]. apply result_bind_ok in Hj as (time&_&[= <-]).
  constructor. repeat apply Forall_app_2; try (apply omit_line; first [apply json_int_line|constructor]). apply sample_fields_line.
Qed.

(** A collection is one line of text. *)
Lemma Marshal_line l d :
  Marshal l = Ok d → ∃ js, aggregated_list l = Ok js ∧ d = bytes_of (print (JArray js)) ∧
    no_control (string_of d) = true.
Proof.
  intros (js&Hjs&[= <-])%result_bind_ok. exists js. split_and!; [done|done|].
  rewrite string_of_bytes_of. apply (print_no_control (JArray js)). constructor. by eapply aggregated_list_line.
Qed.

(** The names in a sample, where they are valid UTF-8, come through. *)
Definition plain_stat (a : AggregatedStat) : Prop :=
  utf8 (AId a) ∧ utf8 (ResourceType a) ∧
  utf8 (Name (Interface (Network (sample a)))) ∧
  Forall (λ i, utf8 (Name i)) (Interfaces (Network (sample a))) ∧
  Forall (λ d, map_Forall (λ op _, utf8 op) (DStats d)) (DiskIo (sample a)).

#[local] Abbreviation members_ok := (Forall (λ kv : string * json, utf8 kv.1 ∧ json_ok kv.2)).

Lemma member_ok k j l : is_ascii k = true → json_ok j → members_ok l → members_ok ((k, j) :: l).
Proof. intros Hk Hj Hl. constructor; [|done]. split; [by apply is_ascii_utf8|done]. Qed.

Lemma interface_fields_ok i : utf8 (Name i) → members_ok (interface_fields i).
Proof.
  intros Hn. unfold interface_fields.
  repeat (apply member_ok; [done|first [apply json_int_ok|by constructor]|]). apply Forall_nil_2.
Qed.

Lemma sample_fields_ok time s :
  utf8 time → utf8 (Name (Interface (Network s))) → Forall (λ i, utf8 (Name i)) (Interfaces (Network s)) →
  Forall (λ d, map_Forall (λ op _, utf8 op) (DStats d)) (DiskIo s) → members_ok (sample_fields time s).
Proof.
  intros Ht Hn Hi Hd. unfold sample_fields. repeat (apply member_ok; [done| |]); [by constructor| | | | |apply Forall_nil_2].
  - constructor. apply member_ok; [done| |apply Forall_nil_2]. constructor.
    repeat apply Forall_app_2; (apply omit_ok; [done|intros _]);
      first [apply json_int_ok|constructor; apply Forall_fmap, Forall_true, json_int_ok].
  - constructor. apply omit_ok; [done|]. intros _. constructor. apply Forall_fmap. eapply Forall_impl; [exact Hd|].
    intros d Hm. constructor. repeat (apply member_ok; [done| |]); [apply json_int_ok..| |apply Forall_nil_2].
    apply json_map_ok. intros k x Hx. split; [by eapply Hm|apply json_int_ok].
  - constructor. apply Forall_app_2; [by apply interface_fields_ok|]. apply omit_ok; [done|]. intros _. constructor.
    apply Forall_fmap. eapply Forall_impl; [exact Hi|]. intros i Hu. constructor. by apply interface_fields_ok.
  - constructor. apply member_ok; [done|apply json_int_ok|apply Forall_nil_2].
Qed.

Lemma aggregated_list_ok l js : Forall plain_stat l → aggregated_list l = Ok js → Forall json_ok js.
Proof.
  intros Hl. revert js. induction Hl as [|a l (Hid&Hrt&Hn&Hi&Hd) Hl IH]; intros js H; simpl in H;
    [injection H as <-; constructor|].
  apply result_bind_ok in H as (j&Hj&H). apply result_bind_ok in H as (js'&Hjs&[= <-]).
  constructor; [|by apply IH]. apply result_bind_ok in Hj as (time&Ht%FormatTime_ascii%is_ascii_utf8&[= <-]).
  constructor. apply Forall_app_2; [by apply omit_ok; [|intros _; constructor]|].
  apply Forall_app_2; [by apply omit_ok; [|intros _; constructor]|].
  apply Forall_app_2; [by apply omit_ok; [|intros _; apply json_int_ok]|]. by apply sample_fields_ok.
Qed.

(** The line reads back as the values written. *)
Lemma Marshal_parse l d js :
  Forall plain_stat l → aggregated_list l = Ok js → Marshal l = Ok d → parse (string_of d) = Ok (JArray js).
Proof.
  intros Hp Hjs H. unfold Marshal in H. rewrite Hjs in H. cbn [mbind result_bind] in H.
  assert (d = bytes_of (print (JArray js))) as -> by congruence.
  rewrite string_of_bytes_of. apply parse_print. constructor. by eapply aggregated_list_ok.
Qed.
End text.

Lemma no_control_bytes s : no_control s = true → ¬ (Byte.x0a ∈ bytes_of s) ∧ ¬ (Byte.x0d ∈ bytes_of s).
Proof.
  induction s as [|c s IH]; intros H.
  - split; intros Hin; by apply elem_of_nil in Hin.
  - simpl in H. apply andb_true_iff in H as [Hc Hs]. destruct (IH Hs) as [Ha Hd]. rewrite bytes_of_cons.
    split; intros [E|Hin]%elem_of_cons; try done;
      by destruct c as [[] [] [] [] [] [] [] []].
Qed.
