(* ===== verification/StatsData.v ===== *)
(** * [stats/common.go], [stats/get_stats.go] and [stats/aggregated_stats.go]

    What the statistics handlers collect and how they aggregate it: the
    conversion of the sample docker gives for a container, the sample of the
    host itself, and the list of both that becomes one line of JSON
    ([StatsJson]).  Samples of the system (gopsutil, netlink) are parameters;
    the arithmetic is the machine's: [uint64] conversions wrap, and the
    processor times of the host are binary64 numbers. *)

From Stdlib Require Import ZArith Ascii.
From Stdlib.Floats Require Import SpecFloat.
From S2P Require Import Prelude GoStd Json JsonDecode StatsJson.

(** ** Network counters of the container's name space: [getLinkStats] *)

Record LinkStatistics := mkLinkStatistics {
  lRxPackets : Z; lTxPackets : Z; lRxBytes : Z; lTxBytes : Z;
  lRxErrors : Z; lTxErrors : Z; lRxDropped : Z; lTxDropped : Z
}.

(** What entering the name space, opening a handle in it and listing its links
    give; a link has a name and a pointer to its counters. *)
Record netns := mkNetns {
  GetFromPid : option error;
  NewHandleAt : option error;
  LinkList : result (list (string * option LinkStatistics))
}.

(** The loop over the links. *)
Fixpoint links_map (links : list (string * option LinkStatistics))
    (ret : gmap string (option LinkStatistics)) : gmap string (option LinkStatistics) :=
  match links with
  | [] => ret
  | (name, statistics) :: links =>
      links_map links (if String.eqb name "lo" then ret else <[name := statistics]> ret)
  end.

Definition getLinkStats (ns : netns) : gmap string (option LinkStatistics) :=
  match GetFromPid ns with
  | Some _ => ∅
  | None =>
      match NewHandleAt ns with
      | Some _ => ∅
      | None => match LinkList ns with Err _ => ∅ | Ok links => links_map links ∅ end
      end
  end.

(** ** [convertDockerStats] *)

Definition interface_of (name : string) (s : LinkStatistics) : InterfaceStats :=
  mkInterfaceStats name
    (uint64 (lRxBytes s)) (uint64 (lRxPackets s)) (uint64 (lRxErrors s)) (uint64 (lRxDropped s))
    (uint64 (lTxBytes s)) (uint64 (lTxPackets s)) (uint64 (lTxErrors s)) (uint64 (lTxDropped s)).

(** The loop over the map, in the order [links] the iteration takes; a nil
    pointer is dereferenced. *)
Fixpoint interfaces_of (links : list (string * option LinkStatistics)) : outcome (list InterfaceStats) :=
  match links with
  | [] => Val []
  | (name, None) :: _ => Panics NilDereference
  | (name, Some s) :: links => rest ← interfaces_of links; Val (interface_of name s :: rest)
  end.

(** Neither [Major] nor [Minor] is set. *)
Definition disk_of (e : BlkioEntry) : PerDiskStats :=
  mkPerDiskStats 0 0 {[ bOp e := uint64 (bValue e) ]}.

Definition convertDockerStats (stats : DockerStats) (links : list (string * option LinkStatistics)) :
    outcome containerStats :=
  interfaces ← interfaces_of links;
  let usage := CPUUsage_ (CPUStats stats) in
  Val (mkContainerStats (Read stats)
    (mkCpuUsage (uint64 (TotalUsage usage)) (uint64 <$> PercpuUsage usage)
       (uint64 (UsageInKernelmode usage)) (uint64 (UsageInKernelmode usage)))
    (disk_of <$> IoServiceBytesRecursive (BlkioStats stats))
    (mkNetworkStats zero_interface interfaces)
    (uint64 (mUsage (MemoryStats_ stats)))).

(** ** [getContainerInfo] *)

Section samples.
Context `{T : !Times}.

(** A reader of lines: those it still has, after which reading fails. *)
Abbreviation line_reader := (list string).

(** [links i] is what the name space holds, and the order its map is walked in,
    at the [i]-th turn. *)
Fixpoint get_samples (links : nat → list (string * option LinkStatistics)) (i count : nat)
    (reader : line_reader) : outcome (result (list containerStats) * line_reader) :=
  match count with
  | 0 => Val (Ok [], reader)
  | S count =>
      match reader with
      | [] => Val (Err EOF, [])
      | str :: reader =>
          match FromString str with
          | Err err => Val (Err err, reader)
          | Ok dockerStats =>
              contStats ← convertDockerStats dockerStats (links i);
              rest ← get_samples links (S i) count reader;
              let '(stats, reader) := rest in
              Val (cons contStats <$> (stats : result (list containerStats)), reader)
          end
      end
  end.

(** [links i pid]: of the name space of the process, at the [i]-th sample. *)
Definition getContainerInfo (links : nat → Z → list (string * option LinkStatistics)) (reader : line_reader)
    (count : nat) (id : string) (pid : Z) : outcome (result containerInfo * line_reader) :=
  r ← get_samples (λ i, links i pid) 0 count reader;
  let '(stats, reader) := r in
  Val (mkContainerInfo id <$> (stats : result (list containerStats)), reader).

(** [getAllDockerContainers]: the readers in order, stopping at an error;
    [links i pid] is what the name space holds when the [i]-th container's turn
    comes. *)
Fixpoint getAllDockerContainers (links : nat → Z → list (string * option LinkStatistics)) (i : nat)
    (readers : list line_reader) (count : nat) (IDList : list string) (pids : list Z) :
    outcome (result (list containerInfo) * list line_reader) :=
  match readers with
  | [] => Val (Ok [], [])
  | reader :: readers =>
      id ← index IDList i;
      pid ← index pids i;
      r ← getContainerInfo (λ _, links i) reader count id pid;
      let '(contInfo, reader) := r in
      match contInfo with
      | Err err => Val (Err err, reader :: readers)
      | Ok contInfo =>
          rest ← getAllDockerContainers links (S i) readers count IDList pids;
          let '(ret, readers) := rest in
          Val (cons contInfo <$> (ret : result (list containerInfo)), reader :: readers)
      end
  end.
End samples.

(** ** The host: [getRootContainerInfo] *)

(** Binary64 arithmetic, and the conversion of a float to [uint64]: the value
    without its fraction (amd64's result for what does not fit). *)
Definition float64 : Type := spec_float.
Definition fadd (a b : float64) : float64 := SFadd 53 1024 a b.

Definition float_to_uint64 (f : float64) : Z :=
  match f with
  | S754_zero _ => 0
  | S754_finite s m e =>
      let z := if (0 <=? e)%Z then (Z.pos m * 2 ^ e)%Z else (Z.pos m / 2 ^ (- e))%Z in
      uint64 (if s then (- z)%Z else z)
  | S754_infinity _ | S754_nan => 2 ^ 63
  end.

Record TimesStat := mkTimesStat { tUser : float64; tSystem : float64; tIdle : float64 }.

Record HostNet := mkHostNet { hName : string; BytesRecv : Z; BytesSent : Z }.

(** One reading of gopsutil: each call may fail. *)
Record host_sample := mkHostSample {
  perCpuTimes : result (list TimesStat);
  allTimes : result (list TimesStat);
  memUsed : result Z;
  diskIo : result (list (Z * Z));             (* read and written bytes, by disk *)
  netIo : result (list HostNet)
}.

Definition nanoseconds (f : float64) : Z := uint64 (float_to_uint64 f * 1000000000).

Definition root_stats (s : host_sample) : result containerStats :=
  cpuPerStats ← perCpuTimes s;
  cpuStats ← allTimes s;
  let perCpu := (λ t, nanoseconds (fadd (tUser t) (tSystem t))) <$> cpuPerStats in
  let '(total, user, system) :=
    match cpuStats with
    | t :: _ => (nanoseconds (fadd (fadd (tUser t) (tSystem t)) (tIdle t)),
                 nanoseconds (tUser t), nanoseconds (tSystem t))
    | [] => (0, 0, 0)%Z
    end in
  memory ← memUsed s;
  disks ← diskIo s;
  let readBytes := foldl (λ n d, uint64 (n + d.1)) 0%Z disks in
  let writeBytes := foldl (λ n d, uint64 (n + d.2)) 0%Z disks in
  nets ← netIo s;
  let interface := match nets with
                   | n :: _ => mkInterfaceStats (hName n) (BytesRecv n) 0 0 0 (BytesSent n) 0 0 0
                   | [] => zero_interface
                   end in
  Ok (mkContainerStats 0 (mkCpuUsage total perCpu user system)
        [mkPerDiskStats 0 0 (<["Write" := writeBytes]> {[ "Read" := readBytes ]})]
        (mkNetworkStats interface []) memory).

(** [samples i] is the reading of the [i]-th turn. *)
Fixpoint root_samples (samples : nat → host_sample) (i count : nat) : result (list containerStats) :=
  match count with
  | 0 => Ok []
  | S count =>
      s ← root_stats (samples i);
      rest ← root_samples samples (S i) count;
      Ok (s :: rest)
  end.

Definition getRootContainerInfo (samples : nat → host_sample) (count : nat) : result containerInfo :=
  mkContainerInfo "" <$> root_samples samples 0 count.

(** ** [aggregated_stats.go] *)

Fixpoint aggregate (id : string) (containerIds : gmap string string) (resourceType : string)
    (stats : list containerInfo) (memLimit : Z) : outcome (list AggregatedStat) :=
  match stats with
  | [] => Val []
  | info :: stats =>
      first ← index (Stats info) 0;
      let aggStats := mkAggregatedStat id resourceType memLimit first in
      let aggStats := if String.eqb id ""
                      then mkAggregatedStat (default "" (containerIds !! Id info)) resourceType memLimit first
                      else aggStats in
      rest ← aggregate id containerIds resourceType stats memLimit;
      Val (aggStats :: rest)
  end.

Definition convertToAggregatedStats (id : string) (containerIds : gmap string string)
    (resourceType : string) (stats : list containerInfo) (memLimit : Z) :
    outcome (list (list AggregatedStat)) :=
  match stats with
  | [] => Val []
  | _ => stat ← aggregate id containerIds resourceType stats memLimit; Val [stat]
  end.

Section write.
Context `{T : !Times} (Write : bytes → option error).

(** The writes made, and the error returned. *)
Fixpoint write_all (stats : list (list AggregatedStat)) : list bytes * option error :=
  match stats with
  | [] => ([], None)
  | stat :: stats =>
      match Marshal stat with
      | Err err => ([], Some err)
      | Ok data =>
          match Write data with
          | Some err => ([data], Some err)
          | None =>
              match Write (bytes_of (String "010" "")) with
              | Some err => ([data; bytes_of (String "010" "")], Some err)
              | None =>
                  let '(writes, err) := write_all stats in
                  (data :: bytes_of (String "010" "") :: writes, err)
              end
          end
      end
  end.

Definition writeAggregatedStats (id : string) (containerIds : gmap string string)
    (resourceType : string) (infos : list containerInfo) (memLimit : Z) :
    outcome (list bytes * option error) :=
  aggregatedStats ← convertToAggregatedStats id containerIds resourceType infos memLimit;
  Val (write_all aggregatedStats).
End write.

(** ** Lemmas *)

Lemma interfaces_of_val links :
  is_val (interfaces_of links) ↔ Forall (λ l, l.2 ≠ None) links.
Proof.
  induction links as [|[name [s|]] links IH]; simpl.
  - split; [by constructor|by eexists].
  - rewrite Forall_cons. simpl. split.
    + intros [r (rest&Hrest&_)%outcome_bind_val]. split; [done|]. apply IH. by exists rest.
    + intros [_ Hl]. apply IH in Hl as [rest ->]. by eexists.
  - rewrite Forall_cons. simpl. split; [by intros []|by intros []].
Qed.

Lemma interfaces_of_names links l : interfaces_of links = Val l → Name <$> l = links.*1.
Proof.
  revert l. induction links as [|[name [s|]] links IH]; intros l H; simpl in *; [by injection H as <-| |done].
  apply outcome_bind_val in H as (rest&Hrest&[= <-]). rewrite !fmap_cons. simpl. by rewrite (IH _ Hrest).
Qed.

Lemma interfaces_of_panics links p :
  interfaces_of links = Panics p → p = NilDereference ∧ ∃ name, (name, None) ∈ links.
Proof.
  induction links as [|[name [s|]] links IH]; simpl; [done| |].
  - destruct (interfaces_of links); simpl; [done|]. intros [= ->]. destruct (IH eq_refl) as [-> [n Hn]].
    split; [done|]. exists n. by right.
  - intros [= <-]. split; [done|]. exists name. by left.
Qed.

Lemma links_map_lo links ret : ret !! "lo" = None → links_map links ret !! "lo" = None.
Proof.
  revert ret. induction links as [|[name s] links IH]; intros ret Hr; simpl; [done|].
  apply IH. destruct (String.eqb_spec name "lo"); [done|]. by rewrite lookup_insert_ne.
Qed.

Lemma getLinkStats_lo ns : getLinkStats ns !! "lo" = None.
Proof.
  unfold getLinkStats. repeat case_match; try done. by apply links_map_lo.
Qed.

(** A list that walks the map of a name space in some order. *)
Definition walks (ns : netns) (links : list (string * option LinkStatistics)) : Prop :=
  links ≡ₚ map_to_list (getLinkStats ns).

Lemma get_samples_length `{T : !Times} links i count reader stats reader' :
  get_samples links i count reader = Val (Ok stats, reader') → length stats = count.
Proof.
  revert i reader stats reader'. induction count as [|count IH]; intros i reader stats reader' H; simpl in H.
  { by injection H as <- _. }
  destruct reader as [|str reader]; [done|]. destruct (FromString str) as [ds|]; [|done].
  apply outcome_bind_val in H as (cs&_&H). apply outcome_bind_val in H as ([rest r]&Hrest&H).
  destruct rest as [l|]; [|done]. injection H as <- _. simpl. f_equal. by eapply IH.
Qed.

Lemma root_samples_length samples i count stats :
  root_samples samples i count = Ok stats → length stats = count.
Proof.
  revert i stats. induction count as [|count IH]; intros i stats H; simpl in H; [by injection H as <-|].
  apply result_bind_ok in H as (s&_&H). apply result_bind_ok in H as (rest&Hrest&[= <-]).
  simpl. f_equal. by eapply IH.
Qed.

(** Every collected container has a sample: nothing to index is missing. *)
Definition sampled (infos : list containerInfo) : Prop := Forall (λ i, Stats i ≠ []) infos.

#[export] Instance sampled_decision infos : Decision (sampled infos).
Proof.
  refine (Forall_dec (λ i, Stats i ≠ []) infos).
Defined.

(** The element written for a container. *)
Definition aggregated (id : string) (containerIds : gmap string string) (resourceType : string)
    (memLimit : Z) (info : containerInfo) (first : containerStats) : AggregatedStat :=
  mkAggregatedStat (if String.eqb id "" then default "" (containerIds !! Id info) else id)
    resourceType memLimit first.

Lemma aggregate_spec id ids rt infos ml :
  (sampled infos → ∃ l, aggregate id ids rt infos ml = Val l ∧
     Forall2 (λ info a, ∃ first rest, Stats info = first :: rest ∧ a = aggregated id ids rt ml info first) infos l) ∧
  (¬ sampled infos → aggregate id ids rt infos ml = Panics IndexOutOfRange).
Proof.
  induction infos as [|info infos [IH1 IH2]]; simpl.
  { split; [intros _; by exists []|intros Hn; destruct Hn; apply Forall_nil_2]. }
  unfold sampled in *. rewrite Forall_cons. destruct (Stats info) as [|first rest] eqn:E; simpl.
  { split; [by intros [? _]|done]. }
  split.
  - intros [_ Hs]. destruct (IH1 Hs) as (l&->&Hl). simpl. eexists. split; [done|].
    constructor; [|done]. exists first, rest. split; [done|]. unfold aggregated.
    by destruct (String.eqb id "").
  - intros Hn. rewrite IH2; [done|]. intros Hs. apply Hn. by split.
Qed.

(** ** Properties *)

(** An interface that is reported carries the counters of its link. *)
Lemma interfaces_of_figures links l name s :
  interfaces_of links = Val l → NoDup links.*1 → (name, Some s) ∈ links →
  ∀ i, i ∈ l → Name i = name → i = interface_of name s.
Proof.
  revert l. induction links as [|[n [c|]] links IH]; intros l Hl Hnd Hin i Hi Hn; simpl in Hl;
    [by apply elem_of_nil in Hin| |done].
  apply outcome_bind_val in Hl as (rest&Hrest&[= <-]). pose proof (interfaces_of_names _ _ Hrest) as Hnames.
  apply NoDup_cons in Hnd as [Hnot Hnd]. simpl in *. apply elem_of_cons in Hi as [->|Hi], Hin as [[= -> ->]|Hin].
  - done.
  - simpl in Hn. subst n. destruct Hnot. apply list_elem_of_fmap. by exists (name, Some s).
  - destruct Hnot. assert (Name i ∈ Name <$> rest) as H by by apply list_elem_of_fmap_2. rewrite Hnames, Hn in H. exact H.
  - by eapply IH.
Qed.

(** C34: the conversion of a docker sample is total unless a link has no
    counters.  It takes the time of the sample; processor and memory figures are
    exact for the non-negative counters docker gives; there is one interface for
    each link of the name space but the loopback, with the eight counters of
    that link, received and sent; and one entry for each block device figure of
    docker, in order, under its operation.  Two figures are not what the source
    says of them: [User], which the comment in stats/common.go documents as the
    time spent in user space, is docker's time in the kernel like [System], and
    the numbers of a disk are always zero. *)
Theorem convertDockerStats_correct stats ns links :
  walks ns links →
  (is_val (convertDockerStats stats links) ↔ map_Forall (λ _ s, s ≠ None) (getLinkStats ns)) ∧
  ∀ r, convertDockerStats stats links = Val r →
    let usage := CPUUsage_ (CPUStats stats) in
    Timestamp r = Read stats ∧
    (is_uint64 (TotalUsage usage) → Total (Cpu r) = TotalUsage usage) ∧
    (is_uint64 (mUsage (MemoryStats_ stats)) → Memory r = mUsage (MemoryStats_ stats)) ∧
    (Forall is_uint64 (PercpuUsage usage) → PerCpu (Cpu r) = PercpuUsage usage) ∧
    System (Cpu r) = uint64 (UsageInKernelmode usage) ∧ User (Cpu r) = uint64 (UsageInKernelmode usage) ∧
    NoDup (Name <$> Interfaces (Network r)) ∧
    (∀ n, n ∈ (Name <$> Interfaces (Network r)) ↔ n ≠ "lo" ∧ is_Some (getLinkStats ns !! n)) ∧
    (∀ i s, i ∈ Interfaces (Network r) → getLinkStats ns !! Name i = Some (Some s) →
       RxBytes i = uint64 (lRxBytes s) ∧ RxPackets i = uint64 (lRxPackets s) ∧
       RxErrors i = uint64 (lRxErrors s) ∧ RxDropped i = uint64 (lRxDropped s) ∧
       TxBytes i = uint64 (lTxBytes s) ∧ TxPackets i = uint64 (lTxPackets s) ∧
       TxErrors i = uint64 (lTxErrors s) ∧ TxDropped i = uint64 (lTxDropped s)) ∧
    Forall2 (λ e d, DStats d = {[ bOp e := uint64 (bValue e) ]} ∧ Major d = 0%Z ∧ Minor d = 0%Z)
      (IoServiceBytesRecursive (BlkioStats stats)) (DiskIo r).
Proof.
  intros Hw. unfold convertDockerStats. split.
  - assert (is_val (interfaces_of links) ↔ map_Forall (λ _ s, s ≠ None) (getLinkStats ns)) as <-.
    { rewrite interfaces_of_val, map_Forall_to_list, Hw. apply Forall_iff. by intros []. }
    split; [intros [r (l&Hl&_)%outcome_bind_val]; by exists l|intros [l ->]; by eexists].
  - intros r (l&Hl&[= <-])%outcome_bind_val. simpl.
    pose proof (interfaces_of_names _ _ Hl) as Hn.
    assert (NoDup links.*1) as Hnd by (rewrite Hw; apply NoDup_fst_map_to_list).
    assert (∀ n, n ∈ (Name <$> l) ↔ is_Some (getLinkStats ns !! n)) as Hin.
    { intros n. rewrite Hn, Hw. rewrite list_elem_of_fmap. split.
      - intros ([n' s]&->&Hin%elem_of_map_to_list). by eexists.
      - intros [s Hs]. exists (n, s). split; [done|]. by apply elem_of_map_to_list. }
    split_and!; [done|apply uint64_id|apply uint64_id| |done|done|by rewrite Hn| | |].
    + intros Hf. rewrite <- (list_fmap_id (PercpuUsage _)) at 2. apply list_fmap_ext.
      intros i x Hx. apply uint64_id. by eapply Forall_lookup in Hf.
    + intros n. rewrite Hin. split; [|by intros []]. intros Hs. split; [|done].
      intros ->. rewrite getLinkStats_lo in Hs. by destruct Hs.
    + intros i s Hi Hs. rewrite (interfaces_of_figures links l (Name i) s Hl Hnd) with (i := i); [done| |done|done].
      rewrite Hw. by apply elem_of_map_to_list.
    + apply Forall2_fmap_r, Forall_Forall2_diag, Forall_true. done.
Qed.

(** Every figure of a sample to be sent is within its type. *)
Definition interface_ok (i : InterfaceStats) : Prop :=
  Forall is_uint64 [RxBytes i; RxPackets i; RxErrors i; RxDropped i; TxBytes i; TxPackets i; TxErrors i; TxDropped i].

Record sample_ok (s : containerStats) : Prop := {
  ok_cpu_usage : Forall is_uint64 [Total (Cpu s); User (Cpu s); System (Cpu s)];
  ok_per_cpu : Forall is_uint64 (PerCpu (Cpu s));
  ok_usage : is_uint64 (Memory s);
  ok_disks : Forall (λ d, is_uint64 (Major d) ∧ is_uint64 (Minor d) ∧ map_Forall (λ _, is_uint64) (DStats d)) (DiskIo s);
  ok_interface : interface_ok (Interface (Network s));
  ok_interfaces : Forall interface_ok (Interfaces (Network s))
}.

Lemma uint64_exact z : is_int64 z → (uint64 z = z ↔ (0 ≤ z)%Z) ∧ int64 (uint64 z) = z.
Proof.
  intros Hz. split; [|by apply int64_uint64]. split; [intros <-; apply uint64_range|].
  intros H. apply uint64_id. destruct Hz. split; [done|lia].
Qed.

Lemma interface_of_ok name s : interface_ok (interface_of name s).
Proof. unfold interface_ok. repeat (apply Forall_cons_2; [apply uint64_range|]). apply Forall_nil_2. Qed.

Lemma interfaces_of_ok links l : interfaces_of links = Val l → Forall interface_ok l.
Proof.
  revert l. induction links as [|[name [s|]] links IH]; intros l H; simpl in H; [by injection H as <-| |done].
  apply outcome_bind_val in H as (rest&Hrest&[= <-]). constructor; [apply interface_of_ok|by apply IH].
Qed.

(** C24: no text of docker, however large its numbers, gives a counter outside
    the 64 bits of its type: such a text is refused.  What is sent is within the
    unsigned 64 bits, equal to docker's figure exactly when that is not
    negative, and in every case the same 64 bits. *)
Theorem sample_bounds `{T : !Times} text stats links r :
  FromString text = Ok stats → convertDockerStats stats links = Val r →
  let usage := CPUUsage_ (CPUStats stats) in
  docker_ok stats ∧ sample_ok r ∧
  Forall2 (λ docker sent, (sent = docker ↔ (0 ≤ docker)%Z) ∧ int64 sent = docker)
    (TotalUsage usage :: UsageInKernelmode usage :: mUsage (MemoryStats_ stats) :: PercpuUsage usage)
    (Total (Cpu r) :: System (Cpu r) :: Memory r :: PerCpu (Cpu r)).
Proof.
  intros Hs Hr usage. pose proof (FromString_range _ _ Hs) as Hok. split; [done|].
  destruct Hok as [_ _ _ [_ Hm] [Hp Hu] _]. rewrite !Forall_cons in Hm, Hu.
  apply outcome_bind_val in Hr as (ifs&Hifs&[= <-]). split.
  - split; cbn.
    + repeat (apply Forall_cons_2; [apply uint64_range|]). apply Forall_nil_2.
    + apply Forall_fmap, Forall_true. intros z. apply uint64_range.
    + apply uint64_range.
    + apply Forall_fmap, Forall_true. intros e. split_and!; [done|done|].
      apply (map_Forall_singleton (λ _, is_uint64)), uint64_range.
    + unfold interface_ok. repeat (apply Forall_cons_2; [done|]). apply Forall_nil_2.
    + by eapply interfaces_of_ok.
  - cbn. repeat (apply Forall2_cons_2; [apply uint64_exact; naive_solver|]).
    apply Forall2_fmap_r, Forall_Forall2_diag. eapply Forall_impl; [exact Hp|]. intros z Hz. by apply uint64_exact.
Qed.

(** A list of collected containers is written as one line: the JSON text
    of one entry per container, in order, under the requested id or the id the
    token gives it, and a newline; it panics exactly when a container has no
    sample, and an empty list writes nothing. *)
Theorem writeAggregatedStats_correct `{T : !Times} id ids rt infos ml :
  (sampled infos → infos ≠ [] → ∃ l,
     Forall2 (λ info a, ∃ first rest, Stats info = first :: rest ∧ a = aggregated id ids rt ml info first) infos l ∧
     writeAggregatedStats (λ _, None) id ids rt infos ml =
       Val match Marshal l with
           | Ok data => ([data; bytes_of (String "010" "")], None)
           | Err err => ([], Some err)
           end) ∧
  (writeAggregatedStats (λ _, None) id ids rt infos ml = Panics IndexOutOfRange ↔ ¬ sampled infos) ∧
  writeAggregatedStats (λ _, None) id ids rt [] ml = Val ([], None).
Proof.
  destruct (aggregate_spec id ids rt infos ml) as [H1 H2].
  unfold writeAggregatedStats, convertToAggregatedStats. split_and!; [| |done].
  - intros Hs Hne. destruct (H1 Hs) as (l&E&Hl). exists l. split; [done|].
    destruct infos as [|info infos]; [done|]. rewrite E. simpl. by destruct (Marshal l).
  - destruct (decide (sampled infos)) as [Hs|Hs].
    + split; [|done]. destruct (H1 Hs) as (l&E&_). destruct infos as [|info infos]; [done|].
      rewrite E. done.
    + split; [done|]. intros _. destruct infos as [|info infos]; [destruct Hs; constructor|].
      by rewrite (H2 Hs).
Qed.

(** ** Witnesses *)

Definition demo_usage : DockerCPUUsage := mkDockerCPUUsage [7%Z; 5%Z] 9 12 3.
Definition demo_cpu : DockerCPU := mkDockerCPU demo_usage 100 (mkThrottling 0 0 0).

Definition demo_sample : DockerStats :=
  mkDockerStats 1 2 ∅
    (mkDockerBlkio [mkBlkioEntry 8 1 "Read" 42] [] [] [] [] [] [] [])
    (mkDockerMemory (mkMemoryCounters 0 0 0 0 0 0 0 0 0 0 0 0 0 0 0 0 0 0 0 0 0 0 0 0 0 0 0 0 0)
       9 8 0 1000) demo_cpu demo_cpu.

Definition demo_netns : netns :=
  mkNetns None None (Ok [("lo", None); ("eth0", Some (mkLinkStatistics 1 2 3 4 5 6 7 8))]).

Definition demo_links : list (string * option LinkStatistics) :=
  [("eth0", Some (mkLinkStatistics 1 2 3 4 5 6 7 8))].

Definition demo_converted : containerStats :=
  mkContainerStats 1 (mkCpuUsage 12 [7%Z; 5%Z] 3 3)
    [mkPerDiskStats 0 0 {[ "Read" := 42%Z ]}]
    (mkNetworkStats zero_interface [mkInterfaceStats "eth0" 3 1 5 7 4 2 6 8]) 8.

Lemma convertDockerStats_correct_witness :
  convertDockerStats demo_sample demo_links = Val demo_converted ∧
  System (Cpu demo_converted) = uint64 3 ∧ User (Cpu demo_converted) = uint64 3 ∧
  (∀ i s, i ∈ Interfaces (Network demo_converted) → getLinkStats demo_netns !! Name i = Some (Some s) →
     RxBytes i = uint64 (lRxBytes s) ∧ RxPackets i = uint64 (lRxPackets s) ∧
     RxErrors i = uint64 (lRxErrors s) ∧ RxDropped i = uint64 (lRxDropped s) ∧
     TxBytes i = uint64 (lTxBytes s) ∧ TxPackets i = uint64 (lTxPackets s) ∧
     TxErrors i = uint64 (lTxErrors s) ∧ TxDropped i = uint64 (lTxDropped s)).
Proof.
  split; [vm_compute; reflexivity|].
  assert (walks demo_netns demo_links) as Hw.
  { unfold walks. replace (map_to_list (getLinkStats demo_netns)) with demo_links; [done|].
    vm_compute. reflexivity. }
  pose proof (proj2 (convertDockerStats_correct demo_sample demo_netns demo_links Hw) demo_converted
    ltac:(vm_compute; reflexivity)) as (_&_&_&_&H1&H2&_&_&H3&_).
  split; [exact H1|]. split; [exact H2|exact H3].
Defined.

(** Times that are all the first one. *)
Definition demo_time : string := "1970-01-01T00:00:00Z".

Definition demo_ParseTime (j : json) : result Z :=
  match j with JString _ => Ok 0%Z | _ => Err UnmarshalTypeError end.

Lemma demo_time_ascii (t : Z) s : Ok demo_time = Ok s → is_ascii s = true.
Proof. intros H. assert (s = demo_time) as -> by congruence. reflexivity. Qed.

Definition demo_times : Times := {|
  ParseTime := demo_ParseTime;
  FormatTime := λ _, Ok demo_time;
  FormatTime_ascii := demo_time_ascii
|}.

#[local] Existing Instance demo_times.

(** A counter below zero and one of the greatest value. *)
Definition demo_text : string :=
  "{" +:+ q +:+ "cpu_stats" +:+ q +:+ ":{" +:+ q +:+ "cpu_usage" +:+ q +:+ ":{" +:+
  q +:+ "total_usage" +:+ q +:+ ":9223372036854775807," +:+ q +:+ "percpu_usage" +:+ q +:+ ":[-1]}}}".

Definition demo_read : DockerStats := Eval vm_compute in match FromString demo_text with Ok d => d | Err _ => demo_sample end.

Lemma sample_bounds_witness :
  FromString demo_text = Ok demo_read ∧ PerCpu (Cpu (mkContainerStats 0 (mkCpuUsage (2 ^ 63 - 1) [(2 ^ 64 - 1)%Z] 0 0) []
    (mkNetworkStats zero_interface []) 0)) = [18446744073709551615%Z] ∧
  sample_ok (mkContainerStats 0 (mkCpuUsage (2 ^ 63 - 1) [(2 ^ 64 - 1)%Z] 0 0) [] (mkNetworkStats zero_interface []) 0).
Proof.
  assert (FromString demo_text = Ok demo_read) as Hs by (vm_compute; reflexivity).
  split; [exact Hs|]. split; [reflexivity|].
  apply (proj1 (proj2 (sample_bounds demo_text demo_read [] _ Hs ltac:(vm_compute; reflexivity)))).
Defined.

(** A number of more than 64 bits is refused. *)
Example FromString_refuses :
  FromString ("{" +:+ q +:+ "cpu_stats" +:+ q +:+ ":{" +:+ q +:+ "system_cpu_usage" +:+ q +:+ ":9223372036854775808}}")
  = Err UnmarshalTypeError.
Proof. vm_compute. reflexivity. Qed.
