(* ===== verification/Stats.v ===== *)
(** * The statistics handlers: [stats.go], [host_stats.go], [container_stats.go]

    Three handlers of one shape: a set-up from the message, goroutines around a
    pipe (the machine of [PipeStream] with the scanner's default, lines), and
    a loop that every second collects samples and writes a line.  [turns] is
    that loop; the handlers differ in what they collect. *)

From Stdlib Require Import ZArith Ascii.
From S2P Require Import Prelude GoStd Json JsonDecode Values Jwt Config Auth Handshake Wire Bufio PipeStream StatsJson StatsData.

(** ** Set-up *)

Definition pathParts (path : string) : list string :=
  let path := TrimPrefix path "/" in
  let path := TrimSuffix path "/" in
  Split "/" path.

(** The identifier in a path of three parts. *)
Definition path_id (path : string) : string :=
  let parts := pathParts path in
  if length parts =? 3 then default "" (parts !! 2) else "".

Section setup.
Context {K : Type} `{!JWT K} `{!URLParser}.
Implicit Types c : config K.

(** [parseRequestToken]: neither the host nor the validity is looked at. *)
Definition parseRequestToken c (tokenString : string) : option Token * option error :=
  if String.eqb tokenString "" then (None, Some (OtherError "No JWT token provided"))
  else jwt_Parse tokenString (ParsedPublicKey c).

(** The entries of a claim that are strings. *)
Definition string_entries (m : gmap string value) : gmap string string := omap as_string m.

(** [StatsHandler.Handle] before its client: the id of the container, or none. *)
Definition Stats_setup (initialMessage : string) : outcome (early + string) :=
  match url_Parse initialMessage with
  | Err _ => Val (inl BadURL)
  | Ok requestUrl => Val (inr (path_id (Path requestUrl)))
  end.

(** [HostStatsHandler.Handle]: the resource id of the claims, when there are
    any; a token that does not parse is no reason to stop. *)
Definition HostStats_setup c (initialMessage : string) : outcome (early + string) :=
  match url_Parse initialMessage with
  | Err _ => Val (inl BadURL)
  | Ok requestUrl =>
      match parseRequestToken c (QueryToken requestUrl) with
      | (_, Some _) => Val (inr "")
      | (None, None) => Panics NilDereference
      | (Some token, None) =>
          Val (inr match Claims token !! "resourceId" with
                   | Some v => default "" (as_string v)
                   | None => ""
                   end)
      end
  end.

(** [ContainerStatsHandler.Handle]: the id of the path and the container ids of
    the claims. *)
Definition ContainerStats_setup c (initialMessage : string) :
    outcome (early + string * gmap string string) :=
  match url_Parse initialMessage with
  | Err _ => Val (inl BadURL)
  | Ok requestUrl =>
      match parseRequestToken c (QueryToken requestUrl) with
      | (_, Some _) => Val (inl BadToken)
      | (None, None) => Panics NilDereference
      | (Some token, None) =>
          let containerIds :=
            match Claims token !! "containerIds" with
            | Some v => default ∅ (string_entries <$> as_map v)
            | None => ∅
            end in
          Val (inr (path_id (Path requestUrl), containerIds))
      end
  end.
End setup.

(** ** The loop *)

(** [infos[i].Stats[0].Timestamp = time.Now()] where there is a sample. *)
Definition stamp_one (now : Z) (info : containerInfo) : containerInfo :=
  match StatsJson.Stats info with
  | [] => info
  | s :: stats =>
      mkContainerInfo (Id info)
        (mkContainerStats now (Cpu s) (DiskIo s) (Network s) (Memory s) :: stats)
  end.

Definition stamp (now : nat → Z) (infos : list containerInfo) : list containerInfo :=
  imap (λ i, stamp_one (now i)) infos.

Section loop.
Context {S : Type} (collect : nat → S → outcome (result (list containerInfo) * S)).
Context (publish : list containerInfo → outcome (list bytes * option error)) (now : nat → nat → Z).

(** [n] turns from the [i]-th: the writes made, and the error that ended the
    loop, if one did. *)
Fixpoint turns (n i : nat) (s : S) : outcome (list bytes * option error) :=
  match n with
  | 0 => Val ([], None)
  | Datatypes.S n =>
      r ← collect i s;
      match r with
      | (Err err, _) => Val ([], Some err)
      | (Ok infos, s) =>
          w ← publish (stamp (now i) infos);
          match w with
          | (writes, Some err) => Val (writes, Some err)
          | (writes, None) =>
              rest ← turns n (Datatypes.S i) s;
              let '(writes', err) := rest in
              Val (writes ++ writes', err)
          end
      end
  end.
End loop.

(** What the turns collected, stamped. *)
Fixpoint collections {S} (collect : nat → S → outcome (result (list containerInfo) * S))
    (now : nat → nat → Z) (n i : nat) (s : S) : list (list containerInfo) :=
  match n with
  | 0 => []
  | Datatypes.S n =>
      match collect i s with
      | Val (Ok infos, s) => stamp (now i) infos :: collections collect now n (Datatypes.S i) s
      | _ => []
      end
  end.

Section handlers.
Context `{T : !Times}.
Context (now : nat → nat → Z) (memLimit : Z).
Context (links : nat → nat → Z → list (string * option LinkStatistics)).
Context (Write : bytes → option error).

(** [links i j pid]: what the name space of the process holds, and the order its
    map is walked in, at the [i]-th turn when the [j]-th container is read.  One
    container: [getContainerStats] with a count of one. *)
Definition collect_one (id : string) (pid : Z) (i : nat) (reader : list string) :
    outcome (result (list containerInfo) * list string) :=
  r ← getContainerInfo (links i) reader 1 id pid;
  let '(cInfo, reader) := r in
  Val ((λ info, [info]) <$> (cInfo : result containerInfo), reader).

Definition single_turns (n : nat) (id : string) (pid : Z) (containerIds : gmap string string) (reader : list string) :
    outcome (list bytes * option error) :=
  turns (collect_one id pid)
    (λ infos, writeAggregatedStats Write id containerIds "container" infos memLimit)
    now n 0 reader.

(** Every container the claims name. *)
Definition collect_all (ids : list string) (pids : list Z) (i : nat) (readers : list (list string)) :
    outcome (result (list containerInfo) * list (list string)) :=
  getAllDockerContainers (links i) 0 readers 1 ids pids.

Definition multi_turns (n : nat) (containerIds : gmap string string) (ids : list string) (pids : list Z)
    (readers : list (list string)) : outcome (list bytes * option error) :=
  turns (collect_all ids pids)
    (λ infos, writeAggregatedStats Write "" containerIds "container" infos memLimit)
    now n 0 readers.

(** The host. *)
Definition collect_root (samples : nat → host_sample) (i : nat) (_ : unit) :
    outcome (result (list containerInfo) * unit) :=
  Val ((λ info, [info]) <$> getRootContainerInfo (λ _, samples i) 1, ()).

Definition host_turns (n : nat) (resourceId : string) (samples : nat → host_sample) :
    outcome (list bytes * option error) :=
  turns (collect_root samples)
    (λ infos, writeAggregatedStats Write resourceId ∅ "host" infos memLimit)
    now n 0 ().
End handlers.

(** ** The handlers *)

(** What [docker/engine-api] makes of an inspection: two pointers, each nil when
    the text it decodes has nothing for it, lead to the number of the process. *)
Record ContainerState := mkContainerState { Pid : Z }.
Record ContainerJSONBase := mkContainerJSONBase { State : option ContainerState }.
Record ContainerJSON := mkContainerJSON { Base : option ContainerJSONBase }.

(** [inspect.State.Pid]. *)
Definition inspect_Pid (inspect : ContainerJSON) : outcome Z :=
  match Base inspect with
  | None => Panics NilDereference
  | Some base => match State base with None => Panics NilDereference | Some state => Val (Pid state) end
  end.

(** What the docker client answers: itself, the memory of the host, a container,
    its stream of samples, the list of containers. *)
Record stats_env := mkStatsEnv {
  NewEnvClient : option error;
  VirtualMemory : result Z;            (* its [Total] *)
  ContainerInspect : string → result ContainerJSON;
  ContainerStream : string → result (list string);
  ContainerList : result (list string)
}.

Definition getMemCapcity (env : stats_env) : result Z :=
  match VirtualMemory env with Err err => Err err | Ok total => Ok total end.

(** The containers of the list that the claims name, each inspected and its
    stream opened, until something fails: their identifiers, streams and
    processes. *)
Fixpoint select (env : stats_env) (containerIds : gmap string string) (ids : list string) :
    outcome (option (list string * list (list string) * list Z)) :=
  match ids with
  | [] => Val (Some ([], [], []))
  | id :: ids =>
      match containerIds !! id with
      | None => select env containerIds ids
      | Some _ =>
          match ContainerInspect env id, ContainerStream env id with
          | Ok inspect, Ok reader =>
              pid ← inspect_Pid inspect;
              rest ← select env containerIds ids;
              Val (match rest with
                   | Some (IDList, readers, pids) => Some (id :: IDList, reader :: readers, pid :: pids)
                   | None => None
                   end)
          | _, _ => Val None
          end
      end
  end.

Section whole.
Context {K : Type} `{!JWT K} `{!URLParser} (c : config K) (env : stats_env).
Context `{T : !Times}.
Context (now : nat → nat → Z) (links : nat → nat → Z → list (string * option LinkStatistics)).
Context (samples : nat → host_sample) (Write : bytes → option error).

(** One container by its id, as [StatsHandler] and [ContainerStatsHandler] do. *)
Definition stats_of (n : nat) (id : string) (containerIds : gmap string string) (memLimit : Z) :
    outcome (early + (list bytes * option error)) :=
  match ContainerInspect env id, ContainerStream env id with
  | Ok inspect, Ok reader =>
      pid ← inspect_Pid inspect;
      inr <$> single_turns now memLimit links Write n id pid containerIds reader
  | _, _ => Val (inl NoStats)
  end.

(** [StatsHandler.Handle], for [n] turns. *)
Definition Stats_Handle (n : nat) (initialMessage : string) :
    outcome (early + (list bytes * option error)) :=
  r ← Stats_setup initialMessage;
  match r with
  | inl e => Val (inl e)
  | inr id =>
      match NewEnvClient env, getMemCapcity env with
      | Some _, _ => Val (inl NoClient)
      | None, Err _ => Val (inl NoStats)
      | None, Ok memLimit =>
          if String.eqb id "" then
            inr <$> host_turns now memLimit Write n "" samples
          else stats_of n id ∅ memLimit
      end
  end.

(** [HostStatsHandler.Handle]. *)
Definition HostStats_Handle (n : nat) (initialMessage : string) :
    outcome (early + (list bytes * option error)) :=
  r ← HostStats_setup c initialMessage;
  match r with
  | inl e => Val (inl e)
  | inr resourceId =>
      match getMemCapcity env with
      | Err _ => Val (inl NoStats)
      | Ok memLimit => inr <$> host_turns now memLimit Write n resourceId samples
      end
  end.

(** [ContainerStatsHandler.Handle]. *)
Definition ContainerStats_Handle (n : nat) (initialMessage : string) :
    outcome (early + (list bytes * option error)) :=
  r ← ContainerStats_setup c initialMessage;
  match r with
  | inl e => Val (inl e)
  | inr (id, containerIds) =>
      match NewEnvClient env, getMemCapcity env with
      | Some _, _ => Val (inl NoClient)
      | None, Err _ => Val (inl NoStats)
      | None, Ok memLimit =>
          if negb (String.eqb id "") then stats_of n id containerIds memLimit
          else
            match ContainerList env with
            | Err _ => Val (inl NoStats)
            | Ok contList =>
                selected ← select env containerIds contList;
                match selected with
                | None => Val (inl NoStats)
                | Some (IDList, readers, pids) =>
                    inr <$> multi_turns now memLimit links Write n containerIds IDList pids readers
                end
            end
      end
  end.
End whole.

(** ** Lemmas on the loop *)

Lemma stamp_sampled now infos : sampled infos → sampled (stamp now infos).
Proof.
  intros Hs. apply Forall_lookup. intros i x Hi.
  apply list_lookup_imap_Some in Hi as (info&Hi&->). eapply Forall_lookup in Hs; [|exact Hi].
  unfold stamp_one. by destruct (StatsJson.Stats info).
Qed.

(** A value with [Q], or the panic of a nil pointer, for the cause [C]. *)
Definition only_nil {A} (C : Prop) (Q : A → Prop) (r : outcome A) : Prop :=
  match r with Val a => Q a | Panics p => p = NilDereference ∧ C end.

Lemma only_nil_bind {A B} (C : Prop) Q R (r : outcome A) (f : A → outcome B) :
  only_nil C Q r → (∀ a, Q a → only_nil C R (f a)) → only_nil C R (r ≫= f).
Proof. destruct r; simpl; auto. Qed.

Lemma only_nil_impl {A} (C D : Prop) (Q R : A → Prop) r :
  only_nil C Q r → (C → D) → (∀ a, Q a → R a) → only_nil D R r.
Proof. destruct r; simpl; [auto|]. intros [? ?]. auto. Qed.

Lemma only_nil_fmap {A B} C (Q : A → Prop) (g : A → B) r :
  only_nil C Q r → only_nil C (λ _, True) (g <$> r).
Proof. by destruct r. Qed.

Lemma only_nil_panics {A} C (Q : A → Prop) r p : only_nil C Q r → r = Panics p → p = NilDereference ∧ C.
Proof. by intros Hr ->. Qed.

(** A loop whose collections have samples panics only where they do. *)
Lemma turns_only_nil {S} (C : Prop) (Q : S → Prop) collect publish now n i (s : S) :
  (∀ i s, Q s → only_nil C (λ r, Q r.2 ∧ ∀ infos, r.1 = Ok infos → sampled infos) (collect i s)) →
  (∀ infos, sampled infos → is_val (publish infos)) →
  Q s → only_nil C (λ _, True) (turns collect publish now n i s).
Proof.
  intros Hc Hp. revert i s. induction n as [|n IH]; intros i s HQ; [done|]. simpl.
  eapply only_nil_bind; [by apply Hc|]. intros [[infos|e] s'] [HQ' Hr]; [|done]. simpl in *.
  destruct (Hp (stamp (now i) infos) (stamp_sampled _ _ (Hr _ eq_refl))) as [[ws [e|]] ->]; simpl; [done|].
  eapply only_nil_bind; [by apply IH|]. by intros [].
Qed.

Lemma publish_val `{T : !Times} Write id ids rt infos ml :
  sampled infos → is_val (writeAggregatedStats Write id ids rt infos ml).
Proof.
  intros Hs. destruct (aggregate_spec id ids rt infos ml) as [H1 _].
  destruct (H1 Hs) as (l&E&_). unfold writeAggregatedStats, convertToAggregatedStats.
  destruct infos; [by eexists|]. rewrite E. by eexists.
Qed.

(** The line of a collection: one entry per container, under the requested id or
    the one the claims give. *)
Definition line_of `{T : !Times} (id : string) (ids : gmap string string) (rt : string) (ml : Z)
    (infos : list containerInfo) (d : bytes) : Prop :=
  ∃ l, Forall2 (λ info a, ∃ first rest, StatsJson.Stats info = first :: rest ∧ a = aggregated id ids rt ml info first) infos l ∧
       Marshal l = Ok d.

(** What a turn writes: nothing, or a line. *)
Lemma publish_shape `{T : !Times} id ids rt infos ml ws e :
  writeAggregatedStats (λ _, None) id ids rt infos ml = Val (ws, e) →
  (infos = [] ∧ e = None ∧ ws = []) ∨ (e ≠ None ∧ ws = []) ∨
  (infos ≠ [] ∧ e = None ∧ ∃ d, line_of id ids rt ml infos d ∧ ws = [d; newline]).
Proof.
  unfold writeAggregatedStats, convertToAggregatedStats. destruct infos as [|info infos].
  { intros [= <- <-]. by left. }
  destruct (aggregate_spec id ids rt (info :: infos) ml) as [H1 H2].
  destruct (decide (sampled (info :: infos))) as [Hs|Hs]; [|by rewrite (H2 Hs)].
  destruct (H1 Hs) as (l&->&Hl). simpl.
  destruct (Marshal l) as [d|err] eqn:E; intros [= <- <-]; right; [right|by left].
  split_and!; [done|done|]. exists d. split; [|done]. by exists l.
Qed.

Definition some_container (infos : list containerInfo) : Prop := infos ≠ [].

#[export] Instance some_container_decision infos : Decision (some_container infos).
Proof. destruct infos; [by right; intros []|by left]. Defined.

(** The writes of a handler that publishes the lines [datas]. *)
Definition writes_of (datas : list bytes) : list bytes := concat ((λ d, [d; newline]) <$> datas).

Lemma concat_writes datas : concat (writes_of datas) = concat ((λ d, d ++ newline) <$> datas).
Proof.
  induction datas as [|d ds IH]; [done|].
  change (concat ([d; newline] ++ writes_of ds) = concat ((λ d, d ++ newline) <$> d :: ds)).
  by rewrite concat_app, fmap_cons, !concat_cons, IH, concat_nil, app_nil_r.
Qed.

Lemma writes_of_in datas : datas ⊆ writes_of datas.
Proof.
  intros d (i&Hi)%list_elem_of_lookup. apply list_elem_of_In, in_concat. exists [d; newline].
  split; [|by left]. apply list_elem_of_In, list_elem_of_fmap. exists d. split; [done|by eapply list_elem_of_lookup_2].
Qed.

Lemma turns_lines `{T : !Times} {S} id ids rt ml collect now n i (s : S) ws e :
  turns collect (λ infos, writeAggregatedStats (λ _, None) id ids rt infos ml) now n i s = Val (ws, e) →
  ∃ ms ms' datas, filter some_container (collections collect now n i s) = ms ++ ms' ∧
    Forall2 (line_of id ids rt ml) ms datas ∧ ws = writes_of datas ∧ (e = None → ms' = []).
Proof.
  revert i s ws e. induction n as [|n IH]; intros i s ws e Ht; simpl in *.
  { injection Ht as <- <-. by exists [], [], []. }
  apply outcome_bind_val in Ht as ([[infos|err] s']&->&Ht).
  2:{ injection Ht as <- <-. by exists [], [], []. }
  apply outcome_bind_val in Ht as ([w err]&Hp&Ht).
  apply publish_shape in Hp as [(Hi&->&->)|[(Herr&->)|(Hi&->&d&Hd&->)]].
  - apply outcome_bind_val in Ht as ([ws' err]&Hrest&[= <- <-]).
    destruct (IH _ _ _ _ Hrest) as (ms&ms'&datas&Hf&Hall&Hc&He). exists ms, ms', datas.
    rewrite filter_cons_False by (intros Hn; by apply Hn). done.
  - destruct err as [err|]; [|done]. injection Ht as <- <-.
    eexists [], _, []. split_and!; [reflexivity|constructor|done|done].
  - apply outcome_bind_val in Ht as ([ws' err]&Hrest&[= <- <-]).
    destruct (IH _ _ _ _ Hrest) as (ms&ms'&datas&Hf&Hall&->&He). exists (stamp (now i) infos :: ms), ms', (d :: datas).
    rewrite filter_cons_True by done. split_and!; [by rewrite Hf|by constructor|done|done].
Qed.

(** A link without counters, somewhere. *)
Definition nil_link (links : nat → nat → Z → list (string * option LinkStatistics)) : Prop :=
  ∃ i j pid name, (name, None) ∈ links i j pid.

(** An inspection that lacks the state. *)
Definition nil_state (env : stats_env) : Prop :=
  ∃ id inspect, ContainerInspect env id = Ok inspect ∧ inspect_Pid inspect = Panics NilDereference.

Lemma get_samples_only_nil `{T : !Times} links i count reader :
  only_nil (∃ j name, (name, None) ∈ links j) (λ _, True) (get_samples links i count reader).
Proof.
  revert i reader. induction count as [|count IH]; intros i reader; simpl; [done|].
  destruct reader as [|str reader]; [done|]. destruct (FromString str) as [ds|]; [|done].
  apply (only_nil_bind _ (λ _, True)).
  - unfold convertDockerStats. destruct (interfaces_of (links i)) as [ifs|p] eqn:E; [done|].
    apply interfaces_of_panics in E as [-> [name Hn]]. split; [done|]. by exists i, name.
  - intros cs _. eapply only_nil_bind; [apply IH|]. by intros [].
Qed.

Lemma getContainerInfo_only_nil `{T : !Times} links reader id pid :
  only_nil (∃ j name, (name, None) ∈ links j pid) (λ r, ∀ info, r.1 = Ok info → StatsJson.Stats info ≠ [])
    (getContainerInfo links reader 1 id pid).
Proof.
  unfold getContainerInfo. pose proof (get_samples_only_nil (λ i, links i pid) 0 1 reader) as Hg.
  destruct (get_samples _ 0 1 reader) as [[r rd]|p] eqn:E; [|done]. simpl. intros info Hr.
  destruct r as [stats|]; [|done]. injection Hr as <-. simpl. apply get_samples_length in E. by destruct stats.
Qed.

Lemma collect_one_only_nil `{T : !Times} links id pid i reader :
  only_nil (nil_link links) (λ r, True ∧ ∀ infos, r.1 = Ok infos → sampled infos) (collect_one links id pid i reader).
Proof.
  unfold collect_one. eapply only_nil_bind; [eapply only_nil_impl; [apply getContainerInfo_only_nil| |done]|].
  - intros (j&name&Hn). by exists i, j, pid, name.
  - intros [[info|] rd] Hr; (split; [done|]); intros infos Hi; [|done]. injection Hi as <-. apply Forall_singleton. by apply Hr.
Qed.

Lemma getAll_only_nil `{T : !Times} links i readers ids pids :
  i + length readers ≤ length ids → i + length readers ≤ length pids →
  only_nil (∃ j pid name, (name, None) ∈ links j pid)
    (λ r, length r.2 = length readers ∧ ∀ infos, r.1 = Ok infos → sampled infos)
    (getAllDockerContainers links i readers 1 ids pids).
Proof.
  revert i. induction readers as [|reader readers IH]; intros i Hi Hp; simpl in *.
  { split; [done|]. intros infos [= <-]. constructor. }
  destruct (lookup_lt_is_Some_2 ids i) as [id Hid]; [lia|]. destruct (lookup_lt_is_Some_2 pids i) as [pid Hpid]; [lia|].
  unfold index. rewrite Hid, Hpid. simpl.
  eapply only_nil_bind; [eapply only_nil_impl; [apply getContainerInfo_only_nil| |done]|].
  { intros (j&name&Hn). by exists i, pid, name. }
  intros [[info|e] rd] Hr; [|done]. eapply only_nil_bind; [apply IH; lia|].
  intros [[rest|e] rds] [Hlen Hs]; simpl in *; (split; [by rewrite Hlen|]); intros infos Hinfos; [|done].
  injection Hinfos as <-. constructor; [by apply Hr|by apply Hs].
Qed.

Lemma inspect_only_nil env id inspect :
  ContainerInspect env id = Ok inspect → only_nil (nil_state env) (λ _, True) (inspect_Pid inspect).
Proof.
  intros Hi. destruct (inspect_Pid inspect) as [|p] eqn:E; [done|].
  assert (p = NilDereference) as ->; [|split; [done|by exists id, inspect]].
  unfold inspect_Pid in E. repeat case_match; congruence.
Qed.

(** The selection has a stream and a process for each identifier. *)
Lemma select_only_nil env ids contList :
  only_nil (nil_state env) (λ r, ∀ IDList readers pids, r = Some (IDList, readers, pids) →
    length IDList = length readers ∧ length pids = length readers) (select env ids contList).
Proof.
  induction contList as [|id cl IH]; simpl; [by intros ??? [= <- <- <-]|].
  destruct (ids !! id); [|done]. destruct (ContainerInspect env id) as [inspect|] eqn:Ei, (ContainerStream env id); try done.
  eapply only_nil_bind; [by eapply inspect_only_nil|]. intros pid _. eapply only_nil_bind; [exact IH|].
  intros [[[IDList readers] pids]|] Hr; [|done]. intros ??? [= <- <- <-]. destruct (Hr _ _ _ eq_refl) as [H1 H2].
  simpl. by rewrite H1, H2.
Qed.

Lemma select_lengths env ids contList IDList readers pids :
  select env ids contList = Val (Some (IDList, readers, pids)) →
  length IDList = length readers ∧ length pids = length readers.
Proof. intros Hs. pose proof (select_only_nil env ids contList) as Hn. rewrite Hs in Hn. by apply Hn. Qed.

Lemma select_none env ids contList :
  (∀ id, id ∈ contList → ids !! id = None) → select env ids contList = Val (Some ([], [], [])).
Proof.
  induction contList as [|id cl IH]; intros H; simpl; [done|].
  rewrite H by by constructor. apply IH. intros id' Hin. apply H. by right.
Qed.

Lemma parseRequestToken_some {K} `{!JWT K} (c : config K) ts t :
  parseRequestToken c ts = (t, None) → is_Some t.
Proof.
  unfold parseRequestToken. destruct (String.eqb ts ""); [done|]. intros E.
  destruct (jwt_Parse_valid _ _ _ E) as (t'&->&_). by eexists.
Qed.

Lemma HostStats_setup_go {K} `{!JWT K} `{!URLParser} (c : config K) m u :
  url_Parse m = Ok u → ∃ r, HostStats_setup c m = Val (inr r).
Proof.
  intros Hu. unfold HostStats_setup. rewrite Hu.
  destruct (parseRequestToken c (QueryToken u)) as [[t|] [e|]] eqn:E; try by eexists.
  by destruct (parseRequestToken_some _ _ _ E).
Qed.

Lemma ContainerStats_setup_val {K} `{!JWT K} `{!URLParser} (c : config K) m :
  is_val (ContainerStats_setup c m).
Proof.
  unfold ContainerStats_setup. destruct (url_Parse m) as [u|]; [|by eexists].
  destruct (parseRequestToken c (QueryToken u)) as [[t|] [e|]] eqn:E; try by eexists.
  by destruct (parseRequestToken_some _ _ _ E).
Qed.

Lemma TrimPrefix_slash s : TrimPrefix (String "/" s) "/" = s.
Proof. exact (TrimPrefix_app "/" s). Qed.

(** A joined path does not end in a slash when its last segment is not empty. *)
Lemma Join_no_slash ws :
  ws ≠ [] → Forall (λ w, has_char "/" w = false) ws → (∀ w, last ws = Some w → w ≠ "") →
  ∀ t, Join "/" ws ≠ t +:+ "/".
Proof.
  intros Hne Hw Hlast t Ht. pose proof (Split_Join "/" ws Hne Hw) as Hs. rewrite Ht in Hs.
  assert (last (Split "/" (t +:+ "/")) = Some "") as Hl.
  { clear. induction t as [|a t IH]; [done|]. rewrite cons_app_str. simpl.
    destruct (Ascii.eqb a "/"); [simpl|].
    - destruct (Split "/" (t +:+ "/")); [done|]. exact IH.
    - destruct (Split "/" (t +:+ "/")) as [|w [|w' ws]] eqn:E; [done| |exact IH].
      injection IH as ->. pose proof (Join_Split "/" (t +:+ "/")) as HJ. rewrite E in HJ. simpl in HJ.
      by destruct t. }
  rewrite Hs in Hl. by apply (Hlast _ Hl).
Qed.

(** *** Where the loops panic *)

Lemma host_turns_val `{T : !Times} now ml Write n rid samples :
  is_val (host_turns now ml Write n rid samples).
Proof.
  assert (only_nil False (λ _, True) (host_turns now ml Write n rid samples)) as Hn.
  { apply (turns_only_nil _ (λ _, True)); [|by intros; apply publish_val|done].
    intros i [] _. split; [done|]. intros infos Hi. simpl in Hi. unfold getRootContainerInfo in Hi.
    destruct (root_samples (λ _, samples i) 0 1) as [stats|] eqn:E; [|done]. injection Hi as <-.
    apply root_samples_length in E. apply Forall_singleton. by destruct stats. }
  destruct (host_turns _ _ _ _ _ _) as [r|p]; [by eexists|by destruct Hn].
Qed.

Lemma stats_of_only_nil `{T : !Times} env now links Write n id ids ml :
  only_nil (nil_state env ∨ nil_link links) (λ _, True) (stats_of env now links Write n id ids ml).
Proof.
  unfold stats_of. destruct (ContainerInspect env id) as [inspect|] eqn:Ei; [|done].
  destruct (ContainerStream env id) as [reader|]; [|done].
  eapply only_nil_bind; [eapply only_nil_impl; [by eapply inspect_only_nil|by left|done]|]. intros pid _.
  eapply only_nil_fmap, only_nil_impl; [|by right|done].
  apply (turns_only_nil (nil_link links) (λ _, True)); [|by intros; apply publish_val|done].
  intros i s _. apply collect_one_only_nil.
Qed.

Lemma multi_turns_only_nil `{T : !Times} env now links Write n ids ml IDList pids readers :
  length IDList = length readers → length pids = length readers →
  only_nil (nil_state env ∨ nil_link links) (λ _, True)
    (inr (A := early) <$> multi_turns now ml links Write n ids IDList pids readers).
Proof.
  intros Hi Hp. eapply only_nil_fmap, only_nil_impl; [|by right|done].
  apply (turns_only_nil (nil_link links) (λ rs, length rs = length readers)); [|by intros; apply publish_val|done].
  intros i rs Hrs. eapply only_nil_impl; [apply getAll_only_nil; simpl; lia| |].
  - intros (j&pid&name&Hn). by exists i, j, pid, name.
  - intros r [Hl Hs]. split; [congruence|done].
Qed.

Lemma Stats_Handle_panics `{!URLParser} `{T : !Times} env now links samples Write n m p :
  Stats_Handle env now links samples Write n m = Panics p →
  p = NilDereference ∧ (nil_state env ∨ nil_link links).
Proof.
  apply (only_nil_panics _ (λ _, True)). unfold Stats_Handle, Stats_setup.
  destruct (url_Parse m); [|done]. simpl. destruct (NewEnvClient env), (getMemCapcity env) as [ml|]; try done.
  destruct (String.eqb _ _); [|apply stats_of_only_nil]. by destruct (host_turns_val now ml Write n "" samples) as [r ->].
Qed.

Lemma HostStats_Handle_val {K} `{!JWT K} `{!URLParser} `{T : !Times} (c : config K) env now samples Write n m :
  is_val (HostStats_Handle c env now samples Write n m).
Proof.
  unfold HostStats_Handle. destruct (url_Parse m) as [u|] eqn:Hu.
  - destruct (HostStats_setup_go c m u Hu) as [r ->]. simpl.
    destruct (getMemCapcity env) as [ml|]; [|by eexists].
    destruct (host_turns_val now ml Write n r samples) as [w ->]. by eexists.
  - unfold HostStats_setup. rewrite Hu. by eexists.
Qed.

Lemma ContainerStats_Handle_panics {K} `{!JWT K} `{!URLParser} `{T : !Times} (c : config K) env now links Write n m p :
  ContainerStats_Handle c env now links Write n m = Panics p →
  p = NilDereference ∧ (nil_state env ∨ nil_link links).
Proof.
  apply (only_nil_panics _ (λ _, True)). unfold ContainerStats_Handle.
  destruct (ContainerStats_setup_val c m) as [[e|[id ids]] ->]; [done|]. simpl.
  destruct (NewEnvClient env), (getMemCapcity env) as [ml|]; try done.
  destruct (String.eqb id ""); simpl; [|apply stats_of_only_nil]. destruct (ContainerList env) as [cl|]; [|done].
  eapply only_nil_bind; [eapply only_nil_impl; [apply select_only_nil|by left|done]|].
  intros [[[IDList readers] pids]|] Hs; [|done]. destruct (Hs _ _ _ eq_refl). by apply multi_turns_only_nil.
Qed.

(** ** Lines through the pipe *)

#[export] Instance stats_machine (key : string) : Machine pipe_state pipe_label :=
  pipe_machine MaxScanTokenSize ScanLines key.

(** A text that the scanner gives back as one line. *)
Definition one_line (d : bytes) : Prop :=
  ¬ (Byte.x0a ∈ d) ∧ last d ≠ Some Byte.x0d ∧ length d < MaxScanTokenSize.

Lemma newline_border_free : border_free newline.
Proof. by apply (bool_decide_unpack _); vm_compute. Qed.

Lemma newline_pos : 0 < length newline.
Proof. simpl. lia. Qed.

Lemma one_line_frame d : one_line d → frame_ok newline d ∧ length d + length newline ≤ MaxScanTokenSize.
Proof. intros (Hn&_&Hl). split; [by apply frame_ok_newline|]. simpl. lia. Qed.

Lemma Marshal_one_line `{T : !Times} l d : Marshal l = Ok d → length d < MaxScanTokenSize → one_line d.
Proof.
  intros Hl Hd. destruct (Marshal_line l d Hl) as (js&_&_&Hn). apply no_control_bytes in Hn as [Ha Hr].
  rewrite bytes_of_string_of in Ha, Hr. split_and!; [done| |done].
  intros Hlast. apply Hr. by apply last_Some_elem_of.
Qed.

Lemma dropCR_lines ds : Forall one_line ds → dropCR <$> ds = ds.
Proof.
  induction 1 as [|d ds (_&Hl&_) _ IH]; [done|]. by rewrite fmap_cons, IH, dropCR_id.
Qed.

(** ** Properties *)

(** C30: what the loop of a statistics handler collects reaches the client:
    the scanner goroutine alone delivers one body per collection that has a
    container, in the order of the turns, and the body is the JSON text of the
    collection, which reads back as its entries; none is left out unless an
    error ended the loop.  This while each text fits the scanner. *)
Theorem stats_delivered `{T : !Times} {S} id ids rt ml collect now n (s : S) ws e key st :
  turns collect (λ infos, writeAggregatedStats (λ _, None) id ids rt infos ml) now n 0 s = Val (ws, e) →
  Forall (λ w, length w < MaxScanTokenSize) ws →
  reachable (Machine0 := stats_machine key) pipe_init st →
  wclosed st = false → written st = concat ws →
  ∃ ms ms' st', filter some_container (collections collect now n 0 s) = ms ++ ms' ∧ (e = None → ms' = []) ∧
    scanner_reach MaxScanTokenSize ScanLines key st st' ∧ pending st' = None ∧
    Forall2 (line_of id ids rt ml) ms (sent st') ∧
    Forall (λ d, ∃ l js, Marshal l = Ok d ∧ aggregated_list l = Ok js ∧
      (Forall plain_stat l → parse (string_of d) = Ok (JArray js))) (sent st').
Proof.
  intros Ht Hfit Hr Hw Hwr. destruct (turns_lines _ _ _ _ _ _ _ _ _ _ _ Ht) as (ms&ms'&datas&Hf&Hall&->&He).
  assert (Forall (λ d, ∃ l, Marshal l = Ok d) datas) as Hm.
  { eapply Forall2_Forall_r; [exact Hall|]. apply Forall_true. intros infos d (l&_&Hl). by exists l. }
  assert (Forall one_line datas) as Hol.
  { apply Forall_forall. intros d Hd'. rewrite Forall_forall in Hm, Hfit. destruct (Hm d Hd') as [l Hl].
    by apply (Marshal_one_line l), Hfit, writes_of_in. }
  destruct (pipe_delivers MaxScanTokenSize ScanLines key newline dropCR (λ _ _, eq_refl)
    newline_pos MaxScanTokenSize_pos st datas newline_border_free) as (st'&Hreach&Hp&Hs).
  - pose proof MaxScanTokenSize_pos. simpl. lia.
  - exact Hr.
  - done.
  - by rewrite Hwr, concat_writes.
  - eapply Forall_impl; [exact Hol|]. apply one_line_frame.
  - rewrite dropCR_lines in Hs by done. exists ms, ms', st'. rewrite Hs. split_and!; [done|done|done|done|done|].
    eapply Forall_impl; [exact Hm|]. intros d [l Hl]. exists l.
    destruct (Marshal_line l d Hl) as (js&Hjs&_). exists js. split_and!; [done|done|].
    intros Hp'. by eapply Marshal_parse.
Qed.

(** C36: the three handlers let different requests in: container statistics
    want a token that parses, for whatever host; host statistics start for
    every url, with or without a token; plain statistics never look at one. *)
Theorem stats_gates {K} `{!JWT K} `{!URLParser} (c : config K) m u :
  url_Parse m = Ok u →
  ((∃ id ids, ContainerStats_setup c m = Val (inr (id, ids))) ↔
     QueryToken u ≠ "" ∧ ∃ t, jwt_Parse (QueryToken u) (ParsedPublicKey c) = (Some t, None)) ∧
  (∃ r, HostStats_setup c m = Val (inr r)) ∧
  Stats_setup m = Val (inr (path_id (Path u))) ∧
  (∀ t, authorised c m t → QueryToken u ≠ "" → ∃ id ids, ContainerStats_setup c m = Val (inr (id, ids))).
Proof.
  intros Hu.
  assert ((∃ id ids, ContainerStats_setup c m = Val (inr (id, ids))) ↔
     QueryToken u ≠ "" ∧ ∃ t, jwt_Parse (QueryToken u) (ParsedPublicKey c) = (Some t, None)) as Hiff.
  { unfold ContainerStats_setup, parseRequestToken. rewrite Hu.
    destruct (String.eqb_spec (QueryToken u) ""); [naive_solver|].
    destruct (jwt_Parse (QueryToken u) (ParsedPublicKey c)) as [[t|] [e|]] eqn:E; naive_solver. }
  split_and!; [exact Hiff| | |].
  - by apply (HostStats_setup_go c m u).
  - unfold Stats_setup. by rewrite Hu.
  - intros t (u'&Hu'&Hp&_) Hne. apply Hiff. split; [done|]. exists t. congruence.
Qed.

(** C27: what makes a statistics handler panic, however long it runs and whatever
    docker, the system, the peer and the claims give: only a nil pointer of the
    libraries, the state that an inspection lacks or the counters that a link
    lacks.  A collection has one sample per container, every stream its
    container and its process, and the handler of host statistics never
    panics. *)
Theorem stats_panics_only {K} `{!JWT K} `{!URLParser} `{T : !Times} (c : config K) env now links
    samples Write n m :
  (∀ p, Stats_Handle env now links samples Write n m = Panics p →
     p = NilDereference ∧ (nil_state env ∨ nil_link links)) ∧
  is_val (HostStats_Handle c env now samples Write n m) ∧
  (∀ p, ContainerStats_Handle c env now links Write n m = Panics p →
     p = NilDereference ∧ (nil_state env ∨ nil_link links)).
Proof.
  split_and!; [apply Stats_Handle_panics|apply HostStats_Handle_val|apply ContainerStats_Handle_panics].
Qed.

(** When the claims name none of the running containers the loop of
    container statistics neither writes nor ends: after any number of turns it
    has written nothing and is still going, so the closed pipe of a client that
    left is never noticed. *)
Theorem empty_selection_never_ends {K} `{!JWT K} `{!URLParser} `{T : !Times} (c : config K) env
    now links Write m ids cl ml :
  ContainerStats_setup c m = Val (inr ("", ids)) →
  NewEnvClient env = None → getMemCapcity env = Ok ml → ContainerList env = Ok cl →
  (∀ id, id ∈ cl → ids !! id = None) →
  ∀ n, ContainerStats_Handle c env now links Write n m = Val (inr ([], None)).
Proof.
  intros Hs Hc Hm Hcl Hno n. unfold ContainerStats_Handle. rewrite Hs. simpl. rewrite Hc, Hm, Hcl.
  rewrite (select_none _ _ _ Hno). simpl. unfold multi_turns.
  assert (∀ i, turns (collect_all links [] [])
    (λ infos, writeAggregatedStats Write "" ids "container" infos ml) now n i [] = Val ([], None)) as ->;
    [|done].
  induction n as [|n IH]; intros i; [done|]. simpl. by rewrite IH.
Qed.

(** The parts of a path are its segments, with or without a slash at the
    end; the id is the third of three. *)
Lemma pathParts_roundtrip ws (slash : bool) :
  ws ≠ [] → Forall (λ w, has_char "/" w = false) ws → (∀ w, last ws = Some w → w ≠ "") →
  let path := String "/" (Join "/" ws) +:+ (if slash then "/" else "") in
  pathParts path = ws ∧
  path_id path = match ws with [_; _; id] => id | _ => "" end.
Proof.
  intros Hne Hw Hlast path.
  assert (pathParts path = ws) as Hp.
  { unfold pathParts, path. rewrite cons_app_str, TrimPrefix_slash. destruct slash.
    - rewrite TrimSuffix_app. by apply Split_Join.
    - rewrite app_nil_r_str, TrimSuffix_no; [by apply Split_Join|]. by apply Join_no_slash. }
  split; [done|]. unfold path_id. rewrite Hp. by destruct ws as [|a [|b [|d [|e ws]]]].
Qed.

(** ** Witnesses *)

#[local] Existing Instance handshake_jwt.
#[local] Existing Instance demo_url.
#[local] Existing Instance demo_times.

Definition demo_host : host_sample := mkHostSample (Ok []) (Ok []) (Ok 5%Z) (Ok []) (Ok []).

(** The one turn of the host. *)
Definition demo_turn : outcome (list bytes * option error) :=
  turns (collect_root (λ _, demo_host)) (λ infos, writeAggregatedStats (λ _, None) "r" ∅ "host" infos 10)
    (λ _ _, 7%Z) 1 0 ().

Definition demo_line : bytes := Eval vm_compute in match demo_turn with Val (d :: _, _) => d | _ => [] end.

(** The line was written and half read. *)
Definition demo_stats_session : pipe_state :=
  default pipe_init (mrun (Machine0 := stats_machine "k")
    [PWrite demo_line; SRead 4095; PWrite newline] pipe_init).

Lemma stats_delivered_witness :
  ∃ ms ms' st', filter some_container (collections (collect_root (λ _, demo_host)) (λ _ _, 7%Z) 1 0 ()) = ms ++ ms' ∧
    (None = None (A := error) → ms' = []) ∧
    scanner_reach MaxScanTokenSize ScanLines "k" demo_stats_session st' ∧ pending st' = None ∧
    Forall2 (line_of "r" ∅ "host" 10) ms (sent st') ∧
    Forall (λ d, ∃ l js, Marshal l = Ok d ∧ aggregated_list l = Ok js ∧
      (Forall plain_stat l → parse (string_of d) = Ok (JArray js))) (sent st').
Proof.
  apply (stats_delivered "r" ∅ "host" 10 (collect_root (λ _, demo_host)) (λ _ _, 7%Z) 1 ()
    [demo_line; newline] None "k" demo_stats_session).
  - vm_compute. reflexivity.
  - rewrite MaxScanTokenSize_value. do 2 (apply Forall_cons_2; [apply Nat.ltb_lt; vm_compute; reflexivity|]). apply Forall_nil_2.
  - exists [PWrite demo_line; SRead 4095; PWrite newline]. apply mrun_mstar. vm_compute. reflexivity.
  - vm_compute. reflexivity.
  - vm_compute. reflexivity.
Defined.

(** The token is for host "1", the agent is host "2". *)
Lemma stats_gates_witness :
  ((∃ id ids, ContainerStats_setup (demo_config "2") "/v1/containerstats/c1?plain" = Val (inr (id, ids))) ↔
     "plain" ≠ "" ∧ ∃ t, jwt_Parse "plain" (ParsedPublicKey (demo_config "2")) = (Some t, None)) ∧
  (∃ r, HostStats_setup (demo_config "2") "/v1/containerstats/c1?plain" = Val (inr r)) ∧
  Stats_setup "/v1/containerstats/c1?plain" = Val (inr "c1") ∧
  (∀ t, authorised (demo_config "2") "/v1/containerstats/c1?plain" t → "plain" ≠ "" →
     ∃ id ids, ContainerStats_setup (demo_config "2") "/v1/containerstats/c1?plain" = Val (inr (id, ids))).
Proof.
  apply (stats_gates (demo_config "2") "/v1/containerstats/c1?plain" (mkURL "/v1/containerstats/c1" "plain")).
  vm_compute. reflexivity.
Defined.

Definition demo_inspect (pid : Z) : result ContainerJSON :=
  Ok (mkContainerJSON (Some (mkContainerJSONBase (Some (mkContainerState pid))))).

Definition demo_env : stats_env :=
  mkStatsEnv None (Ok 10%Z) (λ _, demo_inspect 42) (λ _, Ok [demo_text; demo_text]) (Ok ["c1"; "c2"]).

(** Docker gives an inspection without a state. *)
Definition demo_stateless : stats_env :=
  mkStatsEnv None (Ok 10%Z) (λ _, Ok (mkContainerJSON (Some (mkContainerJSONBase None)))) (λ _, Ok [demo_text]) (Ok ["c1"]).

Lemma stats_panics_only_witness :
  NilDereference = NilDereference ∧ (nil_state demo_stateless ∨ nil_link (λ _ _ _, demo_links)).
Proof.
  apply (proj1 (stats_panics_only (demo_config "1") demo_stateless (λ _ _, 7%Z)
    (λ _ _ _, demo_links) (λ _, demo_host) (λ _, None) 3 "/v1/stats/c1?x")).
  vm_compute. reflexivity.
Defined.

Lemma empty_selection_never_ends_witness :
  ContainerStats_Handle (demo_config "1") demo_env (λ _ _, 7%Z)
         (λ _ _ _, demo_links) (λ _, None) 1000 "/v1/containerstats/?plain" = Val (inr ([], None)).
Proof.
  apply (empty_selection_never_ends (demo_config "1") demo_env (λ _ _, 7%Z)
    (λ _ _ _, demo_links) (λ _, None) "/v1/containerstats/?plain" ∅ ["c1"; "c2"] 10);
    [vm_compute; reflexivity|reflexivity|reflexivity|reflexivity|reflexivity].
Defined.

Lemma pathParts_roundtrip_witness :
  pathParts "/v1/stats/c1/" = ["v1"; "stats"; "c1"] ∧ path_id "/v1/stats/c1/" = "c1".
Proof.
  apply (pathParts_roundtrip ["v1"; "stats"; "c1"] true);
    [discriminate|repeat constructor|intros w [= <-]; discriminate].
Defined.
