(* ===== verification/Main.v ===== *)
(** * [main.go]

    The start of the agent: configuration, event processing, the token for the
    proxy with its bounded retries, the table of handlers by path, and the
    connection.  [started] is where [main] ends up. *)

From Stdlib Require Import ZArith.
From S2P Require Import Prelude GoStd Json JsonDecode Config Wire.

(** ** The connection token *)

Record HostApiProxyToken := mkToken { Url : string; TokenText : string }.

(** The fields of a [ParsedError]. *)
Record ParsedError := mkParsedError { Code : string; FieldName : string }.

Definition parsed_error_at (js : place) : result ParsedError :=
  l ← object_at js;
  code ← string_at (field "code" l);
  fieldName ← string_at (field "fieldname" l);
  Ok (mkParsedError code fieldName).

(** [json.Unmarshal] into a pointer: the text [null] makes it nil. *)
Definition unmarshal_error (body : string) : result (option ParsedError) :=
  j ← parse body;
  match j with JNull => Ok None | _ => Some <$> parsed_error_at [j] end.

Example unmarshal_error_ex :
  unmarshal_error ("{" +:+ q +:+ "code" +:+ q +:+ ":" +:+ q +:+ "InvalidReference" +:+ q +:+ "," +:+
    q +:+ "fieldName" +:+ q +:+ ":" +:+ q +:+ "reportedUuid" +:+ q +:+ "," +:+ q +:+ "status" +:+ q +:+ ":422}")
  = Ok (Some (mkParsedError "InvalidReference" "reportedUuid")) ∧
  unmarshal_error "null" = Ok None ∧ unmarshal_error "<html>" = Err SyntaxError.
Proof. vm_compute. done. Qed.

Definition maxWaitOnHostTries : nat := 20.

Section token.
(** [Create] is asked for the [try]-th time: go-rancher returns a response
    whatever the error. *)
Context (Create : nat → HostApiProxyToken * option error).

(** What an answer means: ask again, or return. *)
Inductive verdict :=
| Retry
| Return (token : option HostApiProxyToken) (err : option error).

Definition judge (answer : HostApiProxyToken * option error) : outcome verdict :=
  let '(tokenResponse, err) := answer in
  match err with
  | None => Val (Return (Some tokenResponse) None)
  | Some (ApiError status body) =>
      if (status =? 422)%Z then
        match unmarshal_error body with
        | Err uErr => Val (Return None (Some uErr))
        | Ok None => Panics NilDereference
        | Ok (Some parsed) =>
            if EqualFold (Code parsed) "InvalidReference" && EqualFold (FieldName parsed) "reportedUuid"
            then Val Retry
            else Val (Return None err)
        end
      else if (status =? 501)%Z then Val (Return None None)
      else Val (Return None err)
  | Some _ => Val (Return (Some tokenResponse) None)
  end.

(** [getConnectionToken], by the tries that are left; the result comes with the
    number of requests made. *)
Fixpoint attempts (tries : nat) : outcome (option HostApiProxyToken * option error * nat) :=
  match tries with
  | 0 => Val (None, Some (OtherError "Reached max retry attempts for getting token."), 0)
  | S tries =>
      v ← judge (Create (maxWaitOnHostTries - S tries));
      match v with
      | Return token err => Val (token, err, 1)
      | Retry => r ← attempts tries; let '(token, err, n) := r in Val (token, err, S n)
      end
  end.

Definition getConnectionToken (try : nat) : outcome (option HostApiProxyToken * option error * nat) :=
  attempts (maxWaitOnHostTries - try).
End token.

(** ** The handlers *)

Inductive handler_kind :=
| LogsHandler | StatsHandler | HostStatsHandler | ContainerStatsHandler
| ExecHandler | ConsoleHandler | DockerSocketHandler | ContainerProxyHandler.

#[export] Instance handler_kind_eq_decision : EqDecision handler_kind.
Proof. solve_decision. Defined.

Definition handlers : list (string * handler_kind) := [
  ("/v1/logs/", LogsHandler);
  ("/v2-beta/logs/", LogsHandler);
  ("/v1/stats/", StatsHandler);
  ("/v2-beta/stats/", StatsHandler);
  ("/v1/hoststats/", HostStatsHandler);
  ("/v2-beta/hoststats/", HostStatsHandler);
  ("/v1/containerstats/", ContainerStatsHandler);
  ("/v2-beta/containerstats/", ContainerStatsHandler);
  ("/v1/exec/", ExecHandler);
  ("/v2-beta/exec/", ExecHandler);
  ("/v1/console/", ConsoleHandler);
  ("/v2-beta/console/", ConsoleHandler);
  ("/v1/dockersocket/", DockerSocketHandler);
  ("/v2-beta/dockersocket/", DockerSocketHandler);
  ("/v1/container-proxy/", ContainerProxyHandler);
  ("/v2-beta/container-proxy/", ContainerProxyHandler)
].

(** ** [main] *)

Inductive started :=
| Exits (err : error)                  (* logrus.Fatal *)
| Blocks                               (* the proxy is switched off *)
| Connects (proxyURL : string) (table : list (string * handler_kind)).

Section main.
Context {K R P : Type} (parsed : outcome (result (config K))).
Context (WriteFile OpenFile : string → option error).
Context (Process : config K → outcome (option error * option P)).
Context (GetRancherClient : config K → result (option R)).
Context (Create : R → nat → HostApiProxyToken * option error).

Definition pid_step (c : config K) : option error :=
  if String.eqb (PidFile c) "" then None else WriteFile (PidFile c).

Definition log_step (c : config K) : option error :=
  if String.eqb (LogFile c) "" then None else OpenFile (LogFile c).

(** The request goes through the client, which is nil when none is configured. *)
Definition token_step (client : option R) : outcome (option HostApiProxyToken * option error * nat) :=
  match client with
  | None => Panics NilDereference
  | Some client => getConnectionToken (Create client) 0
  end.

Definition main : outcome started :=
  p ← parsed;
  match p with
  | Err err => Val (Exits err)
  | Ok c =>
      match pid_step c, log_step c with
      | Some err, _ | None, Some err => Val (Exits err)
      | None, None =>
          e ← Process c;
          match e.1 with
          | Some err => Val (Exits err)
          | None =>
              match GetRancherClient c with
              | Err err => Val (Exits err)
              | Ok rancherClient =>
                  t ← token_step rancherClient;
                  match t with
                  | (_, Some err, _) => Val (Exits err)
                  | (None, None, _) => Val Blocks
                  | (Some token, None, _) =>
                      Val (Connects (Url token +:+ "?token=" +:+ TokenText token) handlers)
                  end
              end
          end
      end
  end.
End main.

(** ** Lemmas on routing *)

(** The path falls under the key. *)
Definition under (path key : string) : bool := HasPrefix (TrimSuffix path "/") (TrimSuffix key "/").

Lemma HasPrefix_comparable s a b :
  HasPrefix s a = true → HasPrefix s b = true → HasPrefix a b = true ∨ HasPrefix b a = true.
Proof.
  rewrite !HasPrefix_spec. revert s b. induction a as [|x a IH]; intros s b [t Ht] [u Hu].
  - right. by exists b.
  - destruct b as [|y b]; [left; by exists (String x a)|]. rewrite Ht, !cons_app_str in Hu.
    injection Hu as <- Hu. destruct (IH (a +:+ t) b) as [[v ->]|[v ->]];
      [by exists t|by exists u|left; exists v; by rewrite cons_app_str|right; exists v; by rewrite cons_app_str].
Qed.

Definition separate {H} (table : list (string * H)) : bool :=
  forallb (λ p, forallb (λ q, String.eqb p.1 q.1 || negb (HasPrefix (TrimSuffix p.1 "/") (TrimSuffix q.1 "/")))
    table) table.

(** In a table whose keys are distinct and not prefixes of each other, a path
    falls under one key at most. *)
Lemma under_unique {H} (table : list (string * H)) path p q :
  separate table = true → NoDup table.*1 → p ∈ table → q ∈ table →
  under path p.1 = true → under path q.1 = true → p = q.
Proof.
  intros Hs Hnd Hp Hq Up Uq. unfold separate in Hs.
  assert (∀ a b, a ∈ table → b ∈ table → HasPrefix (TrimSuffix a.1 "/") (TrimSuffix b.1 "/") = true → a.1 = b.1) as Hk.
  { intros a b Ha Hb Hpre. rewrite forallb_forall in Hs. apply list_elem_of_In in Ha, Hb.
    specialize (Hs _ Ha). rewrite forallb_forall in Hs. specialize (Hs _ Hb).
    rewrite Hpre, orb_false_r in Hs. by apply String.eqb_eq in Hs. }
  assert (p.1 = q.1) as Hpq.
  { destruct (HasPrefix_comparable _ _ _ Up Uq); [by apply Hk|symmetry; by apply Hk]. }
  apply list_elem_of_lookup in Hp as [i Hi], Hq as [j Hj].
  assert (i = j) as ->; [|congruence].
  eapply NoDup_lookup; [exact Hnd|by rewrite list_lookup_fmap, Hi|by rewrite list_lookup_fmap, Hj, Hpq].
Qed.

(** What [getHandler] finds in such a table, in whatever order it is walked. *)
Lemma getHandler_spec {H} (table : list (string * H)) path h :
  separate table = true → NoDup table.*1 →
  getHandler path table = Some h ↔ ∃ k, (k, h) ∈ table ∧ under path k = true.
Proof.
  intros Hs Hnd. unfold getHandler.
  destruct (list_to_map (M := gmap string H) table !! path) as [h'|] eqn:E.
  - apply elem_of_list_to_map in E; [|done].
    assert (under path path = true) as Hself by (apply HasPrefix_spec; exists ""; by rewrite app_nil_r_str).
    split.
    + intros [= <-]. by exists path.
    + intros (k&Hk&Hu). f_equal.
      assert ((k, h) = (path, h')) as [= _ ->]; [|done].
      by eapply (under_unique table path (k, h) (path, h')).
  - assert (∀ r, list_find (λ kh, HasPrefix (TrimSuffix path "/") (TrimSuffix kh.1 "/") = true) table = r →
      snd <$> (r ≫= λ p, Some p.2) = Some h ↔ ∃ k, (k, h) ∈ table ∧ under path k = true) as Hf; [|by apply Hf].
    intros [[i [k h']]|] Hr; simpl.
    + apply list_find_Some in Hr as (Hi&Hu&_). apply list_elem_of_lookup_2 in Hi. split.
      * intros [= <-]. by exists k.
      * intros (k'&Hk'&Hu'). f_equal.
        assert ((k, h') = (k', h)) as [= _ ->]; [|done]. by eapply (under_unique table path).
    + split; [done|]. intros (k&Hk&Hu). apply list_find_None in Hr.
      rewrite Forall_forall in Hr. by destruct (Hr _ Hk).
Qed.

(** ** Lemmas on the token *)

(** What the answers mean, apart from the code: the host is unknown yet when the
    body of a failure with the status 422 names its uuid. *)
Definition names_unknown_host (parsed : ParsedError) : Prop :=
  EqualFold (Code parsed) "InvalidReference" = true ∧ EqualFold (FieldName parsed) "reportedUuid" = true.

Definition unknown_yet (answer : HostApiProxyToken * option error) : Prop :=
  ∃ body parsed, answer.2 = Some (ApiError 422 body) ∧ unmarshal_error body = Ok (Some parsed) ∧
    names_unknown_host parsed.

Lemma judge_retry answer :
  judge answer = Val Retry ↔ unknown_yet answer.
Proof.
  destruct answer as [t err]. unfold unknown_yet, names_unknown_host. simpl. split.
  - intros Hj. repeat case_match; simplify_eq.
    match goal with H : _ && _ = true |- _ => apply andb_true_iff in H as [??] end.
    match goal with H : (_ =? 422)%Z = true |- _ => apply Z.eqb_eq in H; subst end. naive_solver.
  - intros (body&parsed&->&Hu&Hc&Hf). simpl. by rewrite Hu, Hc, Hf.
Qed.

Lemma judge_other t err :
  (∀ status body, err ≠ Some (ApiError status body)) →
  judge (t, err) = Val (Return (Some t) None).
Proof. intros Hne. destruct err as [[]|]; try done. exfalso. by eapply Hne. Qed.

Lemma attempts_spec Create n token err :
  n < maxWaitOnHostTries → ∀ k, k ≤ n → (∀ i, k ≤ i < n → judge (Create i) = Val Retry) →
  judge (Create n) = Val (Return token err) →
  attempts Create (maxWaitOnHostTries - k) = Val (token, err, S (n - k)).
Proof.
  intros Hn k Hk. remember (n - k) as d eqn:Hd. revert k Hk Hd.
  induction d as [|d IH]; intros k Hk Hd Hretry Hret.
  - assert (k = n) as -> by lia.
    replace (maxWaitOnHostTries - n) with (S (maxWaitOnHostTries - S n)) by (unfold maxWaitOnHostTries in *; lia).
    cbn [attempts]. replace (maxWaitOnHostTries - S (maxWaitOnHostTries - S n)) with n by (unfold maxWaitOnHostTries in *; lia).
    by rewrite Hret.
  - replace (maxWaitOnHostTries - k) with (S (maxWaitOnHostTries - S k)) by (unfold maxWaitOnHostTries in *; lia).
    cbn [attempts]. replace (maxWaitOnHostTries - S (maxWaitOnHostTries - S k)) with k by (unfold maxWaitOnHostTries in *; lia).
    rewrite Hretry by lia. cbn [mbind outcome_bind].
    rewrite (IH (S k)); [done|lia|lia| |done]. intros i Hi. apply Hretry. lia.
Qed.

Lemma attempts_exhausted Create m :
  m ≤ maxWaitOnHostTries →
  (∀ i, maxWaitOnHostTries - m ≤ i < maxWaitOnHostTries → judge (Create i) = Val Retry) →
  attempts Create m =
    Val (None, Some (OtherError "Reached max retry attempts for getting token."), m).
Proof.
  induction m as [|m IH]; intros Hm Hr; [done|]. cbn [attempts].
  rewrite Hr by lia. cbn [mbind outcome_bind]. rewrite IH; [done|lia|]. intros i Hi. apply Hr. lia.
Qed.

Lemma attempts_bound Create m token err n :
  attempts Create m = Val (token, err, n) → n ≤ m.
Proof.
  revert token err n. induction m as [|m IH]; intros token err n Ha; cbn [attempts] in Ha.
  { injection Ha as _ _ <-. lia. }
  apply outcome_bind_val in Ha as ([|t e]&_&Ha); [|injection Ha as _ _ <-; lia].
  apply outcome_bind_val in Ha as ([[t e] k]&Hr&[= _ _ <-]). apply IH in Hr. lia.
Qed.

(** ** Lemmas on the start *)

Lemma main_connects {K R P} WriteFile OpenFile (Process : config K → outcome (option error * option P))
    (GetRancherClient : config K → result (option R)) Create c url table :
  main (Val (Ok c)) WriteFile OpenFile Process GetRancherClient Create = Val (Connects url table) ↔
  ∃ p r token n, pid_step WriteFile c = None ∧ log_step OpenFile c = None ∧ Process c = Val (None, p) ∧
    GetRancherClient c = Ok (Some r) ∧ getConnectionToken (Create r) 0 = Val (Some token, None, n) ∧
    url = Url token +:+ "?token=" +:+ TokenText token ∧ table = handlers.
Proof.
  unfold main. simpl.
  destruct (pid_step WriteFile c) eqn:Ep; [split; [done|intros (?&?&?&?&?&?&?&?&?&_); congruence]|].
  destruct (log_step OpenFile c) eqn:El; [split; [done|intros (?&?&?&?&?&?&?&?&?&_); congruence]|].
  destruct (Process c) as [[[e|] p]|pn] eqn:Epr; simpl; [split; [done|intros (?&?&?&?&?&?&?&?&?&_); congruence]| |split; [done|intros (?&?&?&?&?&?&?&?&?&_); congruence]].
  destruct (GetRancherClient c) as [[r|]|e] eqn:Er; simpl;
    [|split; [done|intros (?&?&?&?&?&?&?&?&?&_); congruence]|split; [done|intros (?&?&?&?&?&?&?&?&?&_); congruence]].
  destruct (getConnectionToken (Create r) 0) as [[[[tok|] [e|]] n]|pn] eqn:Et; simpl;
    try (split; [done|intros (?&?&?&?&?&?&?&?&?&_); congruence]).
  split; [intros [= <- <-]; by exists p, r, tok, n|].
  intros (p'&r'&tok'&n'&_&_&_&[= <-]&Ht&->&->). congruence.
Qed.

(** ** Properties *)

(** C22: the token is asked for again as long as the answer is that the host is
    unknown yet, at most twenty times.  The first other answer decides: a
    failure of the API is the error (with the status 501 no token and no
    error), a body that cannot be read is its own error, and any other failure
    counts as a success.  When there is no other answer the error says so. *)
Theorem getConnectionToken_correct Create :
  (∀ n t err, n < maxWaitOnHostTries → (∀ i, i < n → unknown_yet (Create i)) →
     Create n = (t, err) →
     ((∀ status body, err ≠ Some (ApiError status body)) →
        getConnectionToken Create 0 = Val (Some t, None, S n)) ∧
     (∀ body, err = Some (ApiError 501 body) →
        getConnectionToken Create 0 = Val (None, None, S n)) ∧
     (∀ status body, err = Some (ApiError status body) → status ≠ 422%Z → status ≠ 501%Z →
        getConnectionToken Create 0 = Val (None, err, S n)) ∧
     (∀ body uErr, err = Some (ApiError 422 body) → unmarshal_error body = Err uErr →
        getConnectionToken Create 0 = Val (None, Some uErr, S n)) ∧
     (∀ body parsed, err = Some (ApiError 422 body) → unmarshal_error body = Ok (Some parsed) →
        ¬ names_unknown_host parsed →
        getConnectionToken Create 0 = Val (None, err, S n))) ∧
  ((∀ i, i < maxWaitOnHostTries → unknown_yet (Create i)) →
     getConnectionToken Create 0 =
       Val (None, Some (OtherError "Reached max retry attempts for getting token."), maxWaitOnHostTries)) ∧
  (∀ try token err n, getConnectionToken Create try = Val (token, err, n) →
     n ≤ maxWaitOnHostTries - try).
Proof.
  split_and!.
  - intros n t err Hn Hr Hc.
    assert (∀ tk e, judge (t, err) = Val (Return tk e) →
      getConnectionToken Create 0 = Val (tk, e, S n)) as Hj.
    { intros tk e He. unfold getConnectionToken.
      rewrite (attempts_spec Create n tk e Hn); [by rewrite Nat.sub_0_r|lia| |by rewrite Hc].
      intros i Hi. apply judge_retry, Hr. lia. }
    split_and!.
    + intros He. apply Hj, judge_other, He.
    + intros body ->. by apply Hj.
    + intros status body -> H4 H5. apply Hj. simpl. by rewrite (proj2 (Z.eqb_neq _ _) H4), (proj2 (Z.eqb_neq _ _) H5).
    + intros body uErr -> Hu. apply Hj. simpl. by rewrite Hu.
    + intros body parsed -> Hu Hp. apply Hj. simpl. rewrite Hu. unfold names_unknown_host in Hp.
      by destruct (EqualFold _ _), (EqualFold _ _); simpl in *; try (destruct Hp; split; reflexivity).
  - intros Hr. unfold getConnectionToken. apply attempts_exhausted; [lia|]. intros i Hi. apply judge_retry, Hr. lia.
  - intros try token err n. apply attempts_bound.
Qed.

(** C25: a path reaches the handler whose key it falls under, whatever the
    order in which the map of handlers is walked: no key is a prefix of
    another. *)
Theorem routing_deterministic table path h :
  table ≡ₚ handlers →
  getHandler path table = Some h ↔ ∃ k, (k, h) ∈ handlers ∧ under path k = true.
Proof.
  intros Hp. assert (NoDup handlers.*1) as Hnd by (apply (bool_decide_unpack _); vm_compute; exact I).
  assert (separate handlers = true) as Hs by (vm_compute; reflexivity).
  rewrite getHandler_spec.
  - by setoid_rewrite Hp.
  - apply forallb_forall. intros p Hin. apply forallb_forall. intros q Hiq.
    apply list_elem_of_In in Hin, Hiq. rewrite Hp in Hin, Hiq. apply list_elem_of_In in Hin, Hiq.
    unfold separate in Hs. rewrite forallb_forall in Hs. specialize (Hs _ Hin).
    rewrite forallb_forall in Hs. by apply Hs.
  - by rewrite Hp.
Qed.

(** [main] connects exactly when every step before it succeeds, with
    the url and the token it was given and the table of handlers; without the
    settings of a Rancher server it panics on the nil client; and a request
    for the token that fails below the API is taken for a success. *)
Theorem main_correct {K R P} parsed WriteFile OpenFile (Process : config K → outcome (option error * option P))
    (GetRancherClient : config K → result (option R)) Create c :
  parsed = Val (Ok c) →
  (∀ url table, main parsed WriteFile OpenFile Process GetRancherClient Create = Val (Connects url table) ↔
     ∃ p r token n, pid_step WriteFile c = None ∧ log_step OpenFile c = None ∧ Process c = Val (None, p) ∧
       GetRancherClient c = Ok (Some r) ∧ getConnectionToken (Create r) 0 = Val (Some token, None, n) ∧
       url = Url token +:+ "?token=" +:+ TokenText token ∧ table = handlers) ∧
  (∀ p, pid_step WriteFile c = None → log_step OpenFile c = None → Process c = Val (None, p) →
     GetRancherClient c = Ok None →
     main parsed WriteFile OpenFile Process GetRancherClient Create = Panics NilDereference) ∧
  (∀ p r msg, pid_step WriteFile c = None → log_step OpenFile c = None → Process c = Val (None, p) →
     GetRancherClient c = Ok (Some r) → Create r 0 = (mkToken "" "", Some (OtherError msg)) →
     main parsed WriteFile OpenFile Process GetRancherClient Create = Val (Connects "?token=" handlers)).
Proof.
  intros ->. split_and!; [apply main_connects|unfold main; simpl..].
  - intros p -> -> -> ->. done.
  - intros p r msg -> -> -> -> Hc. simpl. unfold getConnectionToken. cbn [attempts Nat.sub maxWaitOnHostTries].
    change (maxWaitOnHostTries - 0) with 20. cbn [attempts].
    change (maxWaitOnHostTries - 20) with 0. by rewrite Hc.
Qed.

(** ** Witnesses *)

Lemma routing_deterministic_witness :
  getHandler "/v1/containerstats/c1" (rev handlers) = Some ContainerStatsHandler ↔
    ∃ k, (k, ContainerStatsHandler) ∈ handlers ∧ under "/v1/containerstats/c1" k = true.
Proof. apply (routing_deterministic (rev handlers)). symmetry. apply Permutation_rev. Defined.

Definition demo_config : config unit := config_of registry None false.

Lemma main_correct_witness :
  main (Val (Ok demo_config)) (λ _, None) (λ _, None) (λ _, Val (None, Some ())) (λ _, Ok (Some ()))
    (λ _ _, (mkToken "" "", Some (OtherError "connection refused")))
  = Val (Connects "?token=" handlers).
Proof.
  apply (proj2 (proj2 (main_correct (Val (Ok demo_config)) (λ _, None) (λ _, None)
    (λ _, Val (None, Some ())) (λ _, Ok (Some ()))
    (λ _ _, (mkToken "" "", Some (OtherError "connection refused"))) demo_config eq_refl))
    (Some ()) () "connection refused"); reflexivity.
Defined.
