(* ===== verification/Agent.v ===== *)
(** * The start of the agent, its parts together

    [main] over the configuration, the event processor and the client of the
    Rancher server the program itself makes: [Config.Parse], the
    [NewDockerEventsProcessor] of [EventsProcessor] and [GetRancherClient].  What
    stays a parameter is the outside: files, the docker daemon, the server.

    [main] calls [Process] and goes on when that returns; the loop at the end of
    [Process] may have to wait, or wait for ever, for the event router.  So the
    start is a machine, [start_machine]: the loop of [Process] beside the router,
    and then what [main] comes to ([agent_result]). *)

From Stdlib Require Import ZArith.
From S2P Require Import Prelude GoStd Config Wire DockerClient EventRouter SendToRancher EventsProcessor Main.

Section agent.
Context {K D R : Type}.
Context (ReadFile : string → result bytes) (pem_Decode : bytes → option bytes)
  (ParsePKIXPublicKey : bytes → result K) (Stat : string → result bool)
  (ini_Load : string → result (gmap string string)).
Context (WriteFile OpenFile : string → option error).
Context (new_client : client_config → result D) (AddEventListener : D → option error)
  (ListContainers : D → result (list string)).
Context (NewRancherClient : string → string → string → result R)
  (Create : R → nat → HostApiProxyToken * option error).

(** [config.Parse] and [processor.Process()] as [main] calls them. *)
Definition configured (cmdline : gmap string string) (env : environment) : outcome (result (config K)) :=
  Config.Parse ReadFile pem_Decode ParsePKIXPublicKey Stat ini_Load cmdline (Getenv env).

Definition events_of (env : environment) (c : config K) :
    outcome (option error * option (processing sender)) :=
  Process AddEventListener ListContainers (NewDockerEventsProcessor new_client NewRancherClient env c).

(** What [main] comes to when [Process] has returned [v]. *)
Definition main_after (cmdline : gmap string string) (env : environment)
    (v : outcome (option error * option (processing sender))) : outcome started :=
  main (configured cmdline env) WriteFile OpenFile (λ _, v) (GetRancherClient NewRancherClient) Create.

(** [main], up to the loop of [Process] or to its end before it, and beside that
    loop. *)
Inductive agent_state :=
| Over (r : outcome started)
| Processing (p : processing sender) (x : process_state (H := sender)).

Definition agent (cmdline : gmap string string) (env : environment) : agent_state :=
  match configured cmdline env with
  | Val (Ok c) =>
      match pid_step WriteFile c, log_step OpenFile c with
      | None, None =>
          match events_of env c with
          | Val (None, Some p) => Processing p (process_start p)
          | v => Over (main_after cmdline env v)
          end
      | _, _ => Over (main_after cmdline env (Val (None, None)))
      end
  | _ => Over (main_after cmdline env (Val (None, None)))
  end.

#[export] Instance start_machine : Machine agent_state process_label := λ l s,
  match s with
  | Over _ => None
  | Processing p x => x ← process_machine p l x; Some (Processing p x)
  end.

(** What [main] has come to: nothing yet while [Process] sends. *)
Definition agent_result (cmdline : gmap string string) (env : environment) (s : agent_state) : option (outcome started) :=
  match s with
  | Over r => Some r
  | Processing _ (Sending _ _) => None
  | Processing p (Processed _) => Some (main_after cmdline env (Val (None, Some p)))
  | Processing _ (SendPanicked _) => Some (Panics SendOnClosed)
  end.

(** The docker client has not closed the listener. *)
Definition listener_open (s : agent_state) : Prop :=
  match s with Over _ => True | Processing _ x => lclosed (router_in x) = false end.

Definition steps_left (s : agent_state) : nat :=
  match s with Over _ => 0 | Processing p x => process_left p x end.

(** ** Lemmas *)

Lemma events_of_negative env c d r :
  new_client (NewDockerClient env) = Ok d → GetRancherClient NewRancherClient c = Ok r →
  (EventsPoolSize c < 0)%Z → events_of env c = Panics NegativeMakeSize.
Proof.
  intros Hd Hr Hneg. unfold events_of, Process, NewDockerEventsProcessor. simpl.
  rewrite Hd, Hr. unfold new_router. by rewrite (proj2 (Z.ltb_lt _ _) Hneg).
Qed.

(** What event processing runs, when it starts without an error. *)
Lemma events_of_started env c p :
  events_of env c = Val (None, p) ↔
  ∃ d r ids, new_client (NewDockerClient env) = Ok d ∧ GetRancherClient NewRancherClient c = Ok r ∧
    (0 ≤ EventsPoolSize c)%Z ∧ ListContainers d = Ok ids ∧
    p = Some (mkProcessing (Z.to_nat (EventsPoolSize c)) (getHandlersFn r (HostUuid c))
                (bool_decide (AddEventListener d = None)) (simulated_start <$> ids)).
Proof.
  set (de := NewDockerEventsProcessor new_client NewRancherClient env c).
  destruct (Z.ltb_spec (EventsPoolSize c) 0) as [Hneg|Hpos].
  - split; [|by intros (?&?&?&_&_&?&_); lia]. intros H. exfalso.
    destruct (new_client (NewDockerClient env)) as [d|] eqn:Ed;
      [|unfold events_of, Process in H; simpl in H; by rewrite Ed in H].
    destruct (GetRancherClient NewRancherClient c) as [r|] eqn:Er;
      [|unfold events_of, Process in H; simpl in H; by rewrite Ed, Er in H].
    by rewrite (events_of_negative env c d r) in H.
  - destruct (Process_spec de AddEventListener ListContainers Hpos) as (Hp&Hn&_). split.
    + intros H. destruct p as [p|]; [|by destruct Hn]. apply Hp in H as (d&r&hs&ids&Hd&Hr&[= <-]&Hl&->).
      by exists d, r, ids.
    + intros (d&r&ids&Hd&Hr&_&Hl&->). apply Hp. exists d, r, (getHandlersFn r (HostUuid c)), ids. done.
Qed.

(** A run of the start is one of [Process] and the router. *)
Lemma start_runs p x ls s :
  mstar (Processing p x) ls s ↔ ∃ x', s = Processing p x' ∧ mstar (Machine0 := process_machine p) x ls x'.
Proof.
  split.
  - revert x. induction ls as [|l ls IH]; intros x Hr; inversion Hr; subst; [eexists; split; [done|constructor]|].
    match goal with H : mstep l _ = Some _ |- _ => unfold mstep, start_machine in H; rename H into Hs end.
    destruct (process_machine p l x) as [x1|] eqn:E; [|done]. injection Hs as <-.
    destruct (IH x1) as (x'&->&Hx'); [done|]. exists x'. split; [done|]. by econstructor.
  - intros (x'&->&Hr). induction Hr as [x|x l x1 ls x' Hs _ IH]; [constructor|]. econstructor; [|exact IH].
    unfold mstep, start_machine in *. by rewrite Hs.
Qed.

Lemma agent_processing cmdline env c p :
  configured cmdline env = Val (Ok c) → pid_step WriteFile c = None → log_step OpenFile c = None →
  events_of env c = Val (None, Some p) → agent cmdline env = Processing p (process_start p).
Proof. intros Hc Hp Hl He. unfold agent. by rewrite Hc, Hp, Hl, He. Qed.

(** What [main] comes to after [Process], by the client of the server. *)
Lemma main_after_processed cmdline env c r p :
  configured cmdline env = Val (Ok c) → pid_step WriteFile c = None → log_step OpenFile c = None →
  GetRancherClient NewRancherClient c = Ok r →
  match r with
  | None => main_after cmdline env (Val (None, Some p)) = Panics NilDereference
  | Some r => ∀ token n, getConnectionToken (Create r) 0 = Val (Some token, None, n) →
      main_after cmdline env (Val (None, Some p)) =
        Val (Connects (Url token +:+ "?token=" +:+ TokenText token) handlers)
  end.
Proof.
  intros Hc Hp Hl Hr. unfold main_after. rewrite Hc. destruct r as [r|].
  - intros token n Ht. apply main_connects. by exists (Some p), r, token, n.
  - unfold main. simpl. by rewrite Hp, Hl, Hr.
Qed.

(** A start that connects came through the loop of [Process]. *)
Lemma connects_processed cmdline env c s url table :
  configured cmdline env = Val (Ok c) → pid_step WriteFile c = None → log_step OpenFile c = None →
  reachable (agent cmdline env) s → agent_result cmdline env s = Some (Val (Connects url table)) →
  ∃ p st, events_of env c = Val (None, Some p) ∧ s = Processing p (Processed st) ∧
    reachable (Machine0 := process_machine p) (process_start p) (Processed st) ∧
    main_after cmdline env (Val (None, Some p)) = Val (Connects url table).
Proof.
  intros Hc Hp Hl [ls Hr] Hres. unfold agent in Hr. rewrite Hc, Hp, Hl in Hr.
  assert (∀ v, mstar (Over (main_after cmdline env v)) ls s → v = events_of env c →
    (∀ p, v ≠ Val (None, Some p)) → False) as Hno.
  { intros v Hr' Hv Hn. assert (s = Over (main_after cmdline env v)) as -> by (by inversion Hr'). simpl in Hres.
    injection Hres as Hres. unfold main_after in Hres. rewrite Hc in Hres.
    apply main_connects in Hres as (p&?&?&?&_&_&He&_). destruct p as [p|]; [by destruct (Hn p)|].
    rewrite Hv in He. apply events_of_started in He as (?&?&?&_&_&_&_&?). done. }
  destruct (events_of env c) as [[[e|] [p|]]|pn] eqn:He; try (by destruct (Hno _ Hr)).
  apply start_runs in Hr as (x&->&Hx). destruct x as [st es|st|st]; try done. injection Hres as Hres.
  exists p, st. split_and!; try done. by exists ls.
Qed.

(** ** Property *)

End agent.

(** ** Witness *)

Section demo.
Definition demo_vars : environment :=
  <["HOST_API_CATTLE_URL" := "http://server"]> (<["HOST_API_CATTLE_ACCESS_KEY" := "a"]>
    (<["HOST_API_CATTLE_SECRET_KEY" := "s"]> {[ "HOST_API_HOST_UUID" := "h1" ]})).

Definition demo_cmdline : gmap string string := {[ "events-pool-size" := "1" ]}.

Definition demo_configured : config unit :=
  match configured (K := unit) (λ _, Err EOF) (λ _, None) (λ _, Err EOF) (λ _, Err EOF) (λ _, Err EOF)
          demo_cmdline demo_vars with
  | Val (Ok c) => c
  | _ => demo_config
  end.

Lemma demo_configured_ok :
  configured (K := unit) (λ _, Err EOF) (λ _, None) (λ _, Err EOF) (λ _, Err EOF) (λ _, Err EOF)
    demo_cmdline demo_vars = Val (Ok demo_configured).
Proof. vm_compute. reflexivity. Qed.

Definition demo_agent : agent_state :=
  agent (K := unit) (λ _, Err EOF) (λ _, None) (λ _, Err EOF) (λ _, Err EOF) (λ _, Err EOF) (λ _, None) (λ _, None)
    (λ _, Ok ()) (λ _, None) (λ _, Ok ["c1"; "c2"]) (λ _ _ _, Ok ()) (λ _ _, (mkToken "ws://server/v1" "t", None))
    demo_cmdline demo_vars.

(** Two containers and one worker: the second send waits for the router. *)
Definition demo_start : list process_label :=
  [PSend; PRouter Recv; PRouter Dispatch; PSend; PReturn; PRouter (Handled 0 None); PRouter (WorkDone 0);
   PRouter Recv; PRouter TimerFires; PRouter Dispatch; PRouter (Handled 0 None); PRouter (WorkDone 0)].

Definition demo_started : agent_state := default demo_agent (mrun demo_start demo_agent).

End demo.
