(* ===== verification/System.v ===== *)
(** * The loop and its handlers together

    [Backend] runs the loop between proxy and handlers with handlers that send
    whatever they like; a handler's own machine takes whatever it is given.
    Here they run together: each session of the loop has the state of its
    handler, what the handler receives is taken from the session's channel, and
    what it sends goes, in the order it sends it, into the shared channel of
    responses.  A handler may run ahead of that channel: [procs] counts how many
    of its messages the channel has taken.

    The handlers are an interface, [Handlers] with its laws, which
    [AgentSystem] implements with the machines of the agent's handlers.
    [system_isolates] is what the composition gives: a handler sees only its
    own session's bodies, and the proxy only that handler's under its key. *)

From Stdlib Require Import ZArith.
From S2P Require Import Prelude GoStd Jwt Handshake Wire Backend.

(** ** Handlers *)

(** What a step does with the incoming channel. *)
Inductive intake := Silent | Gets (body : string) | SeesClosed.

#[export] Instance intake_eq_decision : EqDecision intake.
Proof. solve_decision. Defined.

Definition got (i : intake) : list string := match i with Gets body => [body] | _ => [] end.

(** The messages a handler may send. *)
Definition sendable (key : string) (m : Message) : Prop :=
  m = SignalHandlerClosed key ∨ ∃ b, m = body_message key b.

(** Handlers of kind [H], started with a key and an initial message. *)
Class Handlers (H S L : Type) := {
  hinit : H → string → string → S;
  hstep : H → string → string → L → S → option S;
  hintake : L → intake;
  hreceived : S → list string;
  hresponses : S → list Message;
  hended : S → bool;              (* it has seen its channel closed *)
  hcrash : S → option panic
}.

Class HandlerLaws (H S L : Type) `{!Handlers H S L} := {
  hinit_silent h key m :
    hreceived (hinit h key m) = [] ∧ hresponses (hinit h key m) = [] ∧ hended (hinit h key m) = false;
  hstep_received h key m l s s' :
    hstep h key m l s = Some s' → hreceived s' = hreceived s ++ got (hintake l);
  hstep_responses h key m l s s' :
    hstep h key m l s = Some s' → ∃ new, hresponses s' = hresponses s ++ new ∧ Forall (sendable key) new;
  hstep_ended h key m l s s' :
    hstep h key m l s = Some s' → hended s' = true → hended s = true ∨ hintake l = SeesClosed
}.

(** ** Interleavings *)

Lemma interleave_nils ls out : interleave ls out → ∀ k, interleave (ls ++ replicate k []) out.
Proof.
  induction 1 as [ls Hn|ls1 m l ls2 out _ IH]; intros k.
  - constructor. apply Forall_app. split; [done|]. by apply Forall_replicate.
  - rewrite <- (assoc_L (++)). apply interleave_cons. specialize (IH k). by rewrite <- (assoc_L (++)) in IH.
Qed.

Lemma interleave_snoc ls out :
  interleave ls out → ∀ ls1 l ls2 m, ls = ls1 ++ l :: ls2 → interleave (ls1 ++ (l ++ [m]) :: ls2) (out ++ [m]).
Proof.
  induction 1 as [ls Hn|ks1 m' k ks2 out Hi IH]; intros ls1 l ls2 m Heq.
  - subst ls. apply Forall_app in Hn as [H1 [-> H2]%Forall_cons]. simpl. apply interleave_cons. constructor.
    apply Forall_app. split; [done|]. by constructor.
  - simpl. destruct (decide (length ks1 = length ls1)) as [Hl|Hl].
    + apply app_inj_1 in Heq as [-> [= <- <-]]; [|done]. simpl. apply interleave_cons. by apply IH.
    + assert (length ks1 < length ls1 ∨ length ls1 < length ks1) as [Hlt|Hlt] by lia.
      * assert (∃ r, ls1 = ks1 ++ (m' :: k) :: r ∧ ks2 = r ++ l :: ls2) as (r&->&->).
        { apply app_eq_inv in Heq as [(r&->&Hr)|(r&->&Hr)]; [rewrite length_app in Hlt; lia|].
          destruct r as [|x r]; [rewrite app_nil_r in Hlt; lia|]. injection Hr as <- ->. by exists r. }
        rewrite <- !(assoc_L (++)). simpl. apply interleave_cons.
        specialize (IH (ks1 ++ k :: r) l ls2 m). rewrite <- !(assoc_L (++)) in IH. by apply IH.
      * assert (∃ r, ks1 = ls1 ++ l :: r ∧ ls2 = r ++ (m' :: k) :: ks2) as (r&->&->).
        { apply app_eq_inv in Heq as [(r&->&Hr)|(r&->&Hr)]; [|rewrite length_app in Hlt; lia].
          destruct r as [|x r]; [rewrite app_nil_r in Hlt; lia|]. injection Hr as <- ->. by exists r. }
        specialize (IH ls1 l (r ++ k :: ks2) m). rewrite <- !(assoc_L (++)) in IH. simpl in IH.
        specialize (IH eq_refl).
        pose proof (interleave_cons (ls1 ++ (l ++ [m]) :: r) m' k ks2 (out ++ [m])) as Hc.
        rewrite <- !(assoc_L (++)) in Hc. simpl in Hc. by apply Hc.
Qed.

(** Of an interleaving, what only one stream carries is a part of that stream. *)
Lemma interleave_select (P : Message → Prop) `{!∀ m, Decision (P m)} ls out :
  interleave ls out → ∀ i l, ls !! i = Some l →
  (∀ j k, ls !! j = Some k → j ≠ i → Forall (λ m, ¬ P m) k) → filter P out = filter P l.
Proof.
  induction 1 as [ls Hn|ls1 m k ls2 out _ IH]; intros i l Hi Hj.
  - rewrite Forall_lookup in Hn. by rewrite (Hn _ _ Hi).
  - assert ((ls1 ++ (m :: k) :: ls2) !! length ls1 = Some (m :: k)) as Hm
      by (by rewrite lookup_app_r, Nat.sub_diag by lia).
    assert (∀ j x, (ls1 ++ k :: ls2) !! j = Some x →
      ∃ x', (ls1 ++ (m :: k) :: ls2) !! j = Some x' ∧ (j ≠ length ls1 → x' = x) ∧ (j = length ls1 → x = k)) as Hsame.
    { intros j x Hx. destruct (decide (j < length ls1)).
      - rewrite lookup_app_l in Hx by lia. exists x. rewrite lookup_app_l by lia. split_and!; [done|done|lia].
      - rewrite lookup_app_r in Hx by lia. rewrite lookup_app_r by lia. destruct (j - length ls1) as [|q] eqn:E.
        + exists (m :: k). split_and!; [done|lia|]. by injection Hx.
        + exists x. split_and!; [done|done|lia]. }
    destruct (decide (i = length ls1)) as [->|Hne].
    + rewrite Hm in Hi. injection Hi as <-.
      assert (filter P out = filter P k) as Hk.
      { apply (IH (length ls1)); [by rewrite lookup_app_r, Nat.sub_diag by lia|].
        intros j x Hx Hjn. destruct (Hsame j x Hx) as (x'&Hx'&He&_). rewrite <- (He Hjn). by apply (Hj j). }
      destruct (decide (P m)); [rewrite !filter_cons_True by done; by rewrite Hk|by rewrite !filter_cons_False].
    + assert (¬ P m) as Hnp.
      { specialize (Hj _ _ Hm (not_eq_sym Hne)). by apply Forall_cons in Hj as [? _]. }
      rewrite filter_cons_False by done. apply (IH i).
      * destruct (decide (i < length ls1)); [by rewrite lookup_app_l in * by lia|].
        rewrite lookup_app_r in * by lia. by destruct (i - length ls1) eqn:E; [lia|].
      * intros j x Hx Hjn. destruct (Hsame j x Hx) as (x'&Hx'&He&Hkx).
        destruct (decide (j = length ls1)) as [->|Hjl].
        -- rewrite (Hkx eq_refl). specialize (Hj _ _ Hm Hjn). by apply Forall_cons in Hj as [_ ?].
        -- rewrite <- (He Hjl). by apply (Hj j).
Qed.

(** ** The composition *)

Section system.
Context {H S L : Type} `{!URLParser} `{!Handlers H S L} (table : list (string * H)).

Record system := mkSystem { net : backend (H := H); procs : list (S * nat) }.

Definition system_start : system := mkSystem start [].

(** A step of the loop's goroutines, or of the handler of a session, or the
    passing of its next message to the channel of responses. *)
Inductive system_label :=
| Net (a : action)
| Run (i : nat) (l : L)
| Emit (i : nat).

Definition loop_action (a : action) : bool :=
  match a with Take _ | Send _ _ => false | _ => true end.

Definition launch (x : session (H := H)) : S * nat := (hinit (shandler x) (skey x) (initial x), 0).

(** A handler is launched for every session that is new. *)
Definition spawn (net' : backend (H := H)) (ps : list (S * nat)) : list (S * nat) :=
  ps ++ (launch <$> drop (length ps) (sessions net')).

(** A panic ends the process. *)
Definition halted (s : system) : bool :=
  bool_decide (is_Some (crash (net s))) || existsb (λ p, bool_decide (is_Some (hcrash p.1))) (procs s).

(** What a handler's step needs of its channel. *)
Definition receive_for (i : nat) (x : session (H := H)) (k : intake) (n : backend (H := H)) : option (backend (H := H)) :=
  match k with
  | Silent => Some n
  | Gets body => if bool_decide (head (buffer x) = Some body) then bstep table (Take i) n else None
  | SeesClosed => if closed x && bool_decide (buffer x = []) then Some n else None
  end.

Definition system_step (l : system_label) (s : system) : option system :=
  if halted s then None else
  match l with
  | Net a =>
      if loop_action a then net' ← bstep table a (net s); Some (mkSystem net' (spawn net' (procs s))) else None
  | Run i l =>
      p ← procs s !! i;
      x ← sessions (net s) !! i;
      h' ← hstep (shandler x) (skey x) (initial x) l p.1;
      net' ← receive_for i x (hintake l) (net s);
      Some (mkSystem net' (<[i := (h', p.2)]> (procs s)))
  | Emit i =>
      p ← procs s !! i;
      m ← hresponses p.1 !! p.2;
      net' ← bstep table (Send i m) (net s);
      Some (mkSystem net' (if bool_decide (crash net' = None) then <[i := (p.1, Datatypes.S p.2)]> (procs s) else procs s))
  end.

#[export] Instance system_machine : Machine system system_label := system_step.

(** The messages of a session the channel has taken. *)
Definition emitted (p : S * nat) : list Message := take p.2 (hresponses p.1).

(** ** What the steps do to the loop's state *)

(** What a session keeps when no handler receives. *)
Definition same_session (x x' : session (H := H)) : Prop :=
  skey x' = skey x ∧ shandler x' = shandler x ∧ initial x' = initial x ∧ taken x' = taken x.

Definition grows (n n' : backend (H := H)) : Prop :=
  (∀ i x, sessions n !! i = Some x → ∃ x', sessions n' !! i = Some x' ∧ same_session x x' ∧
     (closed x = true → closed x' = true ∧ buffer x' = buffer x)) ∧
  (∀ i x', sessions n' !! i = Some x' → sessions n !! i = None → taken x' = []).

Lemma grows_eq n n' : sessions n' = sessions n → grows n n'.
Proof. intros E. split; [intros i x Hx; exists x; rewrite E; by split_and!|intros i x Hx Hn; rewrite E in Hx; congruence]. Qed.

Lemma grows_alter (f : session (H := H) → session) i n n' :
  sessions n' = alter f i (sessions n) → 
  (∀ x, sessions n !! i = Some x → same_session x (f x) ∧ (closed x = true → closed (f x) = true ∧ buffer (f x) = buffer x)) →
  grows n n'.
Proof.
  intros E Hf. split; rewrite E.
  - intros j x Hx. destruct (decide (i = j)) as [->|Hne].
    + exists (f x). rewrite list_lookup_alter_eq, Hx. split; [done|]. by apply Hf.
    + exists x. rewrite list_lookup_alter_ne by done. by split_and!.
  - intros j x' Hx Hn. destruct (decide (i = j)) as [->|Hne].
    + by rewrite list_lookup_alter_eq, Hn in Hx.
    + rewrite list_lookup_alter_ne in Hx by done. congruence.
Qed.

Lemma respond_sessions m (n n' : backend (H := H)) : respond m n = Some n' → sessions n' = sessions n.
Proof. unfold respond. repeat case_match; by intros [= <-]. Qed.

Lemma loop_grows a n n' : loop_action a = true → bstep table a n = Some n' → grows n n'.
Proof.
  intros Ha Hs. unfold bstep in Hs. destruct (crash n); [done|]. destruct a as [msg| | |i|i m|]; try done.
  - destruct (pc n); try done. injection Hs as <-. destruct msg as [raw|]; [|by apply grows_eq].
    simpl. destruct (ParseMessage raw) as [m|p]; [|by apply grows_eq]. unfold route.
    assert (grows n (closeHandler (Key m) (received m n))) as Hc.
    { unfold closeHandler. repeat case_match; try (by apply grows_eq). simpl.
      eapply (grows_alter shut); [done|]. intros x _. by repeat split. }
    destruct (Type_ m).
    + destruct (url_Parse (MBody m)) as [u|]; [|by apply grows_eq].
      destruct (getHandler (Path u) table) as [h|]; [|by apply grows_eq]. split; simpl.
      * intros i x Hx. exists x. rewrite lookup_app_l by (by eapply lookup_lt_Some). by split_and!.
      * intros i x' Hx Hn. apply lookup_app_Some in Hx as [Hx|[_ Hx]]; [congruence|].
        by apply list_lookup_singleton_Some in Hx as [_ <-].
    + simpl. repeat case_match; by apply grows_eq.
    + done.
    + destruct Hc as [H1 H2]. by split.
  - destruct (pc n); try done. destruct (sessions n !! i) as [x|] eqn:Hi; [|done]. simpl in Hs.
    destruct (closed x) eqn:Hx; [injection Hs as <-; by apply grows_eq|].
    destruct (_ <? _); [|done]. injection Hs as <-. eapply (grows_alter (push body)); [done|].
    intros y Hy. split; [by repeat split|congruence].
  - destruct (pc n); try done. apply grows_eq. by apply respond_sessions in Hs.
  - destruct (responses n); [done|]. injection Hs as <-. by apply grows_eq.
Qed.

(** The messages the loop itself sends are closes. *)
Definition own_close (m : Message) : Prop := ∃ k, key_ok k ∧ m = SignalHandlerClosed k.

Definition loop_ok (n : backend (H := H)) : Prop :=
  Forall (λ x, key_ok (skey x)) (sessions n) ∧ ∀ m, pc n = Answering m → own_close m.

Lemma keys_alter (f : session (H := H) → session) i l :
  (∀ x, skey (f x) = skey x) → Forall (λ x, key_ok (skey x)) l → Forall (λ x, key_ok (skey x)) (alter f i l).
Proof.
  intros Hf Hl. apply Forall_lookup. intros j x Hx. rewrite Forall_lookup in Hl.
  destruct (decide (i = j)) as [->|Hne].
  - rewrite list_lookup_alter_eq in Hx. destruct (l !! j) as [y|] eqn:E; [|done]. injection Hx as <-. rewrite Hf. by eapply Hl.
  - rewrite list_lookup_alter_ne in Hx by done. by eapply Hl.
Qed.

Lemma loop_ok_route raw m (n : backend (H := H)) :
  ParseMessage raw = Val m → loop_ok n → pc n = Reading → loop_ok (route table m (received m n)).
Proof.
  intros Hk%ParseMessage_key_ok [Hs Hp] Hpc.
  assert (Forall (λ x, key_ok (skey x)) (sessions (closeHandler (Key m) (received m n)))) as Hc.
  { unfold closeHandler. repeat case_match; try done. by apply keys_alter. }
  assert (own_close (SignalHandlerClosed (Key m))) as Ho by (by exists (Key m)).
  unfold route. repeat case_match; (split; [try done; simpl|simpl; rewrite ?closeHandler_pc; simpl; try (intros x [= <-]); try done; congruence]).
  - apply Forall_app. split; [done|]. by apply Forall_singleton.
Qed.

Lemma loop_ok_step a n n' : loop_ok n → bstep table a n = Some n' → loop_ok n'.
Proof.
  intros [Hs Hp] Hst. unfold bstep in Hst. destruct (crash n); [done|].
  assert (∀ m (t t' : backend (H := H)), respond m t = Some t' → (pc t' = pc t ∧ sessions t' = sessions t)) as Hr
    by (intros m t t'; unfold respond; repeat case_match; by intros [= <-]).
  destruct a as [msg| | |i|i m|].
  - destruct (pc n) eqn:Epc; try done. injection Hst as <-. destruct msg as [raw|]; [|by split].
    simpl. destruct (ParseMessage raw) as [m|p] eqn:Hm; [|by split; simpl; rewrite ?Epc]. apply (loop_ok_route raw); [done|split; [done|by rewrite Epc]|done].
  - destruct (pc n) eqn:Epc; try done. destruct (sessions n !! i) as [x|]; [|done]. simpl in Hst.
    destruct (closed x); [injection Hst as <-; split; simpl; [done|by rewrite Epc]|].
    destruct (_ <? _); [|done]. injection Hst as <-. split; [by apply keys_alter|done].
  - destruct (pc n); try done. destruct (Hr _ _ _ Hst) as [E1 E2]. split; [by rewrite E2|by rewrite E1].
  - destruct (sessions n !! i) as [x|]; [|done]. simpl in Hst. destruct (buffer x); [done|]. injection Hst as <-.
    split; [by apply keys_alter|done].
  - destruct (sessions n !! i); [|done]. destruct (Hr _ _ _ Hst) as [E1 E2]. split; [by rewrite E2|by rewrite E1].
  - destruct (responses n); [done|]. by injection Hst as <-.
Qed.

Lemma loop_accepts a n n' :
  loop_ok n → loop_action a = true → bstep table a n = Some n' →
  accepted n' = accepted n ∨ ∃ m, own_close m ∧ accepted n' = accepted n ++ [m].
Proof.
  intros [_ Hp] Ha Hs. unfold bstep in Hs. destruct (crash n); [done|]. destruct a as [msg| | |i|i m|]; try done.
  - left. destruct (pc n); try done. injection Hs as <-. destruct msg as [raw|]; [|done].
    simpl. destruct (ParseMessage raw) as [m|p]; [|done]. unfold route, closeHandler. by repeat case_match.
  - left. destruct (pc n); try done. destruct (sessions n !! i) as [x|]; [|done]. simpl in Hs.
    repeat case_match; try done; by injection Hs as <-.
  - destruct (pc n) eqn:E; try done. unfold respond in Hs. repeat case_match; simplify_eq.
    right. eexists. split; [by apply Hp|done].
  - left. destruct (responses n); [done|]. by injection Hs as <-.
Qed.

(** ** The invariant *)

Context `{!HandlerLaws H S L}.

Definition handler_machine (x : session (H := H)) : Machine S L := hstep (shandler x) (skey x) (initial x).

(** A handler beside its session. *)
Record proc_ok (x : session (H := H)) (p : S * nat) : Prop := {
  proc_runs : reachable (Machine0 := handler_machine x) (hinit (shandler x) (skey x) (initial x)) p.1;
  proc_received : hreceived p.1 = taken x;
  proc_emitted : p.2 ≤ length (hresponses p.1);
  proc_sends : Forall (sendable (skey x)) (hresponses p.1);
  proc_ended : hended p.1 = true → closed x = true ∧ buffer x = []
}.

Record system_inv (s : system) : Prop := {
  s_net : reachable (Machine0 := backend_machine table) start (net s);
  s_loop : loop_ok (net s);
  s_length : length (procs s) = length (sessions (net s));
  s_proc i x p : sessions (net s) !! i = Some x → procs s !! i = Some p → proc_ok x p;
  s_out : ∃ own, Forall own_close own ∧ interleave (own :: (emitted <$> procs s)) (accepted (net s))
}.

Lemma proc_ok_launch x : taken x = [] → proc_ok x (launch x).
Proof.
  intros Ht. destruct (hinit_silent (shandler x) (skey x) (initial x)) as (Hr&Hs&He).
  split; simpl; [apply reachable_refl|congruence|lia|by rewrite Hs|congruence].
Qed.

Lemma proc_ok_same x x' p :
  same_session x x' → (closed x = true → closed x' = true ∧ buffer x' = buffer x) → proc_ok x p → proc_ok x' p.
Proof.
  intros (Hk&Hh&Hi&Ht) Hc [H1 H2 H3 H4 H5]. split; unfold handler_machine; rewrite ?Hk, ?Hh, ?Hi, ?Ht; try done.
  intros He. destruct (H5 He) as [Hcl Hb]. destruct (Hc Hcl) as [-> ->]. done.
Qed.

Lemma reachable_snoc {X Y} `{!Machine X Y} (a b c : X) (l : Y) : reachable a b → mstep l b = Some c → reachable a c.
Proof. intros Hab Hbc. eapply reachable_trans; [exact Hab|]. exists [l]. by apply mstar_one. Qed.

Lemma proc_ok_run x x' p l h' :
  proc_ok x p → hstep (shandler x) (skey x) (initial x) l p.1 = Some h' →
  skey x' = skey x → shandler x' = shandler x → initial x' = initial x → closed x' = closed x →
  taken x' = taken x ++ got (hintake l) →
  (hintake l = SeesClosed → closed x = true ∧ buffer x = []) → (closed x = true → buffer x = [] → buffer x' = []) →
  proc_ok x' (h', p.2).
Proof.
  intros [H1 H2 H3 H4 H5] Hs Hk Hh Hi Hcl Ht Hc Hb. destruct (hstep_responses _ _ _ _ _ _ Hs) as (new&Hnew&Hall).
  split; unfold handler_machine; simpl; rewrite ?Hk, ?Hh, ?Hi, ?Hcl.
  - by eapply reachable_snoc.
  - by rewrite (hstep_received _ _ _ _ _ _ Hs), H2, Ht.
  - rewrite Hnew, length_app. lia.
  - rewrite Hnew. by apply Forall_app.
  - intros He. assert (closed x = true ∧ buffer x = []) as [Hx1 Hx2]; [|by auto].
    destruct (hstep_ended _ _ _ _ _ _ Hs He); auto.
Qed.

Lemma inv_system_start : system_inv system_start.
Proof.
  split; simpl; try done; [apply reachable_refl|]. exists []. split; [done|]. constructor. by constructor.
Qed.

(** The loop moves. *)
Lemma inv_net a s n' :
  system_inv s → loop_action a = true → bstep table a (net s) = Some n' →
  system_inv (mkSystem n' (spawn n' (procs s))).
Proof.
  intros [Hn Hk Hl Hp (own&Ho&Hi)] Ha Hs. pose proof (loop_grows a _ _ Ha Hs) as [Hg1 Hg2].
  assert (length (procs s) ≤ length (sessions n')) as Hle.
  { rewrite Hl. destruct (length (sessions (net s))) as [|k] eqn:E; [lia|].
    destruct (lookup_lt_is_Some_2 (sessions (net s)) k) as [x Hx]; [lia|].
    destruct (Hg1 _ _ Hx) as (x'&Hx'&_). apply lookup_lt_Some in Hx'. lia. }
  split; simpl.
  - by eapply (reachable_snoc (Machine0 := backend_machine table)).
  - by eapply loop_ok_step.
  - unfold spawn. rewrite length_app, length_fmap, length_drop. lia.
  - intros i x p Hx Hpi. unfold spawn in Hpi. destruct (decide (i < length (procs s))) as [Hlt|Hge].
    + rewrite lookup_app_l in Hpi by done.
      destruct (lookup_lt_is_Some_2 (sessions (net s)) i) as [y Hy]; [lia|].
      destruct (Hg1 _ _ Hy) as (x'&Hx'&Hsame&Hcl). assert (x' = x) as -> by congruence.
      by eapply proc_ok_same; [..|by apply (Hp i y)].
    + rewrite lookup_app_r in Hpi by lia. rewrite list_lookup_fmap, lookup_drop in Hpi.
      replace (length (procs s) + (i - length (procs s))) with i in Hpi by lia. rewrite Hx in Hpi. injection Hpi as <-.
      apply proc_ok_launch, (Hg2 i); [done|]. apply lookup_ge_None. lia.
  - assert (emitted <$> spawn n' (procs s) = (emitted <$> procs s) ++ replicate (length (drop (length (procs s)) (sessions n'))) []) as ->.
    { unfold spawn. rewrite fmap_app. f_equal. rewrite <- list_fmap_compose.
      induction (drop (length (procs s)) (sessions n')) as [|x l IH]; [done|]. rewrite fmap_cons, IH. done. }
    destruct (loop_accepts a _ _ Hk Ha Hs) as [-> |(m&Hm&->)].
    + exists own. split; [done|]. by apply (interleave_nils (own :: _)).
    + exists (own ++ [m]). split; [apply Forall_app; split; [done|by apply Forall_singleton]|].
      apply (interleave_nils ((own ++ [m]) :: _)). by apply (interleave_snoc _ _ Hi []).
Qed.

Lemma receive_for_cases i x k n n' :
  sessions n !! i = Some x → reachable (Machine0 := backend_machine table) start n → loop_ok n → receive_for i x k n = Some n' →
  reachable (Machine0 := backend_machine table) start n' ∧ loop_ok n' ∧ accepted n' = accepted n ∧
  (k = SeesClosed → closed x = true ∧ buffer x = []) ∧
  ∃ x', sessions n' = <[i := x']> (sessions n) ∧ skey x' = skey x ∧ shandler x' = shandler x ∧
    initial x' = initial x ∧ closed x' = closed x ∧ taken x' = taken x ++ got k ∧ (buffer x = [] → buffer x' = []).
Proof.
  intros Hx Hn Hk Hr. unfold receive_for in Hr. destruct k as [|body|].
  - injection Hr as <-. split_and!; try done. exists x. rewrite list_insert_id by done. simpl. by rewrite app_nil_r.
  - case_bool_decide as Hb; [|done]. pose proof Hr as Hst. unfold bstep in Hr. destruct (crash n); [done|].
    rewrite Hx in Hr. simpl in Hr. destruct (buffer x) as [|b bs] eqn:E; [done|]. injection Hb as ->. injection Hr as <-.
    split_and!; try done; [by eapply (reachable_snoc (Machine0 := backend_machine table))|by eapply loop_ok_step|].
    exists (pull x). split.
    + simpl. apply list_eq. intros j. destruct (decide (i = j)) as [<-|Hne].
      * rewrite list_lookup_alter_eq, Hx, list_lookup_insert_eq by (by eapply lookup_lt_Some). done.
      * by rewrite list_lookup_alter_ne, list_lookup_insert_ne.
    + simpl. rewrite E. by split_and!.
  - destruct (closed x) eqn:Hc; [|done]. case_bool_decide as Hb; [|done]. injection Hr as <-.
    split_and!; try done. exists x. rewrite list_insert_id by done. simpl. by rewrite app_nil_r.
Qed.

Lemma inv_run i l s p x h' n' :
  system_inv s → procs s !! i = Some p → sessions (net s) !! i = Some x →
  hstep (shandler x) (skey x) (initial x) l p.1 = Some h' → receive_for i x (hintake l) (net s) = Some n' →
  system_inv (mkSystem n' (<[i := (h', p.2)]> (procs s))).
Proof.
  intros [Hn Hk Hl Hp (own&Ho&Hi)] Hpi Hx Hs Hr.
  destruct (receive_for_cases i x _ _ _ Hx Hn Hk Hr) as (Hn'&Hk'&Ha&Hsc&x'&Hs'&E1&E2&E3&E4&E5&E6).
  pose proof (Hp i x p Hx Hpi) as Hpx. split; simpl; try done.
  - by rewrite Hs', !length_insert.
  - intros j y q Hy Hq. rewrite Hs' in Hy. destruct (decide (i = j)) as [<-|Hne].
    + rewrite list_lookup_insert_eq in Hy by (by eapply lookup_lt_Some).
      rewrite list_lookup_insert_eq in Hq by (by eapply lookup_lt_Some). injection Hy as <-. injection Hq as <-.
      by apply (proc_ok_run x x' p l h').
    + rewrite list_lookup_insert_ne in Hy by done. rewrite list_lookup_insert_ne in Hq by done. by apply (Hp j).
  - exists own. split; [done|]. rewrite Ha, list_fmap_insert.
    replace (emitted (h', p.2)) with (emitted p); [rewrite list_insert_id; [done|by rewrite list_lookup_fmap, Hpi]|].
    unfold emitted. simpl. destruct (hstep_responses _ _ _ _ _ _ Hs) as (new&->&_). symmetry. apply take_app_le, Hpx.
Qed.

Lemma send_cases m (n n' : backend (H := H)) i :
  bstep table (Send i m) n = Some n' →
  sessions n' = sessions n ∧
  (crash n' = None ∧ accepted n' = accepted n ++ [m] ∨ crash n' ≠ None ∧ accepted n' = accepted n).
Proof.
  unfold bstep. destruct (crash n) eqn:Hc; [done|]. destruct (sessions n !! i); [|done]. simpl. unfold respond.
  repeat case_match; intros [= <-]; simpl; auto.
Qed.

Lemma inv_emit i s p m n' :
  system_inv s → procs s !! i = Some p → hresponses p.1 !! p.2 = Some m → bstep table (Send i m) (net s) = Some n' →
  system_inv (mkSystem n' (if bool_decide (crash n' = None) then <[i := (p.1, Datatypes.S p.2)]> (procs s) else procs s)).
Proof.
  intros [Hn Hk Hl Hp (own&Ho&Hi)] Hpi Hm Hs. destruct (send_cases m _ _ i Hs) as [Hss Hc].
  assert (reachable (Machine0 := backend_machine table) start n') as Hn' by (by eapply (reachable_snoc (Machine0 := backend_machine table))).
  assert (loop_ok n') as Hk' by (by eapply loop_ok_step).
  destruct Hc as [[Hc Ha]|[Hc Ha]].
  - rewrite bool_decide_eq_true_2 by done. split; simpl; try done.
    + by rewrite length_insert, Hl, Hss.
    + intros j y q Hy Hq. rewrite Hss in Hy. destruct (decide (i = j)) as [<-|Hne].
      * rewrite list_lookup_insert_eq in Hq by (by eapply lookup_lt_Some). injection Hq as <-.
        destruct (Hp i y p Hy Hpi). split; try done. simpl. apply lookup_lt_Some in Hm. lia.
      * rewrite list_lookup_insert_ne in Hq by done. by apply (Hp j).
    + exists own. split; [done|]. rewrite Ha.
      assert (i < length (emitted <$> procs s)) as Hlt by (rewrite length_fmap; by eapply lookup_lt_Some).
      assert ((emitted <$> procs s) !! i = Some (emitted p)) as He by (by rewrite list_lookup_fmap, Hpi).
      rewrite list_fmap_insert, insert_take_drop by done.
      change (emitted (p.1, Datatypes.S p.2)) with (take (Datatypes.S p.2) (hresponses p.1)).
      rewrite (take_S_r _ _ _ Hm). apply (interleave_snoc _ _ Hi (own :: take i (emitted <$> procs s)) (emitted p)).
      simpl. f_equal. symmetry. by apply take_drop_middle.
  - rewrite bool_decide_eq_false_2 by done. split; simpl; try done; [by rewrite Hss|by rewrite Hss|].
    exists own. by rewrite Ha.
Qed.

Lemma inv_system_step l s s' : system_inv s → mstep l s = Some s' → system_inv s'.
Proof.
  intros Hi Hs. unfold mstep, system_machine, system_step in Hs. destruct (halted s); [done|]. destruct l as [a|i l|i].
  - destruct (loop_action a) eqn:Ha; [|done]. destruct (bstep table a (net s)) as [n'|] eqn:Hst; [|done].
    injection Hs as <-. by eapply inv_net.
  - destruct (procs s !! i) as [p|] eqn:Hp; [|done]. destruct (sessions (net s) !! i) as [x|] eqn:Hx; [|done]. simpl in Hs.
    destruct (hstep _ _ _ l p.1) as [h'|] eqn:Hh; [|done]. simpl in Hs.
    destruct (receive_for i x (hintake l) (net s)) as [n'|] eqn:Hr; [|done]. injection Hs as <-. by eapply inv_run.
  - destruct (procs s !! i) as [p|] eqn:Hp; [|done]. simpl in Hs.
    destruct (hresponses p.1 !! p.2) as [m|] eqn:Hm; [|done]. simpl in Hs.
    destruct (bstep table (Send i m) (net s)) as [n'|] eqn:Hst; [|done]. injection Hs as <-. by eapply inv_emit.
Qed.

Lemma reachable_system s : reachable system_start s → system_inv s.
Proof. intros Hr. eapply reachable_invariant; [apply inv_system_step|exact Hr|apply inv_system_start]. Qed.

(** ** What the proxy sees *)

Definition body_of (key : string) (m : Message) : Prop := Key m = key ∧ Type_ m = Body.

#[export] Instance body_of_decision key m : Decision (body_of key m).
Proof. unfold body_of. apply _. Defined.

(** The bodies with a key among the frames of the websocket. *)
Definition wire_body (key raw : string) : option string :=
  match ParseMessage raw with
  | Val m => if decide (body_of key m) then Some (MBody m) else None
  | Panics _ => None
  end.

Definition wire_bodies (key : string) (frames : list string) : list string := omap (wire_body key) frames.

(** The bodies a handler sent. *)
Definition bodies (ms : list Message) : list string := MBody <$> filter (λ m, Type_ m = Body) ms.

Lemma wire_bodies_format key ms :
  Forall wire_ok ms → wire_bodies key (FormatMessage <$> ms) = MBody <$> filter (body_of key) ms.
Proof.
  induction 1 as [|m ms Hm _ IH]; [done|]. rewrite fmap_cons, filter_cons.
  change (wire_bodies key (FormatMessage m :: (FormatMessage <$> ms))) with
    (match wire_body key (FormatMessage m) with
     | Some b => b :: wire_bodies key (FormatMessage <$> ms)
     | None => wire_bodies key (FormatMessage <$> ms)
     end).
  unfold wire_body. rewrite (wire_ok_parse m Hm), IH. by destruct (decide (body_of key m)).
Qed.

Lemma wire_bodies_prefix key k l : k `prefix_of` l → wire_bodies key k `prefix_of` wire_bodies key l.
Proof. intros [r ->]. unfold wire_bodies. rewrite omap_app. by eexists. Qed.

Lemma interleave_Forall (P : Message → Prop) ls out : interleave ls out → Forall (Forall P) ls → Forall P out.
Proof.
  induction 1 as [|ls1 m l ls2 out _ IH]; intros Hf; [done|].
  apply Forall_app in Hf as [H1 [Hm H2]%Forall_cons]. apply Forall_cons in Hm as [Hm Hl].
  constructor; [done|]. apply IH, Forall_app. split; [done|by constructor].
Qed.

Lemma sendable_wire key m : key_ok key → sendable key m → wire_ok m ∧ Key m = key.
Proof. intros Hk [->|[b ->]]; (split; [|done]); split; try done; [by right|by left]. Qed.

Lemma emitted_sendable x p : proc_ok x p → Forall (sendable (skey x)) (emitted p).
Proof. intros [_ _ _ Hs _]. by apply Forall_take. Qed.

Lemma procs_session s j p :
  system_inv s → procs s !! j = Some p → ∃ y, sessions (net s) !! j = Some y ∧ proc_ok y p ∧ key_ok (skey y).
Proof.
  intros [_ [Hk _] Hl Hp _] Hj. destruct (lookup_lt_is_Some_2 (sessions (net s)) j) as [y Hy];
    [rewrite <- Hl; by eapply lookup_lt_Some|].
  exists y. split_and!; [done|by eapply Hp|]. rewrite Forall_lookup in Hk. by eapply Hk.
Qed.

Lemma accepted_wire s : system_inv s → Forall wire_ok (accepted (net s)).
Proof.
  intros Hinv. destruct (s_out s Hinv) as (own&Ho&Hi). eapply interleave_Forall; [exact Hi|]. constructor.
  - eapply Forall_impl; [exact Ho|]. intros m (k&Hk&->). split; [done|by right].
  - apply Forall_fmap, Forall_lookup. intros j p Hj. destruct (procs_session s j p Hinv Hj) as (y&_&Hy&Hk).
    eapply Forall_impl; [by apply (emitted_sendable y)|]. intros m Hm. by eapply sendable_wire.
Qed.

(** The bodies the channel has taken under the key of a session that does not
    share it are those its handler has sent. *)
Lemma accepted_bodies s i x p :
  system_inv s → sessions (net s) !! i = Some x → procs s !! i = Some p →
  (∀ j y, sessions (net s) !! j = Some y → skey y = skey x → j = i) →
  filter (body_of (skey x)) (accepted (net s)) = filter (λ m, Type_ m = Body) (emitted p).
Proof.
  intros Hinv Hx Hp Hu. destruct (s_out s Hinv) as (own&Ho&Hi).
  rewrite (interleave_select (body_of (skey x)) _ _ Hi (Datatypes.S i) (emitted p)).
  - pose proof (emitted_sendable x p (s_proc s Hinv i x p Hx Hp)) as Hs. clear Hp Hi.
    induction Hs as [|m ms Hm _ IH]; [done|]. rewrite !filter_cons, IH.
    assert (Key m = skey x) by (by destruct Hm as [->|[? ->]]). unfold body_of.
    destruct (decide (Type_ m = Body)); [by rewrite decide_True by done|by rewrite decide_False by naive_solver].
  - simpl. by rewrite list_lookup_fmap, Hp.
  - intros [|j] k Hk Hne; simpl in Hk.
    + injection Hk as <-. eapply Forall_impl; [exact Ho|]. intros m (k&_&->) [_ Ht]. done.
    + rewrite list_lookup_fmap in Hk. destruct (procs s !! j) as [q|] eqn:Hq; [|done]. injection Hk as <-.
      destruct (procs_session s j q Hinv Hq) as (y&Hy&Hqy&Hky). eapply Forall_impl; [by apply (emitted_sendable y)|].
      intros m Hm [Hkm _]. destruct (sendable_wire _ m Hky Hm) as [_ Hkey]. apply Hne. f_equal. apply (Hu j y Hy). congruence.
Qed.

(** Everything about one session. *)
Lemma session_isolated s i x p :
  reachable system_start s → sessions (net s) !! i = Some x → procs s !! i = Some p →
  ∃ e, sessions_of table (history (net s)) !! i = Some e ∧
    skey x = ekey e ∧ shandler x = ehandler e ∧ initial x = einitial e ∧
    reachable (Machine0 := handler_machine x) (hinit (ehandler e) (ekey e) (einitial e)) p.1 ∧
    hreceived p.1 `prefix_of` einputs e ∧
    (hended p.1 = true → hreceived p.1 = einputs e ∧ estatus e = Closed) ∧
    ((∀ j y, sessions (net s) !! j = Some y → skey y = skey x → j = i) →
       wire_bodies (skey x) (written (net s)) `prefix_of` bodies (hresponses p.1)).
Proof.
  intros Hinv%reachable_system Hx Hp. pose proof (reachable_inv table _ (s_net s Hinv)) as Hb.
  destruct (lookup_lt_is_Some_2 (sessions_of table (history (net s))) i) as [e He].
  { rewrite <- (inv_length table _ Hb). by eapply lookup_lt_Some. }
  destruct (inv_session table _ Hb i x e Hx He) as (Hk&Hh&Hi&Hin&Hcl).
  destruct (s_proc s Hinv i x p Hx Hp) as [Hrun Hrc Hem Hsnd Hend].
  exists e. rewrite <- Hk, <- Hh, <- Hi. split_and!; try done.
  - rewrite Hrc, <- Hin. by eexists.
  - intros Hed. destruct (Hend Hed) as [Hc Hbuf]. rewrite Hcl in Hc. apply bool_decide_eq_true in Hc. split; [|done].
    rewrite Hrc, <- Hin, Hbuf. destruct (pc (net s)) as [|j body| |] eqn:Hpc; simpl; rewrite ?app_nil_r; try done.
    destruct (decide (i = j)) as [<-|]; [|by rewrite app_nil_r].
    destruct (inv_delivering table _ Hb i body Hpc) as (e'&He'&Ho). congruence.
  - intros Hu. etrans; [apply (wire_bodies_prefix _ _ (FormatMessage <$> accepted (net s)));
      rewrite (inv_written table _ Hb); by eexists|].
    rewrite wire_bodies_format by (by apply accepted_wire). rewrite (accepted_bodies s i x p Hinv Hx Hp Hu).
    unfold bodies, emitted. rewrite <- (take_drop p.2 (hresponses p.1)) at 2. rewrite filter_app, fmap_app. by eexists.
Qed.

(** ** Properties *)

(** C2: the sessions do not mix.  While the loop and the handlers run together, in
    any interleaving and with the channels at their sizes: a handler is where
    its own steps lead it from its start; it has received, in order, a prefix
    of the bodies that came with its key while its session was open - all of
    them when it sees its channel closed, which it does only after the close;
    and of the frames written to the proxy, those with the key of a session that
    does not share it, once parsed, are a prefix of what its handler sent. *)
Theorem system_isolates s i x p :
  reachable system_start s → sessions (net s) !! i = Some x → procs s !! i = Some p →
  ∃ e, sessions_of table (history (net s)) !! i = Some e ∧
    skey x = ekey e ∧ shandler x = ehandler e ∧ initial x = einitial e ∧
    reachable (Machine0 := handler_machine x) (hinit (ehandler e) (ekey e) (einitial e)) p.1 ∧
    hreceived p.1 `prefix_of` einputs e ∧
    (hended p.1 = true → hreceived p.1 = einputs e ∧ estatus e = Closed) ∧
    ((∀ j y, sessions (net s) !! j = Some y → skey y = skey x → j = i) →
       wire_bodies (skey x) (written (net s)) `prefix_of` bodies (hresponses p.1)).
Proof. apply session_isolated. Qed.

(** ** Everything sent reaches the proxy *)

Definition flushing (l : system_label) : Prop :=
  match l with Net Write | Emit _ => True | _ => False end.

Definition unsent (s : system) : nat :=
  sum_list_with (λ p, 2 * (length (hresponses p.1) - p.2)) (procs s) + length (responses (net s)).

Definition flushed (s : system) : Prop :=
  responses (net s) = [] ∧ Forall (λ p, length (hresponses p.1) ≤ p.2) (procs s).

(** What flushing keeps. *)
Definition same_run (s s' : system) : Prop :=
  sessions (net s') = sessions (net s) ∧ (procs s').*1 = (procs s).*1 ∧
  pc (net s') = pc (net s) ∧ crash (net s') = crash (net s).

Lemma halted_same s s' : same_run s s' → halted s' = halted s.
Proof.
  intros (_&Hp&_&Hc). unfold halted. rewrite Hc. f_equal.
  assert (∀ ps : list (S * nat), existsb (λ p, bool_decide (is_Some (hcrash p.1))) ps = existsb (λ h, bool_decide (is_Some (hcrash h))) ps.*1) as He.
  { intros ps. induction ps as [|q ps IH]; [done|]. simpl. by rewrite IH. }
  by rewrite !He, Hp.
Qed.

Lemma flush_step s :
  system_inv s → halted s = false → pc (net s) ≠ Stopped →
  flushed s ∨ ∃ l s', flushing l ∧ mstep l s = Some s' ∧ unsent s' < unsent s ∧ same_run s s'.
Proof.
  intros Hi Hh Hpc. assert (crash (net s) = None) as Hc.
  { unfold halted in Hh. apply orb_false_iff in Hh as [Hh _]. apply bool_decide_eq_false in Hh. by destruct (crash (net s)); [destruct Hh|]. }
  unfold mstep, system_machine, system_step. rewrite Hh.
  destruct (responses (net s)) as [|m ms] eqn:Hr.
  2:{ right. exists (Net Write). eassert (bstep table Write (net s) = Some _) as Hs
        by (unfold bstep; rewrite Hc, Hr; reflexivity).
      simpl loop_action. cbn [mbind option_bind]. rewrite Hs. eexists. split; [done|]. split; [reflexivity|].
      assert (drop (length (procs s)) (sessions (net s)) = []) as Hd by (apply drop_ge; rewrite (s_length s Hi); lia).
      unfold unsent, spawn, same_run. simpl. rewrite Hd, app_nil_r, Hr. split_and!; try done. simpl. lia. }
  destruct (decide (Forall (λ p, length (hresponses p.1) ≤ p.2) (procs s))) as [Hf|Hf]; [by left|right].
  apply not_Forall_Exists in Hf; [|intros; apply _]. apply Exists_exists in Hf as (p&(i&Hp)%list_elem_of_lookup&Hlt).
  destruct (lookup_lt_is_Some_2 (hresponses p.1) p.2) as [m Hm]; [simpl in Hlt; lia|].
  destruct (procs_session s i p Hi Hp) as (x&Hx&_).
  assert (bstep table (Send i m) (net s) =
    Some (mkBackend (responders (net s)) (sessions (net s)) (pc (net s)) [m] (written (net s))
            (history (net s)) (accepted (net s) ++ [m]) (crash (net s)))) as Hs.
  { unfold bstep. rewrite Hc, Hx. cbn [mbind option_bind]. unfold respond, responses_closed. rewrite Hr, Hc.
    by destruct (pc (net s)). }
  exists (Emit i). rewrite Hp. cbn [mbind option_bind]. rewrite Hm. cbn [mbind option_bind]. rewrite Hs.
  cbn [mbind option_bind crash]. rewrite bool_decide_eq_true_2 by done.
  eexists. split; [done|]. split; [reflexivity|]. unfold unsent, same_run. simpl. rewrite Hr. split.
  - rewrite insert_take_drop by (by eapply lookup_lt_Some). rewrite <- (take_drop_middle (procs s) i p Hp) at 3.
    rewrite !sum_list_with_app. simpl. simpl in Hlt. lia.
  - split_and!; try done. rewrite list_fmap_insert. apply list_insert_id. by rewrite list_lookup_fmap, Hp.
Qed.

(** C14: whatever the handlers have sent reaches the proxy: while the process and
    the loop run, the channel and the writer alone - no handler moves and
    nothing is received - write it all, and then the frames with a session's own
    key are, once parsed, exactly the bodies its handler sent. *)
Theorem system_flushes s :
  reachable system_start s → halted s = false → pc (net s) ≠ Stopped →
  ∃ ls s', Forall flushing ls ∧ mstar s ls s' ∧ same_run s s' ∧
    ∀ i x p, sessions (net s') !! i = Some x → procs s' !! i = Some p →
      (∀ j y, sessions (net s') !! j = Some y → skey y = skey x → j = i) →
      wire_bodies (skey x) (written (net s')) = bodies (hresponses p.1).
Proof.
  intros Hr Hh Hpc.
  destruct (drive flushing (λ t, system_inv t ∧ same_run s t) flushed unsent) with (s := s)
    as (ls&s'&Hls&Hrun&(Hi&Hsame)&Hres&Hall).
  - intros t (Hi&Hsame).
    destruct (flush_step t Hi) as [?|(l&t'&Hl&Hst&Hlt&Hs')]; [by rewrite (halted_same s t Hsame)| |by left|right].
    { by destruct Hsame as (_&_&->&_). }
    exists l, t'. split_and!; try done; [by eapply inv_system_step|].
    destruct Hsame as (E1&E2&E3&E4), Hs' as (F1&F2&F3&F4). unfold same_run. by rewrite F1, F2, F3, F4.
  - split; [by apply reachable_system|done].
  - exists ls, s'. split_and!; try done. intros i x p Hx Hp Hu.
    pose proof (inv_written table _ (reachable_inv table _ (s_net s' Hi))) as Hw. rewrite Hres, app_nil_r in Hw.
    rewrite <- Hw, wire_bodies_format by (by apply accepted_wire). rewrite (accepted_bodies s' i x p Hi Hx Hp Hu).
    rewrite Forall_lookup in Hall. unfold emitted, bodies. by rewrite take_ge by (by eapply Hall).
Qed.
End system.

(** ** A concrete run *)

Section demo.
#[local] Existing Instance demo_url.

(** A handler that sends back what it gets. *)
Record echo_state := mkEcho { heard : list string; said : list Message }.

#[local] Instance echo : Handlers nat echo_state string := {
  hinit _ _ _ := mkEcho [] [];
  hstep _ key _ b s := Some (mkEcho (heard s ++ [b]) (said s ++ [body_message key b]));
  hintake b := Gets b;
  hreceived := heard;
  hresponses := said;
  hended _ := false;
  hcrash _ := None
}.

#[local] Instance echo_laws : HandlerLaws nat echo_state string.
Proof.
  split; [done|by intros h key m l s s' [= <-]| |done].
  intros h key m l s s' [= <-]. exists [body_message key l]. split; [done|]. apply Forall_singleton. right. by exists l.
Qed.

#[local] Instance echo_machine : Machine (system (H := nat) (S := echo_state)) (system_label (L := string)) :=
  system_machine demo_handlers.

(** Two sessions, whose steps are interleaved; the second is closed. *)
Definition echo_run : list (system_label (L := string)) := [
  Net (Receive (Some "a||0||/v1/exec/x?t")); Net (Receive (Some "b||0||/v1/logs/?t"));
  Net (Receive (Some "b||1||one")); Net Deliver; Net (Receive (Some "a||1||two")); Net Deliver;
  Run 0 "two"; Run 1 "one"; Net (Receive (Some "b||2||")); Emit 1; Net Write; Emit 0].

Definition echo_end : system := default system_start (mrun echo_run system_start).

Lemma echo_reachable : reachable system_start echo_end.
Proof. exists echo_run. apply mrun_mstar. vm_compute. reflexivity. Qed.

Lemma system_isolates_witness :
  ∃ e, sessions_of demo_handlers (history (net echo_end)) !! 1 = Some e ∧
    "b" = ekey e ∧ 1 = ehandler e ∧ "/v1/logs/?t" = einitial e ∧
    reachable (Machine0 := handler_machine (mkSession "b" 1 "/v1/logs/?t" [] true ["one"]))
      (hinit (ehandler e) (ekey e) (einitial e)) (mkEcho ["one"] [body_message "b" "one"]) ∧
    ["one"] `prefix_of` einputs e ∧
    (false = true → ["one"] = einputs e ∧ estatus e = Closed) ∧
    ((∀ j y, sessions (net echo_end) !! j = Some y → skey y = "b" → j = 1) →
       wire_bodies "b" (written (net echo_end)) `prefix_of` ["one"]).
Proof.
  apply (system_isolates demo_handlers echo_end 1 (mkSession "b" 1 "/v1/logs/?t" [] true ["one"])
    (mkEcho ["one"] [body_message "b" "one"], 1) echo_reachable); vm_compute; reflexivity.
Defined.

Example echo_wire : written (net echo_end) = ["b||1||one"] ∧ wire_bodies "b" (written (net echo_end)) = ["one"].
Proof. vm_compute. done. Qed.

Lemma system_flushes_witness :
  ∃ ls s', Forall flushing ls ∧ mstar echo_end ls s' ∧ same_run echo_end s' ∧
    ∀ i x p, sessions (net s') !! i = Some x → procs s' !! i = Some p →
      (∀ j y, sessions (net s') !! j = Some y → skey y = skey x → j = i) →
      wire_bodies (skey x) (written (net s')) = bodies (hresponses p.1).
Proof.
  apply (system_flushes demo_handlers echo_end echo_reachable); vm_compute; [reflexivity|discriminate].
Defined.
End demo.
