(* ===== verification/AgentSystem.v ===== *)
(** * The agent's sessions

    The composition of [System] with the handlers of [main.go]'s table: each
    is its set-up, which reads the url and the token and may return or panic,
    and then the machine of its goroutines.  What an answer of docker, of dialing
    or of the clock may be is in the labels.  The loop of a statistics handler
    may panic: that too is a step ([HLoop]).

    [socket_session] and [exec_session] say of a session what its user sees,
    from the frames received to the frames written; [logs_session] and
    [proxy_session] do the same for what the client reads. *)

From Stdlib Require Import ZArith.
From S2P Require Import Prelude GoStd Base64 Values Jwt Config Auth Handshake StatsJson StatsData.
From S2P Require Import DockerClient Wire HttpCodec Bufio SocketPump Exec ProxyRelay LogWrapper Logs Stats.
From S2P Require Import PipeStream Main Backend System.

(** ** A handler *)

(** What the set-up of a handler finds. *)
Record surroundings := mkSurroundings {
  docker : result docker_client;         (* [events.NewDockerClient] *)
  env_client : option error;             (* the error of [client.NewEnvClient] *)
  dial_unix : string → option error      (* the error of [net.Dial] *)
}.

(** [Piped] counts the messages its closing goroutine dropped; [LoopPanicked] is
    a session of statistics whose loop has panicked. *)
Inductive handler_state :=
| Preparing
| Ended (sent : list Message)
| Panicked (p : panic)
| Piped (st : pipe_state) (dropped : list string)
| LoopPanicked (p : panic) (st : pipe_state) (dropped : list string)
| Socket (st : SocketPump.pump)
| Execing (st : Exec.exec_state)
| Proxying (st : ProxyRelay.relay).

Inductive handler_label :=
| HSetup (e : surroundings)
| HPipe (l : pipe_label)
| HDrop (msg : string)
| HLoop (env : stats_env) (now : nat → nat → Z) (links : nat → nat → Z → list (string * option LinkStatistics))
    (samples : nat → host_sample) (n : nat)
    (* the loop of a statistics handler panics within [n] turns *)
| HSocket (l : SocketPump.pump_label)
| HExec (l : Exec.exec_label)
| HProxy (l : ProxyRelay.relay_label).

Section agent.
Context {K : Type} `{!JWT K} `{!URLParser} `{T : !Times} {AL : Alloc} (c : config K).
Context (request_bytes : HTTPMessage → option (gmap string (list string)) → bytes → result bytes).

(** The loop of a statistics handler, while its writes succeed. *)
Definition loop_of (env : stats_env) (now : nat → nat → Z)
    (links : nat → nat → Z → list (string * option LinkStatistics)) (samples : nat → host_sample)
    (k : handler_kind) (n : nat) (m : string) : outcome (early + (list bytes * option error)) :=
  match k with
  | StatsHandler => Stats_Handle env now links samples (λ _, None) n m
  | HostStatsHandler => HostStats_Handle c env now samples (λ _, None) n m
  | ContainerStatsHandler => ContainerStats_Handle c env now links (λ _, None) n m
  | _ => Val (inl NoStats)
  end.

(** The set-up got through. *)
Definition ready {A} (r : outcome (early + A)) : outcome bool :=
  match r with Panics p => Panics p | Val (inl _) => Val false | Val (inr _) => Val true end.

Definition with_client (e : surroundings) (r : outcome bool) : outcome bool :=
  go ← r; Val (go && bool_decide (env_client e = None)).

(** The set-up of each handler, up to its goroutines. *)
Definition prepare (k : handler_kind) (e : surroundings) (m : string) : outcome bool :=
  match k with
  | LogsHandler => ready (Logs.Handle_setup (docker e) c m)
  | StatsHandler => with_client e (ready (Stats.Stats_setup m))
  | HostStatsHandler => ready (Stats.HostStats_setup c m)
  | ContainerStatsHandler => with_client e (ready (Stats.ContainerStats_setup c m))
  | ExecHandler => ready (Exec.Handle_setup (docker e) c m)
  | ConsoleHandler => ready (SocketPump.console_setup (dial_unix e) c m)
  | DockerSocketHandler => ready (SocketPump.proxy_setup (dial_unix e) c m)
  | ContainerProxyHandler => Val true
  end.

(** The goroutines at their start. *)
Definition goroutines (k : handler_kind) : handler_state :=
  match k with
  | LogsHandler | StatsHandler | HostStatsHandler | ContainerStatsHandler => Piped pipe_init []
  | ExecHandler => Execing Exec.exec_init
  | ConsoleHandler | DockerSocketHandler => Socket SocketPump.pump_init
  | ContainerProxyHandler => Proxying ProxyRelay.relay_init
  end.

Definition initial_state (k : handler_kind) : handler_state :=
  match k with ContainerProxyHandler => goroutines k | _ => Preparing end.

Definition pipe_of (k : handler_kind) (key : string) : Machine pipe_state pipe_label :=
  match k with LogsHandler => Logs.logs_machine key | _ => Stats.stats_machine key end.

Definition handler_step (k : handler_kind) (key m : string) (l : handler_label) (s : handler_state) :
    option handler_state :=
  match l, s with
  | HSetup e, Preparing =>
      match prepare k e m with
      | Panics p => Some (Panicked p)
      | Val false => Some (Ended [SignalHandlerClosed key])
      | Val true => Some (goroutines k)
      end
  | HPipe l, Piped st dropped => (λ st, Piped st dropped) <$> pipe_of k key l st
  | HDrop msg, Piped st dropped => Some (Piped st (dropped ++ [msg]))
  | HLoop env now links samples n, Piped st dropped =>
      if producer_done st then None
      else match loop_of env now links samples k n m with
           | Panics p => Some (LoopPanicked p st dropped)
           | Val _ => None
           end
  | HSocket l, Socket st => Socket <$> SocketPump.pump_machine key l st
  | HExec l, Execing st => Execing <$> Exec.exec_machine key l st
  | HProxy l, Proxying st => Proxying <$> ProxyRelay.relay_machine request_bytes key l st
  | _, _ => None
  end.

(** ** What it takes and gives *)

Definition intake_of_input (str : option string) : intake :=
  match str with Some msg => Gets msg | None => SeesClosed end.

Definition handler_intake (l : handler_label) : intake :=
  match l with
  | HPipe EnvClose => SeesClosed
  | HDrop msg => Gets msg
  | HSocket (SocketPump.InMessage msg _) => Gets msg
  | HSocket SocketPump.InClosed => SeesClosed
  | HExec (Exec.EIn msg) => Gets msg
  | HExec Exec.EInClosed => SeesClosed
  | HProxy (ProxyRelay.RFirst str _) => intake_of_input str
  | HProxy (ProxyRelay.RContent (Some str) _ | ProxyRelay.RRead _ (Some str) _) => intake_of_input str
  | HProxy (ProxyRelay.RDrain msg) => Gets msg
  | HProxy ProxyRelay.RClose => SeesClosed
  | _ => Silent
  end.

Definition handler_received (s : handler_state) : list string :=
  match s with
  | Preparing | Ended _ | Panicked _ => []
  | Piped _ dropped | LoopPanicked _ _ dropped => dropped
  | Socket st => SocketPump.received st
  | Execing st => Exec.received st
  | Proxying st => ProxyRelay.received st
  end.

Definition handler_responses (s : handler_state) : list Message :=
  match s with
  | Preparing | Panicked _ => []
  | Ended sent => sent
  | Piped st _ | LoopPanicked _ st _ => PipeStream.responses st
  | Socket st => SocketPump.responses st
  | Execing st => Exec.responses st
  | Proxying st => ProxyRelay.responses st
  end.

Definition handler_ended (s : handler_state) : bool :=
  match s with
  | Piped st _ | LoopPanicked _ st _ => incoming_closed st
  | Execing st => match Exec.inphase st with Exec.InLoop => false | _ => true end
  | Proxying st => ProxyRelay.in_closed st
  | _ => false
  end.

Definition handler_crash (s : handler_state) : option panic :=
  match s with
  | Panicked p | LoopPanicked p _ _ => Some p
  | Proxying st => match ProxyRelay.phase st with ProxyRelay.Crashed p => Some p | _ => None end
  | _ => None
  end.

#[export] Instance agent_handlers : Handlers handler_kind handler_state handler_label := {
  hinit k _ _ := initial_state k;
  hstep := handler_step;
  hintake := handler_intake;
  hreceived := handler_received;
  hresponses := handler_responses;
  hended := handler_ended;
  hcrash := handler_crash
}.

(** ** The laws *)

(** A step's intake and what it sends. *)
Definition step_ok (key : string) (i : intake) (s s' : handler_state) : Prop :=
  handler_received s' = handler_received s ++ got i ∧
  (∃ new, handler_responses s' = handler_responses s ++ new ∧ Forall (sendable key) new) ∧
  (handler_ended s' = true → handler_ended s = true ∨ i = SeesClosed).

Lemma step_quiet key s s' :
  handler_received s' = handler_received s → handler_responses s' = handler_responses s →
  handler_ended s' = handler_ended s → step_ok key Silent s s'.
Proof. intros H1 H2 H3. split_and!; [by rewrite app_nil_r|exists []; by rewrite app_nil_r|rewrite H3; by left]. Qed.

Lemma step_sends key s s' m :
  sendable key m → handler_received s' = handler_received s → handler_responses s' = handler_responses s ++ [m] →
  handler_ended s' = handler_ended s → step_ok key Silent s s'.
Proof. intros Hm H1 H2 H3. split_and!; [by rewrite app_nil_r|exists [m]; split; [done|by constructor]|rewrite H3; by left]. Qed.

Lemma sendable_close key : sendable key (SignalHandlerClosed key).
Proof. by left. Qed.

Lemma sendable_body key b : sendable key (body_message key b).
Proof. right. by exists b. Qed.

Lemma pipe_step_ok k key l st st' dropped :
  pipe_of k key l st = Some st' → step_ok key (handler_intake (HPipe l)) (Piped st dropped) (Piped st' dropped).
Proof.
  intros Hs. assert (∃ max split, pipe_machine max split key l st = Some st') as (max&split&Hp)
    by (destruct k; by eexists _, _). clear Hs.
  assert (step_ok key Silent (Piped st dropped) (Piped (producer_return key st) dropped)) as Hret
    by (eapply step_sends; [apply sendable_close|done..]).
  unfold pipe_machine in Hp. destruct l.
  - repeat case_match; try done; injection Hp as <-; [done|by apply step_quiet].
  - repeat case_match; try done; by injection Hp as <-.
  - repeat case_match; try done; by injection Hp as <-.
  - unfold scanner_read in Hp. repeat case_match; try done; injection Hp as <-; by apply step_quiet.
  - repeat case_match; try done; injection Hp as <-; by apply step_quiet.
  - repeat case_match; try done; injection Hp as <-. eapply step_sends; [apply sendable_body|done..].
  - injection Hp as <-. split_and!; [by rewrite app_nil_r|exists []; by rewrite app_nil_r|by right].
  - destruct (incoming_closed st) eqn:Hic, (wclosed st); try done; injection Hp as <-. by apply step_quiet; simpl.
Qed.

Lemma socket_step_ok key l st st' :
  pump_machine key l st = Some st' → step_ok key (handler_intake (HSocket l)) (Socket st) (Socket st').
Proof.
  intros Hs. unfold pump_machine in Hs. destruct l as [msg acc| | | |data err].
  - destruct (SocketPump.inbound st); try done. injection Hs as <-. unfold inbound_message.
    destruct (DecodeString msg); [destruct acc|]; (split_and!; [done|exists []; by rewrite app_nil_r|done]).
  - destruct (SocketPump.inbound st); try done. injection Hs as <-.
    split_and!; [by rewrite app_nil_r|exists []; by rewrite app_nil_r|done].
  - destruct (SocketPump.inbound st); try done. injection Hs as <-. by apply step_quiet.
  - destruct (SocketPump.inbound st); try done. injection Hs as <-. by apply step_quiet.
  - destruct (_ || _); [by destruct (SocketPump.inbound st)|]. assert (st' = main_read key data err st) as -> by (destruct (SocketPump.inbound st); congruence).
    unfold main_read. destruct err as [e|].
    + eapply step_sends; [apply sendable_close|done..].
    + destruct (0 <? _); [eapply step_sends; [apply sendable_body|done..]|by apply step_quiet].
Qed.

Lemma exec_step_ok key l st st' :
  exec_machine key l st = Some st' → step_ok key (handler_intake (HExec l)) (Execing st) (Execing st').
Proof.
  intros Hs. unfold exec_machine in Hs. destruct l as [msg| | |n| |data| |n| | |].
  - destruct (inphase st) eqn:E, (in_pending st); try done. destruct (DecodeString msg); injection Hs as <-;
      (split_and!; [done|exists []; by rewrite app_nil_r|simpl; by rewrite E]).
  - destruct (inphase st), (in_pending st); try done. injection Hs as <-.
    split_and!; [by rewrite app_nil_r|exists []; by rewrite app_nil_r|by right].
  - destruct (inphase st) eqn:E, (in_pending st); try done. injection Hs as <-. apply step_quiet; simpl; by rewrite ?E.
  - repeat case_match; try done. injection Hs as <-. by apply step_quiet.
  - injection Hs as <-. by apply step_quiet.
  - repeat case_match; try done. injection Hs as <-. by apply step_quiet.
  - repeat case_match; try done. injection Hs as <-. by apply step_quiet.
  - repeat case_match; try done. injection Hs as <-. by apply step_quiet.
  - repeat case_match; try done. injection Hs as <-. by apply step_quiet.
  - destruct (holding st) as [b|]; [|done]. injection Hs as <-.
    destruct (0 <? length b); [eapply step_sends; [apply sendable_body|done..]|].
    apply step_quiet; try done. by rewrite app_nil_r.
  - repeat case_match; try done. injection Hs as <-. eapply step_sends; [apply sendable_close|done..].
Qed.

(** Steps of the container proxy: what the parts of a step do. *)
Lemma step_ok_trans key i s1 s2 s3 : step_ok key i s1 s2 → step_ok key Silent s2 s3 → step_ok key i s1 s3.
Proof.
  intros (H1&(n1&H2&F1)&H3) (H4&(n2&H5&F2)&H6). split_and!.
  - by rewrite H4, app_nil_r.
  - exists (n1 ++ n2). rewrite H5, H2, (assoc_L (++)). split; [done|by apply Forall_app].
  - intros He. destruct (H6 He); [by apply H3|done].
Qed.

Lemma note_ok key str st :
  step_ok key (match str with Some str => intake_of_input str | None => Silent end) (Proxying st) (Proxying (note str st)).
Proof.
  split_and!; [by destruct str as [[str|]|]|exists []; simpl; by rewrite app_nil_r|].
  simpl. intros [Hx|Hx%bool_decide_eq_true]%orb_prop; [by left|right; by subst].
Qed.

Lemma return_ok key st : step_ok key Silent (Proxying st) (Proxying (return_ key st)).
Proof. eapply step_sends; [apply sendable_close|done..]. Qed.

Lemma first_ok key str st : step_ok key Silent (Proxying st) (Proxying (first_message key str st)).
Proof.
  unfold first_message, begin_hijack, begin_http. repeat case_match; first [by apply step_quiet|apply return_ok|idtac].
  all: eapply step_ok_trans; [|apply return_ok]; by apply step_quiet.
Qed.

Lemma request_ok key m h buf failed st :
  step_ok key Silent (Proxying st) (Proxying (write_request request_bytes key m h buf failed st)).
Proof.
  unfold write_request. repeat case_match; try by apply step_quiet.
  all: eapply step_ok_trans; [|apply return_ok]; by apply step_quiet.
Qed.

Lemma block_ok key data err st : step_ok key Silent (Proxying st) (Proxying (block key data err st)).
Proof.
  unfold block. set (st1 := match data with [] => st | _ => _ end).
  assert (step_ok key Silent (Proxying st) (Proxying st1)) as H1.
  { unfold st1. destruct data; [by apply step_quiet|]. eapply step_sends; [apply sendable_body|done..]. }
  destruct err as [e|]; [|done]. eapply step_ok_trans; [exact H1|]. clear H1. generalize st1. clear. intros st.
  assert (step_ok key Silent (Proxying st) (Proxying (close_writer key st))) as H1
    by (eapply step_sends; [apply sendable_body|done..]).
  eapply step_ok_trans; [exact H1|]. destruct (ProxyRelay.phase (close_writer key st)); first [apply return_ok|by apply step_quiet].
Qed.

Lemma turn_ok key data err failed st : step_ok key Silent (Proxying st) (Proxying (copy_turn data err failed st)).
Proof. unfold copy_turn. repeat case_match; by apply step_quiet. Qed.

Lemma proxy_step_ok key l st st' :
  relay_step request_bytes key l st = Some st' → step_ok key (handler_intake (HProxy l)) (Proxying st) (Proxying st').
Proof.
  assert (∀ str h t, step_ok key (match str with Some str => intake_of_input str | None => Silent end) (Proxying st)
    (Proxying (set_reader h t)) ↔ step_ok key (match str with Some str => intake_of_input str | None => Silent end) (Proxying st) (Proxying t)) as Hset
    by done.
  intros Hs. unfold relay_step in Hs. destruct l as [str a|str failed|n str failed|str| |code hd| |data err|].
  - destruct (ProxyRelay.phase st); try done. injection Hs as <-.
    eapply step_ok_trans; [apply (note_ok key (Some str))|]. 
    eapply step_ok_trans; [|apply first_ok]. by apply step_quiet.
  - destruct (ProxyRelay.phase st) as [|m h n| | | | | |]; try done. destruct (Proxy.make_panics n).
    { destruct str; [done|]. injection Hs as <-. by apply step_quiet. }
    destruct (0 <? n)%Z.
    + destruct (can_receive str st); [|done]. destruct (Proxy.initial_content _ _) as [[rd buf]|]; [|done]. injection Hs as <-.
      eapply step_ok_trans; [|apply request_ok]. apply Hset. apply (note_ok key str).
    + destruct str; [done|]. injection Hs as <-. apply request_ok.
  - destruct (ProxyRelay.inbound st) eqn:Ei; try by destruct (ProxyRelay.phase st).
    + assert (∃ data h, st' = transmit data (set_reader h (note str st))) as (data&h&->)
        by (destruct (can_receive str st && (0 <? n)), (Proxy.Read n (reader_of st (chan_of str))) as [? [? ?]], (ProxyRelay.phase st); naive_solver).
      change (step_ok key (match str with Some str => intake_of_input str | None => Silent end) (Proxying st) (Proxying (transmit data (set_reader h (note str st))))).
      apply (note_ok key str).
    + assert (∃ data err h, st' = copy_turn data err failed (set_reader h (note str st))) as (data&err&h&->)
        by (destruct (can_receive str st && (n =? Proxy.copy_buffer)), (Proxy.Read n (reader_of st (chan_of str))) as [? [? ?]], (ProxyRelay.phase st); naive_solver).
      eapply step_ok_trans; [|apply turn_ok]. apply Hset. apply (note_ok key str).
  - destruct (ProxyRelay.inbound st) eqn:Ei; try by destruct (ProxyRelay.phase st).
    assert (st' = note (Some (Some str)) st) as -> by (destruct (ProxyRelay.in_closed st), (ProxyRelay.phase st); naive_solver).
    apply (note_ok key (Some (Some str))).
  - destruct (ProxyRelay.inbound st) eqn:Ei; try by destruct (ProxyRelay.phase st).
    assert (st' = close_conn (go (ProxyRelay.phase st) ProxyRelay.Gone (note (Some None) st))) as -> by (destruct (ProxyRelay.phase st); congruence).
    eapply step_ok_trans; [apply (note_ok key (Some None))|]. by apply step_quiet.
  - destruct (ProxyRelay.phase st); try done. injection Hs as <-. eapply step_sends; [apply sendable_body|done..].
  - destruct (ProxyRelay.phase st); try done. injection Hs as <-. apply return_ok.
  - assert (st' = block key data err st) as ->; [|apply block_ok].
    destruct (_ || _); destruct (ProxyRelay.phase st); congruence.
  - destruct (ProxyRelay.phase st); try done. destruct (ProxyRelay.inbound st); try done. injection Hs as <-. apply return_ok.
Qed.

Lemma handler_step_ok k key m l s s' :
  handler_step k key m l s = Some s' → step_ok key (handler_intake l) s s'.
Proof.
  intros Hs. destruct l as [e|l|msg|env now links samples n|l|l|l], s as [|sent|p|st dropped|p st dropped|st|st|st]; try done; simpl in Hs.
  - destruct (prepare k e m) as [[]|p]; injection Hs as <-; [destruct k; by apply step_quiet| |by apply step_quiet].
    by apply (step_sends key _ _ (SignalHandlerClosed key)); [apply sendable_close|..].
  - destruct (pipe_of k key l st) as [st'|] eqn:E; [|done]. injection Hs as <-. by eapply pipe_step_ok.
  - injection Hs as <-. split_and!; [done|exists []; by rewrite app_nil_r|by left].
  - destruct (producer_done st), (loop_of env now links samples k n m); try done. injection Hs as <-. by apply step_quiet.
  - destruct (pump_machine key l st) as [st'|] eqn:E; [|done]. injection Hs as <-. by apply socket_step_ok.
  - destruct (exec_machine key l st) as [st'|] eqn:E; [|done]. injection Hs as <-. by apply exec_step_ok.
  - destruct (relay_machine request_bytes key l st) as [st'|] eqn:E; [|done]. injection Hs as <-. by apply proxy_step_ok.
Qed.

#[export] Instance agent_laws : HandlerLaws handler_kind handler_state handler_label.
Proof.
  split.
  - intros k key m. by destruct k.
  - intros k key m l s s' Hs. by apply (handler_step_ok k key m).
  - intros k key m l s s' Hs. by destruct (handler_step_ok k key m l s s' Hs) as (_&?&_).
  - intros k key m l s s' Hs. by apply (handler_step_ok k key m).
Qed.

(** ** What a state tells of the run *)

(** A handler that runs got through its set-up, and its goroutines are at a
    state of their own machine. *)
Definition state_ok (k : handler_kind) (key m : string) (s : handler_state) : Prop :=
  match s with
  | Preparing => k ≠ ContainerProxyHandler
  | Ended sent => sent = [SignalHandlerClosed key]
  | Panicked p => ∃ e, prepare k e m = Panics p
  | Piped st _ => (∃ e, prepare k e m = Val true) ∧ goroutines k = Piped pipe_init [] ∧
      reachable (Machine0 := pipe_of k key) pipe_init st
  | LoopPanicked p _ _ => ∃ env now links samples n, loop_of env now links samples k n m = Panics p
  | Socket st => (∃ e, prepare k e m = Val true) ∧ goroutines k = Socket pump_init ∧
      reachable (Machine0 := pump_machine key) pump_init st
  | Execing st => (∃ e, prepare k e m = Val true) ∧ goroutines k = Execing exec_init ∧
      reachable (Machine0 := exec_machine key) exec_init st
  | Proxying st => k = ContainerProxyHandler ∧ reachable (Machine0 := relay_machine request_bytes key) relay_init st
  end.

Lemma state_ok_init k key m : state_ok k key m (initial_state k).
Proof. destruct k; try done. split; [done|apply reachable_refl]. Qed.

Lemma state_ok_step k key m l s s' : state_ok k key m s → handler_step k key m l s = Some s' → state_ok k key m s'.
Proof.
  intros Hok Hs. destruct l as [e|l|msg|env now links samples n|l|l|l], s as [|sent|p|st dropped|p st dropped|st|st|st]; try done; simpl in Hs.
  - destruct (prepare k e m) as [[]|p] eqn:E; injection Hs as <-; [|done|by exists e].
    destruct k; (split; [try (by exists e); done|try (split; [done|]); apply reachable_refl]).
  - destruct (pipe_of k key l st) as [st'|] eqn:E; [|done]. injection Hs as <-. destruct Hok as (?&?&?).
    split_and!; try done. by eapply (reachable_snoc (Machine0 := pipe_of k key)).
  - by injection Hs as <-.
  - destruct (producer_done st), (loop_of env now links samples k n m) as [|p] eqn:E; try done. injection Hs as <-.
    by exists env, now, links, samples, n.
  - destruct (pump_machine key l st) as [st'|] eqn:E; [|done]. injection Hs as <-. destruct Hok as (?&?&?).
    split_and!; try done. by eapply (reachable_snoc (Machine0 := pump_machine key)).
  - destruct (exec_machine key l st) as [st'|] eqn:E; [|done]. injection Hs as <-. destruct Hok as (?&?&?).
    split_and!; try done. by eapply (reachable_snoc (Machine0 := exec_machine key)).
  - destruct (relay_machine request_bytes key l st) as [st'|] eqn:E; [|done]. injection Hs as <-. destruct Hok as (?&?).
    split_and!; try done. by eapply (reachable_snoc (Machine0 := relay_machine request_bytes key)).
Qed.

Lemma reachable_state_ok k key m s :
  reachable (Machine0 := handler_step k key m) (initial_state k) s → state_ok k key m s.
Proof.
  intros Hr. eapply (reachable_invariant (Machine0 := handler_step k key m) (state_ok k key m)); [|exact Hr|apply state_ok_init].
  intros l t t'. apply state_ok_step.
Qed.

(** A set-up that got through names the token, for the handlers that want one. *)
Lemma ready_authorised {A} (r : outcome (early + A)) : ready r = Val true → ∃ a, r = Val (inr a).
Proof. destruct r as [[e|a]|p]; try done. by exists a. Qed.

Lemma prepare_authorised k e m :
  prepare k e m = Val true → goroutines k = Socket pump_init ∨ goroutines k = Execing exec_init ∨ k = LogsHandler →
  ∃ t, authorised c m t.
Proof.
  assert (∀ A (f : Token → outcome (early + A)), ready (r ← request_token c m; match r with inl e => Val (inl e) | inr t => f t end) = Val true →
    ∃ t, authorised c m t) as Hreq.
  { intros A f. destruct (request_token_cases c m) as [(t&Ht&->)|(_&e'&->)]; [by exists t|done]. }
  intros Hp Hk. destruct k; simpl in *; try naive_solver congruence.
  - by apply (Hreq _ _ Hp).
  - by apply (Hreq _ _ Hp).
  - by apply (Hreq _ _ Hp).
  - by apply (Hreq _ _ Hp).
Qed.

(** Only the claims of an accepted token make a set-up panic. *)
Lemma prepare_panics k e m p :
  prepare k e m = Panics p → (∃ t, authorised c m t) ∧ (k = LogsHandler ∨ k = ExecHandler ∨ k = ConsoleHandler).
Proof.
  assert (∀ A (f : Token → outcome (early + A)),
    ready (r ← request_token c m; match r with inl e => Val (inl e) | inr t => f t end) = Panics p → ∃ t, authorised c m t) as Hreq.
  { intros A f. destruct (request_token_cases c m) as [(t&Ht&->)|(_&e'&->)]; [by exists t|done]. }
  intros Hp. destruct k; simpl in Hp.
  - split; [by apply (Hreq _ _ Hp)|auto].
  - unfold Stats_setup in Hp. by destruct (url_Parse m).
  - unfold HostStats_setup in Hp. destruct (url_Parse m) as [u|] eqn:Hu; [|done].
    destruct (HostStats_setup_go c m u Hu) as [r Hr]. unfold HostStats_setup in Hr. rewrite Hu in Hr. by rewrite Hr in Hp.
  - destruct (ContainerStats_setup_val c m) as [[e'|r] Hr]; by rewrite Hr in Hp.
  - split; [by apply (Hreq _ _ Hp)|auto].
  - split; [by apply (Hreq _ _ Hp)|auto].
  - unfold proxy_setup in Hp. destruct (request_token_cases c m) as [(t&Ht&Hr)|(_&e'&Hr)]; rewrite Hr in Hp; simpl in Hp; [|done].
    by destruct (dial_unix e docker_socket).
  - done.
Qed.

(** Only nil pointers of the libraries make a loop of statistics panic. *)
Lemma loop_panics env now links samples k n m p :
  loop_of env now links samples k n m = Panics p →
  p = NilDereference ∧ (k = StatsHandler ∨ k = ContainerStatsHandler) ∧ (nil_state env ∨ nil_link links).
Proof.
  intros Hl. destruct k; try done; simpl in Hl.
  - destruct (Stats_Handle_panics _ _ _ _ _ _ _ _ Hl). auto.
  - destruct (HostStats_Handle_val c env now samples (λ _, None) n m) as [r Hr]. congruence.
  - destruct (ContainerStats_Handle_panics _ _ _ _ _ _ _ _ Hl). auto.
Qed.

(** ** The agent *)

#[export] Instance agent_machine : Machine (system (H := handler_kind) (S := handler_state)) (system_label (L := handler_label)) :=
  system_machine handlers.
End agent.

(** ** Lemmas on streams *)

(** The bytes of the messages up to the first that does not decode. *)
Fixpoint input_stream (l : list string) : bytes :=
  match l with
  | [] => []
  | m :: l => match DecodeString m with Ok d => d ++ input_stream l | Err _ => [] end
  end.

Lemma input_stream_prefix l k : l `prefix_of` k → input_stream l `prefix_of` input_stream k.
Proof.
  intros [r ->]. induction l as [|m l IH]; simpl; [apply prefix_nil|].
  destruct (DecodeString m); [by apply prefix_app|done].
Qed.

Lemma decoded_stream l d m e :
  decoded l = Some d → DecodeString m = Ok e → input_stream l = d ∧ input_stream (l ++ [m]) = d ++ e.
Proof.
  revert d. induction l as [|x l IH]; intros d Hd Hm; simpl in *.
  - injection Hd as <-. by rewrite Hm, app_nil_r.
  - destruct (DecodeString x) as [dx|]; [|done]. destruct (decoded l) as [d'|]; [|done]. injection Hd as <-.
    destruct (IH d' eq_refl Hm) as [-> ->]. by rewrite (assoc_L (++)).
Qed.

Lemma decoded_input_stream l d : decoded l = Some d → input_stream l = d.
Proof. intros Hd. by apply (decoded_stream l d "" []). Qed.

Lemma fmap_prefix {A B} (f : A → B) l k : l `prefix_of` k → f <$> l `prefix_of` f <$> k.
Proof. intros [r ->]. rewrite fmap_app. by eexists. Qed.

Lemma input_of_prefix l k : l `prefix_of` k → input_of l `prefix_of` input_of k.
Proof. intros [r ->]. unfold input_of. rewrite fmap_app, concat_app. by eexists. Qed.

(** A prefix of an image is the image of a prefix. *)
Lemma prefix_fmap_inv {A B} (f : A → B) k l : k `prefix_of` f <$> l → ∃ l', l' `prefix_of` l ∧ k = f <$> l'.
Proof. intros [r Hr]. apply fmap_app_inv in Hr as (l1&l2&->&->&->). exists l1. split; [by eexists|done]. Qed.

(** ** Properties *)

Section properties.
Context {K : Type} `{!JWT K} `{!URLParser} `{T : !Times} {AL : Alloc} (c : config K).
Context (request_bytes : HTTPMessage → option (gmap string (list string)) → bytes → result bytes).
#[local] Existing Instances agent_handlers agent_laws agent_machine.

Implicit Types s : system (H := handler_kind) (S := handler_state).

(** The session's key is nobody else's. *)
Definition own_key s (i : nat) (key : string) : Prop :=
  ∀ j y, sessions (net s) !! j = Some y → skey y = key → j = i.

(** What the properties below share: the session as the proxy asked for it, and
    its handler's state. *)
Lemma session_state s i x h n :
  reachable (Machine0 := agent_machine c request_bytes) system_start s →
  sessions (net s) !! i = Some x → procs s !! i = Some (h, n) → own_key s i (skey x) →
  ∃ e, sessions_of handlers (history (net s)) !! i = Some e ∧
    skey x = ekey e ∧ shandler x = ehandler e ∧ initial x = einitial e ∧
    state_ok c request_bytes (ehandler e) (ekey e) (einitial e) h ∧
    handler_received h `prefix_of` einputs e ∧
    (handler_ended h = true → handler_received h = einputs e ∧ estatus e = Closed) ∧
    wire_bodies (ekey e) (written (net s)) `prefix_of` bodies (handler_responses h).
Proof.
  intros Hr Hx Hp Hu.
  destruct (session_isolated handlers s i x (h, n) Hr Hx Hp) as (e&He&Hk&Hh&Hi&Hrun&Hpre&Hend&Hw).
  exists e. unfold handler_machine in Hrun. rewrite Hk, Hh, Hi in Hrun. rewrite <- Hk at 3. split_and!; try done; [|by apply Hw].
  by apply reachable_state_ok.
Qed.

(** C4: a docker-socket or console session, from the proxy's frames to the socket
    and back, while every other session and the loop run in any interleaving:
    it was let in with a token signed for this host; the bytes written to the
    socket are a prefix of the decoded bodies that came with its key while it
    was open, up to the first that does not decode; and the frames written to the
    proxy with its key decode to the blocks that were read from the socket, in
    order, none missing in between. *)
Theorem socket_session s i x st n :
  reachable (Machine0 := agent_machine c request_bytes) system_start s →
  sessions (net s) !! i = Some x → procs s !! i = Some (Socket st, n) → own_key s i (skey x) →
  ∃ e, sessions_of handlers (history (net s)) !! i = Some e ∧ ekey e = skey x ∧
    (ehandler e = DockerSocketHandler ∨ ehandler e = ConsoleHandler) ∧
    (∃ t, authorised c (einitial e) t) ∧
    SocketPump.to_conn st `prefix_of` input_stream (einputs e) ∧
    ∃ blocks, blocks `prefix_of` SocketPump.from_conn st ∧
      DecodeString <$> wire_bodies (skey x) (written (net s)) = Ok <$> blocks.
Proof.
  intros Hr Hx Hp Hu. destruct (session_state s i x _ n Hr Hx Hp Hu) as (e&He&Hk&_&_&((w&Hw)&Hg&Hrun)&Hpre&_&Hout).
  exists e. rewrite Hk. pose proof (pump_reachable_inv _ _ Hrun) as Hinv. split_and!; try done.
  - destruct (ehandler e); try done; auto.
  - by apply (prepare_authorised c _ w _ Hw); left.
  - etrans; [|apply (input_stream_prefix _ _ Hpre)]. simpl.
    pose proof (pump_in _ _ Hinv) as Hi. case_bool_decide.
    + by rewrite (decoded_input_stream _ _ Hi).
    + destruct Hi as (l&Hl&_&d&r&Hd&->&[-> |(m&b&Hm&Hb&Hr')]).
      * rewrite app_nil_r, <- (decoded_input_stream _ _ Hd). by apply input_stream_prefix.
      * rewrite Hm, (proj2 (decoded_stream _ _ _ _ Hd Hb)). by apply prefix_app.
  - assert (bodies (SocketPump.responses st) = EncodeToString <$> SocketPump.from_conn st) as Hb.
    { rewrite (pump_out _ _ Hinv). unfold bodies. rewrite filter_app, fmap_app.
      assert (∀ bs, MBody <$> filter (λ m, Type_ m = Body) (body_message (ekey e) ∘ EncodeToString <$> bs) = EncodeToString <$> bs) as ->.
      { induction bs as [|b bs IH]; [done|]. rewrite !fmap_cons, filter_cons_True by done. by rewrite fmap_cons, IH. }
      destruct (SocketPump.finished st); simpl; by rewrite app_nil_r. }
    simpl in Hout. rewrite Hb in Hout. apply prefix_fmap_inv in Hout as (blocks&Hpb&->). exists blocks. split; [done|].
    rewrite <- list_fmap_compose. apply list_fmap_ext. intros j b _. simpl. by rewrite decode_encode.
Qed.

(** C6: an exec session, from end to end: its token was signed for this host; what
    the process got as input is a prefix of the decoded bodies that came with its
    key while the session was open, and then the end-of-transmission byte, which
    is not sent before the client closed the session and all its bodies were
    taken; and the frames written with its key carry a prefix of the process's
    output. *)
Theorem exec_session s i x st n :
  reachable (Machine0 := agent_machine c request_bytes) system_start s →
  sessions (net s) !! i = Some x → procs s !! i = Some (Execing st, n) → own_key s i (skey x) →
  ∃ e, sessions_of handlers (history (net s)) !! i = Some e ∧ ekey e = skey x ∧ ehandler e = ExecHandler ∧
    (∃ t, authorised c (einitial e) t) ∧
    stdin st `prefix_of` input_of (einputs e) ++ EOT ∧
    (Exec.inphase st ≠ InLoop → estatus e = Closed ∧
       stdin st ++ default [] (in_pending st) = input_of (einputs e) ++ EOT) ∧
    input_of (wire_bodies (skey x) (written (net s))) `prefix_of` stdout st.
Proof.
  intros Hr Hx Hp Hu. destruct (session_state s i x _ n Hr Hx Hp Hu) as (e&He&Hk&_&_&((w&Hw)&Hg&Hrun)&Hpre&Hend&Hout).
  exists e. rewrite Hk. destruct (exec_reachable_inv _ _ Hrun) as [_ _ Hin _ _ (lost&Hst&_) _]. simpl in *.
  assert (Exec.inphase st ≠ InLoop → estatus e = Closed ∧ stdin st ++ default [] (in_pending st) = input_of (einputs e) ++ EOT) as Hclosed.
  { intros Hph. rewrite bool_decide_eq_false_2 in Hin by done.
    destruct Hend as [Hrc Hcl]; [by destruct (Exec.inphase st)|]. split; [done|]. by rewrite Hin, Hrc. }
  split_and!; try done.
  - by destruct (ehandler e).
  - by apply (prepare_authorised c _ w _ Hw); right; left.
  - destruct (decide (Exec.inphase st = InLoop)) as [Hph|Hph].
    + rewrite bool_decide_eq_true_2, app_nil_r in Hin by done.
      etrans; [|apply prefix_app_r, (input_of_prefix _ _ Hpre)]. rewrite <- Hin. by eexists.
    + destruct (Hclosed Hph) as [_ <-]. by eexists.
  - etrans; [apply (input_of_prefix _ _ Hout)|]. rewrite Hst. by eexists.
Qed.

(** C26: a logs session: its token was signed for this host, and the frames
    written to the proxy with its key carry, in order, a prefix of the frames of
    what the scanner has read, itself a prefix of what docker wrote. *)
Theorem logs_session s i x st dropped n :
  reachable (Machine0 := agent_machine c request_bytes) system_start s →
  sessions (net s) !! i = Some x → procs s !! i = Some (Piped st dropped, n) → own_key s i (skey x) →
  shandler x = LogsHandler →
  (∃ t, authorised c (initial x) t) ∧
  bytes_of <$> wire_bodies (skey x) (written (net s)) `prefix_of`
    (sep_scan_spec messageSeparator id MaxScanTokenSize (consumed st)).1 ∧
  consumed st `prefix_of` PipeStream.written st.
Proof.
  intros Hr Hx Hp Hu Hl.
  destruct (session_state s i x _ n Hr Hx Hp Hu) as (e&He&Hk&Hh&Hi&((w&Hw)&Hg&Hrun)&_&_&Hout).
  rewrite Hl in Hh. rewrite <- Hh in Hw, Hrun. simpl in Hrun. rewrite <- Hi in Hw.
  destruct (pipe_sent_consumed MaxScanTokenSize customSplit (ekey e) messageSeparator id customSplit_sep
    messageSeparator_length MaxScanTokenSize_pos st Hrun) as [Hs Hc].
  split_and!; [by apply (prepare_authorised c _ w _ Hw); right; right| |done].
  rewrite Hk. etrans; [apply (fmap_prefix bytes_of _ _ Hout)|]. etrans; [|exact Hs].
  simpl. unfold bodies, sent. by rewrite <- list_fmap_compose.
Qed.

(** A session of the container proxy: the frames written with its key are a
    prefix of the messages of its writer. *)
Theorem proxy_session s i x st n :
  reachable (Machine0 := agent_machine c request_bytes) system_start s →
  sessions (net s) !! i = Some x → procs s !! i = Some (Proxying st, n) → own_key s i (skey x) →
  wire_bodies (skey x) (written (net s)) `prefix_of` Marshal <$> frames st.
Proof.
  intros Hr Hx Hp Hu. destruct (session_state s i x _ n Hr Hx Hp Hu) as (e&He&Hk&_&_&(_&Hrun)&_&_&Hout).
  rewrite Hk. etrans; [exact Hout|]. simpl. rewrite (out_frames _ _ (relay_out _ _ _ Hrun)). unfold bodies.
  rewrite filter_app, fmap_app.
  assert (∀ fs, MBody <$> filter (λ m, Type_ m = Body) (body_message (ekey e) ∘ Marshal <$> fs) = Marshal <$> fs) as ->.
  { induction fs as [|f fs IH]; [done|]. rewrite !fmap_cons, filter_cons_True by done. by rewrite fmap_cons, IH. }
  destruct (returned st); simpl; by rewrite app_nil_r.
Qed.

End properties.

(** ** A concrete run *)

Section demo.
#[local] Existing Instances handshake_jwt demo_url demo_times agent_handlers agent_laws.
#[local] Instance demo_alloc : Alloc := (2 ^ 47)%Z.

#[local] Instance demo_machine :
    Machine (system (H := handler_kind) (S := handler_state)) (system_label (L := handler_label)) :=
  agent_machine (Auth.demo_config "1") demo_request.

Definition demo_around : surroundings :=
  mkSurroundings
    (Ok (mkDockerClient (λ id, Ok (mkContainer id (Some true))) (λ _, Ok "exec1")))
    None (λ _, None).

(** A docker socket, an exec and a logs session side by side, and a console
    session whose claims lack the console. *)
Definition demo_sessions : list (system_label (L := handler_label)) := [
  Net (Receive (Some "a||0||/v1/dockersocket/?plain")); Net (Receive (Some "b||0||/v1/exec/?exec"));
  Net (Receive (Some "c||0||/v1/logs/?logs"));
  Run 0 (HSetup demo_around); Run 1 (HSetup demo_around); Run 2 (HSetup demo_around);
  Net (Receive (Some "b||1||aGk=")); Net Deliver; Net (Receive (Some "a||1||aGk=")); Net Deliver;
  Run 0 (HSocket (InMessage "aGk=" None)); Run 1 (HExec (EIn "aGk=")); Run 1 (HExec (EStdin 9));
  Run 0 (HSocket (MainRead (bytes_of "yo") None)); Run 1 (HExec (EOut (bytes_of "hi!")));
  Run 2 (HPipe (PWrite (bytes_of "03 log[RANLOGS]"))); Run 2 (HPipe (SRead 4095)); Run 1 (HExec (ERead 9));
  Run 1 (HExec ESend); Run 2 (HPipe SSend); Emit 1; Emit 0; Emit 2; Net Write; Net Write; Net Write].

Definition demo_crash : list (system_label (L := handler_label)) :=
  demo_sessions ++ [Net (Receive (Some "d||0||/v1/console/?plain")); Run 3 (HSetup demo_around)].

Definition demo_at (ls : list (system_label (L := handler_label))) : system (H := handler_kind) (S := handler_state) :=
  default system_start (mrun ls system_start).

Lemma demo_reaches ls : is_Some (mrun ls system_start) → reachable system_start (demo_at ls).
Proof. intros [s Hs]. exists ls. apply mrun_mstar. unfold demo_at. by rewrite Hs. Qed.

Example demo_written :
  written (net (demo_at demo_sessions)) = ["b||1||aGkh"; "a||1||eW8="; "c||1||03 log"] ∧
  halted (Handlers0 := agent_handlers (Auth.demo_config "1") demo_request) (demo_at demo_crash) = true.
Proof. vm_compute. done. Qed.

Definition demo_state : system (H := handler_kind) (S := handler_state) := demo_at demo_sessions.

Lemma demo_state_reachable : reachable system_start demo_state.
Proof. apply demo_reaches. eexists. vm_compute. reflexivity. Qed.

(** The keys of the demo's sessions differ. *)
Lemma demo_own_key i key : skey <$> sessions (net demo_state) !! i = Some key → own_key demo_state i key.
Proof.
  assert (NoDup (skey <$> sessions (net demo_state))) as Hnd
    by (apply (bool_decide_unpack _); vm_compute; exact I).
  intros Hi j y Hy <-. rewrite <- list_lookup_fmap in Hi.
  eapply NoDup_lookup; [exact Hnd| |exact Hi]. by rewrite list_lookup_fmap, Hy.
Qed.

Definition demo_socket : pump :=
  mkPump SocketPump.Receiving false false false [body_message "a" "eW8="] [] ["aGk="] (bytes_of "hi") [bytes_of "yo"].

Lemma socket_session_witness :
  ∃ e, sessions_of handlers (history (net demo_state)) !! 0 = Some e ∧ ekey e = "a" ∧
    (ehandler e = DockerSocketHandler ∨ ehandler e = ConsoleHandler) ∧
    (∃ t, authorised (Auth.demo_config "1") (einitial e) t) ∧
    bytes_of "hi" `prefix_of` input_stream (einputs e) ∧
    ∃ blocks, blocks `prefix_of` [bytes_of "yo"] ∧
      DecodeString <$> wire_bodies "a" (written (net demo_state)) = Ok <$> blocks.
Proof.
  apply (socket_session (Auth.demo_config "1") demo_request demo_state 0
    (mkSession "a" DockerSocketHandler "/v1/dockersocket/?plain" [] false ["aGk="]) demo_socket 1).
  - apply demo_state_reachable.
  - vm_compute. reflexivity.
  - vm_compute. reflexivity.
  - apply demo_own_key. vm_compute. reflexivity.
Defined.

Definition demo_exec : exec_state :=
  mkExec InLoop None true None false None true false [body_message "b" "aGkh"] ["aGk="] (bytes_of "hi") (bytes_of "hi!").

Lemma exec_session_witness :
  ∃ e, sessions_of handlers (history (net demo_state)) !! 1 = Some e ∧ ekey e = "b" ∧ ehandler e = ExecHandler ∧
    (∃ t, authorised (Auth.demo_config "1") (einitial e) t) ∧
    bytes_of "hi" `prefix_of` input_of (einputs e) ++ EOT ∧
    (InLoop ≠ InLoop → estatus e = Closed ∧ bytes_of "hi" ++ [] = input_of (einputs e) ++ EOT) ∧
    input_of (wire_bodies "b" (written (net demo_state))) `prefix_of` bytes_of "hi!".
Proof.
  apply (exec_session (Auth.demo_config "1") demo_request demo_state 1
    (mkSession "b" ExecHandler "/v1/exec/?exec" [] false ["aGk="]) demo_exec 1).
  - apply demo_state_reachable.
  - vm_compute. reflexivity.
  - vm_compute. reflexivity.
  - apply demo_own_key. vm_compute. reflexivity.
Defined.

Definition demo_logs : pipe_state :=
  default pipe_init (mrun (Machine0 := logs_machine "c")
    [PWrite (bytes_of "03 log[RANLOGS]"); SRead 4095; SSend] pipe_init).

Lemma logs_session_witness :
  (∃ t, authorised (Auth.demo_config "1") "/v1/logs/?logs" t) ∧
  bytes_of <$> wire_bodies "c" (written (net demo_state)) `prefix_of`
    (sep_scan_spec messageSeparator id MaxScanTokenSize (consumed demo_logs)).1 ∧
  consumed demo_logs `prefix_of` PipeStream.written demo_logs.
Proof.
  apply (logs_session (Auth.demo_config "1") demo_request demo_state 2
    (mkSession "c" LogsHandler "/v1/logs/?logs" [] false []) demo_logs [] 1).
  - apply demo_state_reachable.
  - vm_compute. reflexivity.
  - vm_compute. reflexivity.
  - apply demo_own_key. vm_compute. reflexivity.
  - reflexivity.
Defined.


(** The other two ways to bring it down: statistics of a container that docker
    inspects without a state, and a hijacked request with a great length. *)
Definition demo_great : string :=
  HttpCodec.Marshal (mkHTTPMessage true "web" "GET" "http://web/"
    (Some {[ "Connection" := ["Upgrade"]; "Content-Length" := ["1152921504606846976"] ]}) 0 [] false).

Example demo_halts :
  halted (Handlers0 := agent_handlers (Auth.demo_config "1") demo_request)
    (demo_at [Net (Receive (Some "a||0||/v1/stats/c1?x")); Run 0 (HSetup demo_around);
              Run 0 (HLoop demo_stateless (λ _ _, 7%Z) (λ _ _ _, []) (λ _, demo_host) 1)]) = true ∧
  halted (Handlers0 := agent_handlers (Auth.demo_config "1") demo_request)
    (demo_at [Net (Receive (Some "a||0||/v1/container-proxy/?x")); Net (Receive (Some ("a||1||" +:+ demo_great)));
              Net Deliver; Run 0 (HProxy (RFirst (Some demo_great) (λ _, None)));
              Run 0 (HProxy (RContent None None))]) = true.
Proof. vm_compute. done. Qed.
End demo.
