(* ===== verification/StatsSession.v ===== *)
(** * A statistics session

    What the three statistics handlers publish, by the url and the claims of a
    session ([subject]), and [stats_session]: the frames that the proxy gets of
    it are those lines.  It joins the loops of Stats with the scanner's machine
    in the composition of AgentSystem. *)

From Stdlib Require Import ZArith.
From S2P Require Import Prelude GoStd Json Values Jwt Config Auth Handshake Wire HttpCodec Bufio PipeStream.
From S2P Require Import StatsJson StatsData Stats Main Backend System AgentSystem.

(** ** Lines and their cuts *)

(** The tokens of a stream of lines that may end in the middle of one. *)
Definition lines_read (datas ts : list bytes) : Prop :=
  ∃ k, ts = take k datas ∨ ∃ d part, datas !! k = Some d ∧ part `prefix_of` d ∧ ts = take k datas ++ [part].

Lemma prefix_snoc_inv {A} (l k : list A) x : l `prefix_of` k ++ [x] → l `prefix_of` k ∨ l = k ++ [x].
Proof.
  intros [r Hr]. destruct r as [|y r _] using rev_ind; [right; by rewrite app_nil_r in Hr|left].
  rewrite (assoc_L (++)) in Hr. apply app_inj_2 in Hr as [-> _]; [by eexists|done].
Qed.

Lemma prefix_of_take {A} (l : list A) k l' : l' `prefix_of` take k l → ∃ j, l' = take j l.
Proof.
  intros [r Hr]. exists (length l').
  assert (take (length l') (take k l) = l') as Hl by (rewrite Hr; apply take_app_length).
  rewrite take_take in Hl. rewrite <- Hl at 1. f_equal.
  apply (f_equal length) in Hr. rewrite length_take, length_app in Hr. lia.
Qed.

Lemma lines_read_prefix datas ts ts' : lines_read datas ts → ts' `prefix_of` ts → lines_read datas ts'.
Proof.
  assert (∀ k ts', ts' `prefix_of` take k datas → lines_read datas ts') as Htake.
  { intros k l Hl. apply prefix_of_take in Hl as [j ->]. exists j. by left. }
  intros [k [->|(d&part&Hd&Hp&->)]] Hpre; [by eapply Htake|].
  apply prefix_snoc_inv in Hpre as [Hpre| ->]; [by eapply Htake|]. exists k. right. by exists d, part.
Qed.

Lemma dropCR_prefix b : dropCR b `prefix_of` b.
Proof.
  unfold dropCR. destruct (rev b) as [|x r] eqn:E; [done|].
  assert (b = rev r ++ [x]) as -> by (rewrite <- (rev_involutive b), E; done).
  destruct x; try done. by eexists.
Qed.

(** A prefix of a stream of lines: some lines, and a prefix of the next. *)
Lemma cut_lines datas p :
  p `prefix_of` concat ((λ d, d ++ newline) <$> datas) →
  ∃ k part, k ≤ length datas ∧ p = concat ((λ d, d ++ newline) <$> take k datas) ++ part ∧
    (part = [] ∨ ∃ d, datas !! k = Some d ∧ part `prefix_of` d).
Proof.
  revert p. induction datas as [|d ds IH]; intros p Hp.
  - apply prefix_nil_inv in Hp as ->. exists 0, []. auto.
  - rewrite fmap_cons, concat_cons in Hp.
    destruct (prefix_weak_total p (d ++ newline) _ Hp) as [Hp'|[p' ->]]; [by eexists| |].
    + apply prefix_snoc_inv in Hp' as [Hp'| ->].
      * exists 0, p. split; [simpl; lia|]. split; [done|]. right. by exists d.
      * exists 1, []. split; [simpl; lia|]. split; [simpl; by rewrite !app_nil_r|by left].
    + apply prefix_app_inv in Hp. destruct (IH p' Hp) as (k&part&Hk&->&Hpart).
      exists (S k), part. split; [simpl; lia|]. split; [|done]. simpl. by rewrite (assoc_L (++)).
Qed.

Lemma scan_cut datas part :
  Forall one_line datas → ¬ (Byte.x0a ∈ part) → length part < MaxScanTokenSize →
  (sep_scan_spec newline dropCR MaxScanTokenSize (concat ((λ d, d ++ newline) <$> datas) ++ part)).1 =
    datas ++ (if decide (part = []) then [] else [dropCR part]).
Proof.
  intros Hol Hn Hl. rewrite sep_spec_frames by (apply newline_pos || (eapply Forall_impl; [exact Hol|apply one_line_frame])).
  rewrite dropCR_lines by done.
  rewrite sep_spec_end; [|rewrite take_ge by lia; by apply no_newline|apply MaxScanTokenSize_pos].
  rewrite (proj2 (Nat.leb_gt _ _)) by lia. case_bool_decide; [by rewrite decide_True|by rewrite decide_False].
Qed.

(** What a scanner makes of a stream of lines that is cut anywhere. *)
Lemma scan_lines_cut datas p :
  Forall one_line datas → p `prefix_of` concat ((λ d, d ++ newline) <$> datas) →
  lines_read datas (sep_scan_spec newline dropCR MaxScanTokenSize p).1.
Proof.
  intros Hol Hp. destruct (cut_lines datas p Hp) as (k&part&Hk&->&Hpart).
  assert (Forall one_line (take k datas)) as Hol' by by apply Forall_take.
  assert (¬ (Byte.x0a ∈ part) ∧ length part < MaxScanTokenSize) as [Hn Hl].
  { destruct Hpart as [->|(d&Hd&[r ->])]; [split; [apply not_elem_of_nil|apply MaxScanTokenSize_pos]|].
    destruct (Forall_lookup_1 _ _ _ _ Hol Hd) as (Hn&_&Hl). rewrite length_app in Hl.
    split; [|lia]. intros Hin. apply Hn, elem_of_app. by left. }
  rewrite scan_cut by done. exists k. case_decide; [left; by rewrite app_nil_r|right].
  destruct Hpart as [->|(d&Hd&Hp')]; [done|]. exists d, (dropCR part). split_and!; [done| |done].
  etrans; [apply dropCR_prefix|done].
Qed.

(** Between two writes the stream is not cut. *)
Lemma scan_lines_whole datas ws' :
  Forall one_line datas → ws' `prefix_of` writes_of datas →
  ∃ k, (sep_scan_spec newline dropCR MaxScanTokenSize (concat ws')).1 = take k datas.
Proof.
  revert ws'. intros ws' Hol Hp.
  assert (∃ k, k ≤ length datas ∧ (concat ws' = concat ((λ d, d ++ newline) <$> take k datas) ∨
    ∃ d, datas !! k = Some d ∧ concat ws' = concat ((λ d, d ++ newline) <$> take k datas) ++ d)) as (k&_&Hk).
  { clear Hol. revert ws' Hp. induction datas as [|d ds IH]; intros ws' Hp.
    - apply prefix_nil_inv in Hp as ->. exists 0. auto.
    - change (writes_of (d :: ds)) with (d :: newline :: writes_of ds) in Hp.
      destruct ws' as [|w1 [|w2 ws']]; [exists 0; split; [lia|by left]| |].
      + apply prefix_cons_inv_1 in Hp as ->. exists 0. split; [lia|]. right. exists d. split; [done|]. simpl. by rewrite app_nil_r.
      + pose proof (prefix_cons_inv_1 _ _ _ _ Hp) as ->. apply prefix_cons_inv_2 in Hp.
        pose proof (prefix_cons_inv_1 _ _ _ _ Hp) as ->. apply prefix_cons_inv_2 in Hp.
        destruct (IH ws' Hp) as (k&Hk&Hor). exists (S k). split; [simpl; lia|]. rewrite !concat_cons. simpl.
        destruct Hor as [->|(d'&Hd'&->)]; [left|right; exists d'; split; [done|]]; by rewrite <- ?(assoc_L (++)). }
  destruct Hk as [->|(d&Hd&->)].
  - exists k. rewrite <- (app_nil_r (concat _)), scan_cut; [by rewrite decide_True, app_nil_r|by apply Forall_take|apply not_elem_of_nil|apply MaxScanTokenSize_pos].
  - destruct (Forall_lookup_1 _ _ _ _ Hol Hd) as (Hn&Hcr&Hl). rewrite scan_cut by (done || by apply Forall_take).
    case_decide as Hd0; [exists k; by rewrite app_nil_r|]. exists (S k). by rewrite dropCR_id, (take_S_r _ _ _ Hd).
Qed.

(** ** What a handler publishes *)

Section published.
Context `{T : !Times}.

(** A line: one entry under each of the names, of the same type and memory limit. *)
Definition publishes (shown : list string) (rt : string) (ml : Z) (d : bytes) : Prop :=
  ∃ l, Marshal l = Ok d ∧ AId <$> l = shown ∧ Forall (λ a, ResourceType a = rt ∧ MemLimit a = ml) l.

Lemma line_publishes id ids rt ml infos d :
  line_of id ids rt ml infos d →
  publishes ((λ i, if String.eqb id "" then default "" (ids !! i) else id) <$> (StatsJson.Id <$> infos)) rt ml d.
Proof.
  intros (l&Hl&Hm). exists l. split; [done|]. clear Hm.
  induction Hl as [|info a infos l (first&rest&_&->) _ [IH1 IH2]]; [by split|].
  rewrite !fmap_cons, IH1. split; [done|]. by constructor.
Qed.

Lemma stamp_ids now infos : StatsJson.Id <$> stamp now infos = StatsJson.Id <$> infos.
Proof.
  unfold stamp. rewrite fmap_imap. apply list_eq. intros i. rewrite list_lookup_imap, list_lookup_fmap.
  destruct (infos !! i) as [info|]; [|done]. simpl. unfold stamp_one. by destruct (StatsJson.Stats info).
Qed.

Lemma collections_ids {S} (P : S → Prop) names collect now n i (s : S) :
  (∀ i s infos s', P s → collect i s = Val (Ok infos, s') → P s' ∧ StatsJson.Id <$> infos = names) →
  P s → Forall (λ infos, StatsJson.Id <$> infos = names) (collections collect now n i s).
Proof.
  intros Hc. revert i s. induction n as [|n IH]; intros i s Hs; simpl; [constructor|].
  destruct (collect i s) as [[[infos|e] s']|p] eqn:E; [|constructor..].
  destruct (Hc i s infos s' Hs E) as [Hs' Hi]. constructor; [by rewrite stamp_ids|by apply IH].
Qed.

(** The lines of a loop whose collections are always of the same containers. *)
Lemma turns_publish {S} (P : S → Prop) names id ids rt ml collect now n (s : S) ws e :
  (∀ i s infos s', P s → collect i s = Val (Ok infos, s') → P s' ∧ StatsJson.Id <$> infos = names) → P s →
  turns collect (λ infos, writeAggregatedStats (λ _, None) id ids rt infos ml) now n 0 s = Val (ws, e) →
  ∃ datas, ws = writes_of datas ∧
    Forall (publishes ((λ i, if String.eqb id "" then default "" (ids !! i) else id) <$> names) rt ml) datas.
Proof.
  intros Hc Hs Ht. destruct (turns_lines _ _ _ _ _ _ _ _ _ _ _ Ht) as (ms&ms'&datas&Hf&Hall&->&_).
  exists datas. split; [done|]. pose proof (collections_ids P names collect now n 0 s Hc Hs) as Hids.
  assert (Forall (λ infos, StatsJson.Id <$> infos = names) ms) as Hms.
  { apply (Forall_app _ ms ms'). rewrite <- Hf. rewrite Forall_forall in Hids |- *.
    intros infos [_ Hin]%list_elem_of_filter. by apply Hids. }
  clear Hf Ht. induction Hall as [|infos d ms datas Hd _ IH]; [constructor|].
  apply Forall_cons in Hms as [<- Hms]. constructor; [by apply line_publishes|by apply IH].
Qed.

Lemma getContainerInfo_id links reader count id pid info reader' :
  getContainerInfo links reader count id pid = Val (Ok info, reader') → StatsJson.Id info = id.
Proof.
  unfold getContainerInfo. intros ([stats rd]&_&Hr)%outcome_bind_val. destruct stats as [stats|]; [|done].
  by injection Hr as <- _.
Qed.

Lemma getAll_ids links i readers ids pids infos readers' :
  getAllDockerContainers links i readers 1 ids pids = Val (Ok infos, readers') →
  length readers' = length readers ∧ StatsJson.Id <$> infos = take (length readers) (drop i ids).
Proof.
  revert i infos readers'. induction readers as [|reader readers IH]; intros i infos readers' H; simpl in *.
  { by injection H as <- <-. }
  apply outcome_bind_val in H as (id&Hid%index_val&H). apply outcome_bind_val in H as (pid&_&H).
  apply outcome_bind_val in H as ([[info|err] rd]&Hinfo&H); [|done].
  apply outcome_bind_val in H as ([rest rds]&Hrest&H). destruct rest as [rest|]; [|done].
  injection H as <- <-. destruct (IH _ _ _ Hrest) as [Hlen Hids]. apply getContainerInfo_id in Hinfo.
  rewrite fmap_cons, Hids, Hinfo, (drop_S _ _ _ Hid). split; [simpl; by rewrite Hlen|done].
Qed.

(** Which entries the lines of a session have, and of which type: by the url for
    [StatsHandler], by the claims for [HostStatsHandler]; container statistics
    are of the container of the url, or of the containers of the host that the
    claims name, under the names they give. *)
Section subject.
Context {K : Type} `{!JWT K} `{!URLParser} (c : config K) (env : stats_env).

Definition subject (k : handler_kind) (m : string) : option (list string * string) :=
  match k with
  | StatsHandler =>
      match Stats_setup m with
      | Val (inr id) => Some ([id], if String.eqb id "" then "host" else "container")
      | _ => None
      end
  | HostStatsHandler =>
      match HostStats_setup c m with Val (inr id) => Some ([id], "host") | _ => None end
  | ContainerStatsHandler =>
      match ContainerStats_setup c m, ContainerList env with
      | Val (inr (id, ids)), listed =>
          if String.eqb id "" then
            match listed with Ok contList => Some (omap (λ i, ids !! i) contList, "container") | Err _ => None end
          else Some ([id], "container")
      | _, _ => None
      end
  | _ => None
  end.

Context (now : nat → nat → Z) (links : nat → nat → Z → list (string * option LinkStatistics)) (samples : nat → host_sample).

Lemma host_turns_publish ml n id ws e :
  host_turns now ml (λ _, None) n id samples = Val (ws, e) →
  ∃ datas, ws = writes_of datas ∧ Forall (publishes [id] "host" ml) datas.
Proof.
  intros Ht. edestruct (turns_publish (λ _ : unit, True) [""]) as (datas&->&Hd); [|done|exact Ht|].
  - intros i s infos s' _ Hc. split; [done|]. unfold collect_root in Hc. injection Hc as Hc _.
    unfold getRootContainerInfo in Hc. destruct (root_samples _ 0 1); [|done]. by injection Hc as <-.
  - exists datas. split; [done|]. simpl in Hd. rewrite lookup_empty in Hd.
    by destruct (String.eqb_spec id "") as [->|].
Qed.

Lemma stats_of_publish n id ids ml ws e :
  id ≠ "" → stats_of env now links (λ _, None) n id ids ml = Val (inr (ws, e)) →
  ∃ datas, ws = writes_of datas ∧ Forall (publishes [id] "container" ml) datas.
Proof.
  intros Hid Ht. unfold stats_of in Ht. destruct (ContainerInspect env id) as [inspect|]; [|done].
  destruct (ContainerStream env id) as [reader|]; [|done]. apply outcome_bind_val in Ht as (pid&_&Ht).
  destruct (single_turns _ _ _ _ _ _ _ _ _) as [[ws' e']|] eqn:E; [|done]. injection Ht as -> ->.
  edestruct (turns_publish (λ _ : list string, True) [id]) as (datas&->&Hd); [|done|exact E|].
  - intros i s infos s' _ Hc. split; [done|]. unfold collect_one in Hc.
    apply outcome_bind_val in Hc as ([[info|] rd]&Hi&Hc); [|done]. injection Hc as <- _.
    apply getContainerInfo_id in Hi. simpl. by rewrite Hi.
  - exists datas. split; [done|]. simpl in Hd. by rewrite (proj2 (String.eqb_neq _ _) Hid) in Hd.
Qed.

Lemma select_claimed ids contList IDList readers pids :
  select env ids contList = Val (Some (IDList, readers, pids)) →
  (λ i, default "" (ids !! i)) <$> IDList = omap (λ i, ids !! i) contList.
Proof.
  revert IDList readers pids. induction contList as [|id cl IH]; intros IDList readers pids Hsel; simpl in *; [by injection Hsel as <- <- <-|].
  destruct (ids !! id) as [name|] eqn:E; [|by eapply IH].
  destruct (ContainerInspect env id), (ContainerStream env id); try done.
  apply outcome_bind_val in Hsel as (pid&_&Hsel). apply outcome_bind_val in Hsel as ([[[l r] ps]|]&Hs&Hsel); [|done].
  injection Hsel as <- <- <-. rewrite fmap_cons, E. simpl. f_equal. by eapply IH.
Qed.

Lemma multi_turns_publish ml n ids IDList pids readers ws e :
  length IDList = length readers →
  multi_turns now ml links (λ _, None) n ids IDList pids readers = Val (ws, e) →
  ∃ datas, ws = writes_of datas ∧ Forall (publishes ((λ i, default "" (ids !! i)) <$> IDList) "container" ml) datas.
Proof.
  intros Hlen Ht. eapply (turns_publish (λ rs : list (list string), length rs = length IDList) IDList "" ids); [|done|exact Ht].
  intros i rs infos rs' Hrs Hc. apply getAll_ids in Hc as [Hl Hi]. rewrite Hi, drop_0, take_ge by lia. split; [lia|done].
Qed.

(** Every line of a session has the entries of its subject. *)
Lemma loop_publishes k n m ws e :
  loop_of c env now links samples k n m = Val (inr (ws, e)) →
  ∃ shown rt ml datas, subject k m = Some (shown, rt) ∧ ws = writes_of datas ∧ Forall (publishes shown rt ml) datas.
Proof.
  intros Hl. destruct k; try done; simpl in *.
  - unfold Stats_Handle in Hl. destruct (Stats_setup m) as [[|id]|]; try done. simpl in Hl.
    destruct (NewEnvClient env), (getMemCapcity env) as [ml|]; try done.
    destruct (String.eqb_spec id "") as [->|Hid].
    + destruct (host_turns _ _ _ _ _ _) as [[ws' e']|] eqn:E; [|done]. injection Hl as -> ->.
      destruct (host_turns_publish _ _ _ _ _ E) as (datas&?&?). by exists [""], "host", ml, datas.
    + destruct (stats_of_publish _ _ _ _ _ _ Hid Hl) as (datas&?&?). by exists [id], "container", ml, datas.
  - unfold HostStats_Handle in Hl. destruct (HostStats_setup c m) as [[|id]|]; try done. simpl in Hl.
    destruct (getMemCapcity env) as [ml|]; try done.
    destruct (host_turns _ _ _ _ _ _) as [[ws' e']|] eqn:E; [|done]. injection Hl as -> ->.
    destruct (host_turns_publish _ _ _ _ _ E) as (datas&?&?). by exists [id], "host", ml, datas.
  - unfold ContainerStats_Handle in Hl. destruct (ContainerStats_setup c m) as [[|[id ids]]|]; try done. simpl in Hl.
    destruct (NewEnvClient env), (getMemCapcity env) as [ml|]; try done.
    destruct (String.eqb_spec id "") as [->|Hid]; simpl in Hl.
    + destruct (ContainerList env) as [cl|]; [|done]. destruct (select env ids cl) as [[[[l r] ps]|]|] eqn:Es; try done. simpl in Hl.
      destruct (multi_turns _ _ _ _ _ _ _ _ _) as [[ws' e']|] eqn:E; [|done]. injection Hl as -> ->.
      destruct (multi_turns_publish _ _ _ _ _ _ _ _ (proj1 (select_lengths _ _ _ _ _ _ Es)) E) as (datas&?&?).
      rewrite (select_claimed _ _ _ _ _ Es) in *. by exists (omap (λ i, ids !! i) cl), "container", ml, datas.
    + destruct (stats_of_publish _ _ _ _ _ _ Hid Hl) as (datas&?&?). by exists [id], "container", ml, datas.
Qed.
End subject.
End published.

Lemma publishes_one_line `{T : !Times} shown rt ml d :
  publishes shown rt ml d → length d < MaxScanTokenSize → one_line d.
Proof. intros (l&Hl&_). by apply (Marshal_one_line l). Qed.

(** Container statistics start only with a token that parses. *)
Lemma container_token {K} `{!JWT K} `{!URLParser} (c : config K) m r :
  ContainerStats_setup c m = Val (inr r) →
  ∃ u t, url_Parse m = Ok u ∧ QueryToken u ≠ "" ∧ jwt_Parse (QueryToken u) (ParsedPublicKey c) = (Some t, None).
Proof.
  unfold ContainerStats_setup, parseRequestToken. destruct (url_Parse m) as [u|]; [|done].
  destruct (String.eqb_spec (QueryToken u) "") as [|Hne]; [done|].
  destruct (jwt_Parse _ _) as [[t|] [e|]] eqn:E; try done. intros _. by exists u, t.
Qed.

(** ** Property *)

Section properties.
Context {K : Type} `{!JWT K} `{!URLParser} (c : config K) `{T : !Times} {AL : Alloc}.
Context (request_bytes : HTTPMessage → option (gmap string (list string)) → bytes → result bytes).
#[local] Existing Instances agent_handlers agent_laws agent_machine.

Implicit Types s : system (H := handler_kind) (S := handler_state).

(** C15: a statistics session from the samples to the proxy, while every other
    session and the loop run in any interleaving: as long as its lines fit the
    scanner, the frames written with its key are the lines its handler has
    written so far, in order and one frame each, none missing in between; only
    after the client has closed the session may the last one be cut.  A line is
    the JSON text of entries under exactly the names that the session's url and
    claims give; for container statistics there was a token that parses. *)
Theorem stats_session s i x st dropped m env now links samples n ws ws' e :
  reachable (Machine0 := agent_machine c request_bytes) system_start s →
  sessions (net s) !! i = Some x → procs s !! i = Some (Piped st dropped, m) → own_key s i (skey x) →
  loop_of c env now links samples (shandler x) n (initial x) = Val (inr (ws, e)) →
  ws' `prefix_of` ws → PipeStream.written st = concat ws' → Forall (λ w, length w < MaxScanTokenSize) ws →
  ∃ shown rt ml datas, subject c env (shandler x) (initial x) = Some (shown, rt) ∧
    ws = writes_of datas ∧ Forall (publishes shown rt ml) datas ∧
    (let read := bytes_of <$> wire_bodies (skey x) (written (net s)) in
     lines_read datas read ∧ (wclosed st = false → ∃ k, read = take k datas)) ∧
    (shandler x = ContainerStatsHandler → ∃ u t, url_Parse (initial x) = Ok u ∧ QueryToken u ≠ "" ∧
       jwt_Parse (QueryToken u) (ParsedPublicKey c) = (Some t, None)).
Proof.
  intros Hr Hx Hp Hu Hl Hpre Hw Hfit.
  destruct (loop_publishes c env now links samples _ n _ ws e Hl) as (shown&rt&ml&datas&Hsub&->&Hd).
  destruct (session_state c request_bytes s i x _ m Hr Hx Hp Hu) as (e'&He&Hk&Hh&Hi&(_&_&Hrun)&_&_&Hout).
  assert (Forall one_line datas) as Hol.
  { rewrite Forall_forall in Hd, Hfit |- *. intros d Hin.
    by eapply publishes_one_line; [apply Hd|apply Hfit, writes_of_in]. }
  assert (reachable (Machine0 := stats_machine (ekey e')) pipe_init st) as Hstats
    by (rewrite <- Hh in Hrun; destruct (shandler x); done).
  assert (bytes_of <$> wire_bodies (skey x) (written (net s)) `prefix_of` sent st) as Hread.
  { rewrite Hk. etrans; [apply (fmap_prefix bytes_of _ _ Hout)|]. simpl. unfold bodies, sent. by rewrite <- list_fmap_compose. }
  exists shown, rt, ml, datas. do 3 (split; [done|]). split; [split|].
  - destruct (pipe_sent_consumed MaxScanTokenSize ScanLines (ekey e') newline dropCR (λ _ _, eq_refl)
      newline_pos MaxScanTokenSize_pos st Hstats) as [Hs Hc].
    eapply lines_read_prefix; [|etrans; [exact Hread|exact Hs]]. apply scan_lines_cut; [done|].
    etrans; [exact Hc|]. rewrite Hw, <- concat_writes. destruct Hpre as [r ->]. rewrite concat_app. by eexists.
  - intros Hwc. pose proof (pipe_sent_prefix MaxScanTokenSize ScanLines (ekey e') newline dropCR (λ _ _, eq_refl)
      newline_pos MaxScanTokenSize_pos st Hstats Hwc) as Hs.
    destruct (scan_lines_whole datas ws' Hol Hpre) as [k Hk']. rewrite Hw, Hk' in Hs.
    apply (prefix_of_take datas k). by etrans; [exact Hread|].
  - intros Hcs. rewrite Hcs in Hl. simpl in Hl. unfold ContainerStats_Handle in Hl.
    destruct (ContainerStats_setup c (initial x)) as [[|r]|] eqn:E; try done. by eapply container_token.
Qed.
End properties.

(** ** Witness *)

Section demo.
#[local] Existing Instances handshake_jwt demo_url demo_times AgentSystem.demo_alloc agent_handlers agent_laws.

#[local] Instance demo_stats_machine :
    Machine (system (H := handler_kind) (S := handler_state)) (system_label (L := handler_label)) :=
  agent_machine (Auth.demo_config "1") ProxyRelay.demo_request.

Definition demo_link : nat → nat → Z → list (string * option LinkStatistics) := λ _ _ _, [].

Definition demo_loop : outcome (early + (list bytes * option error)) :=
  loop_of (Auth.demo_config "1") Stats.demo_env (λ _ _, 7%Z) demo_link (λ _, demo_host)
    HostStatsHandler 2 "/v1/hoststats/?plain".

Definition demo_writes : list bytes :=
  Eval vm_compute in match demo_loop with Val (inr (ws, _)) => ws | _ => [] end.

Definition demo_first : bytes := Eval vm_compute in default [] (demo_writes !! 0).

(** One line was written and sent, the second is being read. *)
Definition demo_pipe_labels : list pipe_label :=
  [PWrite demo_first; SRead 4095; PWrite newline; SRead 9; SSend; PWrite demo_first; SRead 5].

Definition demo_pipe : pipe_state :=
  Eval vm_compute in default pipe_init (mrun (Machine0 := stats_machine "a") demo_pipe_labels pipe_init).

Definition demo_hosts : system (H := handler_kind) (S := handler_state) :=
  demo_at ([Net (Receive (Some "a||0||/v1/hoststats/?plain")); Run 0 (HSetup demo_around)] ++
    ((λ l, Run 0 (HPipe l)) <$> demo_pipe_labels) ++ [Emit 0; Net Write]).

Lemma stats_session_witness :
  length (written (net demo_hosts)) = 1 ∧
  ∃ shown rt ml datas,
    subject (Auth.demo_config "1") Stats.demo_env HostStatsHandler "/v1/hoststats/?plain" = Some (shown, rt) ∧
    demo_writes = writes_of datas ∧ Forall (publishes shown rt ml) datas ∧
    (let read := bytes_of <$> wire_bodies "a" (written (net demo_hosts)) in
     lines_read datas read ∧ (wclosed demo_pipe = false → ∃ k, read = take k datas)) ∧
    (HostStatsHandler = ContainerStatsHandler → ∃ u t, url_Parse "/v1/hoststats/?plain" = Ok u ∧ QueryToken u ≠ "" ∧
       jwt_Parse (QueryToken u) (ParsedPublicKey (Auth.demo_config "1")) = (Some t, None)).
Proof.
  split; [vm_compute; reflexivity|].
  apply (stats_session (Auth.demo_config "1") ProxyRelay.demo_request demo_hosts 0
    (mkSession "a" HostStatsHandler "/v1/hoststats/?plain" [] false []) demo_pipe [] 1
    Stats.demo_env (λ _ _, 7%Z) demo_link (λ _, demo_host) 2 demo_writes (take 3 demo_writes) None).
  - apply demo_reaches. eexists. vm_compute. reflexivity.
  - vm_compute. reflexivity.
  - vm_compute. reflexivity.
  - intros [|j] y Hy _; [done|]. vm_compute in Hy. discriminate Hy.
  - vm_compute. reflexivity.
  - apply prefix_take.
  - vm_compute. reflexivity.
  - rewrite MaxScanTokenSize_value. repeat (apply Forall_cons_2; [apply Nat.ltb_lt; vm_compute; reflexivity|]). apply Forall_nil_2.
Defined.
End demo.
