(* ===== verification/Serving.v ===== *)
(** * What the proxy sends reaches the handlers

    The other direction of [System.system_flushes]: a session whose handler
    does not receive stops the loop ([Backend.stuck_session_stalls]), so the
    loop serves its sessions as long as each handler can take what is waiting
    for it.  [takes] says that of a handler, over the interface [Handlers];
    [system_serves] is the loop's side, [agent_serves] its instance with the
    agent's handlers, down to the bytes in the sockets and processes. *)

From Stdlib Require Import ZArith.
From S2P Require Import Prelude GoStd Base64 Values Jwt Config Auth Handshake StatsJson StatsData Wire HttpCodec.
From S2P Require Import SocketPump Exec Proxy ProxyRelay PipeStream Main Backend System AgentSystem.

Section serving.
Context {H S L : Type} `{!URLParser} `{!Handlers H S L} `{!HandlerLaws H S L} (table : list (string * H)).
#[local] Instance the_system : Machine (system (H := H) (S := S)) (system_label (L := L)) := system_machine table.
Implicit Types s : system (H := H) (S := S).

(** By steps of its own a handler can receive the bodies, one after the other,
    and come to a state with [Q]. *)
Inductive takes (Q : S → Prop) (h : H) (key m : string) : S → list string → Prop :=
| takes_nothing st : Q st → takes Q h key m st []
| takes_silent st l st' bodies :
    hstep h key m l st = Some st' → hintake l = Silent → hcrash st' = None →
    takes Q h key m st' bodies → takes Q h key m st bodies
| takes_body st l st' body bodies :
    hstep h key m l st = Some st' → hintake l = Gets body → hcrash st' = None →
    takes Q h key m st' bodies → takes Q h key m st (body :: bodies).

(** The steps of the loop and of the handlers; nothing is received from the
    proxy. *)
Definition serving (l : system_label (L := L)) : Prop :=
  match l with Net Deliver | Net Answer | Net Write | Run _ _ => True | _ => False end.

Definition alive s : Prop := crash (net s) = None ∧ Forall (λ p, hcrash p.1 = None) (procs s).

Lemma alive_halted s : alive s ↔ halted s = false.
Proof.
  unfold alive, halted. rewrite orb_false_iff, bool_decide_eq_false, <- eq_None_not_Some.
  assert (Forall (λ p, hcrash p.1 = None) (procs s) ↔
    existsb (λ p, bool_decide (is_Some (hcrash p.1))) (procs s) = false) as ->; [|done].
  induction (procs s) as [|p ps IH]; simpl; [done|].
  by rewrite Forall_cons, orb_false_iff, bool_decide_eq_false, <- eq_None_not_Some, IH.
Qed.

(** What the steps of session [i] leave as it is. *)
Record moved (i : nat) s s' : Prop := {
  mv_inv : system_inv table s';
  mv_alive : alive s';
  mv_pc : pc (net s') = pc (net s);
  mv_history : history (net s') = history (net s);
  mv_length : length (sessions (net s')) = length (sessions (net s));
  mv_others j : j ≠ i → sessions (net s') !! j = sessions (net s) !! j ∧ procs s' !! j = procs s !! j
}.

Lemma moved_refl i s : system_inv table s → alive s → moved i s s.
Proof. intros Hi Ha. by split. Qed.

Lemma moved_trans i s s1 s2 : moved i s s1 → moved i s1 s2 → moved i s s2.
Proof.
  intros [H1 H2 H3 H4 H5 H6] [G1 G2 G3 G4 G5 G6]. split; try done; try congruence.
  intros j Hj. destruct (H6 j Hj) as [<- <-]. by apply G6.
Qed.

(** A step of a handler, in the system. *)
Lemma handler_moves i l s p x h' n' :
  system_inv table s → alive s → procs s !! i = Some p → sessions (net s) !! i = Some x →
  hstep (shandler x) (skey x) (initial x) l p.1 = Some h' → hcrash h' = None →
  receive_for table i x (hintake l) (net s) = Some n' → crash n' = None → pc n' = pc (net s) →
  history n' = history (net s) → length (sessions n') = length (sessions (net s)) →
  (∀ j, j ≠ i → sessions n' !! j = sessions (net s) !! j) →
  let s' := mkSystem n' (<[i := (h', p.2)]> (procs s)) in
  mstep (Run i l) s = Some s' ∧ moved i s s' ∧ procs s' !! i = Some (h', p.2).
Proof.
  intros Hi Ha Hp Hx Hs Hh Hr Hc Hpc Hhi Hlen Hoth s'. pose proof (proj1 (alive_halted s) Ha) as Hnh.
  assert (mstep (Run i l) s = Some s') as Hst.
  { unfold mstep, the_system, system_machine, system_step. rewrite Hnh, Hp. cbn [mbind option_bind].
    rewrite Hx. cbn [mbind option_bind]. rewrite Hs. cbn [mbind option_bind]. by rewrite Hr. }
  split; [done|]. split; [|simpl; rewrite list_lookup_insert_eq; [done|by eapply lookup_lt_Some]].
  split; try done.
  - by eapply inv_system_step.
  - split; [done|]. simpl. destruct Ha as [_ Ha]. by apply Forall_insert.
  - intros j Hj. split; [by apply Hoth|]. simpl. by rewrite list_lookup_insert_ne.
Qed.

(** What a session keeps of its identity. *)
Definition same_identity (x x' : session (H := H)) : Prop :=
  skey x' = skey x ∧ shandler x' = shandler x ∧ initial x' = initial x ∧ closed x' = closed x.

(** A handler that can take its buffer, and then [rest], empties the buffer. *)
Lemma empties Q i h key m st bodies :
  takes Q h key m st bodies → ∀ s x p rest,
  system_inv table s → alive s → sessions (net s) !! i = Some x → procs s !! i = Some p →
  shandler x = h → skey x = key → initial x = m → p.1 = st → bodies = buffer x ++ rest →
  ∃ ls s' x' p', Forall serving ls ∧ mstar s ls s' ∧ moved i s s' ∧
    sessions (net s') !! i = Some x' ∧ procs s' !! i = Some p' ∧ same_identity x x' ∧ buffer x' = [] ∧
    takes Q h key m p'.1 rest ∧ (rest = [] → Q p'.1).
Proof.
  induction 1 as [st HQ|st l st' bodies Hs Hl Hc Ht IH|st l st' body bodies Hs Hl Hc Ht IH];
    intros s x p rest Hi Ha Hx Hp <- <- <- <- Hb.
  - symmetry in Hb. apply app_eq_nil in Hb as [Hb ->]. exists [], s, x, p. split_and!; auto using mstar_nil, moved_refl, takes_nothing. by split.
  - edestruct (handler_moves i l s p x st' (net s)) as (Hst&Hmv&Hp'); try done; [by rewrite Hl|by destruct Ha|].
    edestruct (IH _ x _ rest (mv_inv _ _ _ Hmv) (mv_alive _ _ _ Hmv) Hx Hp') as (ls&s'&x'&p'&Hls&Hr&Hmv'&Hrest); try done.
    exists (Run i l :: ls), s', x', p'. split; [by constructor|]. split; [by econstructor|]. split; [by eapply moved_trans|done].
  - destruct (buffer x) as [|b bs] eqn:Eb; simpl in Hb.
    + subst rest. exists [], s, x, p. split_and!; auto using mstar_nil, moved_refl; [by split|by eapply (takes_body _ _ _ _ _ l)|done].
    + injection Hb as <- ->.
      assert (receive_for table i x (Gets body) (net s) = Some (set_sessions (alter pull i) (net s))) as Hrc.
      { unfold receive_for. rewrite Eb. simpl. rewrite bool_decide_eq_true_2 by done. unfold bstep.
        destruct Ha as [-> _]. rewrite Hx. simpl. by rewrite Eb. }
      edestruct (handler_moves i l s p x st' (set_sessions (alter pull i) (net s))) as (Hst&Hmv&Hp'); try done; [by rewrite Hl|by destruct Ha|..].
      { simpl. by rewrite length_alter. }
      { intros j Hj. simpl. by rewrite list_lookup_alter_ne. }
      edestruct (IH _ (pull x) (st', p.2) rest (mv_inv _ _ _ Hmv) (mv_alive _ _ _ Hmv)) as (ls&s'&x'&p'&Hls&Hr&Hmv'&Hx'&Hp''&Hid&Hrest);
        [simpl; by rewrite list_lookup_alter_eq, Hx|exact Hp'|done..|simpl; by rewrite Eb|].
      exists (Run i l :: ls), s', x', p'. split; [by constructor|]. split; [by econstructor|]. split; [by eapply moved_trans|done].
Qed.

(** Every session's handler can take what waits for it, [extra] included. *)
Definition all_take (Q : S → Prop) (extra : nat → list string) s : Prop :=
  ∀ i x p, sessions (net s) !! i = Some x → procs s !! i = Some p →
    takes Q (shandler x) (skey x) (initial x) p.1 (buffer x ++ extra i).

Lemma no_extra i : @nil string = (λ _ : nat, []) i.
Proof. done. Qed.

(** A step of the loop that starts no session. *)
Lemma net_moves a s n' :
  system_inv table s → alive s → loop_action a = true → bstep table a (net s) = Some n' → crash n' = None →
  length (sessions n') = length (sessions (net s)) →
  mstep (Net a) s = Some (mkSystem n' (procs s)) ∧ system_inv table (mkSystem n' (procs s)) ∧ alive (mkSystem n' (procs s)).
Proof.
  intros Hi Ha Hl Hs Hc Hlen. pose proof (proj1 (alive_halted s) Ha) as Hnh.
  assert (spawn n' (procs s) = procs s) as Hsp.
  { unfold spawn. rewrite drop_ge; [by rewrite app_nil_r|]. rewrite (s_length _ _ Hi). lia. }
  assert (mstep (Net a) s = Some (mkSystem n' (procs s))) as Hst.
  { unfold mstep, the_system, system_machine, system_step. rewrite Hnh, Hl, Hs. simpl. by rewrite Hsp. }
  split; [done|]. split; [by eapply inv_system_step|]. destruct Ha as [_ Ha]. by split.
Qed.

Lemma session_of_proc s i x : system_inv table s → sessions (net s) !! i = Some x → ∃ p, procs s !! i = Some p.
Proof. intros Hi Hx. apply lookup_lt_is_Some_2. rewrite (s_length _ _ Hi). by eapply lookup_lt_Some. Qed.

(** One session's handler empties its buffer; nothing changes for the others. *)
Lemma session_empties Q extra i s x :
  system_inv table s → alive s → all_take Q extra s → sessions (net s) !! i = Some x →
  ∃ ls s' x' p', Forall serving ls ∧ mstar s ls s' ∧ moved i s s' ∧ all_take Q extra s' ∧
    sessions (net s') !! i = Some x' ∧ procs s' !! i = Some p' ∧ closed x' = closed x ∧ buffer x' = [] ∧
    (extra i = [] → Q p'.1).
Proof.
  intros Hi Ha Hall Hx. destruct (session_of_proc s i x Hi Hx) as [p Hp].
  edestruct (empties Q i _ _ _ _ _ (Hall i x p Hx Hp) s x p (extra i))
    as (ls&s'&x'&p'&Hls&Hr&Hmv&Hx'&Hp'&(E1&E2&E3&E4)&Hb&Ht&HQ); try done.
  exists ls, s', x', p'. split_and!; try done. intros j y q Hy Hq. destruct (decide (j = i)) as [->|Hne].
  - rewrite Hx' in Hy. rewrite Hp' in Hq. injection Hy as <-. injection Hq as <-. by rewrite E1, E2, E3, Hb.
  - destruct (mv_others _ _ _ Hmv j Hne) as [Ey Eq]. rewrite Ey in Hy. rewrite Eq in Hq. by apply Hall.
Qed.

(** The writer empties the channel of responses. *)
Lemma writes_all s :
  system_inv table s → alive s →
  ∃ ls s', Forall serving ls ∧ mstar s ls s' ∧ system_inv table s' ∧ alive s' ∧ procs s' = procs s ∧
    sessions (net s') = sessions (net s) ∧ history (net s') = history (net s) ∧ pc (net s') = pc (net s) ∧
    responses (net s') = [].
Proof.
  remember (responses (net s)) as rs eqn:Er. symmetry in Er. revert s Er.
  induction rs as [|r rs IH]; intros s Er Hi Ha.
  { exists [], s. split_and!; auto using mstar_nil. }
  edestruct (net_moves Write s) as (Hs&Hi1&Ha1);
    [done|done|done|unfold bstep; destruct Ha as [-> _]; by rewrite Er|simpl; by destruct Ha|done|].
  edestruct IH as (ls&s'&Hls&Hr&Hi'&Ha'&Hrest); [|exact Hi1|exact Ha1|]; [done|].
  exists (Net Write :: ls), s'. split; [by constructor|]. split; [by econstructor|done].
Qed.

(** The reading goroutine comes back to its read, with nothing on its way. *)
Definition resumes Q s : Prop :=
  ∃ ls s', Forall serving ls ∧ mstar s ls s' ∧ system_inv table s' ∧ alive s' ∧ all_take Q (λ _, []) s' ∧
    history (net s') = history (net s) ∧ (pc (net s') = Reading ∨ pc (net s') = Stopped ∧ pc (net s) = Stopped).

Lemma answers Q s m :
  system_inv table s → alive s → all_take Q (λ _, []) s → pc (net s) = Answering m → resumes Q s.
Proof.
  intros Hi Ha Hall Hpc. destruct (writes_all s Hi Ha) as (ls&s1&Hls&Hr&Hi1&Ha1&Ep&Es&Eh&Epc&Er).
  edestruct (net_moves Answer s1) as (Hs&Hi2&Ha2); [done|done|done
    |unfold bstep; destruct Ha1 as [-> _]; rewrite Epc, Hpc; unfold respond; simpl; rewrite Er; reflexivity
    |simpl; by destruct Ha1|done|].
  exists (ls ++ [Net Answer]). eexists. split; [apply Forall_app; split; [done|by repeat constructor]|].
  split; [eapply mstar_app; [exact Hr|by apply mstar_one]|]. split_and!; try done; [|by left].
  intros i x p. simpl. rewrite Es, Ep. apply Hall.
Qed.

Lemma delivers Q s i body :
  system_inv table s → alive s → all_take Q (pending (pc (net s))) s → pc (net s) = Delivering i body → resumes Q s.
Proof.
  intros Hi Ha Hall Hpc. pose proof (reachable_inv table _ (s_net _ _ Hi)) as Hb.
  destruct (inv_delivering table _ Hb i body Hpc) as (e&He&Ho).
  destruct (lookup_lt_is_Some_2 (sessions (net s)) i) as [x Hx].
  { rewrite (inv_length table _ Hb). by eapply lookup_lt_Some. }
  destruct (inv_session table _ Hb i x e Hx He) as (_&_&_&_&Hcl). rewrite Ho in Hcl.
  destruct (session_empties Q _ i s x Hi Ha Hall Hx) as (ls&s1&x1&p1&Hls&Hr&Hmv&Hall1&Hx1&Hp1&Hc1&Hb1&_).
  destruct Hmv as [Hi1 Ha1 Epc Eh El _]. rewrite <- Epc in Hall1. rewrite Hpc in Epc.
  edestruct (net_moves Deliver s1) as (Hs&Hi2&Ha2); [done|done|done
    |unfold bstep; destruct Ha1 as [-> _]; rewrite Epc, Hx1; simpl; rewrite Hc1, Hcl, Hb1; reflexivity
    |simpl; by destruct Ha1|simpl; by rewrite length_alter|].
  exists (ls ++ [Net Deliver]). eexists. split; [apply Forall_app; split; [done|by repeat constructor]|].
  split; [eapply mstar_app; [exact Hr|by apply mstar_one]|]. split_and!; try done; [|by left].
  intros j y q Hy Hq. simpl in Hy. rewrite app_nil_r. destruct (decide (i = j)) as [<-|Hne].
  - rewrite list_lookup_alter_eq, Hx1 in Hy. injection Hy as <-. simpl. specialize (Hall1 i x1 q Hx1 Hq).
    rewrite Epc in Hall1. simpl in Hall1. by rewrite decide_True in Hall1.
  - rewrite list_lookup_alter_ne in Hy by done. specialize (Hall1 j y q Hy Hq). rewrite Epc in Hall1. simpl in Hall1.
    rewrite decide_False, app_nil_r in Hall1 by congruence. done.
Qed.

Lemma reader_resumes Q s :
  system_inv table s → alive s → all_take Q (pending (pc (net s))) s → resumes Q s.
Proof.
  intros Hi Ha Hall. destruct (pc (net s)) as [|i body|m|] eqn:Hpc.
  - exists [], s. split_and!; auto using mstar_nil.
  - apply (delivers Q s i body); try done. by rewrite Hpc.
  - by apply (answers Q s m).
  - exists [], s. split_and!; auto using mstar_nil.
Qed.

(** The first [k] sessions have taken everything. *)
Lemma empty_sessions Q k s :
  system_inv table s → alive s → all_take Q (λ _, []) s → k ≤ length (sessions (net s)) →
  ∃ ls s', Forall serving ls ∧ mstar s ls s' ∧ system_inv table s' ∧ alive s' ∧ all_take Q (λ _, []) s' ∧
    pc (net s') = pc (net s) ∧ history (net s') = history (net s) ∧
    length (sessions (net s')) = length (sessions (net s)) ∧
    ∀ i x p, i < k → sessions (net s') !! i = Some x → procs s' !! i = Some p → buffer x = [] ∧ Q p.1.
Proof.
  intros Hi Ha Hall. induction k as [|k IH]; intros Hk.
  { exists [], s. split_and!; auto using mstar_nil. intros. lia. }
  destruct IH as (ls&s1&Hls&Hr&Hi1&Ha1&Hall1&Epc&Eh&El&Hdone); [lia|].
  destruct (lookup_lt_is_Some_2 (sessions (net s1)) k) as [x Hx]; [lia|].
  destruct (session_empties Q _ k s1 x Hi1 Ha1 Hall1 Hx) as (ls2&s2&x2&p2&Hls2&Hr2&[Hi2 Ha2 Epc2 Eh2 El2 Hoth]&Hall2&Hx2&Hp2&_&Hb2&HQ).
  exists (ls ++ ls2), s2. split; [by apply Forall_app|]. split; [by eapply mstar_app|].
  split_and!; try done; try congruence.
  intros i y q Hlt Hy Hq. destruct (decide (i = k)) as [->|Hne].
  - rewrite Hx2 in Hy. rewrite Hp2 in Hq. injection Hy as <-. injection Hq as <-. auto.
  - destruct (Hoth i Hne) as [E1 E2]. rewrite E1 in Hy. rewrite E2 in Hq. apply (Hdone i); [lia|done|done].
Qed.

(** The loop serves its sessions: every handler comes to have received all that
    was sent to it. *)
Lemma sessions_served Q s :
  reachable system_start s → halted s = false → all_take Q (pending (pc (net s))) s →
  ∃ ls s', Forall serving ls ∧ mstar s ls s' ∧ halted s' = false ∧ history (net s') = history (net s) ∧
    (pc (net s') = Reading ∨ pc (net s') = Stopped ∧ pc (net s) = Stopped) ∧
    ∀ i x p, sessions (net s') !! i = Some x → procs s' !! i = Some p →
      ∃ e, sessions_of table (history (net s)) !! i = Some e ∧ hreceived p.1 = einputs e ∧ Q p.1.
Proof.
  intros Hr Hh Hall. apply alive_halted in Hh. pose proof (reachable_system table s Hr) as Hi.
  destruct (reader_resumes Q s Hi Hh Hall) as (ls1&s1&Hls1&Hr1&Hi1&Ha1&Hall1&Eh1&Hpc1).
  destruct (empty_sessions Q _ s1 Hi1 Ha1 Hall1 (le_n _)) as (ls2&s2&Hls2&Hr2&Hi2&Ha2&_&Epc2&Eh2&El2&Hdone).
  exists (ls1 ++ ls2), s2. split; [by apply Forall_app|]. split; [by eapply mstar_app|].
  split; [by apply alive_halted|]. split; [congruence|]. rewrite Epc2. split; [done|]. intros i x p Hx Hp.
  destruct (Hdone i x p) as [Hb HQ]; [rewrite <- El2; by eapply lookup_lt_Some|done|done|].
  pose proof (reachable_inv table _ (s_net _ _ Hi2)) as Hbk.
  destruct (lookup_lt_is_Some_2 (sessions_of table (history (net s2))) i) as [e He].
  { rewrite <- (inv_length table _ Hbk). by eapply lookup_lt_Some. }
  exists e. split; [congruence|]. split; [|done].
  destruct (inv_session table _ Hbk i x e Hx He) as (_&_&_&Hin&_). rewrite Hb in Hin.
  rewrite (proc_received _ _ (s_proc _ _ Hi2 i x p Hx Hp)), <- Hin.
  rewrite Epc2. by destruct Hpc1 as [->|[-> _]]; rewrite !app_nil_r.
Qed.
End serving.

(** ** The agent's handlers *)

Section agent.
Context {K : Type} `{!JWT K} `{!URLParser} `{T : !Times} {AL : Alloc} (c : config K).
Context (request_bytes : HTTPMessage → option (gmap string (list string)) → bytes → result bytes).
#[local] Existing Instances agent_handlers agent_laws.
#[local] Instance served_machine :
    Machine (system (H := handler_kind) (S := handler_state)) (system_label (L := handler_label)) :=
  agent_machine c request_bytes.

Implicit Types s : system (H := handler_kind) (S := handler_state).

Definition decodable (msg : string) : Prop := ∃ d, DecodeString msg = Ok d.

(** The goroutine that receives is in its loop, with nothing left to pass on. *)
Definition served (h : handler_state) : Prop :=
  match h with
  | Socket st => SocketPump.inbound st = Receiving
  | Execing st => Exec.inphase st = InLoop ∧ in_pending st = None
  | _ => True
  end.

(** Handlers that can take the bodies: logs and statistics drop anything; a socket
    takes what decodes, a process anything, as long as the peer reads; so does a
    container proxy that copies to its connection or drains its channel.  Before
    that, or for a plain request, nothing may be waiting. *)
Definition open_to (h : handler_state) (bodies : list string) : Prop :=
  match h with
  | Piped _ _ => True
  | Socket st => SocketPump.inbound st = Receiving ∧ Forall decodable bodies
  | Execing st => Exec.inphase st = InLoop ∧ copier st = true
  | Proxying st =>
      match ProxyRelay.inbound st with
      | Copying | Draining => ProxyRelay.in_closed st = false ∨ bodies = []
      | _ => bodies = []
      end
  | _ => bodies = []
  end.

Definition attentive (k : handler_kind) (m : string) (h : handler_state) (bodies : list string) : Prop :=
  match h with
  | Preparing => bodies = [] ∨ (∃ e, prepare c k e m = Val true) ∧ open_to (goroutines k) bodies
  | _ => open_to h bodies
  end.

Local Abbreviation agent_takes := (takes (Handlers0 := agent_handlers c request_bytes) served).

Lemma pipe_takes k key m st dropped bodies : agent_takes k key m (Piped st dropped) bodies.
Proof.
  revert dropped. induction bodies as [|b bs IH]; intros dropped; [by apply takes_nothing|].
  apply (takes_body _ _ _ _ _ (HDrop b) (Piped st (dropped ++ [b]))); [done..|apply IH].
Qed.

Lemma socket_takes k key m st bodies :
  SocketPump.inbound st = Receiving → Forall decodable bodies → agent_takes k key m (Socket st) bodies.
Proof.
  intros Hin Hb. revert st Hin. induction Hb as [|b bs [d Hd] _ IH]; intros st Hin; [by apply takes_nothing|].
  apply (takes_body _ _ _ _ _ (HSocket (InMessage b None)) (Socket (inbound_message b None st))); [|done|done|].
  - simpl. by rewrite Hin.
  - apply IH. unfold inbound_message. by rewrite Hd.
Qed.

(** The copier passes on what the inbound goroutine is writing. *)
Lemma copier_takes k key m st d bodies :
  copier st = true → in_pending st = Some d →
  agent_takes k key m (Execing (set_in (Exec.inphase st) None (Exec.received st) (stdin st ++ d) st)) bodies →
  agent_takes k key m (Execing st) bodies.
Proof.
  intros Hc Hp Ht. eapply (takes_silent _ _ _ _ _ (HExec (EStdin (length d)))); [|done| |exact Ht]; [|done].
  change (Execing <$> exec_machine key (EStdin (length d)) st = Some (Execing (set_in (Exec.inphase st) None (Exec.received st) (stdin st ++ d) st))).
  unfold exec_machine. rewrite Hc, Hp, take_ge, drop_ge by lia. done.
Qed.

Lemma exec_takes_idle k key m st bodies :
  Exec.inphase st = InLoop → copier st = true → in_pending st = None → agent_takes k key m (Execing st) bodies.
Proof.
  revert st. induction bodies as [|b bs IH]; intros st Hi Hc Hp; [by apply takes_nothing|].
  destruct (DecodeString b) as [d|e] eqn:E.
  - apply (takes_body _ _ _ _ _ (HExec (EIn b)) (Execing (set_in InLoop (Some d) (Exec.received st ++ [b]) (stdin st) st)));
      [simpl; by rewrite Hi, Hp, E|done|done|]. eapply copier_takes; [done|reflexivity|]. by apply IH.
  - apply (takes_body _ _ _ _ _ (HExec (EIn b)) (Execing (set_in InLoop None (Exec.received st ++ [b]) (stdin st) st)));
      [simpl; by rewrite Hi, Hp, E|done|done|]. by apply IH.
Qed.

Lemma exec_takes k key m st bodies :
  Exec.inphase st = InLoop → copier st = true → agent_takes k key m (Execing st) bodies.
Proof.
  intros Hi Hc. destruct (in_pending st) as [d|] eqn:Hp; [|by apply exec_takes_idle].
  eapply copier_takes; [done|exact Hp|]. by apply exec_takes_idle.
Qed.

(** The state after a read of the container proxy's copy. *)
Definition copied (str : option input) (st : relay) : relay :=
  let '(h, (data, err)) := Read copy_buffer (reader_of st (chan_of str)) in
  copy_turn data err None (set_reader h (note str st)).

Lemma copy_step k key m str st :
  ProxyRelay.inbound st = Copying → can_receive str st = true →
  handler_step c request_bytes k key m (HProxy (RRead copy_buffer str None)) (Proxying st) = Some (Proxying (copied str st)).
Proof.
  intros Hi Hc. change (Proxying <$> relay_step request_bytes key (RRead copy_buffer str None) st = Some (Proxying (copied str st))).
  unfold relay_step. rewrite Hi, Hc, Nat.eqb_refl. unfold copied. simpl.
  by destruct (Read _ _) as [h [data err]].
Qed.

Lemma copied_open str st :
  ProxyRelay.inbound st = Copying → ProxyRelay.in_closed st = false → str ≠ Some None →
  (ProxyRelay.inbound (copied str st) = Copying ∨ ProxyRelay.inbound (copied str st) = Draining) ∧
  ProxyRelay.in_closed (copied str st) = false ∧ ProxyRelay.phase (copied str st) = ProxyRelay.phase st.
Proof.
  intros Hi Hc Hs. unfold copied. destruct (Read _ _) as [h [data err]]. unfold copy_turn.
  assert (ProxyRelay.in_closed st || bool_decide (str = Some None) = false) as Hcl by (by rewrite Hc, bool_decide_eq_false_2).
  destruct data, err; simpl; rewrite ?Hcl; auto.
Qed.

(** Without a receive the copy ends or the buffer shrinks. *)
Lemma copied_shrinks st :
  ProxyRelay.inbound (copied None st) = Copying → needs_message st = false →
  length (rbuf (copied None st)) < length (rbuf st).
Proof.
  intros Hi Hn. set (n := copy_buffer `min` length (rbuf st)).
  assert (copied None st = copy_turn (take n (rbuf st)) (if reof st then Some EOF else None) None
    (set_reader (mkReader (drop n (rbuf st)) [] (reof st)) (note None st))) as E.
  { unfold copied, Read. simpl. unfold needs_message in Hn. by rewrite Hn. }
  rewrite E in Hi |- *. unfold copy_turn in *. destruct (reof st) eqn:Er.
  { by destruct (take n (rbuf st)). }
  unfold needs_message in Hn. rewrite Er, andb_true_r in Hn. apply Nat.eqb_neq in Hn.
  assert (0 < n) by (unfold n; pose proof copy_buffer_pos; lia).
  destruct (take n (rbuf st)); simpl; rewrite length_drop; lia.
Qed.

Lemma drain_takes k key m st bodies :
  ProxyRelay.inbound st = Draining → ProxyRelay.in_closed st = false → handler_crash (Proxying st) = None →
  agent_takes k key m (Proxying st) bodies.
Proof.
  revert st. induction bodies as [|b bs IH]; intros st Hi Hc Hcr; [by apply takes_nothing|].
  apply (takes_body _ _ _ _ _ (HProxy (RDrain b)) (Proxying (note (Some (Some b)) st))); [|done|done|].
  - change (Proxying <$> relay_step request_bytes key (RDrain b) st = Some (Proxying (note (Some (Some b)) st))).
    unfold relay_step. by rewrite Hi, Hc.
  - apply IH; [done| |done]. simpl. by rewrite Hc.
Qed.

Lemma relay_takes k key m st bodies :
  ProxyRelay.inbound st = Copying ∨ ProxyRelay.inbound st = Draining → ProxyRelay.in_closed st = false →
  handler_crash (Proxying st) = None → agent_takes k key m (Proxying st) bodies.
Proof.
  revert st. induction bodies as [|b bs IH]; [intros st _ _ _; by apply takes_nothing|].
  intros st. remember (length (rbuf st)) as n eqn:Hn. revert st Hn.
  induction (lt_wf n) as [n _ IHn]. intros st -> [Hi|Hi] Hc Hcr; [|by apply drain_takes].
  assert (∀ str, str ≠ Some None → handler_crash (Proxying (copied str st)) = None) as Hcr'.
  { intros str Hs. destruct (copied_open str st Hi Hc Hs) as (_&_&Hp). simpl in *. by rewrite Hp. }
  destruct (needs_message st) eqn:Hm.
  - apply (takes_body _ _ _ _ _ (HProxy (RRead copy_buffer (Some (Some b)) None)) (Proxying (copied (Some (Some b)) st)));
      [apply copy_step; [done|simpl; by rewrite Hm, Hc]|done|by apply Hcr'|].
    destruct (copied_open (Some (Some b)) st Hi Hc) as (Ho&Hc'&_); [done|]. by apply IH; [..|apply Hcr'].
  - apply (takes_silent _ _ _ _ _ (HProxy (RRead copy_buffer None None)) (Proxying (copied None st)));
      [apply copy_step; [done|simpl; by rewrite Hm]|done|by apply Hcr'|].
    destruct (copied_open None st Hi Hc) as ([Ho|Ho]&Hc'&_); [done| |].
    + eapply IHn; [by apply copied_shrinks|reflexivity|by left|done|by apply Hcr'].
    + apply drain_takes; [done|done|by apply Hcr'].
Qed.

Lemma open_takes k key m h bodies : handler_crash h = None → open_to h bodies → agent_takes k key m h bodies.
Proof.
  intros Hc Ho. destruct h as [|sent|p|st dropped|p st dropped|st|st|st]; simpl in Ho; try (subst bodies; by apply takes_nothing).
  - apply pipe_takes.
  - destruct Ho. by apply socket_takes.
  - destruct Ho. by apply exec_takes.
  - destruct (ProxyRelay.inbound st) eqn:Hi; try (subst bodies; by apply takes_nothing);
      (destruct Ho as [Ho| ->]; [|by apply takes_nothing]); apply relay_takes; auto.
Qed.

Lemma attentive_takes k key m h bodies :
  handler_crash h = None → attentive k m h bodies → agent_takes k key m h bodies.
Proof.
  intros Hc Ha. destruct h as [|sent|p|st dropped|p st dropped|st|st|st]; try by apply open_takes.
  destruct Ha as [->|[[e He] Ho]]; [by apply takes_nothing|].
  apply (takes_silent _ _ _ _ _ (HSetup e) (goroutines k)); [simpl; by rewrite He|done| |apply open_takes; [|done]]; by destruct k.
Qed.

(** C13: what the proxy sends reaches the sockets and processes of the sessions: from
    any reachable state, as long as the handlers for which bodies are waiting are
    able to take them ([attentive]), the loop and the handlers can go on, without a message
    from the proxy and without a panic, until the loop is back at its read and
    every handler has received every body of its session: in order, decoded, and
    passed on to the last byte. *)
Theorem agent_serves s :
  reachable system_start s →
  halted (Handlers0 := agent_handlers c request_bytes) s = false →
  (∀ i x p, sessions (net s) !! i = Some x → procs s !! i = Some p →
     attentive (shandler x) (initial x) p.1 (buffer x ++ pending (pc (net s)) i)) →
  ∃ ls s', Forall serving ls ∧ mstar s ls s' ∧
    halted (Handlers0 := agent_handlers c request_bytes) s' = false ∧ history (net s') = history (net s) ∧
    (pc (net s') = Reading ∨ pc (net s') = Stopped ∧ pc (net s) = Stopped) ∧
    ∀ i x h n, sessions (net s') !! i = Some x → procs s' !! i = Some (h, n) →
      ∃ e, sessions_of handlers (history (net s)) !! i = Some e ∧ handler_received h = einputs e ∧
        match h with
        | Socket st => SocketPump.to_conn st = input_stream (einputs e)
        | Execing st => stdin st = input_of (einputs e)
        | _ => True
        end.
Proof.
  intros Hr Hh Hatt.
  destruct (sessions_served (Handlers0 := agent_handlers c request_bytes) handlers served s Hr Hh)
    as (ls&s'&Hls&Hrun&Hh'&Hhi&Hpc&Hall); [|].
  { intros i x p Hx Hp. apply attentive_takes; [|by apply Hatt]. apply alive_halted in Hh as [_ Ha].
    by apply (Forall_lookup_1 _ _ _ _ Ha Hp). }
  exists ls, s'. split_and!; try done. intros i x h n Hx Hp.
  destruct (Hall i x (h, n) Hx Hp) as (e&He&Hrc&HQ). exists e. split; [done|]. split; [done|].
  assert (reachable system_start s') as Hr' by (eapply reachable_trans; [exact Hr|by exists ls]).
  destruct (session_isolated handlers s' i x (h, n) Hr' Hx Hp) as (e'&_&Hk&Hkind&Hi&Hreach&_).
  unfold handler_machine in Hreach. rewrite Hk, Hkind, Hi in Hreach. apply reachable_state_ok in Hreach. clear Hi. simpl in *. destruct h as [| | | | |st|st|]; try done.
  - change (SocketPump.received st = einputs e) in Hrc.
    destruct Hreach as (_&_&Hst). pose proof (pump_in _ _ (pump_reachable_inv _ _ Hst)) as Hi.
    rewrite bool_decide_eq_true_2, Hrc in Hi by done. symmetry. by apply decoded_input_stream.
  - change (Exec.received st = einputs e) in Hrc.
    destruct Hreach as (_&_&Hst). destruct HQ as [Hi Hp']. pose proof (e_input _ _ (exec_reachable_inv _ _ Hst)) as Hin.
    rewrite Hp', Hi, bool_decide_eq_true_2, Hrc in Hin by done. simpl in Hin. by rewrite !app_nil_r in Hin.
Qed.
End agent.

(** ** Witness *)

Section demo.
#[local] Existing Instances handshake_jwt demo_url demo_times AgentSystem.demo_alloc agent_handlers agent_laws.
#[local] Instance demo_served_machine :
    Machine (system (H := handler_kind) (S := handler_state)) (system_label (L := handler_label)) :=
  agent_machine (Auth.demo_config "1") ProxyRelay.demo_request.

(** A body waits for an exec session that is not set up yet, another is on its
    way to a docker socket. *)
Definition demo_waiting : system (H := handler_kind) (S := handler_state) :=
  demo_at [
    Net (Receive (Some "a||0||/v1/dockersocket/?plain")); Net (Receive (Some "b||0||/v1/exec/?exec"));
    Run 0 (HSetup demo_around); Net (Receive (Some "b||1||aGk=")); Net Deliver; Net (Receive (Some "a||1||aGk="))].

Lemma agent_serves_witness :
  pc (net demo_waiting) = Delivering 0 "aGk=" ∧
  ∃ ls s', Forall serving ls ∧ mstar demo_waiting ls s' ∧
    halted (Handlers0 := agent_handlers (Auth.demo_config "1") ProxyRelay.demo_request) s' = false ∧
    history (net s') = history (net demo_waiting) ∧
    (pc (net s') = Reading ∨ pc (net s') = Stopped ∧ pc (net demo_waiting) = Stopped) ∧
    ∀ i x h n, sessions (net s') !! i = Some x → procs s' !! i = Some (h, n) →
      ∃ e, sessions_of handlers (history (net demo_waiting)) !! i = Some e ∧ handler_received h = einputs e ∧
        match h with
        | Socket st => SocketPump.to_conn st = input_stream (einputs e)
        | Execing st => stdin st = input_of (einputs e)
        | _ => True
        end.
Proof.
  split; [vm_compute; reflexivity|].
  apply (agent_serves (Auth.demo_config "1") ProxyRelay.demo_request demo_waiting).
  - apply demo_reaches. eexists. vm_compute. reflexivity.
  - vm_compute. reflexivity.
  - intros [|[|i]] x p Hx Hp; vm_compute in Hx, Hp; [| |discriminate Hx]; injection Hx as <-; injection Hp as <-.
    + split; [reflexivity|]. vm_compute. constructor; [by eexists|constructor].
    + right. split; [exists demo_around; vm_compute; reflexivity|]. split; reflexivity.
Defined.
End demo.
