(* ===== verification/Session.v ===== *)
(** * A session from end to end: url, routing and token

    The server sends an agent a session as a url: the path names the handler,
    the [token] parameter carries the claims.  With the library's own [url.Parse],
    JSON codec and jwt-go's parser in the place of the interfaces the
    components are stated over, a url that carries a token signed for this
    host starts the handler of its path, with the claims that were signed. *)

From Stdlib Require Import ZArith Ascii.
From S2P Require Import Prelude GoStd Base64 Url Json Values Jwt JsonValue.
From S2P Require Import Config Auth Handshake Wire Backend Main.

(** ** The parser of urls *)

(** [url.Parse], and what [URL.Path] and [URL.Query().Get] read of it. *)
#[local] Instance go_url : URLParser := λ m,
  u ← Url.Parse m; Ok (Handshake.mkURL (Url.Path u) (Get (ParseQuery (RawQuery u)) "token")).

Definition path_escape (path : string) : string := escape path encodePath.

(** The url of a session. *)
Definition session_url (path token : string) : string :=
  path_escape path +:+ "?token=" +:+ QueryEscape token.

Lemma go_url_session path token :
  rooted path → url_Parse (session_url path token) = Ok (Handshake.mkURL path token).
Proof.
  intros Hp. unfold url_Parse, go_url, session_url, path_escape.
  change ("?token=" +:+ QueryEscape token) with (String "?" (QueryEscape "token" +:+ String "=" (QueryEscape token))).
  rewrite Parse_path_query; [|done|].
  - cbn [mbind result_bind Url.Path RawQuery]. by rewrite ParseQuery_single.
  - rewrite has_char_app. cbn [has_char]. unfold QueryEscape. by rewrite !escape_absent.
Qed.

(** ** A signed token needs no escaping *)

Lemma all_unreserved_app s t : all_unreserved (s +:+ t) = all_unreserved s && all_unreserved t.
Proof.
  induction s as [|c s IH]; [done|]. rewrite cons_app_str. simpl. by rewrite IH, andb_assoc.
Qed.

Lemma url_enc_unreserved x : unreserved (url_char (enc_sextet x)) = true.
Proof. by destruct x as [[] [] [] [] [] []]. Qed.

Lemma EncodeSegment_unreserved seg : all_unreserved (EncodeSegment seg) = true.
Proof.
  unfold EncodeSegment, URL_EncodeToString.
  induction seg as [|x|x y|x y z seg IH] using bytes_ind3; [done|..]; cbn [EncodeToString];
    destruct (quantum _ _ _) as [[[p q] r] t]; cbn [smap];
    rewrite !(TrimRight_other _ _ _ (proj1 (url_enc_plain _))); cbn [all_unreserved];
    by rewrite !url_enc_unreserved.
Qed.

Section signed.
Context {R P : Type} {crypto : Crypto R P} {json : Jwt.Json}.

Lemma SignedString_unreserved t (k : option (key P)) ts : SignedString t k = Val (Ok ts) → all_unreserved ts = true.
Proof.
  intros (m&hb&cb&sg&_&_&_&_&->)%SignedString_Ok.
  repeat (rewrite all_unreserved_app || (progress cbn [Join all_unreserved])).
  by rewrite !EncodeSegment_unreserved.
Qed.

(** The url is the path, [?token=] and the token as it is. *)
Lemma session_url_signed path t (k : option (key P)) ts :
  SignedString t k = Val (Ok ts) → session_url path ts = path_escape path +:+ "?token=" +:+ ts.
Proof.
  intros Hs%SignedString_unreserved. unfold session_url, QueryEscape. by rewrite (escape_unreserved ts).
Qed.
End signed.

(** ** Sessions *)

Section session.
Context {R P : Type} {crypto : Crypto R P} {clock : Clock} `{!Floats} (text : error → string).
#[local] Existing Instances jwt_go.
#[local] Instance codec : Jwt.Json := go_json text.
Implicit Types c : config (key R).

Lemma header_plain m : plain_value (VMap (Jwt.Header (New m))).
Proof.
  constructor. apply map_Forall_insert_2; [|apply map_Forall_singleton]; (split; [auto with hostapi|]);
    constructor; [auto with hostapi|]. apply is_ascii_utf8. by destruct m as [[]|[]].
Qed.

(** C1: a message that connects to a url whose path falls under a handler's key
    and whose token is signed for this host - with the private half of the
    configured key, in time, its claims plain JSON values - starts that
    handler, and the handler is let in with exactly the claims that were
    signed: routing, url, base64, JSON and signature agree on what they write
    and read. *)
Theorem signed_session_starts c pub priv h claims ts path k kind session :
  ParsedPublicKey c = Some (RSAKey pub) →
  (∀ d sig, SignPKCS1v15 priv h d = Ok sig → VerifyPKCS1v15 pub h d sig = None) →
  plain_value (VMap claims) → get claims "hostUuid" = VString (HostUuid c) →
  expired claims = false → not_before claims = false →
  SignedString (set_Claims (New (RS h)) claims) (Some (RSAKey priv)) = Val (Ok ts) →
  rooted path → (k, kind) ∈ handlers → under path k = true →
  Backend.started handlers (mkMessage session Connect (path_escape path +:+ "?token=" +:+ ts)) = Some kind ∧
  ∃ tok, Claims tok = claims ∧
    request_token c (path_escape path +:+ "?token=" +:+ ts) = Val (inr tok) ∧
    authorised c (path_escape path +:+ "?token=" +:+ ts) tok.
Proof.
  intros Hk Hsig Hplain Hhost He Hn Hs Hp Hin Hu.
  assert (path_escape path +:+ "?token=" +:+ ts = session_url path ts) as Hm
    by (symmetry; by eapply session_url_signed). rewrite Hm.
  pose proof (go_url_session path ts Hp) as Hurl. split.
  - unfold Backend.started. simpl. rewrite Hurl. apply getHandler_spec; [reflexivity| |by exists k].
    apply (bool_decide_unpack _). by vm_compute.
  - set (tok := Jwt.mkToken ts (Some (RS h)) (Jwt.Header (New (RS h))) claims "" true). exists tok.
    assert (authorised c (session_url path ts) tok) as Ha; [|split_and!; [done|by apply request_token_authorised|done]].
    exists (Handshake.mkURL path ts). split; [done|]. split; [|done]. simpl. rewrite Hk.
    apply (SignedString_Parse pub priv h (set_Claims (New (RS h)) claims)); try done.
    + apply plain_survives, header_plain.
    + by apply plain_survives.
Qed.
End session.

(** ** A concrete session *)

Section demo.
#[local] Existing Instances jwt_go toy_crypto toy_clock.
#[local] Instance plain_floats : Floats := { out_of_range _ := false; FormatFloat l := l }.
#[local] Hint Extern 0 Jwt.Json => exact (codec (λ _, "error")) : typeclass_instances.

Definition logs_claims_of (container : string) : gmap string value :=
  <["logs" := VMap {[ "Container" := VString container; "Lines" := VFloat64 "20" ]}]> toy_claims.

(** The token the server makes for the logs of [c1]. *)
Definition logs_token : string :=
  match SignedString (set_Claims (New (RS SHA256)) (logs_claims_of "c1")) (Some (RSAKey tt)) with
  | Val (Ok ts) => ts
  | _ => ""
  end.

Example logs_token_ex :
  str_take 36 logs_token = "eyJhbGciOiJSUzI1NiIsInR5cCI6IkpXVCJ9" ∧
  DecodeSegment (nth 1 (Split "."%char logs_token) "") =
    Ok (bytes_of ("{" +:+ q +:+ "exp" +:+ q +:+ ":200," +:+ q +:+ "hostUuid" +:+ q +:+ ":" +:+ q +:+ "1" +:+ q +:+ "," +:+
      q +:+ "logs" +:+ q +:+ ":{" +:+ q +:+ "Container" +:+ q +:+ ":" +:+ q +:+ "c1" +:+ q +:+ "," +:+ q +:+ "Lines" +:+ q +:+ ":20}}")).
Proof. vm_compute. done. Qed.

Lemma logs_claims_plain : plain_value (VMap (logs_claims_of "c1")).
Proof.
  assert (∀ s, is_ascii s = true → plain_value (VString s)) as Hs by (intros s Hs; constructor; by apply is_ascii_utf8).
  assert (∀ l, number l = Some (l, "") → plain_value (VFloat64 l)) as Hf by (intros l Hl; by constructor).
  unfold logs_claims_of, toy_claims. repeat apply plain_insert; try apply plain_empty; auto.
Qed.

Lemma signed_session_starts_witness :
  Backend.started handlers (mkMessage "s1" Connect (path_escape "/v1/logs/" +:+ "?token=" +:+ logs_token))
    = Some LogsHandler ∧
  ∃ tok, Claims tok = logs_claims_of "c1" ∧ 
    request_token toy_config (path_escape "/v1/logs/" +:+ "?token=" +:+ logs_token) = Val (inr tok) ∧
    authorised toy_config (path_escape "/v1/logs/" +:+ "?token=" +:+ logs_token) tok.
Proof.
  apply (signed_session_starts (λ _, "error") toy_config tt tt SHA256 (logs_claims_of "c1") logs_token
    "/v1/logs/" "/v1/logs/" LogsHandler "s1").
  - reflexivity.
  - intros d sig [= <-]. cbn. by rewrite bool_decide_true.
  - apply logs_claims_plain.
  - reflexivity.
  - reflexivity.
  - reflexivity.
  - vm_compute. reflexivity.
  - split; vm_compute; reflexivity.
  - left.
  - vm_compute. reflexivity.
Defined.
End demo.
