(* ===== verification/TestUtils.v ===== *)
(** * Test helpers: [testutils/utils.go]

    The key pair with which the tests sign and check tokens: the private key is
    read and parsed by jwt-go, the public one by [proxy.ParsePublicKey] of
    websocket-proxy.  [log.Fatal] ends the process: the error is the model's
    result.  [test_token_accepted] is what the tests rely on: a token signed
    with the one is accepted by a parser that holds the other. *)

From Stdlib Require Import Ascii.
From S2P Require Import Prelude GoStd Values Jwt.

Section testutils.
Context {R P : Type} {crypto : Crypto R P} {json : Json} {clock : Clock}.
Context (ReadFile : string → result bytes).

Definition ParseTestPrivateKey : result P :=
  keyBytes ← ReadFile "../testutils/private.pem";
  ParseRSAPrivateKeyFromPEM keyBytes.

(** websocket-proxy's [ParsePublicKey]: no block is an error there. *)
Definition publicKeyDecode (keyBytes : bytes) : result (key R) :=
  match pem_Decode keyBytes with
  | None => Err (OtherError "Invalid key content")
  | Some block => ParsePKIXPublicKey block
  end.

Definition ParsePublicKey (keyFile : string) : result (key R) :=
  keyBytes ← ReadFile keyFile; publicKeyDecode keyBytes.

(** The fields of [proxy.Config] that are set. *)
Record test_config := mkTestConfig { ListenAddr : string; PublicKey : key R }.

Definition GetTestConfig (addr : string) : result test_config :=
  pubKey ← ParsePublicKey "../testutils/public.pem";
  Ok (mkTestConfig addr pubKey).

Lemma test_token_accepted addr priv pub claims ts :
  ParseTestPrivateKey = Ok priv → GetTestConfig addr = Ok (mkTestConfig addr (RSAKey pub)) →
  (∀ d sig, SignPKCS1v15 priv SHA256 d = Ok sig → VerifyPKCS1v15 pub SHA256 d sig = None) →
  survives_json (Header (New (RS SHA256))) → survives_json claims →
  expired claims = false → not_before claims = false →
  SignedString (set_Claims (New (RS SHA256)) claims) (Some (RSAKey priv)) = Val (Ok ts) →
  ∃ conf tok, GetTestConfig addr = Ok conf ∧
    Parse ts (Some (λ _, Ok (Some (PublicKey conf)))) = (Some tok, None) ∧ Claims tok = claims.
Proof.
  intros _ Hc Hsig Hh Hcl He Hn Hs. eexists _, _. split; [exact Hc|].
  split; [by apply (SignedString_Parse pub priv SHA256 (set_Claims (New (RS SHA256)) claims))|done].
Qed.
End testutils.
